(* ===== verification/_CoqProject ===== *)
-Q . S2P
Prelude.v
Text.v
CMonad.v
Status.v
Sys.v
ReallocPtr.v
Framing.v
Lookup.v
Ei.v
Instance.v
Requests.v
Poll.v
Calls.v
Messages.v
Callback.v
KeyValue.v
Serve.v
Exchange.v
Start.v
Services.v
Program.v
Invariant.v
ExitStatus.v
Marshal.v
Port.v
Stream.v
Posix.v
Owner.v
Rlimit.v
Spawn.v
Restrict.v
ChildSetup.v
Process.v
Table.v
MainLoop.v
SpawnCall.v
CopyPtr.v
Api.v
Overloads.v
Messaging.v
Sequences.v
Objects.v
Python.v
PythonLock.v
ThreadPool.v
PoolInvariant.v
PoolTasks.v
