(* ===== verification/Prelude.v ===== *)
(** * CloudI: the C/C++ API and the process spawner

    CloudI runs services in other languages as operating system processes
    that speak to an Erlang VM.  This library verifies the programs in C++ the
    repository has for that:

    - the C API (src/src/api/c): the functions a service calls.  An instance
      has a socket to the VM, one buffer to send from and one to receive in,
      and the callback functions it subscribed with;
    - the process spawner (src/src/lib/cloudi_core/cxx_src): an Erlang port
      which forks the services, passes on what they write, and takes them out
      when they end;
    - the Python extension (src/src/api/python/cloudi_py.cpp), by which a
      service in Python uses the API;
    - the pool of threads (src/src/tests/hexpi/cxx/thread_pool.hpp) of the
      services in C++ that have several threads;
    - services that use the C API (src/src/tests: count/c, null/c, http_req/c
      and msg_size/cxx), each of them a whole program, and messaging/cxx, the
      program of src/src/tests with the most callback functions.

    The Erlang functions at the other end of a protocol are translated where
    a property is about both ends; they serve as the specification.

    ** Conventions

    A C or C++ function is a function of the statement monad of CMonad.v: it
    completes, returns, throws, runs into undefined behaviour, waits for ever
    or exhausts the fuel of a loop.  Assertions are part of the program (the
    build does not define NDEBUG, and assert.cpp throws).  Integers are of
    type [Z] with the wrap-around of their C type written at the operation;
    the machine is a little-endian one with an [int] of 32 bits and a [size_t]
    of 64.  Memory is a list of cells that may be indeterminate; a pointer
    into a buffer is an index, with the generation of its allocation where the
    code keeps pointers across a realloc.  The environment is a script (Sys.v:
    the answers of read, write, poll, the clock and the allocator) or an
    oracle of the calls so far (Posix.v); a theorem about every script is one
    about every fragmentation of a stream, every failure and every timing.
    Threads that share memory are a transition system: a state says which
    statement each of them runs next, a label who runs it, and a theorem about
    every reachable state is one about every interleaving (ThreadPool.v).

    ** Files

    - Prelude: bytes, C memory, list and integer lemmas.
    - Text: numbers as text: atoi, and what %d prints.
    - CMonad: statements; [yields] (an invariant), [hoare] (postconditions).
    - Status: errno values and status codes of cloudi.h, cloudi.hpp.
    - Sys: the socket, the clock and the allocator.
    - ReallocPtr: realloc_ptr.hpp.
    - Framing: data_ready, read_exact, read_all, write_exact of cloudi.cpp.
    - Lookup: class callback_function_lookup of cloudi.cpp.
    - Ei: the interface of erl_interface, a parameter with its laws.
    - Instance: struct cloudi_instance_t of cloudi.h.
    - Requests: cloudi_subscribe, _unsubscribe, _forward, _return, _shutdown,
      polling, keepalive.
    - Poll: callback, store_incoming_*, handle_events, poll_request.
    - Calls: cloudi_initialize, _destroy, _send_*, _mcast_async, _recv_async,
      _subscribe_count, _poll.
    - Messages: the messages of cloudi_core_i_services_external.erl.
    - Callback: what [callback] does for a request.
    - KeyValue: text_key_value_parse and cloudi_request_info.erl.
    - Serve: the specification of a service with any number of callback
      functions, the interface by which they implement it ([Implements]), and
      that [cloudi_poll] then does.
    - Exchange: the operations of a client as requests and the answers to them,
      and rules for the programs that make them ([says]).
    - Start: an instance from its environment to the first poll.
    - Services: the services of src/src/tests, and what each implements.
    - Program: such a service from [main] to its end.
    - Invariant: the invariant of an instance, for any property of its
      subscriptions that calls in turns keep.
    - Api: the member functions of class API (cloudi.cpp, C++ part).
    - Overloads: those of cloudi.hpp that take a std::string.
    - Messaging: class Input of messaging/cxx, and that a thread of it answers
      as specified.
    - Sequences: the callback functions of it that send requests themselves.
    - Objects: the objects of class API that share an instance, and the
      callback objects of cloudi.hpp, which have objects of their own.
    - ThreadPool: thread_pool.hpp; PoolInvariant: what holds between any two
      steps of its threads; PoolTasks: what becomes of the tasks.
    - Python: the methods and callbacks of cloudi_py.cpp; PythonLock: the lock
      of the interpreter and the references to its objects.
    - ExitStatus: the statuses of port.hpp and cloudi_os_spawn.cpp.
    - Marshal: the preprocessor's bindings of port.cpp, and of
      cloudi_os_spawn_hrl.h on the Erlang side.
    - Port: read_cmd, write_cmd, consume_erlang of port.cpp.
    - Stream: consume_stream, flush_stream of port.cpp.
    - Posix: the state of the spawner and its system calls, as a trace.
    - Owner: cloudi_os_owner.cpp.
    - Rlimit: cloudi_os_rlimit.cpp, limit_format of
      cloudi_core_i_os_process.erl.
    - Spawn: spawn of cloudi_os_spawn.cpp, child and parent.
    - Restrict: what a child did before it ran its program.
    - ChildSetup: command line, environment and addresses of a child, and the
      Erlang side of cloudi_core_i_spawn.erl.
    - Process: class process_data and main of cloudi_os_spawn.cpp; init and
      wait of port.cpp; the function table of cloudi_os_spawn_api.h.
    - CopyPtr: copy_ptr.hpp, and std::vector of it.
    - Table: the poll set and the vector of processes implement a list.
    - MainLoop: the main loop keeps that table and ends.
    - SpawnCall: the call Erlang makes for a process, from its frame to the
      program that runs and the reply.

    An instance calls Framing for its socket, ReallocPtr for its buffers and
    Lookup for its callbacks; poll_request calls [callback], which calls the
    user's function (a parameter: any function that may call the API, with a
    state of its own in [w_user]), and that returns by the exceptions of
    Requests.  For Python that state is the interpreter, and the function is
    [callback_operator], around any Python function.  The spawner's main loop
    (Process) calls Port for a command, which calls [spawn] (Spawn, with Owner
    and Rlimit) through the table; and Stream for the output of processes.
    A service gives Poll its callback function through [Implements], and
    knows Requests only by the answers it makes of them; a client knows Calls
    only by [says].
    A port function is a record of its argument types, its result type and its
    body, so Port's theorems are about any table of functions.

    ** What is shown

    - The wire: a frame written is read back, for every fragmentation;
      read_exact and write_exact move exactly what they say, and write_exact
      reports the errno of the write that failed (Framing).  What
      the VM encodes, poll_request stores and dispatches, message by message
      (Messages); what the API encodes is what the operation was given
      (Requests).  A call of a port reaches its function with the terms that
      were encoded (Port).
    - Buffers: reserve and move of realloc_ptr against their specification,
      which says to which size an array grows, and which sizes are refused.
    - Subscriptions: the map of queues implements a sequence of callbacks per
      pattern, and find is fair (Lookup).
    - Requests: each ends with exactly one response or forward, and a return
      or forward never comes back to the callback on success (Callback,
      Requests).
    - Services: a service is specified by an answer and a next state for each
      callback function, state and request; when the functions implement that,
      the requests on the stream are answered on the stream as specified, one
      message each and in order, by the functions of their pattern in turn,
      all of them or those before the timeout of the poll (Serve).  With the start of the instance and its subscriptions (Start)
      this is the whole program (Program, Messaging), and with the
      encoder of the Erlang side a text of keys and values is understood as
      it was meant (Services).
    - Clients: each operation writes exactly its request, and leaves exactly its
      answer in the instance, so that a program of such operations is the
      conversation it has with the VM (Exchange).  The three sequences of
      messaging/cxx, answered as its other functions answer, get to their ends,
      and the second only if the right 24 responses come (Sequences).
    - Invariant: whatever the environment does, an operation leaves a
      well-formed instance and its loops end (Invariant).  The same of the
      whole spawner, with the table of its processes (Table, MainLoop).
    - Ownership: the count of an instance is that of its API objects, when
      it is destroyed, and that a callback's function object is its own
      (Objects); a process is deleted when its copy_ptr is
      erased, and only once (CopyPtr).
    - The interpreter: a method of the Python extension that is called with
      the lock returns with it, whatever ran meanwhile, and the lock is never
      taken twice or given up twice: that would be recorded in the state of the
      interpreter ([misused]), also where an execution is stuck (PythonLock).
    - Output: what a process writes is passed on up to its last newline, through
      a buffer that grows by doubling while reads fill it (Stream).
    - Threads: no step of a thread pool that is used properly is undefined, every
      task is processed once and in order, no wakeup is lost, and a thread needs
      only itself to get through its queue (PoolTasks).
    - Privileges: a program runs only after all restrictions asked for
      succeeded, in the order that makes them effective (Restrict); the parser
      of resource limits is the reference on what Erlang encodes (Rlimit).  From
      one end to the other: what Erlang asks for is what runs, confined as it
      asked, or no program runs, and the port replies the process, which is in
      its table, or the status of the call that failed (SpawnCall).  fork returns twice; the child and the port are the runs of
      two operating systems that differ in that answer.
    - Failures: where the code does not do what it is for, the theorem says
      what it does: an overflow of a buffer (cloudi_shutdown, sun_path), a
      status that is lost (keepalive), output that is lost or repeated
      (Stream), arguments that are lost (ChildSetup), a socket that is never
      closed (Objects), a result that is freed before it is sent and a reference
      that is counted without the lock (PythonLock), a thread that [exit] waits
      for after it has ended (PoolTasks), queries that make a service read what
      was never written (Services).

    ** Fuel

    Loops without a structural measure take a number of rounds.  Those over a
    socket get one more than the answers its script has, and a theorem shows
    that no operation runs out (the invariant excludes [NoFuel]); parsers get
    the length of their input; growing by doubling gets the 64 bits of the
    size.  [main] takes any number above the answers of poll, the loop over
    the processes one more than there are.

    ** Not modelled

    - Objects: functions of the program that make or delete objects of the
      heap while they are called.
    - Backtrace output, exit handlers, the timer (its readings are in the
      script).
    - The module object and the types of the Python extension, how an instance
      is deallocated, and the branches for Python before 3.3.  What parses the
      arguments, checks UTF-8 and calls a function are parameters.
    - The memory model of the threads: a bool that is read without its mutex
      has one value at a time.  A pool that grows after [exit].
    - Arguments of type float and double and the results that free a pointer
      (port.cpp): no function of the table uses them.
    - The disposition of SIGPIPE, fflush, perror's messages, and destructors
      run at exit.  An exception that leaves [main], or a destructor, ends the
      process, and is the end of the model's execution.
    - The erl_interface library is a parameter (Ei); POSIX is the environment.
    - What the services of the tests print; class Output and [main] of
      messaging/cxx, whose threads are those of ThreadPool; the other tests and
      examples, most of them the same programs in other languages.
    - The clients in other languages, the Erlang core and services, vendored
      libraries. *)

From stdpp Require Export base gmap list strings fin_maps.
From coqutil Require Export Byte Word.LittleEndianList.
From coqutil Require Import Z.bitblast.
From Stdlib Require Import Strings.Byte.
From Stdlib Require Export ZArith Lia.

#[global] Open Scope Z_scope.
#[global] Open Scope list_scope.

(** ** Bytes

    A byte is the 256-element type of the standard library; [byte.unsigned]
    and [byte.of_Z] convert to and from its value as an [unsigned char],
    [byte_signed] is its value as an [int8_t]. *)

Abbreviation byte := Init.Byte.byte.
Abbreviation bytes := (list Init.Byte.byte).
Abbreviation NUL := Init.Byte.x00.

#[export] Instance byte_eq_dec : EqDecision byte := Strings.Byte.byte_eq_dec.

#[export] Instance byte_countable : Countable byte.
Proof.
  refine (inj_countable Strings.Byte.to_N Strings.Byte.of_N _).
  apply Strings.Byte.of_to_N.
Defined.

Definition byte_signed (b : byte) : Z := (byte.unsigned b + 2 ^ 7) mod 2 ^ 8 - 2 ^ 7.

Lemma byte_signed_of_Z z : - 2 ^ 7 <= z < 2 ^ 7 -> byte_signed (byte.of_Z z) = z.
Proof.
  intros Hz. unfold byte_signed. rewrite byte.unsigned_of_Z. unfold byte.wrap.
  rewrite Zplus_mod_idemp_l, Z.mod_small by lia. lia.
Qed.

(** A C string literal as the bytes before its terminating NUL. *)
Definition chars (s : string) : bytes := String.list_byte_of_string s.

Lemma of_Z_ext x y : x mod 2 ^ 8 = y mod 2 ^ 8 -> byte.of_Z x = byte.of_Z y.
Proof.
  intros H. apply byte.unsigned_inj. by rewrite !byte.unsigned_of_Z.
Qed.

(** ** Machine integers

    Unsigned arithmetic wraps at its width; [int32] reads the low 32 bits as
    a two's complement [int]. *)

Definition wrap32 (z : Z) : Z := z mod 2 ^ 32.
Definition wrap64 (z : Z) : Z := z mod 2 ^ 64.
Definition int32 (z : Z) : Z := (z + 2 ^ 31) mod 2 ^ 32 - 2 ^ 31.
Definition INT_MAX : Z := 2 ^ 31 - 1.

Lemma wrap32_small z : 0 <= z < 2 ^ 32 -> wrap32 z = z.
Proof. apply Z.mod_small. Qed.

Lemma wrap64_small z : 0 <= z < 2 ^ 64 -> wrap64 z = z.
Proof. apply Z.mod_small. Qed.

Lemma wrap32_range z : 0 <= wrap32 z < 2 ^ 32.
Proof. apply Z.mod_pos_bound. lia. Qed.

(** Remove the wrap-arounds of numbers in range, innermost first. *)
Ltac unwrap :=
  repeat match goal with
  | |- context [wrap32 ?x] =>
      lazymatch x with
      | context [wrap32] => fail
      | _ => rewrite (wrap32_small x) by lia
      end
  end.

(** The native (little-endian) layout of a [uint32_t]. *)
Definition u32 (n : Z) : bytes := le_split 4 n.

Lemma length_u32 n : length (u32 n) = 4%nat.
Proof. apply length_le_split. Qed.

Lemma le_combine_u32 n : 0 <= n < 2 ^ 32 -> le_combine (u32 n) = n.
Proof.
  intros Hn. unfold u32. rewrite le_combine_split. by apply Z.mod_small.
Qed.

Lemma le_combine_range4 bs :
  length bs = 4%nat -> 0 <= le_combine bs < 2 ^ 32.
Proof.
  intros Hl. pose proof (le_combine_bound bs) as H. rewrite Hl in H. lia.
Qed.

(** ** Memory

    A memory cell is a byte, or [None] while its contents are indeterminate
    (fresh [malloc]/[realloc] memory).  An allocation is the list of its
    cells.  [load] reads initialised cells only; [store] is only called in
    range. *)

Section memory.
Context {T : Type}.
Implicit Types (m : list (option T)) (off n : nat) (bs : list T).

Definition load m off n : option (list T) :=
  let s := take n (drop off m) in
  if decide (length s = n) then mapM id s else None.

Definition store m off bs : list (option T) :=
  take off m ++ (Some <$> bs) ++ drop (off + length bs) m.

(** [m] holds the initialised values [bs] from [off] on. *)
Definition holds m off bs : Prop :=
  take (length bs) (drop off m) = Some <$> bs.

Lemma mapM_Some bs : mapM id (Some <$> bs) = Some bs.
Proof.
  induction bs as [|b bs IH]; [done|]. by cbn in *; rewrite IH.
Qed.

Lemma mapM_id_Some m bs : mapM id m = Some bs -> m = Some <$> bs.
Proof.
  revert bs. induction m as [|c m IH]; intros bs H; cbn in H.
  - by injection H as <-.
  - destruct c as [c|]; [|done]. cbn in H.
    destruct (mapM id m) as [bs'|]; [|done]. cbn in H.
    injection H as <-. cbn. f_equal. by apply IH.
Qed.

Lemma load_holds m off bs : holds m off bs -> load m off (length bs) = Some bs.
Proof.
  unfold holds, load. intros ->. rewrite mapM_Some.
  case_decide as Hl; [done|]. by rewrite length_fmap in Hl.
Qed.

Lemma load_Some m off n bs :
  load m off n = Some bs -> holds m off bs /\ length bs = n.
Proof.
  unfold load, holds. case_decide as Hl; [|done]. intros H%mapM_id_Some.
  assert (length bs = n) as <-.
  { by rewrite <- Hl, H, length_fmap. }
  done.
Qed.

Lemma length_store m off bs :
  (off + length bs <= length m)%nat -> length (store m off bs) = length m.
Proof.
  intros H. unfold store.
  rewrite !length_app, length_take, length_fmap, length_drop. lia.
Qed.

Lemma holds_app m off bs1 bs2 :
  holds m off (bs1 ++ bs2) <->
  holds m off bs1 /\ holds m (off + length bs1) bs2.
Proof.
  unfold holds. rewrite length_app, fmap_app.
  rewrite <- (take_take_drop (drop off m)), drop_drop.
  split; [|by intros [-> ->]].
  intros H. apply app_inj_1 in H; [done|].
  rewrite length_fmap. apply (f_equal length) in H.
  rewrite !length_app, !length_take, !length_drop, !length_fmap in H.
  rewrite length_take, length_drop. lia.
Qed.

Lemma holds_length m off bs :
  holds m off bs -> bs <> [] -> (off + length bs <= length m)%nat.
Proof.
  unfold holds. intros H Hne. apply (f_equal length) in H.
  rewrite length_take, length_drop, length_fmap in H.
  assert (0 < length bs)%nat by (destruct bs; [done|cbn; lia]). lia.
Qed.

Lemma holds_nil m off : holds m off [].
Proof. done. Qed.

Lemma holds_store_eq m off bs :
  (off <= length m)%nat -> holds (store m off bs) off bs.
Proof.
  intros H. unfold holds, store.
  rewrite drop_app_length' by (rewrite length_take; lia).
  by rewrite take_app_length' by (by rewrite length_fmap).
Qed.

Lemma holds_store_below m off bs o bs' :
  (off + length bs <= length m)%nat ->
  (o + length bs' <= off)%nat -> holds m o bs' -> holds (store m off bs) o bs'.
Proof.
  unfold holds, store. intros H1 H2 H3.
  rewrite <- H3, !take_drop_commute. f_equal.
  rewrite take_app_le by (rewrite length_take; lia).
  rewrite take_take. f_equal. lia.
Qed.

Lemma holds_store_above m off bs o bs' :
  (off + length bs <= length m)%nat ->
  (off + length bs <= o)%nat -> holds m o bs' -> holds (store m off bs) o bs'.
Proof.
  unfold holds, store. intros H1 H2 H3.
  rewrite <- H3. f_equal. rewrite (app_assoc (take off m)).
  rewrite drop_app, drop_ge; cycle 1.
  { rewrite length_app, length_take, length_fmap. lia. }
  rewrite drop_drop, length_app, length_take, length_fmap. cbn. f_equal. lia.
Qed.

Lemma store_nil m off : store m off [] = m.
Proof. unfold store. cbn. rewrite Nat.add_0_r. apply take_drop. Qed.

Lemma drop_store m off bs :
  (off + length bs <= length m)%nat ->
  drop (off + length bs) (store m off bs) = drop (off + length bs) m.
Proof.
  intros H. unfold store. rewrite app_assoc, drop_app_length'; [done|].
  rewrite length_app, length_take, length_fmap. lia.
Qed.

Lemma store_store m off bs1 bs2 :
  (off + length bs1 <= length m)%nat ->
  store (store m off bs1) (off + length bs1) bs2 = store m off (bs1 ++ bs2).
Proof.
  intros H. unfold store. rewrite length_app, fmap_app.
  rewrite (app_assoc (take off m)), take_app_length' by
    (rewrite length_app, length_take, length_fmap; lia).
  rewrite <- !app_assoc. do 3 f_equal.
  rewrite (app_assoc (take off m)), drop_app, drop_ge by
    (rewrite length_app, length_take, length_fmap; lia).
  rewrite drop_drop, length_app, length_take, length_fmap. cbn. f_equal. lia.
Qed.

(** A longer allocation with the same prefix holds the same values. *)
Lemma holds_extend m m' off bs : holds m off bs -> holds (m ++ m') off bs.
Proof.
  destruct (decide (bs = [])) as [->|Hne]; [intros; apply holds_nil|].
  intros H. pose proof (holds_length _ _ _ H Hne). unfold holds in *.
  rewrite drop_app_le by lia. by rewrite take_app_le by (rewrite length_drop; lia).
Qed.
End memory.

#[global] Arguments load : simpl never.
#[global] Arguments store : simpl never.
#[global] Arguments holds : simpl never.

Create HintDb cloudi.
#[export] Hint Resolve holds_nil holds_extend : cloudi.

(** The results of a list, one after the other. *)
Lemma mapM_cons_Some {A B} (f : A -> option B) x l y ys :
  f x = Some y -> mapM f l = Some ys -> mapM f (x :: l) = Some (y :: ys).
Proof. intros Hx Hl. cbn. rewrite Hx. cbn. by rewrite Hl. Qed.
