(* ===== verification/Text.v ===== *)
(** * Numbers as text

    What the code uses of the C library to read and print numbers: [atoi],
    and [%d] of the printf family. *)

From S2P Require Import Prelude.

(** [atoi]: spaces, a sign, digits.  Its value has to be an [int]. *)
Definition is_space (c : byte) : bool :=
  let n := byte.unsigned c in (n =? 32) || ((9 <=? n) && (n <=? 13)).
Definition digit (c : byte) : option Z :=
  let n := byte.unsigned c in
  if (48 <=? n) && (n <=? 57) then Some (n - 48) else None.
Fixpoint atoi_digits (acc : Z) (s : bytes) : Z :=
  match s with
  | c :: s => match digit c with Some d => atoi_digits (10 * acc + d) s | None => acc end
  | [] => acc
  end.
Fixpoint atoi (s : bytes) : Z :=
  match s with
  | c :: s' =>
      if is_space c then atoi s'
      else if decide (c = byte.of_Z 45) then - atoi_digits 0 s'
      else if decide (c = byte.of_Z 43) then atoi_digits 0 s'
      else atoi_digits 0 s
  | [] => 0
  end.

(** The text of an [int], as [%d] prints it: 10 digits at most. *)
Fixpoint digits (fuel : nat) (n : Z) (text : bytes) : bytes :=
  match fuel with
  | O => text
  | S fuel =>
      let text := byte.of_Z (48 + n mod 10) :: text in
      if n <? 10 then text else digits fuel (n / 10) text
  end.

Definition decimal (n : Z) : bytes :=
  if n <? 0 then chars "-" ++ digits 10 (- n) [] else digits 10 n [].

(** ** Lemmas *)

Lemma unsigned_digit n : byte.unsigned (byte.of_Z (48 + n mod 10)) = 48 + n mod 10.
Proof.
  rewrite byte.unsigned_of_Z. unfold byte.wrap. pose proof (Z.mod_pos_bound n 10).
  apply Z.mod_small. lia.
Qed.

Lemma digit_ok n : digit (byte.of_Z (48 + n mod 10)) = Some (n mod 10).
Proof.
  unfold digit. rewrite unsigned_digit. pose proof (Z.mod_pos_bound n 10).
  destruct (Z.leb_spec 48 (48 + n mod 10)), (Z.leb_spec (48 + n mod 10) 57); try lia.
  cbn. f_equal. lia.
Qed.

Lemma digits_no_null fuel n text : 0 <= n -> NUL ∉ text -> NUL ∉ digits fuel n text.
Proof.
  revert n text. induction fuel as [|fuel IH]; intros n text Hn Ht; [done|]. cbn [digits].
  assert (NUL ∉ byte.of_Z (48 + n mod 10) :: text) as H.
  { apply not_elem_of_cons. split; [|done]. intros Hb.
    apply (f_equal byte.unsigned) in Hb. rewrite unsigned_digit in Hb.
    pose proof (Z.mod_pos_bound n 10). change (byte.unsigned NUL) with 0 in Hb. lia. }
  case_match; [done|]. apply IH; [|done]. apply Z.div_pos; lia.
Qed.

Lemma length_digits fuel n text : (length (digits fuel n text) <= fuel + length text)%nat.
Proof.
  revert n text. induction fuel as [|fuel IH]; intros n text; cbn [digits]; [lia|].
  case_match; [cbn; lia|]. specialize (IH (n / 10) (byte.of_Z (48 + n mod 10) :: text)).
  cbn in IH |- *. lia.
Qed.

Lemma decimal_no_null n : NUL ∉ decimal n.
Proof.
  unfold decimal. destruct (Z.ltb_spec n 0).
  - apply not_elem_of_app. split; [by apply not_elem_of_cons; split; [|apply not_elem_of_nil]|].
    apply digits_no_null; [lia|apply not_elem_of_nil].
  - apply digits_no_null; [lia|apply not_elem_of_nil].
Qed.

Lemma length_decimal n : (length (decimal n) <= 11)%nat.
Proof.
  unfold decimal. case_match; [rewrite length_app|].
  - pose proof (length_digits 10 (- n) []). cbn in *. lia.
  - pose proof (length_digits 10 n []). cbn in *. lia.
Qed.

(** The digits of a number are read as the number. *)
Lemma atoi_digits_ok fuel n acc text :
  0 <= n < 10 ^ Z.of_nat fuel ->
  exists k, 0 <= k <= Z.of_nat fuel /\ n < 10 ^ k /\
    atoi_digits acc (digits fuel n text) = atoi_digits (acc * 10 ^ k + n) text.
Proof.
  revert n acc text. induction fuel as [|fuel IH]; intros n acc text Hn.
  { exists 0. cbn in *. split; [lia|]. split; [lia|]. f_equal. lia. }
  cbn [digits]. destruct (Z.ltb_spec n 10) as [Hlt|Hge].
  - exists 1. split; [lia|]. split; [lia|]. cbn [atoi_digits]. rewrite digit_ok.
    rewrite Z.mod_small by lia. f_equal. lia.
  - assert (10 ^ Z.of_nat (S fuel) = 10 * 10 ^ Z.of_nat fuel) as Hpow.
    { rewrite Nat2Z.inj_succ, Z.pow_succ_r by lia. done. }
    destruct (IH (n / 10) acc (byte.of_Z (48 + n mod 10) :: text)) as (k & Hk & Hb & He).
    { split; [apply Z.div_pos; lia|]. apply Z.div_lt_upper_bound; lia. }
    exists (k + 1). split; [lia|]. rewrite Z.pow_add_r by lia. change (10 ^ 1) with 10.
    pose proof (Z.div_mod n 10 ltac:(lia)) as Hd. pose proof (Z.mod_pos_bound n 10 ltac:(lia)).
    split; [lia|]. rewrite He. cbn [atoi_digits]. rewrite digit_ok. f_equal. lia.
Qed.

(** The first of them is no sign and no space. *)
Lemma digits_head fuel n text :
  (0 < fuel)%nat -> exists c rest, digits fuel n text = c :: rest /\
    exists m, c = byte.of_Z (48 + m mod 10).
Proof.
  revert n text. induction fuel as [|fuel IH]; intros n text Hf; [lia|]. cbn [digits].
  case_match; [by eexists _, _; split; [|eexists]|].
  destruct fuel as [|fuel]; [by eexists _, _; split; [|eexists]|]. apply IH. lia.
Qed.

Lemma atoi_digit_cons m rest :
  atoi (byte.of_Z (48 + m mod 10) :: rest) = atoi_digits 0 (byte.of_Z (48 + m mod 10) :: rest).
Proof.
  cbn [atoi]. pose proof (Z.mod_pos_bound m 10) as Hm. unfold is_space. rewrite unsigned_digit.
  rewrite (proj2 (Z.eqb_neq _ 32)) by lia.
  rewrite (proj2 (Z.leb_gt (48 + m mod 10) 13)) by lia. rewrite andb_false_r. cbn [orb].
  rewrite !decide_False; [done|..]; intros Hc; apply (f_equal byte.unsigned) in Hc;
    rewrite unsigned_digit in Hc; [change (byte.unsigned (byte.of_Z 43)) with 43 in Hc
    |change (byte.unsigned (byte.of_Z 45)) with 45 in Hc]; lia.
Qed.

(** What [%d] prints, [atoi] reads. *)
Lemma atoi_decimal n : - 2 ^ 31 <= n < 2 ^ 31 -> atoi (decimal n) = n.
Proof.
  intros Hn. unfold decimal. destruct (Z.ltb_spec n 0).
  - change (chars "-" ++ digits 10 (- n) []) with (byte.of_Z 45 :: digits 10 (- n) []).
    cbn [atoi]. change (is_space (byte.of_Z 45)) with false. cbv iota.
    rewrite decide_True by done.
    destruct (atoi_digits_ok 10 (- n) 0 []) as (k & _ & _ & ->); [change (Z.of_nat 10) with 10; lia|].
    cbn [atoi_digits]. lia.
  - destruct (digits_head 10 n []) as (c & rest & He & m & ->); [lia|].
    destruct (atoi_digits_ok 10 n 0 []) as (k & _ & _ & Hd); [change (Z.of_nat 10) with 10; lia|].
    rewrite He in Hd |- *. rewrite atoi_digit_cons, Hd. cbn [atoi_digits]. lia.
Qed.
