(* ===== verification/CMonad.v ===== *)
(** * The statement monad

    C and C++ statements as state-passing functions.  A statement of a
    function that returns an [R], run in a state [S], completes with a value
    ([Next]), executes [return] ([Return]), throws ([Throw]), runs into
    undefined behaviour ([Undef]: an access outside an allocation or of
    indeterminate memory, an [int] overflow), waits for a system call that
    the environment never answers ([Blocked]), or exhausts the fuel of a loop
    ([NoFuel]; theorems show which loops never do). *)

From S2P Require Import Prelude.

(** What the code throws: the exceptions of class [CloudI::API], the
    exception of a failed [assert] (assert.cpp), any other [std::exception],
    any other [boost::exception], anything else. *)
Inductive exception : Type :=
| assert_exception
| return_async_exception
| return_sync_exception
| forward_async_exception
| forward_sync_exception
| invalid_input_exception (status : Z)
| std_exception
| boost_exception
| unknown_exception.

#[export] Instance exception_eq_dec : EqDecision exception.
Proof. solve_decision. Defined.

Inductive outcome (R A : Type) : Type :=
| Next (a : A)
| Return (r : R)
| Throw (e : exception)
| Undef
| Blocked
| NoFuel.
#[global] Arguments Next {R A} a.
#[global] Arguments Return {R A} r.
#[global] Arguments Throw {R A} e.
#[global] Arguments Undef {R A}.
#[global] Arguments Blocked {R A}.
#[global] Arguments NoFuel {R A}.

Definition C (S R A : Type) : Type := S -> outcome R A * S.

Section statements.
Context {S R : Type}.

Definition cret {A} (a : A) : C S R A := fun s => (Next a, s).

Definition cbind {A B} (c : C S R A) (k : A -> C S R B) : C S R B := fun s =>
  match c s with
  | (Next a, s') => k a s'
  | (Return r, s') => (Return r, s')
  | (Throw e, s') => (Throw e, s')
  | (Undef, s') => (Undef, s')
  | (Blocked, s') => (Blocked, s')
  | (NoFuel, s') => (NoFuel, s')
  end.

(** [return r;] *)
Definition creturn {A} (r : R) : C S R A := fun s => (Return r, s).
(** [throw e;] *)
Definition cthrow {A} (e : exception) : C S R A := fun s => (Throw e, s).
Definition cundef {A} : C S R A := fun s => (Undef, s).
Definition cblocked {A} : C S R A := fun s => (Blocked, s).
Definition cnofuel {A} : C S R A := fun s => (NoFuel, s).

Definition cget : C S R S := fun s => (Next s, s).
Definition creads {A} (f : S -> A) : C S R A := fun s => (Next (f s), s).
Definition cmodify (f : S -> S) : C S R unit := fun s => (Next tt, f s).

(** A partial operation, undefined where it has no value. *)
Definition copt {A} (o : option A) : C S R A :=
  match o with Some a => cret a | None => cundef end.

(** [assert(b);] (assert.hpp: a failed assertion throws). *)
Definition cassert (b : bool) : C S R unit :=
  if b then cret tt else cthrow assert_exception.

(** [if (b) return r;] *)
Definition creturn_if (b : bool) (r : R) : C S R unit :=
  if b then creturn r else cret tt.

(** [if (b) c] *)
Definition cwhen (b : bool) (c : C S R unit) : C S R unit :=
  if b then c else cret tt.
End statements.

(** A call: the callee's [return] ends the callee only. *)
Definition call {S R R'} (f : C S R' R') : C S R R' := fun s =>
  match f s with
  | (Next r, s') => (Next r, s')
  | (Return r, s') => (Next r, s')
  | (Throw e, s') => (Throw e, s')
  | (Undef, s') => (Undef, s')
  | (Blocked, s') => (Blocked, s')
  | (NoFuel, s') => (NoFuel, s')
  end.

(** [try { c } catch ...]: [h e] is the handler that takes [e], if one does. *)
Definition ctry {S R A} (c : C S R A) (h : exception -> option (C S R A)) :
  C S R A := fun s =>
  match c s with
  | (Throw e, s') =>
      match h e with Some k => k s' | None => (Throw e, s') end
  | r => r
  end.

Declare Scope c_scope.
Delimit Scope c_scope with c.
Notation "'let*' x ':=' c 'in' k" := (cbind c (fun x => k))
  (at level 10, x pattern, c at level 99, k at level 200,
   format "'[v' 'let*'  x  ':='  c  'in' '/' k ']'") : c_scope.
Notation "c ';;;' k" := (cbind c (fun _ => k))
  (at level 100, right associativity,
   format "'[v' c  ';;;' '/' k ']'") : c_scope.
#[global] Open Scope c_scope.

(** ** Running statements *)

Section run.
Context {S R : Type}.

Lemma bind_next {A B} (c : C S R A) (k : A -> C S R B) s a s' :
  c s = (Next a, s') -> cbind c k s = k a s'.
Proof. unfold cbind. by intros ->. Qed.

Lemma bind_return {A B} (c : C S R A) (k : A -> C S R B) s r s' :
  c s = (Return r, s') -> cbind c k s = (Return r, s').
Proof. unfold cbind. by intros ->. Qed.

Lemma bind_throw {A B} (c : C S R A) (k : A -> C S R B) s e s' :
  c s = (Throw e, s') -> cbind c k s = (Throw e, s').
Proof. unfold cbind. by intros ->. Qed.

Lemma bind_undef {A B} (c : C S R A) (k : A -> C S R B) s s' :
  c s = (Undef, s') -> cbind c k s = (Undef, s').
Proof. unfold cbind. by intros ->. Qed.

Lemma bind_assoc {A B D} (c : C S R A) (k : A -> C S R B) (l : B -> C S R D) s :
  cbind (cbind c k) l s = cbind c (fun a => cbind (k a) l) s.
Proof. unfold cbind. by destruct (c s) as [[] ?]. Qed.

Lemma call_return {R'} (f : C S R' R') s r s' :
  f s = (Return r, s') -> call (R := R) f s = (Next r, s').
Proof. unfold call. by intros ->. Qed.

Lemma call_next {R'} (f : C S R' R') s r s' :
  f s = (Next r, s') -> call (R := R) f s = (Next r, s').
Proof. unfold call. by intros ->. Qed.

Lemma call_throw {R'} (f : C S R' R') s e s' :
  f s = (Throw e, s') -> call (R := R) f s = (Throw e, s').
Proof. unfold call. by intros ->. Qed.
End run.

(** Run the first statement of the goal's left side: by computation, or by a
    given equation for it. *)
Ltac crun1 :=
  lazymatch goal with
  | |- cbind (cbind _ _) _ _ = _ => rewrite bind_assoc
  | |- cbind (cret _) _ _ = _ => erewrite bind_next by reflexivity
  | |- cbind cget _ _ = _ => erewrite bind_next by reflexivity
  | |- cbind (creads _) _ _ = _ => erewrite bind_next by reflexivity
  | |- cbind (cmodify _) _ _ = _ => erewrite bind_next by reflexivity
  | |- cbind (creturn _) _ _ = _ => erewrite bind_return by reflexivity
  | |- cbind (cthrow _) _ _ = _ => erewrite bind_throw by reflexivity
  end; cbv beta iota.
Ltac crun := repeat crun1.
Ltac cnext H := erewrite bind_next by (apply H); cbv beta iota.

(** ** Invariants

    [yields I φ ρ c]: from a state with the invariant [I], however [c] ends,
    [I] holds again; what it yields is [φ], what it returns is [ρ], and it
    does not run out of fuel. *)

Section yields.
Context {S : Type} (I : S -> Prop).

Definition yields {R A} (φ : A -> Prop) (ρ : R -> Prop) (c : C S R A) : Prop :=
  forall s, I s -> I (snd (c s)) /\
    match fst (c s) with
    | Next a => φ a
    | Return r => ρ r
    | NoFuel => False
    | _ => True
    end.

Context {R : Type} (ρ : R -> Prop).

Lemma yields_weaken {A} (φ ψ : A -> Prop) (c : C S R A) :
  yields φ ρ c -> (forall a, φ a -> ψ a) -> yields ψ ρ c.
Proof.
  intros H Hw s Hs. destruct (H s Hs) as [H1 H2]. split; [done|].
  destruct (fst (c s)); auto.
Qed.

Lemma yields_ret {A} (φ : A -> Prop) a : φ a -> yields φ ρ (cret a).
Proof. by intros ? s Hs. Qed.

Lemma yields_bind {A B} φ (ψ : B -> Prop) (c : C S R A) k :
  yields φ ρ c -> (forall a, φ a -> yields ψ ρ (k a)) -> yields ψ ρ (cbind c k).
Proof.
  intros Hc Hk s Hs. destruct (Hc s Hs) as [H1 H2]. unfold cbind.
  destruct (c s) as [[a|r|e| | |] s']; cbn in *; try done. by apply Hk.
Qed.

Lemma yields_return {A} (φ : A -> Prop) r : ρ r -> yields φ ρ (creturn r).
Proof. by intros ? s Hs. Qed.
Lemma yields_throw {A} (φ : A -> Prop) e : yields φ ρ (cthrow e).
Proof. by intros s Hs. Qed.
Lemma yields_undef {A} (φ : A -> Prop) : yields φ ρ cundef.
Proof. by intros s Hs. Qed.
Lemma yields_blocked {A} (φ : A -> Prop) : yields φ ρ cblocked.
Proof. by intros s Hs. Qed.

Lemma yields_get (φ : S -> Prop) : (forall s, I s -> φ s) -> yields φ ρ cget.
Proof. intros H s Hs. split; [done|by apply H]. Qed.

Lemma yields_reads {A} (φ : A -> Prop) f :
  (forall s, I s -> φ (f s)) -> yields φ ρ (creads f).
Proof. intros H s Hs. split; [done|by apply H]. Qed.

Lemma yields_modify (φ : unit -> Prop) f :
  (forall s, I s -> I (f s)) -> φ tt -> yields φ ρ (cmodify f).
Proof. intros H Hp s Hs. split; [by apply H|done]. Qed.

Lemma yields_opt {A} (φ : A -> Prop) o :
  (forall a, o = Some a -> φ a) -> yields φ ρ (copt o).
Proof. intros H. destruct o; [|apply yields_undef]. by apply yields_ret, H. Qed.

Lemma yields_assert (φ : unit -> Prop) b :
  (b = true -> φ tt) -> yields φ ρ (cassert b).
Proof. intros H. destruct b; [apply yields_ret, H; done|apply yields_throw]. Qed.

Lemma yields_return_if (φ : unit -> Prop) b r :
  ρ r -> φ tt -> yields φ ρ (creturn_if b r).
Proof. intros. destruct b; [by apply yields_return|by apply yields_ret]. Qed.

Lemma yields_when (φ : unit -> Prop) b c :
  yields φ ρ c -> φ tt -> yields φ ρ (cwhen b c).
Proof. intros. destruct b; [done|by apply yields_ret]. Qed.

Lemma yields_call {R'} (φ : R' -> Prop) (c : C S R' R') :
  yields φ φ c -> yields φ ρ (call c).
Proof.
  intros H s Hs. destruct (H s Hs) as [H1 H2]. unfold call.
  by destruct (c s) as [[] s'].
Qed.

Lemma yields_try {A} (φ : A -> Prop) c h :
  yields φ ρ c -> (forall e k, h e = Some k -> yields φ ρ k) -> yields φ ρ (ctry c h).
Proof.
  intros Hc Hh s Hs. destruct (Hc s Hs) as [H1 H2]. unfold ctry.
  destruct (c s) as [[a|r|e| | |] s'] eqn:E; cbn in *; rewrite ?E; try done.
  destruct (h e) as [k|] eqn:Ek; cbn in *; rewrite ?E; [|done].
  by apply (Hh e k).
Qed.
End yields.

(** From a given state, under a stronger invariant. *)
Lemma yields_at {S R A} (I : S -> Prop) (φ : A -> Prop) (ρ : R -> Prop) c :
  (forall s, I s -> exists (J : S -> Prop) c', c' s = c s /\ J s /\
     (forall s', J s' -> I s') /\ yields J φ ρ c') -> yields I φ ρ c.
Proof.
  intros H s Hs. destruct (H s Hs) as (J & c' & <- & HJ & HI & Hc).
  destruct (Hc s HJ) as [H1 H2]. split; [by apply HI|done].
Qed.

(** With postconditions of their own for what is yielded and returned; [X]
    holds after a throw, undefined behaviour or a wait for ever. *)
Section hoare.
Context {S R : Type} (X : S -> Prop) (ρ : R -> S -> Prop).

Definition hoare {A} (P : S -> Prop) (Q : A -> S -> Prop) (c : C S R A) : Prop :=
  forall s, P s ->
    match c s with
    | (Next a, s') => Q a s'
    | (Return r, s') => ρ r s'
    | (NoFuel, _) => False
    | (_, s') => X s'
    end.

Lemma hoare_yields {A} I (φ : A -> Prop) (π : R -> Prop) Q (c : C S R A) :
  yields I φ π c -> (forall a s, φ a -> I s -> Q a s) -> (forall s, I s -> X s) ->
  (forall r s, I s -> ρ r s) -> hoare I Q c.
Proof.
  intros H HQ HX Hρ s Hs. destruct (H s Hs) as [H1 H2].
  destruct (c s) as [[] s']; cbn in *; auto.
Qed.

Lemma hoare_pre {A} (P P' : S -> Prop) (Q : A -> S -> Prop) c :
  hoare P Q c -> (forall s, P' s -> P s) -> hoare P' Q c.
Proof. intros H HP s Hs. by apply H, HP. Qed.

Lemma hoare_bind {A B} P (Q : A -> S -> Prop) (Q' : B -> S -> Prop) c k :
  hoare P Q c -> (forall a, hoare (Q a) Q' (k a)) -> hoare P Q' (cbind c k).
Proof.
  intros H Hk s Hs. specialize (H s Hs). unfold cbind.
  destruct (c s) as [[a|r|e| | |] s']; try done. by apply Hk.
Qed.
End hoare.

Lemma hoare_weaken {S R A} (X Y : S -> Prop) (ρ π : R -> S -> Prop) P
    (Q Q' : A -> S -> Prop) c :
  hoare X ρ P Q c -> (forall s, X s -> Y s) -> (forall r s, ρ r s -> π r s) ->
  (forall a s, Q a s -> Q' a s) -> hoare Y π P Q' c.
Proof.
  intros H HX Hρ HQ s Hs. specialize (H s Hs). destruct (c s) as [[] s']; auto.
Qed.

(** The invariant again, when every outcome has it. *)
Lemma yields_hoare {S R A} (I : S -> Prop) (φ : A -> Prop) (ρ : R -> Prop) c :
  hoare I (fun r s => I s /\ ρ r) I (fun a s => I s /\ φ a) c -> yields I φ ρ c.
Proof.
  intros H s Hs. specialize (H s Hs). by destruct (c s) as [[] s'].
Qed.

(** [any]: nothing is said of a value. *)
Definition any {A} : A -> Prop := fun _ => True.

Lemma yields_opt_any {S R A} (I : S -> Prop) (ρ : R -> Prop) (o : option A) :
  yields I any ρ (copt o).
Proof. by apply yields_opt. Qed.

Create HintDb yields.
#[export] Hint Resolve yields_ret yields_return yields_throw yields_undef
  yields_blocked yields_assert yields_return_if yields_when yields_call
  yields_opt_any : yields.
#[export] Hint Extern 0 (any _) => exact Logic.I : yields cloudi.

(** One statement after the other; a value with its property [φ] from a lemma
    of the database is introduced into the context. *)
Ltac yields_step :=
  lazymatch goal with
  | |- forall _, _ => intro
  | |- yields _ _ _ (cbind (if ?b then _ else _) _) => destruct b eqn:?
  | |- yields _ _ _ (cbind (match ?o with _ => _ end) _) => destruct o eqn:?
  | |- yields _ _ _ (cbind (cassert _) _) => apply (yields_bind _ _ any); intros
  | |- yields _ _ _ (cbind (creturn_if _ _) _) => apply (yields_bind _ _ any); intros
  | |- yields _ _ _ (cbind (cwhen _ _) _) => apply (yields_bind _ _ any); intros
  | |- yields _ _ _ (cbind (creturn _) _) => apply (yields_bind _ _ any); intros
  | |- yields _ _ _ (cbind (cthrow _) _) => apply (yields_bind _ _ any); intros
  | |- yields _ _ _ (cbind _ _) =>
      first [ eapply yields_bind; [solve [eauto with yields]|]
            | apply (yields_bind _ _ any) ]; cbv beta; intros
  | |- yields _ _ _ (if ?b then _ else _) => destruct b eqn:?
  | |- yields _ _ _ (match ?o with _ => _ end) => destruct o eqn:?
  | |- yields _ _ _ (let _ := _ in _) => cbv zeta
  | |- yields _ _ _ _ => solve [eauto with yields] || (progress cbv beta)
  end.
Ltac yields := repeat yields_step.
