(* ===== verification/Status.v ===== *)
(** * Status codes

    The [errno] values the code distinguishes, the status codes of cloudi.h
    (an [int] each) with their C++ twins of cloudi.hpp, and the translation
    of a failed system call's [errno] (cloudi.cpp). *)

From S2P Require Import Prelude.

(** Every [errno] the C/C++ sources name, and all others. *)
Inductive errno : Type :=
| EAGAIN | EBADF | EFAULT | EINTR | EINVAL | EIO | EISDIR | EFBIG | ENOSPC
| EPIPE | ENOMEM | EMFILE | ENFILE | EBUSY | EACCES | EAFNOSUPPORT | ENOBUFS
| EPROTONOSUPPORT | EPERM | EADDRINUSE | EALREADY | ECONNREFUSED | EINPROGRESS
| EISCONN | ENETUNREACH | ENOTSOCK | ETIMEDOUT | E2BIG | ELIBBAD | ELOOP
| ENAMETOOLONG | ENOENT | ENOEXEC | ENOTDIR | ETXTBSY | ECHILD
| errno_other.

#[export] Instance errno_eq_dec : EqDecision errno.
Proof. solve_decision. Defined.

(** The anonymous enum of cloudi.h. *)
Inductive cloudi_status : Type :=
| cloudi_success
| cloudi_terminate
| cloudi_timeout
| cloudi_error_function_parameter
| cloudi_error_read_underflow
| cloudi_error_ei_decode
| cloudi_invalid_input
| cloudi_out_of_memory
| cloudi_error_read_EAGAIN
| cloudi_error_read_EBADF
| cloudi_error_read_EFAULT
| cloudi_error_read_EINTR
| cloudi_error_read_EINVAL
| cloudi_error_read_EIO
| cloudi_error_read_EISDIR
| cloudi_error_read_null
| cloudi_error_read_overflow
| cloudi_error_read_unknown
| cloudi_error_write_EAGAIN
| cloudi_error_write_EBADF
| cloudi_error_write_EFAULT
| cloudi_error_write_EFBIG
| cloudi_error_write_EINTR
| cloudi_error_write_EINVAL
| cloudi_error_write_EIO
| cloudi_error_write_ENOSPC
| cloudi_error_write_EPIPE
| cloudi_error_write_null
| cloudi_error_write_overflow
| cloudi_error_write_unknown
| cloudi_error_ei_encode
| cloudi_error_poll_EBADF
| cloudi_error_poll_EFAULT
| cloudi_error_poll_EINTR
| cloudi_error_poll_EINVAL
| cloudi_error_poll_ENOMEM
| cloudi_error_poll_ERR
| cloudi_error_poll_HUP
| cloudi_error_poll_NVAL
| cloudi_error_poll_unknown.

Definition status_value (s : cloudi_status) : Z :=
  match s with
  | cloudi_success => 0
  | cloudi_terminate => 110
  | cloudi_timeout => 7
  | cloudi_error_function_parameter => 8
  | cloudi_error_read_underflow => 9
  | cloudi_error_ei_decode => 10
  | cloudi_invalid_input => 11
  | cloudi_out_of_memory => 12
  | cloudi_error_read_EAGAIN => 81
  | cloudi_error_read_EBADF => 82
  | cloudi_error_read_EFAULT => 83
  | cloudi_error_read_EINTR => 84
  | cloudi_error_read_EINVAL => 85
  | cloudi_error_read_EIO => 86
  | cloudi_error_read_EISDIR => 87
  | cloudi_error_read_null => 88
  | cloudi_error_read_overflow => 89
  | cloudi_error_read_unknown => 90
  | cloudi_error_write_EAGAIN => 91
  | cloudi_error_write_EBADF => 92
  | cloudi_error_write_EFAULT => 93
  | cloudi_error_write_EFBIG => 94
  | cloudi_error_write_EINTR => 95
  | cloudi_error_write_EINVAL => 96
  | cloudi_error_write_EIO => 97
  | cloudi_error_write_ENOSPC => 98
  | cloudi_error_write_EPIPE => 99
  | cloudi_error_write_null => 100
  | cloudi_error_write_overflow => 101
  | cloudi_error_write_unknown => 102
  | cloudi_error_ei_encode => 103
  | cloudi_error_poll_EBADF => 104
  | cloudi_error_poll_EFAULT => 105
  | cloudi_error_poll_EINTR => 106
  | cloudi_error_poll_EINVAL => 107
  | cloudi_error_poll_ENOMEM => 108
  | cloudi_error_poll_ERR => 109
  | cloudi_error_poll_HUP => 110
  | cloudi_error_poll_NVAL => 111
  | cloudi_error_poll_unknown => 112
  end.
Coercion status_value : cloudi_status >-> Z.

#[export] Instance cloudi_status_eq_dec : EqDecision cloudi_status.
Proof. solve_decision. Defined.

(** errno_read, errno_write and errno_poll of cloudi.cpp. *)
Definition errno_read (e : errno) : cloudi_status :=
  match e with
  | EAGAIN => cloudi_error_read_EAGAIN
  | EBADF => cloudi_error_read_EBADF
  | EFAULT => cloudi_error_read_EFAULT
  | EINTR => cloudi_error_read_EINTR
  | EINVAL => cloudi_error_read_EINVAL
  | EIO => cloudi_error_read_EIO
  | EISDIR => cloudi_error_read_EISDIR
  | _ => cloudi_error_read_unknown
  end.

Definition errno_write (e : errno) : cloudi_status :=
  match e with
  | EAGAIN => cloudi_error_write_EAGAIN
  | EBADF => cloudi_error_write_EBADF
  | EFAULT => cloudi_error_write_EFAULT
  | EFBIG => cloudi_error_write_EFBIG
  | EINTR => cloudi_error_write_EINTR
  | EINVAL => cloudi_error_write_EINVAL
  | EIO => cloudi_error_write_EIO
  | ENOSPC => cloudi_error_write_ENOSPC
  | EPIPE => cloudi_error_write_EPIPE
  | _ => cloudi_error_write_unknown
  end.

Definition errno_poll (e : errno) : cloudi_status :=
  match e with
  | EBADF => cloudi_error_poll_EBADF
  | EFAULT => cloudi_error_poll_EFAULT
  | EINTR => cloudi_error_poll_EINTR
  | EINVAL => cloudi_error_poll_EINVAL
  | ENOMEM => cloudi_error_poll_ENOMEM
  | _ => cloudi_error_poll_unknown
  end.

(** The C++ names of the same codes: [API::return_value] (cloudi.hpp). *)
Module return_value.
Inductive t : Type :=
| success | terminate | timeout | error_function_parameter
| error_read_underflow | error_ei_decode | invalid_input | out_of_memory
| error_read_EAGAIN | error_read_EBADF | error_read_EFAULT
| error_read_EINTR | error_read_EINVAL | error_read_EIO
| error_read_EISDIR | error_read_null | error_read_overflow
| error_read_unknown
| error_write_EAGAIN | error_write_EBADF | error_write_EFAULT
| error_write_EFBIG | error_write_EINTR | error_write_EINVAL
| error_write_EIO | error_write_ENOSPC | error_write_EPIPE
| error_write_null | error_write_overflow | error_write_unknown
| error_ei_encode
| error_poll_EBADF | error_poll_EFAULT | error_poll_EINTR
| error_poll_EINVAL | error_poll_ENOMEM | error_poll_ERR | error_poll_HUP
| error_poll_NVAL | error_poll_unknown.

(** The values of the enum in declaration order. *)
Definition value (s : t) : Z :=
  match s with
  | success => 0 | terminate => 110 | timeout => 7
  | error_function_parameter => 8 | error_read_underflow => 9
  | error_ei_decode => 10 | invalid_input => 11 | out_of_memory => 12
  | error_read_EAGAIN => 81 | error_read_EBADF => 82
  | error_read_EFAULT => 83 | error_read_EINTR => 84
  | error_read_EINVAL => 85 | error_read_EIO => 86
  | error_read_EISDIR => 87 | error_read_null => 88
  | error_read_overflow => 89 | error_read_unknown => 90
  | error_write_EAGAIN => 91 | error_write_EBADF => 92
  | error_write_EFAULT => 93 | error_write_EFBIG => 94
  | error_write_EINTR => 95 | error_write_EINVAL => 96
  | error_write_EIO => 97 | error_write_ENOSPC => 98
  | error_write_EPIPE => 99 | error_write_null => 100
  | error_write_overflow => 101 | error_write_unknown => 102
  | error_ei_encode => 103
  | error_poll_EBADF => 104 | error_poll_EFAULT => 105
  | error_poll_EINTR => 106 | error_poll_EINVAL => 107
  | error_poll_ENOMEM => 108 | error_poll_ERR => 109
  | error_poll_HUP => 110 | error_poll_NVAL => 111
  | error_poll_unknown => 112
  end.
End return_value.

Lemma errno_read_range e : 81 <= errno_read e <= 90.
Proof. destruct e; cbn; lia. Qed.

Lemma errno_write_range e : 91 <= errno_write e <= 102.
Proof. destruct e; cbn; lia. Qed.

Lemma errno_poll_range e : 104 <= errno_poll e <= 112.
Proof. destruct e; cbn; lia. Qed.
