(* ===== verification/Sys.v ===== *)
(** * System calls

    The socket of an API instance, the clock and the allocator, as the
    environment answers them.  The peer's bytes and the answers of [read],
    [write] and [poll] are scripts: one entry per call, so that every
    fragmentation of the stream, every error and every timing is one
    environment.  A call with no entry left waits for ever ([Blocked]). *)

From S2P Require Import Prelude CMonad Status.

(** An answer to [read]: at most [k] bytes (fewer when the caller asks for
    fewer or the peer sent fewer; 0 bytes is the end of the stream), or -1. *)
Inductive rd : Type := rd_some (k : nat) | rd_err (e : errno).
(** An answer to [write]: at most [k] bytes taken, or -1. *)
Inductive wr : Type := wr_some (k : nat) | wr_err (e : errno).
(** An answer to [poll] on one descriptor: 1, 0 or -1. *)
Inductive pl : Type := pl_ready | pl_timeout | pl_err (e : errno).

Record sys : Type := mk_sys {
  sys_in : bytes;            (* what the peer sends and was not read yet *)
  sys_reads : list rd;
  sys_out : bytes;           (* what was written, oldest first *)
  sys_writes : list wr;
  sys_polls : list pl;
  sys_elapsed : list Z;      (* timer: elapsed() * 1000.0, rounded to an int *)
  sys_realloc : Z -> bool    (* whether realloc to a number of bytes succeeds *)
}.

Definition set_read (i : bytes) (r : list rd) (s : sys) : sys :=
  mk_sys i r (sys_out s) (sys_writes s) (sys_polls s) (sys_elapsed s) (sys_realloc s).
Definition set_write (o : bytes) (w : list wr) (s : sys) : sys :=
  mk_sys (sys_in s) (sys_reads s) o w (sys_polls s) (sys_elapsed s) (sys_realloc s).
Definition set_polls (p : list pl) (s : sys) : sys :=
  mk_sys (sys_in s) (sys_reads s) (sys_out s) (sys_writes s) p (sys_elapsed s)
    (sys_realloc s).
Definition set_elapsed (e : list Z) (s : sys) : sys :=
  mk_sys (sys_in s) (sys_reads s) (sys_out s) (sys_writes s) (sys_polls s) e
    (sys_realloc s).

(** [::read(fd, p, n)]: the bytes stored at [p], or the [errno] of -1. *)
Definition sys_read {R} (n : Z) : C sys R (errno + bytes) := fun s =>
  match sys_reads s with
  | [] => (Blocked, s)
  | rd_err e :: rest => (Next (inl e), set_read (sys_in s) rest s)
  | rd_some k :: rest =>
      let m := Nat.min k (Z.to_nat n) in
      (Next (inr (take m (sys_in s))), set_read (drop m (sys_in s)) rest s)
  end.

(** [::write(fd, p, n)] of the [n] bytes [data]: how many were taken. *)
Definition sys_write {R} (data : bytes) : C sys R (errno + Z) := fun s =>
  match sys_writes s with
  | [] => (Blocked, s)
  | wr_err e :: rest => (Next (inl e), set_write (sys_out s) rest s)
  | wr_some k :: rest =>
      let n := Nat.min k (length data) in
      (Next (inr (Z.of_nat n)), set_write (sys_out s ++ take n data) rest s)
  end.

(** [::poll(fds, 1, timeout)].  With a negative timeout it does not return 0. *)
Definition sys_poll {R} (timeout : Z) : C sys R (errno + Z) := fun s =>
  match sys_polls s with
  | [] => (Blocked, s)
  | pl_ready :: rest => (Next (inr 1), set_polls rest s)
  | pl_timeout :: rest =>
      if timeout <? 0 then (Blocked, s) else (Next (inr 0), set_polls rest s)
  | pl_err e :: rest => (Next (inl e), set_polls rest s)
  end.

(** [static_cast<int>(::round(poll_timer.elapsed() * 1000.0))] *)
Definition sys_elapsed_ms {R} : C sys R Z := fun s =>
  match sys_elapsed s with
  | [] => (Blocked, s)
  | ms :: rest => (Next ms, set_elapsed rest s)
  end.

(** Scripts whose next [n] answers transfer at least one byte. *)
Definition good_reads (n : nat) (rs : list rd) : Prop :=
  (n <= length rs)%nat /\
  forall i r, (i < n)%nat -> rs !! i = Some r -> exists k, r = rd_some (S k).

Definition good_writes (n : nat) (ws : list wr) : Prop :=
  (n <= length ws)%nat /\
  forall i w, (i < n)%nat -> ws !! i = Some w -> exists k, w = wr_some (S k).

Lemma good_reads_cons n rs :
  good_reads (S n) rs -> exists k rs', rs = rd_some (S k) :: rs' /\ good_reads n rs'.
Proof.
  intros [Hl Hg]. destruct rs as [|r rs]; [cbn in Hl; lia|].
  destruct (Hg 0%nat r) as [k ->]; [lia|done|]. exists k, rs. split; [done|].
  split; [cbn in Hl; lia|]. intros i r' Hi Hr. apply (Hg (S i) r'); [lia|done].
Qed.

Lemma good_writes_cons n ws :
  good_writes (S n) ws -> exists k ws', ws = wr_some (S k) :: ws' /\ good_writes n ws'.
Proof.
  intros [Hl Hg]. destruct ws as [|r ws]; [cbn in Hl; lia|].
  destruct (Hg 0%nat r) as [k ->]; [lia|done|]. exists k, ws. split; [done|].
  split; [cbn in Hl; lia|]. intros i r' Hi Hr. apply (Hg (S i) r'); [lia|done].
Qed.

Lemma good_reads_drop a b j rs :
  (j <= a)%nat -> good_reads (a + b) rs -> good_reads b (drop j rs).
Proof.
  intros Hj [Hl Hg]. split; [rewrite length_drop; lia|].
  intros i r Hi Hr. rewrite lookup_drop in Hr. apply (Hg (j + i)%nat r); [lia|done].
Qed.

Lemma good_writes_drop a b j ws :
  (j <= a)%nat -> good_writes (a + b) ws -> good_writes b (drop j ws).
Proof.
  intros Hj [Hl Hg]. split; [rewrite length_drop; lia|].
  intros i r Hi Hr. rewrite lookup_drop in Hr. apply (Hg (j + i)%nat r); [lia|done].
Qed.

Lemma good_reads_le a b rs : (a <= b)%nat -> good_reads b rs -> good_reads a rs.
Proof. intros H [Hl Hg]. split; [lia|]. intros i r Hi. apply Hg. lia. Qed.

Lemma good_writes_le a b ws : (a <= b)%nat -> good_writes b ws -> good_writes a ws.
Proof. intros H [Hl Hg]. split; [lia|]. intros i r Hi. apply Hg. lia. Qed.

Lemma good_reads_replicate n m k :
  (n <= m)%nat -> good_reads n (replicate m (rd_some (S k))).
Proof.
  intros H. split; [by rewrite length_replicate|]. intros i r _ Hr.
  apply list_elem_of_lookup_2, elem_of_replicate in Hr as [-> _]. by eexists.
Qed.

Lemma good_writes_replicate n m k :
  (n <= m)%nat -> good_writes n (replicate m (wr_some (S k))).
Proof.
  intros H. split; [by rewrite length_replicate|]. intros i r _ Hr.
  apply list_elem_of_lookup_2, elem_of_replicate in Hr as [-> _]. by eexists.
Qed.

#[export] Hint Resolve good_reads_replicate good_writes_replicate : cloudi.
