(* ===== verification/ReallocPtr.v ===== *)
(** * realloc_ptr<T>  (src/src/api/c/realloc_ptr.hpp)

    The growable array every buffer of the API is: its sizes, its growth by
    powers of two, and the copy and move operations. *)

From S2P Require Import Prelude.

Record realloc_ptr (T : Type) : Type := mk_realloc_ptr {
  m_initialSize : Z;         (* size_t const *)
  m_size : Z;                (* size_t *)
  m_maxSize : Z;             (* size_t const *)
  m_p : list (option T);     (* the allocation: its cells *)
  m_gen : nat                (* which allocation it is: realloc makes a new one *)
}.
#[global] Arguments mk_realloc_ptr {T}.
#[global] Arguments m_initialSize {T}.
#[global] Arguments m_size {T}.
#[global] Arguments m_maxSize {T}.
#[global] Arguments m_p {T}.
#[global] Arguments m_gen {T}.

(** [for (size_t div2 = totalSize; div2 > 1; div2 >>= 1) bits++;]
    A [size_t] is 0 after 64 shifts, so 64 rounds are enough. *)
Fixpoint count_bits (fuel : nat) (div2 bits : Z) : Z :=
  match fuel with
  | O => bits
  | S fuel => if 1 <? div2 then count_bits fuel (Z.shiftr div2 1) (bits + 1) else bits
  end.

(** [greater_pow2].  [1 << bits] is an [int]; storing it in a [size_t]
    sign-extends it.  (C++ defines the shift for [bits] up to 31, which is
    what every construction in the code stays within.) *)
Definition greater_pow2 (sizeof n : Z) : Z :=
  let totalSize := wrap64 (n * sizeof) in
  let bits := count_bits 64 totalSize 0 in
  let value := wrap64 (int32 (Z.shiftl 1 bits)) in
  if value =? totalSize then value else wrap64 (Z.shiftl value 1).

Section realloc_ptr.
Context {T : Type}.
(** [sizeof(T)] *)
Context (sizeof : Z).
(** whether [realloc] to a number of bytes succeeds *)
Context (realloc_ok : Z -> bool).
Implicit Types (p : realloc_ptr T).

(** The constructor.  ([malloc] is not checked by the code; it is taken to
    succeed.) *)
Definition construct (initialSize maxSize : Z) : realloc_ptr T :=
  let m_initialSize := greater_pow2 sizeof initialSize in
  mk_realloc_ptr m_initialSize m_initialSize (greater_pow2 sizeof maxSize)
    (replicate (Z.to_nat m_initialSize) None) 0.

Definition size p : Z := m_size p.

(** [release()]: the old allocation, and the fresh one left behind
    ([m_size] is not reset). *)
Definition release p : list (option T) * realloc_ptr T :=
  (m_p p,
   mk_realloc_ptr (m_initialSize p) (m_size p) (m_maxSize p)
     (replicate (Z.to_nat (m_initialSize p)) None) (S (m_gen p))).

(** [realloc(m_p, newSize * sizeof(T))] and the two assignments after it. *)
Definition reallocate (newSize : Z) p : bool * realloc_ptr T :=
  if realloc_ok (wrap64 (newSize * sizeof)) then
    (true,
     mk_realloc_ptr (m_initialSize p) newSize (m_maxSize p)
       (take (Z.to_nat newSize) (m_p p) ++
        replicate (Z.to_nat newSize - length (m_p p)) None)
       (S (m_gen p)))
  else (false, p).

Definition grow p : bool * realloc_ptr T :=
  let newSize := wrap64 (Z.shiftl (m_size p) 1) in
  if m_maxSize p <? newSize then (false, p) else reallocate newSize p.

(** [while (size >= newSize) newSize <<= 1;]  [None]: the loop does not
    end ([newSize] became 0). *)
Fixpoint double_above (fuel : nat) (size newSize : Z) : option Z :=
  if size <? newSize then Some newSize
  else match fuel with
       | O => None
       | S fuel => double_above fuel size (wrap64 (Z.shiftl newSize 1))
       end.

(** [reserve].  64 doublings reach 0 or a value above [size]. *)
Definition reserve (size : Z) p : option (bool * realloc_ptr T) :=
  if size <? m_size p then Some (true, p)
  else if m_maxSize p <? size then Some (false, p)
  else match double_above 64 size (m_size p) with
       | Some newSize => Some (reallocate newSize p)
       | None => None
       end.

(** [memcpy]/[memmove] of cells into an allocation; [None] out of range. *)
Definition put_cells (m : list (option T)) (i : Z) (cs : list (option T)) :
  option (list (option T)) :=
  if decide (Z.to_nat i + length cs <= length m)%nat
  then Some (take (Z.to_nat i) m ++ cs ++ drop (Z.to_nat i + length cs) m)
  else None.

Definition get_cells (m : list (option T)) (i n : Z) : option (list (option T)) :=
  if decide (Z.to_nat i + Z.to_nat n <= length m)%nat
  then Some (take (Z.to_nat n) (drop (Z.to_nat i) m))
  else None.

Definition set_cells p (m : list (option T)) : realloc_ptr T :=
  mk_realloc_ptr (m_initialSize p) (m_size p) (m_maxSize p) m (m_gen p).

(** [copy(src, iSrc, nSrc, iDst)] *)
Definition copy_range (src : realloc_ptr T) (iSrc nSrc iDst : Z) p :
  option (bool * realloc_ptr T) :=
  match reserve (wrap64 (iDst + nSrc)) p with
  | Some (true, p') =>
      cs ← get_cells (m_p src) iSrc nSrc;
      m ← put_cells (m_p p') iDst cs;
      Some (true, set_cells p' m)
  | r => r
  end.

(** [copy(src, nSrc, iDst)] *)
Definition copy_prefix (src : realloc_ptr T) (nSrc iDst : Z) p :=
  copy_range src 0 nSrc iDst p.

(** [copy(src, iDst)]: all [src.m_size] elements. *)
Definition copy (src : realloc_ptr T) (iDst : Z) p :=
  copy_range src 0 (m_size src) iDst p.

(** [move(iSrc, nSrc, iDst)] *)
Definition move (iSrc nSrc iDst : Z) p : option (bool * realloc_ptr T) :=
  match reserve (wrap64 (iDst + nSrc)) p with
  | Some (true, p') =>
      cs ← get_cells (m_p p') iSrc nSrc;
      m ← put_cells (m_p p') iDst cs;
      Some (true, set_cells p' m)
  | r => r
  end.

(** ** Invariant *)

(** The allocation has as many elements as [m_size] says, and [m_size] is
    positive and fits a [size_t]. *)
Definition wf p : Prop :=
  Z.of_nat (length (m_p p)) = m_size p /\ 0 < m_size p < 2 ^ 64.
End realloc_ptr.

#[global] Arguments construct {T}.
#[global] Arguments reserve {T}.
#[global] Arguments grow {T}.
#[global] Arguments reallocate {T}.
#[global] Arguments wf {T}.

(** ** Sizes *)

Lemma count_bits_log2 fuel n b :
  0 <= n < 2 ^ Z.of_nat fuel -> count_bits fuel n b = b + Z.log2 n.
Proof.
  revert n b. induction fuel as [|fuel IH]; intros n b Hn; cbn [count_bits].
  - assert (n = 0) as -> by lia. change (Z.log2 0) with 0. lia.
  - destruct (Z.ltb_spec 1 n) as [H1|H1]; cycle 1.
    { destruct (decide (n = 0)) as [->|]; [|replace n with 1 by lia]; cbn; lia. }
    rewrite IH; cycle 1.
    { rewrite Z.shiftr_div_pow2 by lia. change (2 ^ 1) with 2.
      rewrite Nat2Z.inj_succ, Z.pow_succ_r in Hn by lia. split.
      - apply Z.div_pos; lia.
      - apply Z.div_lt_upper_bound; lia. }
    pose proof (Z.log2_pos n H1). rewrite Z.log2_shiftr by lia. lia.
Qed.

Lemma greater_pow2_up sizeof n :
  1 <= n * sizeof < 2 ^ 31 ->
  greater_pow2 sizeof n = 2 ^ Z.log2_up (n * sizeof).
Proof.
  intros Hn. unfold greater_pow2.
  rewrite (wrap64_small (n * sizeof)) by lia. set (t := n * sizeof) in *.
  rewrite count_bits_log2 by (cbn; lia). rewrite Z.add_0_l.
  assert (Z.log2 t < 31) as Hlog by (apply Z.log2_lt_pow2; lia).
  pose proof (Z.log2_nonneg t) as H0. pose proof (Z.log2_spec t ltac:(lia)) as Hs.
  assert (2 ^ Z.log2 t <= 2 ^ 30) as Hp by (apply Z.pow_le_mono_r; lia).
  assert (int32 (Z.shiftl 1 (Z.log2 t)) = 2 ^ Z.log2 t) as ->.
  { unfold int32. rewrite Z.shiftl_1_l, Z.mod_small by lia. lia. }
  rewrite wrap64_small by lia.
  destruct (Z.eqb_spec (2 ^ Z.log2 t) t) as [He|He].
  - rewrite <- He at 2. rewrite Z.log2_up_pow2 by lia. done.
  - rewrite Z.shiftl_mul_pow2, wrap64_small by lia.
    assert (1 < t) as H1t.
    { destruct (decide (t = 1)) as [E|E]; [|lia]. rewrite E in He. by cbn in He. }
    rewrite Z.log2_up_eqn by lia.
    assert (Z.log2 (Z.pred t) = Z.log2 t) as ->.
    { apply Z.log2_unique; lia. }
    rewrite Z.pow_succ_r by lia. lia.
Qed.

(** ** reserve and grow *)

Lemma double_above_spec fuel size newSize :
  0 < newSize -> newSize <= size < 2 ^ 63 -> size < newSize * 2 ^ Z.of_nat fuel ->
  exists k, 0 <= k /\
    double_above fuel size newSize = Some (newSize * 2 ^ k) /\
    size < newSize * 2 ^ k <= 2 * size.
Proof.
  revert newSize. induction fuel as [|fuel IH]; intros newSize H0 H1 H2.
  - change (2 ^ Z.of_nat 0) with 1 in H2. lia.
  - cbn [double_above]. destruct (Z.ltb_spec size newSize); [lia|].
    rewrite Z.shiftl_mul_pow2, wrap64_small by lia. change (2 ^ 1) with 2.
    rewrite Nat2Z.inj_succ, Z.pow_succ_r in H2 by lia.
    destruct (Z.le_gt_cases (newSize * 2) size) as [Hle|Hgt].
    + destruct (IH (newSize * 2)) as (k & Hk & Hd & Hb); [lia..|].
      exists (k + 1). rewrite Hd, Z.pow_add_r by lia. change (2 ^ 1) with 2.
      repeat split; [lia|f_equal; lia|lia|lia].
    + exists 1. change (2 ^ 1) with 2. repeat split; try lia.
      destruct fuel; cbn [double_above];
        destruct (Z.ltb_spec size (newSize * 2)); done || lia.
Qed.

Section laws.
Context {T : Type} (sizeof : Z) (realloc_ok : Z -> bool).
Implicit Types p : realloc_ptr T.

(** What [reserve(n)] and [grow()] leave behind: the old elements, in an
    allocation of [m_size p'] elements. *)
Definition extends p p' : Prop :=
  wf p' /\ m_size p <= m_size p' /\
  m_initialSize p' = m_initialSize p /\ m_maxSize p' = m_maxSize p /\
  exists junk, m_p p' = m_p p ++ junk.

Lemma extends_refl p : wf p -> extends p p.
Proof. intros H. repeat split; try apply H; [lia|]. exists []. by rewrite app_nil_r. Qed.

Lemma extends_trans p p' p'' : extends p p' -> extends p' p'' -> extends p p''.
Proof.
  intros (_ & H2 & H3 & H4 & j & H5) (K1 & K2 & K3 & K4 & k & K5).
  repeat split; try apply K1; [lia|congruence..|].
  exists (j ++ k). by rewrite K5, H5, app_assoc.
Qed.

Lemma reallocate_extends newSize p p' :
  wf p -> m_size p <= newSize < 2 ^ 64 ->
  reallocate sizeof realloc_ok newSize p = (true, p') ->
  extends p p' /\ m_size p' = newSize.
Proof.
  unfold reallocate. intros [Hl Hs] Hn. destruct (realloc_ok _); [|done].
  intros [= <-]. rewrite take_ge by lia. repeat split; cbn; try lia.
  - rewrite length_app, length_replicate. lia.
  - by eexists.
Qed.

(** ** Properties *)

Lemma reserve_true size p p' :
  wf p -> 0 <= size < 2 ^ 63 ->
  reserve sizeof realloc_ok size p = Some (true, p') ->
  extends p p' /\ size < m_size p' <= Z.max (m_size p) (2 * size).
Proof.
  unfold reserve. intros Hwf Hs.
  destruct (Z.ltb_spec size (m_size p)).
  { intros [= <-]. split; [by apply extends_refl|lia]. }
  destruct (Z.ltb_spec (m_maxSize p) size); [done|].
  destruct Hwf as [Hl Hz].
  destruct (double_above_spec 64 size (m_size p)) as (k & Hk & -> & Hb); [lia..| |].
  { change (Z.of_nat 64) with 64. nia. }
  destruct (reallocate _ _ _ _) as [b p1] eqn:E. intros [= -> ->].
  apply reallocate_extends in E as [He Hm]; [|done|lia].
  split; [done|lia].
Qed.

Lemma double_above_zero fuel size : 0 <= size -> double_above fuel size 0 = None.
Proof.
  intros H. induction fuel as [|fuel IH]; cbn; by rewrite (proj2 (Z.ltb_ge size 0)).
Qed.

Lemma double_above_above fuel size n k :
  0 <= size -> 0 < n < 2 ^ 64 -> double_above fuel size n = Some k ->
  size < k < 2 ^ 64.
Proof.
  intros Hs. revert n k. induction fuel as [|fuel IH]; cbn; intros n k Hn;
    destruct (Z.ltb_spec size n); intros Hk; simplify_eq; try done; [lia..|].
  assert (0 <= wrap64 (Z.shiftl n 1) < 2 ^ 64) as Hw by (apply Z.mod_pos_bound; lia).
  destruct (decide (wrap64 (Z.shiftl n 1) = 0)) as [E|]; [|eapply IH; [|exact Hk]; lia].
  by rewrite E, double_above_zero in Hk.
Qed.

(** The new elements are not written. *)
Lemma reserve_junk size p p' :
  wf p -> 0 <= size < 2 ^ 63 ->
  reserve sizeof realloc_ok size p = Some (true, p') ->
  exists n, m_p p' = m_p p ++ replicate n None.
Proof.
  unfold reserve. intros [Hl Hz] Hs. destruct (Z.ltb_spec size (m_size p)).
  { intros [= <-]. exists 0%nat. by rewrite app_nil_r. }
  destruct (_ <? size); [done|].
  destruct (double_above 64 size (m_size p)) as [k|] eqn:E; [|done].
  apply double_above_above in E; [|lia..].
  unfold reallocate. destruct (realloc_ok _); [|done]. intros [= <-]. cbn.
  rewrite take_ge by lia. by eexists.
Qed.

Lemma reserve_false size p p' :
  reserve sizeof realloc_ok size p = Some (false, p') -> p' = p.
Proof.
  unfold reserve, reallocate. repeat case_match; naive_solver.
Qed.

Lemma reserve_defined size p :
  wf p -> 0 <= size < 2 ^ 63 ->
  exists b p', reserve sizeof realloc_ok size p = Some (b, p').
Proof.
  unfold reserve. intros [Hl Hz] Hs.
  destruct (Z.ltb_spec size (m_size p)); [eauto|].
  destruct (Z.ltb_spec (m_maxSize p) size); [eauto|].
  destruct (double_above_spec 64 size (m_size p)) as (k & Hk & -> & Hb); [lia..| |].
  { change (Z.of_nat 64) with 64. nia. }
  destruct (reallocate _ _ _ _) as [b p1]; eauto.
Qed.

(** With memory available, [reserve] succeeds up to [m_maxSize]. *)
Lemma reserve_succeeds size p :
  wf p -> 0 <= size < 2 ^ 63 -> size <= m_maxSize p ->
  (forall n, realloc_ok n = true) ->
  exists p', reserve sizeof realloc_ok size p = Some (true, p') /\
    extends p p' /\ size < m_size p'.
Proof.
  intros Hwf Hs Hmax Hok.
  assert (exists p', reserve sizeof realloc_ok size p = Some (true, p')) as [p' Hr].
  { destruct (reserve_defined size p Hwf Hs) as (b & p' & Hr). exists p'.
    rewrite Hr. do 2 f_equal. revert Hr. unfold reserve, reallocate.
    clear Hs. rewrite (proj2 (Z.ltb_ge (m_maxSize p) size)) by done.
    repeat case_match; intros; simplify_eq; try done. by rewrite Hok in *. }
  exists p'. split; [done|]. apply reserve_true in Hr as [He Hb]; [|done..].
  split; [done|lia].
Qed.

(** The invariant is kept whatever size is asked for. *)
Lemma reserve_wf size p b p' :
  wf p -> reserve sizeof realloc_ok size p = Some (b, p') -> wf p'.
Proof.
  intros [Hl Hz]. unfold reserve. destruct (Z.ltb_spec size (m_size p)).
  { intros [= <- <-]. by split. }
  destruct (_ <? _); [intros [= <- <-]; by split|].
  destruct (double_above 64 size (m_size p)) as [k|] eqn:E; [|done].
  apply double_above_above in E; [|lia..].
  unfold reallocate. destruct (realloc_ok _); intros [= <- <-]; [|by split].
  split; cbn; [|lia]. rewrite length_app, length_take, length_replicate. lia.
Qed.

Lemma extends_holds p p' off bs :
  extends p p' -> holds (m_p p) off bs -> holds (m_p p') off bs.
Proof. intros (_ & _ & _ & _ & junk & ->). apply holds_extend. Qed.
End laws.

Section contents.
Context {T : Type} (sizeof : Z) (realloc_ok : Z -> bool).
Implicit Types p src : realloc_ptr T.

Lemma put_cells_Some (m cs m' : list (option T)) i :
  put_cells m i cs = Some m' ->
  (Z.to_nat i + length cs <= length m)%nat /\ length m' = length m /\
  take (length cs) (drop (Z.to_nat i) m') = cs /\
  take (Z.to_nat i) m' = take (Z.to_nat i) m /\
  drop (Z.to_nat i + length cs) m' = drop (Z.to_nat i + length cs) m.
Proof.
  unfold put_cells. case_decide as Hl; [|done]. intros [= <-].
  split; [done|]. split.
  { rewrite !length_app, length_take, length_drop. lia. }
  split; [|split].
  - rewrite drop_app_length' by (rewrite length_take; lia).
    by rewrite take_app_length.
  - rewrite take_app_length' by (rewrite length_take; lia). done.
  - rewrite app_assoc, drop_app_length'; [done|].
    rewrite length_app, length_take. lia.
Qed.

Lemma put_cells_fits (m cs : list (option T)) i :
  (Z.to_nat i + length cs <= length m)%nat -> exists m', put_cells m i cs = Some m'.
Proof. intros H. unfold put_cells. rewrite decide_True by done. by eexists. Qed.

Lemma get_cells_fits (m : list (option T)) i n :
  (Z.to_nat i + Z.to_nat n <= length m)%nat ->
  get_cells m i n = Some (take (Z.to_nat n) (drop (Z.to_nat i) m)).
Proof. intros H. unfold get_cells. by rewrite decide_True. Qed.

Lemma copy_range_wf src iSrc nSrc iDst p b p' :
  wf p -> copy_range sizeof realloc_ok src iSrc nSrc iDst p = Some (b, p') -> wf p'.
Proof.
  intros Hwf. unfold copy_range.
  destruct (reserve _ _ _ p) as [[[] p1]|] eqn:Hr; [|intros [= <- <-]|done];
    (apply reserve_wf in Hr; [|done]); [|done].
  destruct (get_cells _ _ _) as [cs|]; [|done]. cbn.
  destruct (put_cells _ _ cs) as [m|] eqn:Hm; [|done]. cbn. intros [= <- <-].
  apply put_cells_Some in Hm as (_ & Hl & _). destruct Hr. split; cbn; lia.
Qed.

(** A reservation that succeeded, and the cells then put at [iDst]. *)
Lemma reserve_put iDst n p p1 (cs : list (option T)) :
  wf p -> 0 <= iDst -> 0 <= n -> iDst + n < 2 ^ 63 -> length cs = Z.to_nat n ->
  reserve sizeof realloc_ok (iDst + n) p = Some (true, p1) ->
  exists m, put_cells (m_p p1) iDst cs = Some m /\ wf (set_cells p1 m) /\
    iDst + n < m_size p1 /\ extends p p1 /\
    take (Z.to_nat n) (drop (Z.to_nat iDst) m) = cs /\
    take (Z.to_nat iDst) m = take (Z.to_nat iDst) (m_p p1) /\
    drop (Z.to_nat (iDst + n)) m = drop (Z.to_nat (iDst + n)) (m_p p1).
Proof.
  intros Hwf Hi Hn Hlt Hcs Hr.
  apply reserve_true in Hr as [He Hs]; [|done|lia].
  pose proof (proj1 He) as [Hl Hz].
  destruct (put_cells_fits (m_p p1) cs iDst) as [m Hm]; [lia|].
  exists m. split; [done|]. apply put_cells_Some in Hm as (_ & Hlm & H1 & H2 & H3).
  rewrite Hcs in H1, H3. rewrite Z2Nat.inj_add by lia.
  repeat split; try done; try apply He; cbn; lia.
Qed.

Lemma copy_ok src p :
  wf p -> wf src -> m_size src < 2 ^ 63 -> m_size src <= m_maxSize p ->
  (forall n, realloc_ok n = true) ->
  exists p', copy sizeof realloc_ok src 0 p = Some (true, p') /\ wf p' /\
    m_size src < m_size p' /\ m_maxSize p' = m_maxSize p /\
    take (length (m_p src)) (m_p p') = m_p src.
Proof.
  intros Hwf [Hl Hz] Hlt Hmax Hok. unfold copy, copy_range.
  rewrite Z.add_0_l, wrap64_small by lia.
  destruct (reserve_succeeds sizeof realloc_ok (m_size src) p)
    as (p1 & Hr & He & Hs); try done; try lia.
  destruct (reserve_put 0 (m_size src) p p1 (m_p src)) as (m & Hm & Hwm & _ & _ & Ht & _);
    try done; try lia.
  rewrite Hr, get_cells_fits by lia. cbn [mbind option_bind].
  change (Z.to_nat 0) with 0%nat. rewrite drop_0, take_ge by lia. rewrite Hm.
  cbn [mbind option_bind]. eexists. split; [done|]. split; [done|]. split; [done|].
  split; [apply He|]. cbn. rewrite <- Ht at 2. f_equal. lia.
Qed.
End contents.

(** ** Properties *)

(** C9. [reserve(size)], in every case.  It always ends.  An array of more than
    [size] elements is left as it is.  Of the others, a size above [m_maxSize]
    is refused, and nothing has changed.  For every other size the array is
    reallocated once, to its old size doubled as often as it takes, and no more
    often, for more than [size] elements: when [realloc] gives that many bytes
    the old elements are where they were, in a new allocation of that size, and
    when it does not, [reserve] fails and nothing has changed. *)
Theorem reserve_spec {T : Type} sizeof realloc_ok size (p : realloc_ptr T)
    (Hwf : wf p) (Hs : 0 <= size < 2 ^ 63) :
  exists b p', reserve sizeof realloc_ok size p = Some (b, p') /\
    (size < m_size p -> b = true /\ p' = p) /\
    (m_size p <= size -> m_maxSize p < size -> b = false /\ p' = p) /\
    (m_size p <= size <= m_maxSize p -> exists k, 0 <= k /\
       size < m_size p * 2 ^ k /\ (forall j, 0 <= j < k -> m_size p * 2 ^ j <= size) /\
       b = realloc_ok (wrap64 (m_size p * 2 ^ k * sizeof)) /\
       if b
       then wf p' /\ m_size p' = m_size p * 2 ^ k /\ m_gen p' = S (m_gen p) /\
            m_initialSize p' = m_initialSize p /\ m_maxSize p' = m_maxSize p /\
            exists junk, m_p p' = m_p p ++ junk
       else p' = p).
Proof.
  unfold reserve. destruct Hwf as [Hl Hz]. destruct (Z.ltb_spec size (m_size p)) as [Hlt|Hge].
  { exists true, p. split_and!; try done; lia. }
  destruct (Z.ltb_spec (m_maxSize p) size) as [Hmax|Hmax].
  { exists false, p. split_and!; try done; lia. }
  destruct (double_above_spec 64 size (m_size p)) as (k & Hk & -> & Hb); [lia..| |].
  { change (Z.of_nat 64) with 64. nia. }
  destruct (reallocate sizeof realloc_ok (m_size p * 2 ^ k) p) as [b p1] eqn:E.
  exists b, p1. split_and!; [done|lia..|]. intros _. exists k. split_and!; [done|lia|..].
  { intros j Hj. pose proof (Z.pow_le_mono_r 2 (j + 1) k ltac:(lia) ltac:(lia)) as Hp.
    rewrite Z.pow_add_r in Hp by lia. change (2 ^ 1) with 2 in Hp. nia. }
  - unfold reallocate in E. destruct (realloc_ok _); by simplify_eq.
  - destruct b; [|unfold reallocate in E; destruct (realloc_ok _); by simplify_eq].
    assert (m_gen p1 = S (m_gen p)) as Hg
      by (unfold reallocate in E; destruct (realloc_ok _); by simplify_eq).
    apply reallocate_extends in E as [(? & _ & ? & ? & ?) ?]; [|done|lia]. by split_and!.
Qed.

(** An array of 8 elements that may have 64: asked for 20, it gets 32 when there
    are 32 bytes. *)
Lemma reserve_spec_witness :
  let p := construct (T := byte) 1 8 64 in
  wf p /\ exists b p', reserve 1 (fun n => n <=? 32) 20 p = Some (b, p') /\
    b = true /\ m_size p' = 32 /\ exists junk, m_p p' = m_p p ++ junk.
Proof.
  cbv zeta. set (p := construct (T := byte) 1 8 64).
  assert (wf p) as Hwf by (vm_compute; done).
  split; [exact Hwf|].
  destruct (reserve_spec 1 (fun n => n <=? 32) 20 p Hwf ltac:(lia))
    as (b & p' & Hr & _ & _ & H).
  destruct (H ltac:(vm_compute; intuition congruence)) as (k & Hk & Hlt & Hleast & Hb & Hp).
  change (m_size p) with 8 in *.
  assert (k = 2) as ->.
  { destruct (Z.lt_trichotomy k 2) as [Hc|[Hc|Hc]]; [|exact Hc|].
    - assert (k = 0 \/ k = 1) as [-> | ->] by lia; cbn in Hlt; lia.
    - specialize (Hleast 2 ltac:(lia)). cbn in Hleast. lia. }
  cbn in Hb. subst b. destruct Hp as (_ & Hm & _ & _ & _ & Hj).
  exists true, p'. split_and!; [exact Hr|exact eq_refl|exact Hm|exact Hj].
Defined.

(** [greater_pow2] is the least power of two that is at least the size in
    bytes, for every size that fits an [int]. *)
Theorem greater_pow2_least sizeof n (Hn : 1 <= n * sizeof < 2 ^ 31) :
  exists k, 0 <= k /\ greater_pow2 sizeof n = 2 ^ k /\
    n * sizeof <= greater_pow2 sizeof n /\
    forall j, 0 <= j -> n * sizeof <= 2 ^ j -> greater_pow2 sizeof n <= 2 ^ j.
Proof.
  rewrite greater_pow2_up by done. exists (Z.log2_up (n * sizeof)).
  split; [apply Z.log2_up_nonneg|]. split; [done|]. split.
  - destruct (decide (n * sizeof = 1)) as [->|]; [done|].
    apply Z.log2_up_spec. lia.
  - intros j Hj Hle. apply Z.pow_le_mono_r; [lia|].
    apply Z.log2_up_le_mono in Hle. by rewrite Z.log2_up_pow2 in Hle.
Qed.

Lemma greater_pow2_least_witness :
  exists k, 0 <= k /\ greater_pow2 8 1000 = 2 ^ k /\ 8000 <= greater_pow2 8 1000 /\
    forall j, 0 <= j -> 8000 <= 2 ^ j -> greater_pow2 8 1000 <= 2 ^ j.
Proof. exact (greater_pow2_least 8 1000 ltac:(lia)). Defined.

(** [move(iSrc, nSrc, iDst)] inside an array, when it succeeds: the [nSrc]
    elements at [iDst] are those that were at [iSrc] before, also where the
    two ranges overlap, and every element outside the destination is
    unchanged. *)
Theorem move_spec {T : Type} sizeof realloc_ok iSrc nSrc iDst (p : realloc_ptr T) p'
    (Hwf : wf p) (Hi : 0 <= iSrc) (Hn : 0 <= nSrc) (Hd : 0 <= iDst)
    (Hsrc : iSrc + nSrc <= m_size p) (Hdst : iDst + nSrc < 2 ^ 63)
    (He : move sizeof realloc_ok iSrc nSrc iDst p = Some (true, p')) :
  wf p' /\ iDst + nSrc < m_size p' /\
  take (Z.to_nat nSrc) (drop (Z.to_nat iDst) (m_p p')) =
    take (Z.to_nat nSrc) (drop (Z.to_nat iSrc) (m_p p)) /\
  exists junk,
    take (Z.to_nat iDst) (m_p p') = take (Z.to_nat iDst) (m_p p ++ junk) /\
    drop (Z.to_nat (iDst + nSrc)) (m_p p') = drop (Z.to_nat (iDst + nSrc)) (m_p p ++ junk).
Proof.
  revert He. unfold move. rewrite wrap64_small by lia.
  destruct (reserve _ _ _ _) as [[[] p1]|] eqn:Hr; try done.
  pose proof (proj1 Hwf) as Hl.
  destruct (reserve_put sizeof realloc_ok iDst nSrc p p1
    (take (Z.to_nat nSrc) (drop (Z.to_nat iSrc) (m_p p))))
    as (m & Hm & Hwm & Hs & (_ & _ & _ & _ & junk & Hj) & Ht & H1 & H2);
    try done; try lia.
  { rewrite length_take, length_drop. lia. }
  assert (get_cells (m_p p1) iSrc nSrc =
    Some (take (Z.to_nat nSrc) (drop (Z.to_nat iSrc) (m_p p)))) as ->.
  { rewrite Hj, get_cells_fits by (rewrite length_app; lia).
    rewrite drop_app_le, take_app_le by (rewrite ?length_drop; lia). done. }
  cbn [mbind option_bind]. rewrite Hm. cbn [mbind option_bind]. intros [= <-].
  cbn [m_p set_cells m_size]. repeat split; try apply Hwm; try done.
  exists junk. by rewrite <- Hj.
Qed.

Lemma move_spec_witness :
  let p := set_cells (construct 1 4 64) (Some <$> chars "abcd") in
  exists p', move 1 (fun _ => true) 0 3 1 p = Some (true, p') /\ wf p' /\
    take 3 (drop 1 (m_p p')) = Some <$> chars "abc".
Proof.
  cbv zeta. set (p := set_cells (construct 1 4 64) (Some <$> chars "abcd")).
  assert (exists p', move 1 (fun _ => true) 0 3 1 p = Some (true, p')) as [p' He]
    by (vm_compute; by eexists).
  exists p'. split; [exact He|].
  destruct (move_spec 1 (fun _ => true) 0 3 1 p p' ltac:(vm_compute; done) ltac:(lia)
    ltac:(lia) ltac:(lia) ltac:(vm_compute; done) ltac:(lia) He) as (Hwf & _ & Ht & _).
  split; [exact Hwf|]. exact Ht.
Defined.
