(* ===== verification/Framing.v ===== *)
(** * Reading and writing the socket  (cloudi.cpp)

    [data_ready], [read_exact], [read_all] and [write_exact]: messages over
    the socket of an instance, with a 4-byte big-endian length before each
    message when the transport is a stream ([use_header]).

    The buffer a function writes to is an argument and part of the result,
    next to the [int] returned. *)

From S2P Require Import Prelude CMonad Status Sys ReallocPtr.
From coqutil Require Import Z.bitblast.

Abbreviation cells := (list (option byte)).
Abbreviation buffer_t := (realloc_ptr byte).

(** [data_ready(fd, ready)]: the status, and [ready]. *)
Definition data_ready (ready : bool) : C sys (Z * bool) (Z * bool) :=
  let* count := sys_poll 0 in
  match count with
  | inl e => creturn (errno_poll e : Z, ready)
  | inr count => creturn (cloudi_success : Z, bool_decide (count = 1))
  end.

(** [while (total < length) { ... }].  Every round takes one answer of
    [read]. *)
Fixpoint read_exact_loop (fuel : nat) (total : Z) (m : cells) (length : Z) :
  C sys (Z * cells) (Z * cells) :=
  if total <? length then
    match fuel with
    | O => cnofuel
    | S fuel =>
        let* i := sys_read (length - total) in
        match i with
        | inl e => creturn (errno_read e : Z, m)
        | inr [] => creturn (cloudi_error_read_null : Z, m)
        | inr bs =>
            if decide (Z.to_nat total + List.length bs <= List.length m)%nat then
              read_exact_loop fuel (wrap32 (total + Z.of_nat (List.length bs)))
                (store m (Z.to_nat total) bs) length
            else cundef
        end
    end
  else cret (total, m).

Definition read_exact (m : cells) (length : Z) : C sys (Z * cells) (Z * cells) :=
  let* fuel := creads (fun s => S (List.length (sys_reads s))) in
  let* (total, m) := read_exact_loop fuel 0 m length in
  if length <? total then creturn (cloudi_error_read_overflow : Z, m)
  else creturn (cloudi_success : Z, m).

(** [(header[0] << 24) | (header[1] << 16) | (header[2] << 8) | header[3]] *)
Definition header_length (header : bytes) : option Z :=
  match header with
  | [h0; h1; h2; h3] =>
      Some (wrap32 (Z.lor (Z.lor (Z.lor (Z.shiftl (byte.unsigned h0) 24)
                                        (Z.shiftl (byte.unsigned h1) 16))
                                 (Z.shiftl (byte.unsigned h2) 8))
                          (byte.unsigned h3)))
  | _ => None
  end.

(** The [while (ready)] loop of [read_all] without a header. *)
Fixpoint read_all_loop (fuel : nat) (buffer : buffer_t) (total buffer_size : Z) :
  C sys (Z * buffer_t * Z) (Z * buffer_t * Z) :=
  match fuel with
  | O => cnofuel
  | S fuel =>
      let* ok := creads sys_realloc in
      let* (reserved, buffer) :=
        copt (reserve 1 ok (wrap32 (total + buffer_size)) buffer) in
      if negb reserved then creturn (cloudi_out_of_memory : Z, buffer, total) else
      cassert (total <? m_size buffer);;;
      let* i := sys_read buffer_size in
      match i with
      | inl e => creturn (errno_read e : Z, buffer, total)
      | inr bs =>
          if decide (Z.to_nat total + List.length bs <= List.length (m_p buffer))%nat then
            let i := Z.of_nat (List.length bs) in
            let buffer := set_cells buffer (store (m_p buffer) (Z.to_nat total) bs) in
            let total := wrap32 (total + i) in
            let ready := (i =? int32 buffer_size) || ((i =? 0) && (total =? 0)) in
            if ready then
              let* (status, ready) := call (data_ready ready) in
              if negb (status =? 0) then creturn (status, buffer, total) else
              if ready then read_all_loop fuel buffer total buffer_size
              else creturn (cloudi_success : Z, buffer, total)
            else creturn (cloudi_success : Z, buffer, total)
          else cundef
      end
  end.

(** [read_all]: the status, the buffer and [total]. *)
Definition read_all (use_header : Z) (buffer : buffer_t) (buffer_size : Z) :
  C sys (Z * buffer_t * Z) (Z * buffer_t * Z) :=
  let total := 0 in
  if negb (use_header =? 0) then
    let* (status, header) := call (read_exact (replicate 4 None) 4) in
    if negb (status =? 0) then creturn (status, buffer, total) else
    let* header := copt (mapM id header) in
    let* length := copt (header_length header) in
    let* ok := creads sys_realloc in
    let* (reserved, buffer) := copt (reserve 1 ok length buffer) in
    if negb reserved then creturn (cloudi_out_of_memory : Z, buffer, total) else
    let total := length in
    let* (status, m) := call (read_exact (m_p buffer) length) in
    creturn (status, set_cells buffer m, total)
  else
    let* fuel := creads (fun s => S (List.length (sys_reads s))) in
    read_all_loop fuel buffer total buffer_size.

(** The four header bytes [write_exact] stores. *)
Definition header_bytes (length_body : Z) : bytes :=
  [ byte.of_Z (Z.shiftr (Z.land length_body 0xff000000) 24);
    byte.of_Z (Z.shiftr (Z.land length_body 0x00ff0000) 16);
    byte.of_Z (Z.shiftr (Z.land length_body 0x0000ff00) 8);
    byte.of_Z (Z.land length_body 0x000000ff) ].

(** [while (total < length) { ... }] of [write_exact]. *)
Fixpoint write_exact_loop (fuel : nat) (total : Z) (m : cells) (length : Z) :
  C sys (Z * cells) Z :=
  if total <? length then
    match fuel with
    | O => cnofuel
    | S fuel =>
        let* data := copt (load m (Z.to_nat total) (Z.to_nat (length - total))) in
        let* i := sys_write data in
        match i with
        | inl e => creturn (errno_write e : Z, m)
        | inr i =>
            if i <=? 0 then creturn (cloudi_error_write_null : Z, m)
            else write_exact_loop fuel (wrap32 (total + i)) m length
        end
    end
  else cret total.

(** [write_exact]: the status, and the buffer with its header. *)
Definition write_exact (use_header : Z) (m : cells) (length : Z) :
  C sys (Z * cells) (Z * cells) :=
  let* m :=
    if negb (use_header =? 0) then
      let length_body := wrap32 (length - 4) in
      if decide (4 <= List.length m)%nat
      then cret (store m 0 (header_bytes length_body))
      else cundef
    else cret m in
  let* fuel := creads (fun s => S (List.length (sys_writes s))) in
  let* total := write_exact_loop fuel 0 m length in
  if length <? total then creturn (cloudi_error_write_overflow : Z, m)
  else creturn (cloudi_success : Z, m).

(** ** Lemmas *)

Lemma header_length_eq h0 h1 h2 h3 :
  header_length [h0; h1; h2; h3] = Some (le_combine [h3; h2; h1; h0]).
Proof.
  unfold header_length. f_equal.
  rewrite <- (wrap32_small (le_combine _)) by (by apply le_combine_range4).
  f_equal. unfold le_combine.
  rewrite !Z.shiftl_lor, !Z.shiftl_0_l, !Z.shiftl_shiftl, !Z.lor_0_r by lia.
  Z.bitblast.
Qed.

Lemma of_Z_field k n :
  0 <= k ->
  byte.of_Z (Z.shiftr (Z.land n (Z.shiftl 0xff k)) k) = byte.of_Z (Z.shiftr n k).
Proof.
  intros Hk. apply of_Z_ext. change 0xff with (Z.ones 8).
  rewrite <- !Z.land_ones by lia. Z.bitblast.
Qed.

Lemma header_bytes_eq n : header_bytes n = rev (u32 n).
Proof.
  unfold header_bytes. cbv [u32 le_split rev app].
  rewrite !Z.shiftr_shiftr by lia.
  change 0xff000000 with (Z.shiftl 0xff 24).
  change 0x00ff0000 with (Z.shiftl 0xff 16).
  change 0x0000ff00 with (Z.shiftl 0xff 8).
  change (Z.land n 0xff) with (Z.land n (Z.shiftl 0xff 0)).
  rewrite !of_Z_field by lia.
  rewrite <- (Z.shiftr_0_r (Z.land n _)), of_Z_field, Z.shiftr_0_r by lia.
  done.
Qed.

(** Decoding the header of a length gives the length. *)
Lemma header_roundtrip n :
  0 <= n < 2 ^ 32 -> header_length (header_bytes n) = Some n.
Proof.
  intros Hn. rewrite header_bytes_eq.
  destruct (u32 n) as [|a [|b [|c [|d [|]]]]] eqn:E;
    apply (f_equal length) in E as El; rewrite length_u32 in El; try done.
  cbn [rev app]. rewrite header_length_eq, <- E, le_combine_u32; done.
Qed.

Lemma length_header_bytes n : length (header_bytes n) = 4%nat.
Proof. done. Qed.

Section read_exact.
Implicit Types (s : sys) (m : cells) (bs rest : bytes).

Lemma read_exact_loop_good fuel total m len s bs rest :
  sys_in s = bs ++ rest -> 0 <= total -> total + Z.of_nat (length bs) = len ->
  len < 2 ^ 32 -> good_reads (length bs) (sys_reads s) ->
  (length bs <= fuel)%nat -> (Z.to_nat total + length bs <= length m)%nat ->
  exists j, (j <= length bs)%nat /\
    read_exact_loop fuel total m len s =
      (Next (len, store m (Z.to_nat total) bs),
       set_read rest (drop j (sys_reads s)) s).
Proof.
  revert total m s bs. induction fuel as [|fuel IH];
    intros total m s bs Hin H0 Hlen Hlt Hgood Hfuel Hm; cbn [read_exact_loop];
    (destruct bs as [|b bs]; [cbn in Hlen|]).
  1, 3: rewrite (proj2 (Z.ltb_ge _ _)) by lia; exists 0%nat;
    rewrite store_nil; cbn in Hin; split; [lia|]; subst len rest;
    rewrite Z.add_0_r; by destruct s.
  { cbn in Hfuel. lia. }
  set (w := b :: bs) in *.
  assert (length w = S (length bs)) as Hw by done.
  rewrite (proj2 (Z.ltb_lt _ _)) by lia. rewrite Hw in Hgood.
  destruct (good_reads_cons _ _ Hgood) as (k & rs & Hrs & Hgood').
  unfold sys_read at 1. unfold cbind at 1. rewrite Hrs, Hin.
  replace (Z.to_nat (len - total)) with (length w) by lia.
  set (n := Nat.min (S k) (length w)).
  rewrite take_app_le, drop_app_le by lia.
  assert (length (take n w) = n) as Hn by (rewrite length_take; lia).
  destruct (take n w) as [|a l] eqn:Ha; [cbn in Hn; lia|]. rewrite <- Ha in *.
  rewrite Hn, decide_True by lia. rewrite wrap32_small by lia.
  destruct (IH (total + Z.of_nat n) (store m (Z.to_nat total) (take n w))
              (set_read (drop n w ++ rest) rs s) (drop n w)) as (j & Hj & ->);
    cbn [set_read sys_in sys_reads]; rewrite ?length_store, ?length_drop by lia;
    try lia; try done.
  { apply (good_reads_le _ (length bs)); [lia|done]. }
  rewrite length_drop in Hj. exists (S j). split; [lia|].
  rewrite skipn_cons. f_equal. do 2 f_equal.
  rewrite Z2Nat.inj_add, Nat2Z.id by lia. rewrite <- Hn at 2.
  rewrite store_store by lia. by rewrite take_drop.
Qed.

(** [read_exact] gets exactly the next [length] bytes of the stream, however
    they are fragmented. *)
Lemma read_exact_good m s bs rest :
  sys_in s = bs ++ rest -> Z.of_nat (length bs) < 2 ^ 32 ->
  good_reads (length bs) (sys_reads s) -> (length bs <= length m)%nat ->
  exists j, (j <= length bs)%nat /\
    read_exact m (Z.of_nat (length bs)) s =
      (Return (cloudi_success : Z, store m 0 bs),
       set_read rest (drop j (sys_reads s)) s).
Proof.
  intros Hin Hlt Hgood Hm.
  destruct (read_exact_loop_good (S (length (sys_reads s))) 0 m
              (Z.of_nat (length bs)) s bs rest) as (j & Hj & He);
    try done; try lia.
  { destruct Hgood. lia. }
  exists j. split; [done|]. unfold read_exact. crun. cnext He.
  by rewrite Z.ltb_irrefl.
Qed.

(** Whatever the environment answers, the loop stores the bytes it takes
    from the stream and stops for one of the reasons below. *)
Lemma read_exact_loop_sound fuel total m len s o s' :
  0 <= total <= len -> len < 2 ^ 32 -> (length (sys_reads s) < fuel)%nat ->
  (Z.to_nat len <= length m)%nat ->
  read_exact_loop fuel total m len s = (o, s') ->
  exists bs, sys_in s = bs ++ sys_in s' /\
    s' = set_read (sys_in s') (sys_reads s') s /\
    match o with
    | Next (t, m') => t = len /\ total + Z.of_nat (length bs) = len /\
        m' = store m (Z.to_nat total) bs
    | Return (st, m') => 81 <= st <= 90 /\ total + Z.of_nat (length bs) < len /\
        m' = store m (Z.to_nat total) bs
    | Blocked => sys_reads s' = []
    | _ => False
    end.
Proof.
  revert total m s. induction fuel as [|fuel IH]; intros total m s H0 Hlt Hf Hm;
    [lia|]; cbn [read_exact_loop].
  destruct (Z.ltb_spec total len) as [Hl|Hl]; cycle 1.
  { intros [= <- <-]. exists []. rewrite store_nil. cbn. destruct s; cbn.
    repeat split; lia. }
  unfold cbind at 1, sys_read. destruct (sys_reads s) as [|[k|e] rs] eqn:Hr.
  - intros [= <- <-]. exists []. rewrite <- Hr at 1. by destruct s.
  - set (n := Nat.min k (Z.to_nat (len - total))).
    destruct (take n (sys_in s)) as [|b l] eqn:Ht.
    + intros [= <- <-]. exists []. rewrite store_nil. cbn [sys_in set_read].
      split; [by rewrite <- Ht, take_drop|]. cbn. repeat split; cbn; lia.
    + rewrite <- Ht. assert (length (take n (sys_in s)) <= n)%nat as Hn
        by (rewrite length_take; lia).
      rewrite decide_True, wrap32_small by lia. intros He.
      apply IH in He as (bs & Hin & Hs & Ho); cbn [set_read sys_reads sys_in] in *;
        rewrite ?length_store by lia; cbn in Hf; try lia.
      exists (take n (sys_in s) ++ bs).
      rewrite <- app_assoc, <- Hin, take_drop. split; [done|].
      split; [by rewrite Hs|].
      rewrite Z2Nat.inj_add, Nat2Z.id, store_store in Ho by lia.
      rewrite length_app. destruct o as [[]|[]| | | |]; try done.
      all: destruct Ho as (?&?&?); repeat split; try done; lia.
  - intros [= <- <-]. exists []. rewrite store_nil. split; [done|]. split; [done|].
    pose proof (errno_read_range e). repeat split; cbn; lia.
Qed.
End read_exact.

Section write_exact.
Implicit Types (s : sys) (m : cells) (bs : bytes).

Lemma write_exact_loop_good fuel total m len s bs :
  0 <= total -> total + Z.of_nat (length bs) = len -> len < 2 ^ 32 ->
  holds m (Z.to_nat total) bs ->
  good_writes (length bs) (sys_writes s) -> (length bs <= fuel)%nat ->
  exists j, (j <= length bs)%nat /\
    write_exact_loop fuel total m len s =
      (Next len, set_write (sys_out s ++ bs) (drop j (sys_writes s)) s).
Proof.
  revert total s bs. induction fuel as [|fuel IH]; intros total s bs H0 Hlen Hlt
    Hm Hgood Hfuel; cbn [write_exact_loop]; (destruct bs as [|b bs]; [cbn in Hlen|]).
  1, 3: rewrite (proj2 (Z.ltb_ge _ _)) by lia; exists 0%nat; split; [lia|];
    subst len; rewrite app_nil_r, Z.add_0_r; by destruct s.
  { cbn in Hfuel. lia. }
  set (w := b :: bs) in *. assert (length w = S (length bs)) as Hw by done.
  rewrite (proj2 (Z.ltb_lt _ _)) by lia. rewrite Hw in Hgood.
  destruct (good_writes_cons _ _ Hgood) as (k & ws & Hws & Hgood').
  replace (Z.to_nat (len - total)) with (length w) by lia.
  rewrite (load_holds _ _ _ Hm). unfold copt, cret. unfold cbind at 1.
  unfold cbind at 1, sys_write. rewrite Hws.
  set (n := Nat.min (S k) (length w)).
  assert (0 < n <= length w)%nat as Hn by lia.
  rewrite (proj2 (Z.leb_gt _ _)) by lia. rewrite wrap32_small by lia.
  destruct (IH (total + Z.of_nat n) (set_write (sys_out s ++ take n w) ws s)
              (drop n w)) as (j & Hj & ->);
    rewrite ?length_drop; try lia.
  { rewrite <- (take_drop n w) in Hm. apply holds_app in Hm as [_ Hm].
    rewrite length_take in Hm. replace (Z.to_nat (total + Z.of_nat n))
      with (Z.to_nat total + n `min` length w)%nat by lia. done. }
  { apply (good_writes_le _ (length bs)); [lia|done]. }
  rewrite length_drop in Hj. exists (S j). split; [lia|].
  rewrite skipn_cons. cbn [sys_out sys_writes set_write].
  rewrite <- app_assoc, take_drop. done.
Qed.

(** What an answer of [write] that ends the loop makes the status: the error of
    [errno], or that no bytes were taken. *)
Definition write_fails (a : wr) (status : Z) : Prop :=
  match a with
  | wr_err e => status = errno_write e
  | wr_some k => k = 0%nat /\ status = cloudi_error_write_null
  end.

Lemma write_fails_range a status :
  write_fails a status -> 91 <= status <= 102 /\ status <> cloudi_error_write_overflow.
Proof.
  destruct a as [k|e]; cbn [write_fails]; [by intros [_ ->]|intros ->; by destruct e].
Qed.

(** Whatever the environment answers, what was written is a prefix of what
    was to be written: what the answers [ks] took.  It is all of it on success,
    and otherwise the next answer is the failure. *)
Lemma write_exact_loop_sound fuel total m len s bs o s' :
  0 <= total -> total + Z.of_nat (length bs) = len -> len < 2 ^ 32 ->
  holds m (Z.to_nat total) bs -> (length (sys_writes s) < fuel)%nat ->
  write_exact_loop fuel total m len s = (o, s') ->
  exists ks n, Forall (lt 0) ks /\ n = Nat.min (sum_list ks) (length bs) /\
    s' = set_write (sys_out s ++ take n bs) (sys_writes s') s /\
    match o with
    | Next t => t = len /\ n = length bs /\ sys_writes s = map wr_some ks ++ sys_writes s'
    | Return (st, m') => m' = m /\ (n < length bs)%nat /\
        exists a, sys_writes s = map wr_some ks ++ a :: sys_writes s' /\ write_fails a st
    | Blocked => sys_writes s' = [] /\ sys_writes s = map wr_some ks /\ (n < length bs)%nat
    | _ => False
    end.
Proof.
  revert total s bs. induction fuel as [|fuel IH]; intros total s bs H0 Hlen Hlt
    Hm Hf; [lia|]; cbn [write_exact_loop].
  destruct (Z.ltb_spec total len) as [Hl|Hl]; cycle 1.
  { intros [= <- <-]. exists [], 0%nat. rewrite take_0, app_nil_r.
    destruct s; cbn. split_and!; try done; lia. }
  replace (Z.to_nat (len - total)) with (length bs) by lia.
  rewrite (load_holds _ _ _ Hm). unfold copt, cret. unfold cbind at 1.
  unfold cbind at 1, sys_write. destruct (sys_writes s) as [|[k|e] ws] eqn:Hw.
  - intros [= <- <-]. exists [], 0%nat. rewrite take_0, app_nil_r, Hw.
    destruct s; cbn in *; subst. split_and!; try done; lia.
  - set (n := Nat.min k (length bs)). destruct (Z.leb_spec (Z.of_nat n) 0) as [Hn|Hn].
    + intros [= <- <-]. exists [], 0%nat. replace n with 0%nat by lia.
      rewrite take_0. cbn. split_and!; try done; [lia|].
      exists (wr_some k). split; [done|]. cbn. split; [lia|done].
    + rewrite wrap32_small by lia. intros He.
      apply (IH _ _ (drop n bs)) in He as (ks & j & Hks & Hj & Hs & Ho);
        rewrite ?length_drop in *; cbn in Hf; try lia; cycle 1.
      { rewrite <- (take_drop n bs) in Hm. apply holds_app in Hm as [_ Hm].
        rewrite length_take in Hm. replace (Z.to_nat (total + Z.of_nat n))
          with (Z.to_nat total + n `min` length bs)%nat by lia. done. }
      { cbn. lia. }
      exists (k :: ks), (n + j)%nat. split; [constructor; [lia|done]|].
      split; [cbn; lia|]. split.
      { rewrite Hs. cbn [sys_out sys_writes set_write].
        by rewrite <- app_assoc, take_take_drop. }
      cbn [set_write sys_writes map app] in Ho |- *.
      destruct o as [|[]| | | |]; try done.
      * destruct Ho as (? & ? & ->). split_and!; [done|lia|done].
      * destruct Ho as (? & ? & a & -> & ?). split_and!; [done|lia|by exists a].
      * destruct Ho as (? & -> & ?). split_and!; [done|done|lia].
  - intros [= <- <-]. exists [], 0%nat. rewrite take_0, app_nil_r.
    cbn. split_and!; try done; [lia|]. by exists (wr_err e).
Qed.
End write_exact.

(** ** Messages on the wire *)

(** What the bytes of one message are on the wire. *)
Definition frame (use_header : Z) (body : bytes) : bytes :=
  if negb (use_header =? 0)
  then header_bytes (Z.of_nat (length body)) ++ body else body.

(** Where the code puts the body of a message in [buffer_send]. *)
Definition body_index (use_header : Z) : Z :=
  if negb (use_header =? 0) then 4 else 0.

Section messages.
Implicit Types (s : sys) (m : cells) (body : bytes).

(** [write_exact] of a buffer whose bytes up to [length] are the space for
    the header and [body]. *)
Lemma write_exact_sends uh m s body :
  let len := body_index uh + Z.of_nat (length body) in
  holds m (Z.to_nat (body_index uh)) body ->
  (Z.to_nat len <= length m)%nat -> len < 2 ^ 32 ->
  good_writes (length (frame uh body)) (sys_writes s) ->
  exists j m', (j <= length (frame uh body))%nat /\ length m' = length m /\
    write_exact uh m len s =
      (Return (cloudi_success : Z, m'),
       set_write (sys_out s ++ frame uh body) (drop j (sys_writes s)) s).
Proof.
  unfold write_exact, frame, body_index.
  destruct (uh =? 0) eqn:Hu; cbn [negb]; intros Hm Hl Hlt Hg.
  - destruct (write_exact_loop_good (S (length (sys_writes s))) 0 m
      (0 + Z.of_nat (length body)) s body) as (j & Hj & He); try done; try lia.
    { destruct Hg. lia. }
    exists j, m. repeat split; [done|]. crun. cnext He. by rewrite Z.ltb_irrefl.
  - set (n := Z.of_nat (length body)) in *.
    rewrite length_app, length_header_bytes in Hg |- *.
    set (m' := store m 0 (header_bytes n)).
    assert (length m' = length m) as Hl'.
    { unfold m'. rewrite length_store; rewrite ?length_header_bytes; lia. }
    assert (holds m' 0 (header_bytes n ++ body)) as Hm'.
    { apply holds_app. split; [apply holds_store_eq; lia|].
      rewrite length_header_bytes. apply holds_store_above;
        rewrite ?length_header_bytes; try done; lia. }
    destruct (write_exact_loop_good (S (length (sys_writes s))) 0 m'
      (4 + n) s (header_bytes n ++ body)) as (j & Hj & He);
      rewrite ?length_app, ?length_header_bytes; try done; try lia.
    { destruct Hg. lia. }
    rewrite length_app, length_header_bytes in Hj.
    exists j, m'. repeat split; [lia|done|].
    replace (4 + n - 4) with n by lia. rewrite wrap32_small by lia.
    rewrite decide_True by lia. crun. cnext He. by rewrite Z.ltb_irrefl.
Qed.

(** [read_all] of a message with a header. *)
Lemma read_all_receives uh buffer b1 buffer_size s body rest :
  uh <> 0 ->
  sys_in s = frame uh body ++ rest -> Z.of_nat (length body) < 2 ^ 32 ->
  good_reads (length (frame uh body)) (sys_reads s) ->
  reserve 1 (sys_realloc s) (Z.of_nat (length body)) buffer = Some (true, b1) ->
  (length body <= length (m_p b1))%nat ->
  exists j, (j <= length (frame uh body))%nat /\
    read_all uh buffer buffer_size s =
      (Return (cloudi_success : Z, set_cells b1 (store (m_p b1) 0 body),
               Z.of_nat (length body)),
       set_read rest (drop j (sys_reads s)) s).
Proof.
  unfold frame, read_all. intros Hu. rewrite (proj2 (Z.eqb_neq uh 0)) by done.
  cbn [negb]. set (n := Z.of_nat (length body)). intros Hin Hlt Hg Hr Hl.
  rewrite length_app, length_header_bytes in Hg |- *. rewrite <- app_assoc in Hin.
  destruct (read_exact_good (replicate 4 None) s (header_bytes n) (body ++ rest))
    as (j1 & Hj1 & He1); try done.
  { by apply (good_reads_le _ (4 + length body)); [cbn; lia|]. }
  rewrite length_header_bytes in Hj1.
  set (s1 := set_read (body ++ rest) (drop j1 (sys_reads s)) s) in *.
  destruct (read_exact_good (m_p b1) s1 body rest) as (j2 & Hj2 & He2); try done.
  { by apply (good_reads_drop 4). }
  exists (j1 + j2)%nat. split; [lia|].
  erewrite bind_next by (by apply call_return). cbv beta iota.
  change (negb (cloudi_success =? 0)) with false. cbv iota.
  change (store (replicate 4 None) 0 (header_bytes n)) with (Some <$> header_bytes n).
  rewrite mapM_Some. cbn [copt]. crun.
  rewrite header_roundtrip by lia. cbn [copt]. crun.
  change (sys_realloc s1) with (sys_realloc s). rewrite Hr. cbn [copt]. crun.
  cbn [negb]. erewrite bind_next by (by apply call_return). cbv beta iota.
  unfold creturn. f_equal. unfold s1, set_read. cbn. by rewrite drop_drop.
Qed.

(** [read_all] of a datagram shorter than [buffer_size]. *)
Lemma read_all_datagram buffer b1 buffer_size s body k rs :
  sys_in s = body -> sys_reads s = rd_some k :: rs ->
  (0 < length body <= k)%nat -> Z.of_nat (length body) < buffer_size < 2 ^ 31 ->
  reserve 1 (sys_realloc s) buffer_size buffer = Some (true, b1) ->
  wf b1 -> buffer_size < m_size b1 ->
  read_all 0 buffer buffer_size s =
    (Return (cloudi_success : Z, set_cells b1 (store (m_p b1) 0 body),
             Z.of_nat (length body)),
     set_read [] rs s).
Proof.
  intros Hin Hr Hk Hb Hres [Hwf _] Hs. unfold read_all. cbn [negb Z.eqb].
  crun. cbn [read_all_loop]. crun.
  rewrite Z.add_0_l, wrap32_small, Hres by lia. cbn [copt]. crun. cbn [negb].
  rewrite (proj2 (Z.ltb_lt 0 _)) by lia. cbn [cassert]. crun.
  unfold cbind at 1, sys_read. rewrite Hr, Hin.
  rewrite take_ge, drop_ge by lia. rewrite decide_True by lia.
  rewrite Z.add_0_l, wrap32_small by lia.
  assert (int32 buffer_size = buffer_size) as ->.
  { unfold int32. rewrite Z.mod_small by lia. lia. }
  rewrite (proj2 (Z.eqb_neq _ _)) by lia. rewrite (proj2 (Z.eqb_neq _ 0)) by lia.
  done.
Qed.
End messages.

(** ** Any call *)

(** What [write_exact] leaves alone, whatever it is called with. *)
Lemma write_exact_loop_keeps fuel total m len s :
  (length (sys_writes s) < fuel)%nat ->
  let '(o, s') := write_exact_loop fuel total m len s in
  (exists out ws, s' = set_write out ws s) /\
  match o with Return (_, m') => m' = m | NoFuel => False | _ => True end.
Proof.
  revert total s. induction fuel as [|fuel IH]; intros total s Hf; [lia|].
  cbn [write_exact_loop]. destruct (total <? len).
  2:{ split; [|done]. exists (sys_out s), (sys_writes s). by destruct s. }
  assert (exists out ws, s = set_write out ws s) as Hid
    by (exists (sys_out s), (sys_writes s); by destruct s).
  destruct (load _ _ _) as [data|]; cbn [copt]; [|done].
  unfold cbind at 1, cret. unfold cbind at 1, sys_write.
  destruct (sys_writes s) as [|[k|e] ws] eqn:Hw.
  - done.
  - cbv zeta. destruct (_ <=? 0).
    + split; [by eexists _, _|done].
    + set (s1 := set_write _ ws s).
      specialize (IH (wrap32 (total + Z.of_nat (Nat.min k (length data)))) s1).
      destruct (write_exact_loop _ _ _ _ s1) as [o s'].
      destruct IH as [(out & ws' & ->) Ho]; [cbn in *; lia|].
      split; [by eexists _, _|done].
  - split; [by eexists _, _|done].
Qed.

Lemma write_exact_keeps uh m len s :
  let '(o, s') := write_exact uh m len s in
  (exists out ws, s' = set_write out ws s) /\
  match o with
  | Return (_, m') => length m' = length m | Next _ | NoFuel => False | _ => True
  end.
Proof.
  assert (exists out ws, s = set_write out ws s) as Hid
    by (exists (sys_out s), (sys_writes s); by destruct s).
  unfold write_exact.
  assert (let '(o, s') := ((if negb (uh =? 0)
     then let length_body := wrap32 (len - 4) in
          if decide (4 <= length m)%nat
          then cret (store m 0 (header_bytes length_body)) else cundef
     else cret m) : C sys (Z * cells) cells) s in s' = s /\
    match o with Next m' => length m' = length m | Undef => True
               | Return _ | _ => False end) as H.
  { destruct (uh =? 0); cbn [negb]; [done|]. case_decide; [|done].
    split; [done|]. apply length_store. rewrite length_header_bytes. lia. }
  unfold cbind at 1.
  match type of H with (let '(_, _) := ?c in _) => destruct c as [o s1] end.
  destruct H as [-> Ho]. destruct o as [m'|[]| | | |]; try done.
  unfold creads. unfold cbind at 1. unfold cbind at 1.
  pose proof (write_exact_loop_keeps (S (length (sys_writes s))) 0 m' len s) as H.
  destruct (write_exact_loop _ _ _ _ _) as [o s'].
  destruct H as [Hs H]; [lia|]. destruct o as [t|[]| | | |]; try done.
  - by destruct (len <? t).
  - by subst.
Qed.

(** [s'] is [s] after some reading and polling. *)
Definition shrinks (s s' : sys) : Prop :=
  (length (sys_in s') <= length (sys_in s))%nat /\
  (length (sys_polls s') <= length (sys_polls s))%nat /\
  (length (sys_reads s') <= length (sys_reads s))%nat.

Lemma shrinks_refl s : shrinks s s.
Proof. unfold shrinks. lia. Qed.
Lemma shrinks_trans s1 s2 s3 : shrinks s1 s2 -> shrinks s2 s3 -> shrinks s1 s3.
Proof. unfold shrinks. lia. Qed.

(** Bytes taken from the stream between two states. *)
Definition taken (s s' : sys) : Z :=
  Z.of_nat (length (sys_in s)) - Z.of_nat (length (sys_in s')).

Lemma read_exact_loop_keeps fuel total m len s :
  (length (sys_reads s) < fuel)%nat -> 0 <= total ->
  let '(o, s') := read_exact_loop fuel total m len s in
  shrinks s s' /\
  match o with
  | Next (t, m') => length m' = length m /\ len <= t <= total + taken s s'
  | Return (st, m') => length m' = length m /\ st <> 0
  | NoFuel => False
  | _ => True
  end.
Proof.
  revert total m s. induction fuel as [|fuel IH]; intros total m s Hf H0; [lia|].
  cbn [read_exact_loop]. destruct (Z.ltb_spec total len).
  2:{ split; [apply shrinks_refl|]. unfold taken. split; [done|lia]. }
  unfold cbind at 1, sys_read. destruct (sys_reads s) as [|[k|e] rs] eqn:Hr.
  - split; [apply shrinks_refl|done].
  - set (n := Nat.min k _). set (s1 := set_read (drop n (sys_in s)) rs s).
    assert (shrinks s s1) as Hs1.
    { unfold shrinks, s1. cbn. rewrite length_drop, Hr. cbn. lia. }
    assert (Z.of_nat (length (take n (sys_in s))) = taken s s1) as Ht.
    { unfold taken, s1. cbn. rewrite length_take, length_drop. lia. }
    destruct (take n (sys_in s)) as [|b l] eqn:Hb; [by split; [|split]|].
    rewrite <- Hb in *. case_decide as Hd; [|done].
    specialize (IH (wrap32 (total + Z.of_nat (length (take n (sys_in s)))))
      (store m (Z.to_nat total) (take n (sys_in s))) s1).
    destruct (read_exact_loop _ _ _ _ s1) as [o s'].
    destruct IH as [Hsh Ho]; [cbn in *; lia|apply wrap32_range|].
    split; [by eapply shrinks_trans|].
    pose proof (Z.mod_le (total + Z.of_nat (length (take n (sys_in s)))) (2 ^ 32)) as Hw.
    rewrite length_store in Ho by done. unfold wrap32 in Ho.
    destruct o as [[]|[]| | | |]; try done. unfold taken in *. lia.
  - split; [unfold shrinks; cbn; rewrite Hr; cbn; lia|].
    pose proof (errno_read_range e). split; [done|lia].
Qed.

Lemma read_exact_keeps m len s :
  let '(o, s') := read_exact m len s in
  shrinks s s' /\
  match o with
  | Return (st, m') => length m' = length m /\ (st = 0 -> len <= taken s s')
  | Next _ | NoFuel => False
  | _ => True
  end.
Proof.
  unfold read_exact, creads. unfold cbind at 1. unfold cbind at 1.
  pose proof (read_exact_loop_keeps (S (length (sys_reads s))) 0 m len s) as H.
  destruct (read_exact_loop _ _ _ _ _) as [o s']. destruct H as [Hs H]; [lia..|].
  destruct o as [[t m']|[]| | | |]; try done.
  - destruct (len <? t); (split; [done|]); (split; [apply H|]); [done|]. lia.
  - split; [done|]. split; [apply H|]. intros ->. by destruct H.
Qed.

Lemma data_ready_keeps ready s :
  let '(o, s') := data_ready ready s in
  shrinks s s' /\ sys_in s' = sys_in s /\
  match o with Next _ | NoFuel => False | _ => True end.
Proof.
  unfold data_ready, sys_poll. unfold cbind.
  destruct (sys_polls s) as [|[] ps] eqn:Hp; cbn; rewrite ?Hp;
    unfold shrinks; cbn; rewrite ?Hp; cbn; (split; [lia|done]).
Qed.


Lemma set_cells_wf (b : buffer_t) m :
  wf b -> length m = length (m_p b) -> wf (set_cells b m).
Proof. intros [H1 H2] Hl. split; cbn; lia. Qed.

Lemma read_all_loop_keeps fuel buffer total buffer_size s :
  wf buffer -> (length (sys_reads s) < fuel)%nat -> 0 <= total ->
  let '(o, s') := read_all_loop fuel buffer total buffer_size s in
  shrinks s s' /\
  match o with
  | Return (st, b, t) => wf b /\ 0 <= t <= total + taken s s'
  | Next _ | NoFuel => False
  | _ => True
  end.
Proof.
  revert buffer total s. induction fuel as [|fuel IH]; intros buffer total s Hwf Hf H0;
    [lia|]. cbn [read_all_loop].
  unfold creads. unfold cbind at 1.
  destruct (reserve _ _ _ buffer) as [[b b1]|] eqn:Hr; cbn [copt];
    [|by split; [apply shrinks_refl|]].
  apply reserve_wf in Hr; [|done]. unfold cbind at 1, cret.
  assert (forall (b : buffer_t) s', shrinks s s' -> wf b ->
    shrinks s s' /\ wf b /\ 0 <= total <= total + taken s s') as Hend.
  { intros b0 s' Hs Hb. split; [done|]. split; [done|]. unfold taken.
    destruct Hs. lia. }
  destruct b; cbn [negb]; [|apply Hend; [apply shrinks_refl|done]].
  unfold cbind at 1. destruct (total <? m_size b1); cbn [cassert];
    [|by split; [apply shrinks_refl|]]. unfold cret.
  unfold cbind at 1, sys_read. destruct (sys_reads s) as [|[k|e] rs] eqn:Hrs.
  - by split; [apply shrinks_refl|].
  - set (n := Nat.min k _). set (s1 := set_read (drop n (sys_in s)) rs s).
    set (bs := take n (sys_in s)).
    assert (shrinks s s1) as Hs1.
    { unfold shrinks, s1. cbn. rewrite length_drop, Hrs. cbn. lia. }
    assert (Z.of_nat (length bs) = taken s s1) as Ht.
    { unfold taken, s1, bs. cbn. rewrite length_take, length_drop. lia. }
    case_decide as Hd; [|by split]. cbv zeta.
    set (b2 := set_cells b1 _).
    assert (wf b2) as Hb2 by (apply set_cells_wf; [done|by apply length_store]).
    set (t1 := wrap32 (total + Z.of_nat (length bs))).
    assert (0 <= t1 <= total + taken s s1) as Ht1.
    { pose proof (Z.mod_le (total + Z.of_nat (length bs)) (2 ^ 32)).
      pose proof (wrap32_range (total + Z.of_nat (length bs))).
      unfold t1, wrap32 in *. lia. }
    destruct (_ || _); [|by split].
    unfold cbind at 1, call. pose proof (data_ready_keeps true s1) as Hdr.
    destruct (data_ready true s1) as [o s2]. destruct Hdr as (Hs2 & Hin & Ho).
    assert (shrinks s s2) as Hs02 by (by eapply shrinks_trans).
    assert (taken s s2 = taken s s1) as Et by (unfold taken; by rewrite Hin).
    destruct o as [?|[st ready]| | | |]; try done.
    assert (shrinks s s2 /\ wf b2 /\ 0 <= t1 <= total + taken s s2) as Hend2
      by (by rewrite Et).
    destruct (negb (st =? 0)); [done|]. destruct ready; [|done].
    specialize (IH b2 t1 s2 Hb2). destruct (read_all_loop _ _ _ _ s2) as [o s3].
    destruct IH as [Hs3 Ho3]; [|lia|].
    { destruct Hs2 as (_ & _ & Hl). unfold s1 in Hl. cbn in Hl, Hf. lia. }
    split; [by eapply shrinks_trans|].
    destruct o as [?|[[st' b'] t']| | | |]; try done.
    split; [apply Ho3|]. unfold taken in *. lia.
  - apply Hend; [|done]. unfold shrinks. cbn. rewrite Hrs. cbn. lia.
Qed.

Lemma read_all_keeps uh buffer buffer_size s :
  wf buffer ->
  let '(o, s') := read_all uh buffer buffer_size s in
  shrinks s s' /\
  match o with
  | Return (st, b, t) => wf b /\ (st = 0 -> 0 <= t <= taken s s')
  | Next _ | NoFuel => False
  | _ => True
  end.
Proof.
  intros Hwf. unfold read_all. destruct (negb (uh =? 0)); cycle 1.
  { unfold creads. unfold cbind at 1.
    pose proof (read_all_loop_keeps (S (length (sys_reads s))) buffer 0 buffer_size s) as H.
    destruct (read_all_loop _ _ _ _ _) as [o s']. destruct H as [Hs H]; [done|lia..|].
    split; [done|]. destruct o as [|[[??]?]| | | |]; try done.
    destruct H. split; [done|lia]. }
  unfold cbind at 1, call. pose proof (read_exact_keeps (replicate 4 None) 4 s) as H.
  destruct (read_exact _ _ s) as [o s1]. destruct H as [Hs1 H].
  destruct o as [|[st h]| | | |]; try done.
  destruct (st =? 0) eqn:Est; cbn [negb]; [|split; [done|]; split; [done|lia]].
  destruct (mapM id h) as [hb|]; cbn [copt]; [|done]. unfold cbind at 1, cret.
  destruct (header_length hb) as [len|] eqn:Hlen; cbn [copt]; [|done].
  unfold cbind at 1, cret. unfold creads. unfold cbind at 1.
  destruct (reserve _ _ _ buffer) as [[b b1]|] eqn:Hr; cbn [copt]; [|done].
  apply reserve_wf in Hr; [|done]. unfold cbind at 1, cret.
  destruct b; cbn [negb]; [|split; [done|]; split; [done|by cbn; lia]].
  unfold cbind at 1. pose proof (read_exact_keeps (m_p b1) len s1) as H2.
  destruct (read_exact _ _ s1) as [o s2]. destruct H2 as [Hs2 H2].
  assert (shrinks s s2) as Hs by (by eapply shrinks_trans).
  destruct o as [|[st2 m]| | | |]; try done. destruct H2 as [Hm H2].
  split; [done|]. split; [by apply set_cells_wf|]. intros ->. specialize (H2 eq_refl).
  assert (0 <= len).
  { revert Hlen. unfold header_length. repeat case_match; try done.
    intros [= <-]. apply wrap32_range. }
  unfold taken in *. destruct Hs1 as [Hs1 _]. lia.
Qed.

(** ** Properties *)

(** What the environment sees of [write_exact] of a body in place, for every
    script of answers. *)
Lemma write_exact_frame uh m s body o s' :
  let len := body_index uh + Z.of_nat (length body) in
  holds m (Z.to_nat (body_index uh)) body ->
  (Z.to_nat len <= length m)%nat -> len < 2 ^ 32 ->
  write_exact uh m len s = (o, s') ->
  exists m' o', holds m' 0 (frame uh body) /\ length m' = length m /\
    write_exact_loop (S (length (sys_writes s))) 0 m' len s = (o', s') /\
    o = match o' with
        | Next total => Return (if len <? total
              then cloudi_error_write_overflow : Z else cloudi_success : Z, m')
        | Return r => Return r
        | Throw e => Throw e
        | Undef => Undef
        | Blocked => Blocked
        | NoFuel => NoFuel
        end.
Proof.
  intros len Hm Hl Hlt. unfold write_exact, frame.
  assert (exists m', holds m' 0 (frame uh body) /\ length m' = length m /\
    (if negb (uh =? 0)
     then if decide (4 <= length m)%nat
          then cret (store m 0 (header_bytes (wrap32 (len - 4)))) else cundef
     else cret m) s = (Next (R := Z * cells) m', s)) as (m' & Hh & Hl' & He).
  { unfold len, body_index, frame in *. destruct (uh =? 0); cbn [negb] in *.
    - exists m. done.
    - rewrite decide_True by lia. rewrite Z.add_simpl_l, wrap32_small by lia.
      eexists. split; [|split; [|done]].
      + apply holds_app. split; [apply holds_store_eq; lia|].
        rewrite length_header_bytes. apply holds_store_above;
          rewrite ?length_header_bytes; try done; lia.
      + apply length_store. rewrite length_header_bytes. lia. }
  cbn zeta. erewrite bind_next by apply He. cbv beta.
  unfold creads. unfold cbind at 1. unfold cbind at 1.
  destruct (write_exact_loop (S (length (sys_writes s))) 0 m' len s)
    as [o' s1] eqn:Hw. intros Ho.
  exists m', o'. split; [done|]. split; [done|].
  destruct o' as [t| | | | |]; try by injection Ho as <- <-.
  destruct (len <? t); by injection Ho as <- <-.
Qed.

(** The first [write] fails. *)
Lemma write_exact_error uh m s body e ws :
  let len := body_index uh + Z.of_nat (length body) in
  holds m (Z.to_nat (body_index uh)) body ->
  (Z.to_nat len <= length m)%nat -> 0 < len < 2 ^ 32 ->
  sys_writes s = wr_err e :: ws ->
  exists m', length m' = length m /\
    write_exact uh m len s =
      (Return (errno_write e : Z, m'), set_write (sys_out s) ws s).
Proof.
  intros len Hm Hl [Hpos Hlt] Hw.
  destruct (write_exact uh m len s) as [o s'] eqn:He.
  destruct (write_exact_frame _ _ _ _ _ _ Hm Hl Hlt He)
    as (m' & o' & Hh & Hlm & Hwl & ->).
  exists m'. split; [done|]. fold len in Hwl. revert Hwl. cbn [write_exact_loop].
  rewrite (proj2 (Z.ltb_lt 0 _)) by lia. rewrite Z.sub_0_r.
  assert (len = Z.of_nat (length (frame uh body))) as Hlen.
  { unfold len, frame, body_index. destruct (uh =? 0); cbn [negb];
      rewrite ?length_app, ?length_header_bytes; lia. }
  rewrite Hlen at 1. rewrite Nat2Z.id. change (Z.to_nat 0) with 0%nat.
  rewrite (load_holds _ _ _ Hh). cbn [copt].
  unfold cbind at 1, cret. unfold cbind at 1, sys_write. rewrite Hw.
  by intros [= <- <-].
Qed.

(** A socket whose peer takes and sends a few bytes at a time; used by the
    examples of this file. *)
Definition example_sys (i : bytes) : sys :=
  mk_sys i (replicate 300 (rd_some 3)) [] (replicate 300 (wr_some 2)) [] []
    (fun _ => true).

(** C8. [write_exact], whatever [write] answers: what reaches the peer is the
    prefix of the frame of the message that the answers [ks], each of at least
    one byte, took.  The status is success when that is the whole frame.  Where
    the next answer is an error the status is that of its [errno], where it is
    that no bytes were taken the status is [cloudi_error_write_null], and less
    than the frame was written; it is never the overflow the last test of the
    function looks for.  The loop ends unless [write] never answers. *)
Theorem write_exact_sound uh m s body o s'
    (Hm : holds m (Z.to_nat (body_index uh)) body)
    (Hl : (Z.to_nat (body_index uh + Z.of_nat (length body)) <= length m)%nat)
    (Hlt : body_index uh + Z.of_nat (length body) < 2 ^ 32)
    (He : write_exact uh m (body_index uh + Z.of_nat (length body)) s = (o, s')) :
  exists ks n, Forall (lt 0) ks /\ n = Nat.min (sum_list ks) (length (frame uh body)) /\
    s' = set_write (sys_out s ++ take n (frame uh body)) (sys_writes s') s /\
    match o with
    | Return (status, _) =>
        (status = cloudi_success /\ n = length (frame uh body) /\
         sys_writes s = map wr_some ks ++ sys_writes s') \/
        ((n < length (frame uh body))%nat /\ status <> cloudi_error_write_overflow /\
         exists a, sys_writes s = map wr_some ks ++ a :: sys_writes s' /\ write_fails a status)
    | Blocked => sys_writes s' = [] /\ sys_writes s = map wr_some ks /\
        (n < length (frame uh body))%nat
    | _ => False
    end.
Proof.
  destruct (write_exact_frame _ _ _ _ _ _ Hm Hl Hlt He)
    as (m' & o' & Hh & Hlm & Hw & ->).
  assert (0 + Z.of_nat (length (frame uh body)) =
          body_index uh + Z.of_nat (length body)) as Hlen.
  { unfold frame, body_index. destruct (uh =? 0); cbn [negb];
      rewrite ?length_app, ?length_header_bytes; lia. }
  rewrite <- Hlen in Hw |- *.
  apply (write_exact_loop_sound _ _ _ _ _ (frame uh body)) in Hw
    as (ks & n & Hks & Hn & Hs & Ho); try done; try lia.
  exists ks, n. split; [done|]. split; [done|]. split; [done|].
  destruct o' as [t|[]| | | |]; try done.
  - destruct Ho as (-> & ? & ?). rewrite Z.ltb_irrefl. by left.
  - destruct Ho as (_ & ? & a & ? & Ha). right. split; [done|].
    split; [by apply (write_fails_range a)|by exists a].
Qed.

(** Three bytes are taken, then the peer is gone. *)
Lemma write_exact_sound_witness :
  let body := chars "hello" in
  let m := store (replicate 16 None) 4 body in
  let s := set_write [] [wr_some 3; wr_err EPIPE] (example_sys []) in
  exists m' s', write_exact 1 m 9 s = (Return (99, m'), s') /\
    exists ks n, n = Nat.min (sum_list ks) 9 /\
    s' = set_write ([] ++ take n (frame 1 body)) [] s /\
    exists a, [wr_some 3; wr_err EPIPE] = map wr_some ks ++ [a] /\ write_fails a 99.
Proof.
  cbv zeta. set (m := store _ _ _). set (s := set_write _ _ _).
  assert (exists m' s', write_exact 1 m 9 s = (Return (99, m'), s') /\ sys_writes s' = [])
    as (m' & s' & He & Hw) by (eexists _, _; vm_compute; done).
  exists m', s'. split; [exact He|].
  destruct (write_exact_sound 1 m s (chars "hello") _ _ eq_refl ltac:(vm_compute; lia)
    ltac:(vm_compute; done) He) as (ks & n & _ & Hn & Hs & [[H _]|(_ & _ & a & Ha & Hf)]);
    [by vm_compute in H|].
  exists ks, n. split; [exact Hn|]. rewrite Hw in Hs, Ha.
  split; [exact Hs|]. exists a. split; [exact Ha|exact Hf].
Defined.

(** [read_exact], whatever [read] answers: the bytes it stores are the
    next bytes of the stream in order, exactly [length] of them when the
    status is success; otherwise fewer, with one of the read errors.  It never
    reads past [length], and it ends unless [read] never answers. *)
Theorem read_exact_sound m len s o s'
    (H0 : 0 <= len < 2 ^ 32) (Hm : (Z.to_nat len <= length m)%nat)
    (He : read_exact m len s = (o, s')) :
  exists bs, sys_in s = bs ++ sys_in s' /\
    s' = set_read (sys_in s') (sys_reads s') s /\
    match o with
    | Return (status, m') => m' = store m 0 bs /\
        (status = cloudi_success /\ Z.of_nat (length bs) = len \/
         81 <= status <= 90 /\ Z.of_nat (length bs) < len)
    | Blocked => sys_reads s' = []
    | _ => False
    end.
Proof.
  revert He. unfold read_exact. unfold creads. unfold cbind at 1.
  unfold cbind at 1.
  destruct (read_exact_loop (S (length (sys_reads s))) 0 m len s) as [o' s1] eqn:Hr.
  apply read_exact_loop_sound in Hr as (bs & Hin & Hs & Ho); try done; try lia.
  intros He. exists bs.
  destruct o' as [[t m']|[st m']| | | |]; try done.
  - destruct Ho as (-> & Hb & ->). rewrite Z.ltb_irrefl in He.
    injection He as <- <-. repeat split; try done. left. split; [done|lia].
  - destruct Ho as (Hst & Hb & ->). injection He as <- <-.
    repeat split; try done. right. lia.
  - by injection He as <- <-.
Qed.

Lemma read_exact_sound_witness :
  let s := set_read (chars "hello") [rd_some 3; rd_err EINTR] (example_sys []) in
  exists bs, chars "hello" = bs ++ sys_in (snd (read_exact (replicate 8 None) 5 s)) /\
    fst (read_exact (replicate 8 None) 5 s) =
      Return (84, store (replicate 8 None) 0 bs) /\ Z.of_nat (length bs) < 5.
Proof.
  cbv zeta.
  destruct (read_exact_sound (replicate 8 None) 5
    (set_read (chars "hello") [rd_some 3; rd_err EINTR] (example_sys []))
    _ _ ltac:(lia) ltac:(vm_compute; lia) (surjective_pairing _))
    as (bs & Hin & _ & Hm & [[H _]|[_ H]]).
  - by vm_compute in H.
  - exists bs. split; [exact Hin|]. split; [|exact H]. by rewrite <- Hm.
Defined.

(** C7. A message written by [write_exact] with a header and read by
    [read_all] arrives unchanged: whatever pieces the stream is cut into on
    either side, [read_all] leaves the body at the start of its buffer,
    reports its length and takes nothing of what follows it. *)
Theorem message_roundtrip uh body m s r rest buffer b1 buffer_size
    (Hu : uh <> 0) (Hm : holds m 4 body)
    (Hl : (4 + length body <= length m)%nat)
    (Hlt : 4 + Z.of_nat (length body) < 2 ^ 32)
    (Hw : good_writes (4 + length body) (sys_writes s)) (Hout : sys_out s = [])
    (Hr : good_reads (4 + length body) (sys_reads r))
    (Hres : reserve 1 (sys_realloc r) (Z.of_nat (length body)) buffer = Some (true, b1))
    (Hb : (length body <= length (m_p b1))%nat) :
  exists m' s', write_exact uh m (4 + Z.of_nat (length body)) s =
      (Return (cloudi_success : Z, m'), s') /\
    (sys_in r = sys_out s' ++ rest ->
     exists b r', read_all uh buffer buffer_size r =
        (Return (cloudi_success : Z, b, Z.of_nat (length body)), r') /\
      holds (m_p b) 0 body /\ sys_in r' = rest).
Proof.
  assert (body_index uh = 4) as Hi
    by (unfold body_index; by rewrite (proj2 (Z.eqb_neq uh 0))).
  assert (length (frame uh body) = 4 + length body)%nat as Hf
    by (unfold frame; rewrite (proj2 (Z.eqb_neq uh 0)) by done; done).
  destruct (write_exact_sends uh m s body) as (j & m' & Hj & Hm' & He);
    rewrite ?Hi, ?Hf in *; try done; try lia.
  eexists m', _. split; [exact He|]. intros Hin. rewrite Hout in Hin.
  destruct (read_all_receives uh buffer b1 buffer_size r body rest)
    as (k & Hk & Hrd); rewrite ?Hf; try done; try lia.
  eexists _, _. split; [exact Hrd|]. split; [|done].
  apply holds_store_eq. lia.
Qed.

Lemma message_roundtrip_witness :
  let m := store (replicate 16 None) 4 (chars "hello") in
  exists m' s', write_exact 1 m 9 (example_sys []) =
      (Return (cloudi_success : Z, m'), s') /\
    exists b r', read_all 1 (construct 1 8 64) 0 (example_sys (sys_out s' ++ chars "next")) =
        (Return (cloudi_success : Z, b, 5), r') /\
      holds (m_p b) 0 (chars "hello") /\ sys_in r' = chars "next".
Proof.
  cbv zeta.
  assert (forall i, exists m' s',
    write_exact 1 (store (replicate 16 None) 4 (chars "hello")) 9 (example_sys []) =
      (Return (cloudi_success : Z, m'), s') /\
    (sys_in (example_sys i) = sys_out s' ++ chars "next" ->
     exists b r', read_all 1 (construct 1 8 64) 0 (example_sys i) =
        (Return (cloudi_success : Z, b, 5), r') /\
      holds (m_p b) 0 (chars "hello") /\ sys_in r' = chars "next")) as H.
  { intros i.
    apply (message_roundtrip 1 (chars "hello") _ (example_sys []) (example_sys i)
      (chars "next") (construct 1 8 64) (construct 1 8 64) 0); try done;
      try (apply good_writes_replicate || apply good_reads_replicate);
      vm_compute; lia. }
  destruct (H []) as (m' & s' & He & _). exists m', s'. split; [exact He|].
  destruct (H (sys_out s' ++ chars "next")) as (m2 & s2 & He2 & H2).
  assert (s2 = s') as -> by congruence. by apply H2.
Defined.
