(* ===== verification/Lookup.v ===== *)
(** * Subscriptions  (class callback_function_lookup, cloudi.cpp)

    The map from a service name pattern to the queue of callback functions
    subscribed with it.  [find] hands out the callbacks of a pattern in
    turns. *)

From S2P Require Import Prelude CMonad.

Section lookup.
(** What a user subscribes: a callback function of the program. *)
Context {F : Type}.

(** class callback_function: a user's function, or the one that does
    nothing ([null_response()]). *)
Inductive callback_function : Type :=
| callback_user (f : F)
| callback_null_response.

(** class callback_function_queue.  The list is behind a shared_ptr; the
    map holds the only queue object of a pattern. *)
Record callback_function_queue : Type := mk_queue {
  m_queue : list callback_function;
  queue_size : Z                       (* size_t m_size *)
}.

Definition queue_new (f : callback_function) : callback_function_queue :=
  mk_queue [f] 1.

Definition queue_push_back (f : callback_function) (q : callback_function_queue) :=
  mk_queue (m_queue q ++ [f]) (queue_size q + 1).

(** [pop_front]: the list's [pop_front] of an empty list is undefined; then
    [assert(m_size > 0)]. *)
Definition queue_pop_front {St R : Type} (q : callback_function_queue) :
  C St R callback_function_queue :=
  match m_queue q with
  | [] => cundef
  | _ :: l =>
      cassert (0 <? queue_size q);;;
      cret (mk_queue l (queue_size q - 1))
  end.

Definition queue_empty (q : callback_function_queue) : bool := queue_size q =? 0.

(** [cycle]: the front, moved to the back when there are others. *)
Definition queue_cycle (q : callback_function_queue) :
  option (callback_function * callback_function_queue) :=
  match m_queue q with
  | [] => None
  | f :: l =>
      if queue_size q =? 1 then Some (f, q)
      else Some (f, mk_queue (l ++ [f]) (queue_size q))
  end.

(** [m_lookup] *)
Abbreviation lookup_t := (gmap bytes callback_function_queue).

Definition lookup_insert (pattern : bytes) (f : callback_function)
    (m_lookup : lookup_t) : lookup_t :=
  match m_lookup !! pattern with
  | None => <[pattern := queue_new f]> m_lookup
  | Some q => <[pattern := queue_push_back f q]> m_lookup
  end.

Definition lookup_remove {St R : Type} (pattern : bytes) (m_lookup : lookup_t) :
  C St R (bool * lookup_t) :=
  match m_lookup !! pattern with
  | None => cret (false, m_lookup)
  | Some q =>
      let* q := queue_pop_front q in
      if queue_empty q then cret (true, delete pattern m_lookup)
      else cret (true, <[pattern := q]> m_lookup)
  end.

Definition lookup_find (pattern : bytes) (m_lookup : lookup_t) :
  option (callback_function * lookup_t) :=
  match m_lookup !! pattern with
  | None => Some (callback_null_response, m_lookup)
  | Some q =>
      '(f, q) ← queue_cycle q;
      Some (f, <[pattern := q]> m_lookup)
  end.

(** ** Specification

    A pattern has a sequence of callbacks, the next one to be called
    first. *)

Definition abs (m_lookup : lookup_t) (pattern : bytes) : list callback_function :=
  match m_lookup !! pattern with Some q => m_queue q | None => [] end.

(** Every queue in the map counts its elements and has one. *)
Definition lookup_wf (m_lookup : lookup_t) : Prop :=
  map_Forall (fun _ q => queue_size q = Z.of_nat (length (m_queue q)) /\
                         m_queue q <> []) m_lookup.

(** The sequences the operations specify: a subscription is the last in
    turn, an unsubscription takes the next in turn, a call moves the next
    in turn to the end. *)
Definition rotate (l : list callback_function) : list callback_function :=
  match l with [] => [] | f :: l => l ++ [f] end.

Definition upd (a : bytes -> list callback_function) (k : bytes) l :=
  fun k' => if decide (k = k') then l else a k'.

Lemma lookup_wf_lookup m k q :
  lookup_wf m -> m !! k = Some q ->
  queue_size q = Z.of_nat (length (m_queue q)) /\ m_queue q <> [].
Proof. intros H Hk. by apply (H k q). Qed.

Lemma lookup_insert_refines pattern f m :
  lookup_wf m ->
  lookup_wf (lookup_insert pattern f m) /\
  forall k, abs (lookup_insert pattern f m) k =
            upd (abs m) pattern (abs m pattern ++ [f]) k.
Proof.
  intros Hwf. unfold lookup_insert, abs, upd.
  destruct (m !! pattern) as [q|] eqn:Hq; split.
  - apply map_Forall_insert_2; [|done]. destruct (lookup_wf_lookup _ _ _ Hwf Hq).
    cbn. rewrite length_app. cbn. split; [lia|]. by destruct (m_queue q).
  - intros k. case_decide as Hk; [subst; by rewrite lookup_insert_eq|].
    by rewrite lookup_insert_ne.
  - apply map_Forall_insert_2; [|done]. done.
  - intros k. case_decide as Hk; [subst; by rewrite lookup_insert_eq|].
    by rewrite lookup_insert_ne.
Qed.

Lemma lookup_remove_refines {St R : Type} pattern m (s : St) :
  lookup_wf m ->
  exists m', lookup_remove (R := R) pattern m s =
    (Next (bool_decide (abs m pattern <> []), m'), s) /\
  lookup_wf m' /\ forall k, abs m' k = upd (abs m) pattern (tail (abs m pattern)) k.
Proof.
  intros Hwf. unfold lookup_remove.
  destruct (m !! pattern) as [q|] eqn:Hq; cycle 1.
  { exists m. unfold abs, upd. rewrite Hq. cbn. split; [done|]. split; [done|].
    intros k. case_decide; subst; by rewrite ?Hq. }
  destruct (lookup_wf_lookup _ _ _ Hwf Hq) as [Hs Hne].
  destruct q as [[|f l] n]; [done|]. cbn in Hs. subst n.
  unfold queue_pop_front. cbn [m_queue queue_size]. unfold cbind.
  unfold cassert. rewrite (proj2 (Z.ltb_lt 0 _)) by lia. cbn [cret].
  rewrite bool_decide_true by (unfold abs; by rewrite Hq).
  unfold queue_empty. cbn [queue_size cret]. destruct (Z.eqb_spec (Z.of_nat (S (length l)) - 1) 0) as [H|H].
  - destruct l as [|]; [|cbn in H; lia].
    exists (delete pattern m). split; [done|]. split; [by apply map_Forall_delete|].
    intros k. unfold abs, upd. rewrite Hq. case_decide; subst.
    + by rewrite lookup_delete_eq.
    + by rewrite lookup_delete_ne.
  - eexists. split; [done|]. split.
    + apply map_Forall_insert_2; [|done]. cbn. split; [lia|].
      destruct l; [cbn in H; lia|done].
    + intros k. unfold abs, upd. rewrite Hq. case_decide; subst.
      * by rewrite lookup_insert_eq.
      * by rewrite lookup_insert_ne.
Qed.

Lemma lookup_find_refines pattern m :
  lookup_wf m ->
  exists m', lookup_find pattern m =
    Some (default callback_null_response (head (abs m pattern)), m') /\
  lookup_wf m' /\ forall k, abs m' k = upd (abs m) pattern (rotate (abs m pattern)) k.
Proof.
  intros Hwf. unfold lookup_find.
  destruct (m !! pattern) as [q|] eqn:Hq; cycle 1.
  { exists m. unfold abs, upd. rewrite Hq. cbn. split; [done|]. split; [done|].
    intros k. case_decide; subst; by rewrite ?Hq. }
  destruct (lookup_wf_lookup _ _ _ Hwf Hq) as [Hs Hne].
  destruct q as [[|f l] n]; [done|]. cbn in Hs. subst n.
  unfold queue_cycle. cbn [m_queue queue_size].
  assert (abs m pattern = f :: l) as Ha by (unfold abs; by rewrite Hq).
  rewrite Ha. destruct (Z.eqb_spec (Z.of_nat (S (length l))) 1) as [H|H].
  - destruct l; [|cbn in H; lia]. cbn. eexists. split; [done|].
    split; [apply map_Forall_insert_2; [|done]; by apply (Hwf _ _ Hq)|].
    intros k. unfold upd. rewrite <- Ha. case_decide; subst.
    + unfold abs at 1. by rewrite lookup_insert_eq, Ha.
    + unfold abs. by rewrite lookup_insert_ne.
  - cbn. eexists. split; [done|].
    split; [apply map_Forall_insert_2; [|done]|].
    + cbn. rewrite length_app. cbn. split; [lia|]. by destruct l.
    + intros k. unfold upd. case_decide; subst; unfold abs.
      * by rewrite lookup_insert_eq.
      * by rewrite lookup_insert_ne.
Qed.

(** ** The callbacks of a map

    All of them, with repetitions and in no particular order. *)

Definition callbacks (m_lookup : lookup_t) : list callback_function :=
  map_to_list m_lookup ≫= fun '(_, q) => m_queue q.

Lemma callbacks_insert_fresh k q m :
  m !! k = None -> callbacks (<[k := q]> m) ≡ₚ m_queue q ++ callbacks m.
Proof. intros H. unfold callbacks. by rewrite map_to_list_insert by done. Qed.

Lemma callbacks_lookup k q m :
  m !! k = Some q -> callbacks m ≡ₚ m_queue q ++ callbacks (delete k m).
Proof.
  intros H. rewrite <- (insert_delete_id m k q H) at 1.
  apply callbacks_insert_fresh, lookup_delete_eq.
Qed.

Lemma callbacks_insert k q m :
  callbacks (<[k := q]> m) ≡ₚ m_queue q ++ callbacks (delete k m).
Proof.
  rewrite <- insert_delete_eq. apply callbacks_insert_fresh, lookup_delete_eq.
Qed.

Lemma callbacks_subscribed k f m : callbacks (lookup_insert k f m) ≡ₚ f :: callbacks m.
Proof.
  unfold lookup_insert. destruct (m !! k) as [q|] eqn:Hq.
  - rewrite callbacks_insert, (callbacks_lookup _ _ _ Hq). cbn. by rewrite <- Permutation_middle, app_nil_r.
  - by rewrite callbacks_insert_fresh.
Qed.

Lemma callbacks_found k f m m' :
  lookup_find k m = Some (f, m') -> callbacks m' ≡ₚ callbacks m.
Proof.
  unfold lookup_find. destruct (m !! k) as [q|] eqn:Hq; [|by intros [= <- <-]].
  destruct (queue_cycle q) as [[f' q']|] eqn:Hc; [|done]. intros [= <- <-].
  rewrite callbacks_insert, (callbacks_lookup _ _ _ Hq). f_equiv.
  unfold queue_cycle in Hc. destruct (m_queue q) as [|x l] eqn:Hm; [done|].
  destruct (queue_size q =? 1); injection Hc as <- <-; [by rewrite Hm|].
  cbn. by rewrite Permutation_app_comm.
Qed.

Lemma callbacks_removed {St R : Type} k m (s : St) :
  lookup_wf m ->
  exists b m', lookup_remove (R := R) k m s = (Next (b, m'), s) /\ lookup_wf m' /\
    if (b : bool) then exists f, callbacks m ≡ₚ f :: callbacks m' else m' = m.
Proof.
  intros Hwf. destruct (lookup_remove_refines (R := R) k m s Hwf) as (m' & He & Hwf' & _).
  eexists _, m'. split; [exact He|]. split; [done|].
  unfold lookup_remove in He. destruct (m !! k) as [q|] eqn:Hq; cycle 1.
  { injection He as He1 He2. rewrite <- He1. by rewrite He2. }
  destruct (lookup_wf_lookup _ _ _ Hwf Hq) as [Hs Hne].
  assert (abs m k <> []) as Ha by (unfold abs; by rewrite Hq).
  rewrite bool_decide_true by done. rewrite bool_decide_true in He by done.
  unfold queue_pop_front in He. destruct q as [[|f l] n]; [done|]. cbn in Hs. subst n.
  unfold cassert, cbind in He. cbn [m_queue queue_size] in He.
  rewrite (proj2 (Z.ltb_lt 0 _)) in He by lia. cbn [cret] in He.
  exists f. rewrite (callbacks_lookup _ _ _ Hq). cbn [m_queue app]. f_equiv.
  unfold queue_empty in He. cbn [queue_size] in He.
  destruct (Z.eqb_spec (Z.of_nat (S (length l)) - 1) 0) as [H|H]; injection He as <-.
  - by destruct l; [|cbn in H; lia].
  - by rewrite callbacks_insert.
Qed.

Lemma callbacks_empty m : lookup_wf m -> callbacks m = [] -> m = ∅.
Proof.
  intros Hwf He. apply map_empty. intros k. destruct (m !! k) as [q|] eqn:Hq; [|done].
  destruct (lookup_wf_lookup _ _ _ Hwf Hq) as [_ Hne].
  pose proof (callbacks_lookup _ _ _ Hq) as Hp. rewrite He in Hp.
  apply Permutation_nil_l, eq_sym, app_eq_nil in Hp as [Hp _]. done.
Qed.

(** ** Sequences of operations *)

Inductive op : Type :=
| op_insert (pattern : bytes) (f : callback_function)
| op_remove (pattern : bytes)
| op_find (pattern : bytes).

Inductive answer : Type :=
| ans_none
| ans_removed (b : bool)
| ans_found (f : callback_function).

Definition step {St R : Type} (o : op) (m : lookup_t) : C St R (answer * lookup_t) :=
  match o with
  | op_insert k f => cret (ans_none, lookup_insert k f m)
  | op_remove k => let* (b, m) := lookup_remove k m in cret (ans_removed b, m)
  | op_find k => let* (f, m) := copt (lookup_find k m) in cret (ans_found f, m)
  end.

Fixpoint steps {St R : Type} (os : list op) (m : lookup_t) :
  C St R (list answer * lookup_t) :=
  match os with
  | [] => cret ([], m)
  | o :: os =>
      let* (a, m) := step o m in
      let* (l, m) := steps os m in
      cret (a :: l, m)
  end.

(** The same operations on the sequences they are about. *)
Definition spec_step (o : op) (a : bytes -> list callback_function) :
  answer * (bytes -> list callback_function) :=
  match o with
  | op_insert k f => (ans_none, upd a k (a k ++ [f]))
  | op_remove k => (ans_removed (bool_decide (a k <> [])), upd a k (tail (a k)))
  | op_find k =>
      (ans_found (default callback_null_response (head (a k))), upd a k (rotate (a k)))
  end.

Fixpoint spec_steps (os : list op) (a : bytes -> list callback_function) :
  list answer * (bytes -> list callback_function) :=
  match os with
  | [] => ([], a)
  | o :: os =>
      let '(x, a) := spec_step o a in
      let '(l, a) := spec_steps os a in
      (x :: l, a)
  end.

Lemma spec_steps_ext os a b :
  (forall k, a k = b k) ->
  fst (spec_steps os a) = fst (spec_steps os b) /\
  forall k, snd (spec_steps os a) k = snd (spec_steps os b) k.
Proof.
  revert a b. induction os as [|o os IH]; intros a b H; [done|]. cbn.
  assert (fst (spec_step o a) = fst (spec_step o b) /\
          forall k, snd (spec_step o a) k = snd (spec_step o b) k) as [H1 H2].
  { destruct o as [k f|k|k]; cbn; rewrite ?(H k); (split; [done|]);
      intros k'; unfold upd; case_decide; done. }
  destruct (spec_step o a) as [x a'], (spec_step o b) as [y b']. cbn in *. subst y.
  destruct (IH a' b' H2) as [H3 H4].
  destruct (spec_steps os a') as [l1 a1], (spec_steps os b') as [l2 b1].
  cbn in *. split; [by subst|done].
Qed.

Lemma step_refines {St R : Type} o m (s : St) :
  lookup_wf m ->
  exists m', step (R := R) o m s = (Next (fst (spec_step o (abs m)), m'), s) /\
    lookup_wf m' /\ forall k, abs m' k = snd (spec_step o (abs m)) k.
Proof.
  intros Hwf. destruct o as [k f|k|k]; cbn [step spec_step fst snd].
  - eexists. split; [done|]. by apply lookup_insert_refines.
  - destruct (lookup_remove_refines (R := R) k m s Hwf) as (m' & He & H).
    exists m'. split; [|done]. by erewrite bind_next by exact He.
  - destruct (lookup_find_refines k m Hwf) as (m' & He & H).
    exists m'. split; [|done]. by rewrite He.
Qed.

(** [find] [n] times. *)
Fixpoint find_n (n : nat) (k : bytes) (m : lookup_t) :
  option (list callback_function * lookup_t) :=
  match n with
  | O => Some ([], m)
  | S n =>
      '(f, m) ← lookup_find k m;
      '(l, m) ← find_n n k m;
      Some (f :: l, m)
  end.

Lemma find_n_rotates k l1 l2 m :
  lookup_wf m -> abs m k = l1 ++ l2 ->
  exists m', find_n (length l1) k m = Some (l1, m') /\ lookup_wf m' /\
    abs m' k = l2 ++ l1 /\ forall k', k' <> k -> abs m' k' = abs m k'.
Proof.
  revert l2 m. induction l1 as [|f l1 IH]; intros l2 m Hwf Ha; cbn.
  - exists m. rewrite app_nil_r. by split_and!.
  - destruct (lookup_find_refines k m Hwf) as (m1 & He & Hwf1 & Ha1).
    rewrite He, Ha. cbn.
    destruct (IH (l2 ++ [f]) m1 Hwf1) as (m' & He' & Hwf' & Ha' & Hk').
    { rewrite Ha1. unfold upd. rewrite decide_True by done. rewrite Ha. cbn.
      by rewrite app_assoc. }
    exists m'. rewrite He'. cbn. split_and!; try done.
    + by rewrite Ha', <- app_assoc.
    + intros k' Hk. rewrite Hk' by done. rewrite Ha1. unfold upd.
      by rewrite decide_False.
Qed.

(** ** Properties *)

(** C10. The map of queues implements the specification: for every sequence
    of subscriptions, unsubscriptions and calls, the answers (which callback
    runs, whether an unsubscription found one) are those of the abstract
    sequences, no assertion fails and nothing undefined happens. *)
Theorem lookup_refines {St R : Type} os m (s : St) (Hwf : lookup_wf m) :
  exists m', steps (R := R) os m s = (Next (fst (spec_steps os (abs m)), m'), s) /\
    lookup_wf m' /\ forall k, abs m' k = snd (spec_steps os (abs m)) k.
Proof.
  revert m Hwf. induction os as [|o os IH]; intros m Hwf; cbn; [by exists m|].
  destruct (step_refines (R := R) o m s Hwf) as (m1 & He & Hwf1 & Ha1).
  destruct (IH m1 Hwf1) as (m2 & He2 & Hwf2 & Ha2).
  destruct (spec_steps_ext os _ _ Ha1) as [E1 E2].
  exists m2. erewrite bind_next by exact He. cbv beta iota.
  erewrite bind_next by exact He2. cbv beta iota.
  destruct (spec_step o (abs m)) as [x a]. cbn [fst snd] in *.
  rewrite E1. destruct (spec_steps os a) as [l b]. cbn [fst snd] in *.
  split; [done|]. split; [done|]. intros k. by rewrite Ha2, E2.
Qed.

(** C11. Calls are handed out in turns: over as many calls of a pattern as it
    has callbacks, each is called exactly once, in the order of
    subscription, and the order is then the same as before; other patterns
    are not affected. *)
Theorem find_fair pattern m (Hwf : lookup_wf m) :
  exists m', find_n (length (abs m pattern)) pattern m = Some (abs m pattern, m') /\
    lookup_wf m' /\ forall k, abs m' k = abs m k.
Proof.
  destruct (find_n_rotates pattern (abs m pattern) [] m Hwf)
    as (m' & He & Hwf' & Ha & Hk); [by rewrite app_nil_r|].
  exists m'. split; [done|]. split; [done|]. intros k.
  destruct (decide (k = pattern)) as [->|]; [done|by apply Hk].
Qed.
End lookup.
#[global] Arguments callback_function : clear implicits.
#[global] Arguments callback_function_queue : clear implicits.
#[global] Arguments op : clear implicits.
#[global] Arguments answer : clear implicits.
Abbreviation lookup_t F := (gmap bytes (callback_function_queue F)).

(** The map after two subscriptions of one pattern. *)
Definition example_lookup : lookup_t nat :=
  lookup_insert (chars "/a") (callback_user 2%nat)
    (lookup_insert (chars "/a") (callback_user 1%nat) ∅).

Lemma example_lookup_wf : lookup_wf example_lookup.
Proof. by repeat apply lookup_insert_refines. Qed.

Lemma lookup_refines_witness :
  exists m', steps (R := unit) [op_find (chars "/a"); op_remove (chars "/a"); op_find (chars "/a")]
      example_lookup tt =
    (Next ([ans_found (callback_user 1%nat); ans_removed true;
            ans_found (callback_user 1%nat)], m'), tt).
Proof.
  destruct (lookup_refines (R := unit)
    [op_find (chars "/a"); op_remove (chars "/a"); op_find (chars "/a")]
    example_lookup tt example_lookup_wf) as (m' & He & _).
  exists m'. exact He.
Defined.

Lemma find_fair_witness :
  exists m', find_n 2 (chars "/a") example_lookup =
      Some ([callback_user 1%nat; callback_user 2%nat], m') /\
    lookup_wf m' /\ forall k, abs m' k = abs example_lookup k.
Proof. exact (find_fair (chars "/a") example_lookup example_lookup_wf). Defined.
