(* ===== verification/Ei.v ===== *)
(** * The interface of erl_interface (ei.h)

    The [ei_encode_*] functions are a library the repository only calls, so
    they are a parameter: what each appends to the buffer, or [None] when it
    returns an error.  [EiLaws] is what the external term format documents of
    the lengths of what they append; the properties that need it name it.
    [etf] is one implementation that meets it, after the same document: the
    witnesses are evaluated with it. *)

From S2P Require Import Prelude.

Class Ei : Type := {
  ei_encode_version : option bytes;
  ei_encode_tuple_header : Z -> option bytes;
  ei_encode_atom : bytes -> option bytes;
  ei_encode_string : bytes -> option bytes;
  ei_encode_binary : bytes -> option bytes;
  ei_encode_ulong : Z -> option bytes;
  ei_encode_long : Z -> option bytes;
  ei_encode_longlong : Z -> option bytes;
  ei_encode_ulonglong : Z -> option bytes;
  ei_encode_char : Z -> option bytes;
  ei_encode_boolean : Z -> option bytes;
  (** [ei_decode_version(buf, &index, &version)] at the start of a buffer: by
      how much [index] grows. *)
  ei_decode_version : bytes -> option nat
}.

(** The encoding of [x] succeeds, within [n] bytes. *)
Definition within (n : Z) (o : option bytes) : Prop :=
  exists bs, o = Some bs /\ Z.of_nat (length bs) <= n.

Lemma within_le n n' o : within n o -> n <= n' -> within n' o.
Proof. intros (bs & -> & H) Hn. exists bs. split; [done|]. lia. Qed.

Class EiLaws (E : Ei) : Prop := {
  version_byte : exists v, ei_encode_version = Some [v];
  tuple_header_within n : 0 <= n <= 255 -> within 2 (ei_encode_tuple_header n);
  atom_within a :
    Z.of_nat (length a) <= 255 -> within (Z.of_nat (length a) + 3) (ei_encode_atom a);
  string_within s :
    Z.of_nat (length s) <= 65535 ->
    within (Z.of_nat (length s) + 3) (ei_encode_string s);
  binary_within b :
    Z.of_nat (length b) < 2 ^ 32 ->
    within (Z.of_nat (length b) + 5) (ei_encode_binary b);
  ulong_within n : 0 <= n < 2 ^ 32 -> within 7 (ei_encode_ulong n);
  long_within n : - 2 ^ 31 <= n < 2 ^ 31 -> within 7 (ei_encode_long n);
  longlong_within n : - 2 ^ 63 <= n < 2 ^ 63 -> within 11 (ei_encode_longlong n);
  ulonglong_within n : 0 <= n < 2 ^ 64 -> within 11 (ei_encode_ulonglong n);
  char_within n : within 2 (ei_encode_char n);
  boolean_within n : within 8 (ei_encode_boolean n);
  decode_version_bound b n :
    ei_decode_version b = Some n -> (n <= length b)%nat
}.

Lemma version_within {E : Ei} {laws : EiLaws E} : within 1 ei_encode_version.
Proof. destruct version_byte as [v ->]. by eexists. Qed.

(** The bytes of consecutive terms. *)
Definition term_bytes (ts : list (option bytes)) : option bytes :=
  @concat byte <$> mapM id ts.

Lemma term_bytes_app ts us bs cs :
  term_bytes ts = Some bs -> term_bytes us = Some cs -> term_bytes (ts ++ us) = Some (bs ++ cs).
Proof.
  unfold term_bytes. destruct (mapM id ts) as [b|] eqn:Hb; [|done].
  destruct (mapM id us) as [c|] eqn:Hc; [|done]. cbn. intros [= <-] [= <-].
  apply mapM_id_Some in Hb as ->, Hc as ->.
  by rewrite <- fmap_app, mapM_Some, <- concat_app.
Qed.

Lemma term_bytes_Some ts bss : mapM id ts = Some bss -> term_bytes ts = Some (concat bss).
Proof. unfold term_bytes. by intros ->. Qed.


(** The sizes of encoded terms add up. *)
Lemma within_all ns ts :
  Forall2 within ns ts ->
  exists bss, mapM id ts = Some bss /\ Z.of_nat (length (concat bss)) <= foldr Z.add 0 ns.
Proof.
  induction 1 as [|n t ns ts (bs & -> & Hl) _ (bss & He & IH)]; [by exists []|].
  exists (bs :: bss). cbn [mapM]. cbn. rewrite He. cbn. split; [done|].
  rewrite length_app. lia.
Qed.

(** ** The external term format *)

Definition be (n : nat) (z : Z) : bytes := rev (le_split n z).

(** STRING_EXT holds at most 65535 characters; a longer list is a LIST_EXT of
    SMALL_INTEGER_EXT elements with a NIL_EXT tail. *)
Definition etf_string (s : bytes) : bytes :=
  match s with
  | [] => [byte.of_Z 106]
  | _ =>
      let n := Z.of_nat (length s) in
      if n <=? 65535 then byte.of_Z 107 :: be 2 n ++ s
      else byte.of_Z 108 :: be 4 n ++ concat (map (fun c => [byte.of_Z 97; c]) s)
             ++ [byte.of_Z 106]
  end.

Definition etf_integer (z : Z) : bytes :=
  if (0 <=? z) && (z <=? 255) then [byte.of_Z 97; byte.of_Z z]
  else if (- 2 ^ 27 <=? z) && (z <? 2 ^ 27) then byte.of_Z 98 :: be 4 z
  else
    [byte.of_Z 110; byte.of_Z 4; byte.of_Z (if z <? 0 then 1 else 0)]
      ++ le_split 4 (Z.abs z).

(** SMALL_BIG_EXT with as many bytes as a 64-bit integer has. *)
Definition etf_big (z : Z) : bytes :=
  [byte.of_Z 110; byte.of_Z 8; byte.of_Z (if z <? 0 then 1 else 0)]
    ++ le_split 8 (Z.abs z).
Definition etf_integer64 (z : Z) : bytes :=
  if (- 2 ^ 27 <=? z) && (z <? 2 ^ 27) then etf_integer z else etf_big z.
Definition etf_boolean (z : Z) : bytes :=
  let a := if z =? 0 then chars "false" else chars "true" in
  byte.of_Z 100 :: be 2 (Z.of_nat (length a)) ++ a.

#[export] Instance etf : Ei := {
  ei_encode_version := Some [byte.of_Z 131];
  ei_encode_tuple_header n := Some [byte.of_Z 104; byte.of_Z n];
  ei_encode_atom a :=
    if Z.of_nat (length a) <=? 255
    then Some (byte.of_Z 100 :: be 2 (Z.of_nat (length a)) ++ a) else None;
  ei_encode_string s := Some (etf_string s);
  ei_encode_binary b := Some (byte.of_Z 109 :: be 4 (Z.of_nat (length b)) ++ b);
  ei_encode_ulong z := Some (etf_integer z);
  ei_encode_long z := Some (etf_integer z);
  ei_encode_longlong z := Some (etf_integer64 z);
  ei_encode_ulonglong z := Some (etf_integer64 z);
  ei_encode_char z := Some [byte.of_Z 97; byte.of_Z z];
  ei_encode_boolean z := Some (etf_boolean z);
  ei_decode_version b :=
    match b with
    | v :: _ => if decide (v = byte.of_Z 131) then Some 1%nat else None
    | [] => None
    end
}.

Lemma length_be n z : length (be n z) = n.
Proof. unfold be. by rewrite length_rev, length_le_split. Qed.

Lemma length_etf_integer z : (length (etf_integer z) <= 7)%nat.
Proof.
  unfold etf_integer. repeat case_match; cbn [length app];
    rewrite ?length_be, ?length_app, ?length_le_split; cbn; lia.
Qed.

Lemma length_etf_integer64 z : (length (etf_integer64 z) <= 11)%nat.
Proof.
  unfold etf_integer64. case_match; [pose proof (length_etf_integer z); lia|].
  unfold etf_big. rewrite length_app, length_le_split. cbn. lia.
Qed.

Lemma length_etf_string s :
  Z.of_nat (length s) <= 65535 -> (length (etf_string s) <= length s + 3)%nat.
Proof.
  intros H. unfold etf_string. destruct s as [|c s]; [cbn; lia|].
  rewrite (proj2 (Z.leb_le _ _)) by done.
  cbn [length]. rewrite length_app, length_be. cbn [length]. lia.
Qed.

#[export] Instance etf_laws : EiLaws etf.
Proof.
  constructor; cbn [ei_encode_version ei_encode_tuple_header ei_encode_atom
    ei_encode_string ei_encode_binary ei_encode_ulong ei_encode_long
    ei_encode_longlong ei_encode_ulonglong ei_encode_char ei_encode_boolean etf].
  - by eexists.
  - intros n _. by eexists.
  - intros a H. rewrite (proj2 (Z.leb_le _ _)) by done. eexists. split; [done|].
    cbn [length]. rewrite length_app, length_be. lia.
  - intros s H. eexists. split; [done|]. pose proof (length_etf_string s H). lia.
  - intros b _. eexists. split; [done|]. cbn [length]. rewrite length_app, length_be. lia.
  - intros n _. eexists. split; [done|]. pose proof (length_etf_integer n). lia.
  - intros n _. eexists. split; [done|]. pose proof (length_etf_integer n). lia.
  - intros n _. eexists. split; [done|]. pose proof (length_etf_integer64 n). lia.
  - intros n _. eexists. split; [done|]. pose proof (length_etf_integer64 n). lia.
  - intros n. by eexists.
  - intros n. eexists. split; [done|]. unfold etf_boolean. by case_match.
  - intros [|v b] n; cbn; [done|]. case_decide; [|done]. intros [= <-]. lia.
Qed.
