(* ===== verification/Instance.v ===== *)
(** * The API instance  (struct cloudi_instance_t, cloudi.h)

    The record every operation works on, and the world it runs in: the
    instance and the system calls of its socket. *)

From S2P Require Import Prelude CMonad Status Sys ReallocPtr Framing Lookup.

(** A [char *] into one of the buffers: the allocation it points into and the
    index.  It dangles once the buffer has been reallocated. *)
Record ptr : Type := mk_ptr { ptr_gen : nat; ptr_off : Z }.

(** [&buffer[i]], after [operator []]'s assertion. *)
Definition ptr_to (b : buffer_t) (i : Z) : ptr := mk_ptr (m_gen b) i.

(** The [n] bytes at a pointer into [b]; none if it dangles or they are
    outside the allocation or indeterminate. *)
Definition deref (b : buffer_t) (p : ptr) (n : Z) : option bytes :=
  if decide (ptr_gen p = m_gen b)
  then load (m_p b) (Z.to_nat (ptr_off p)) (Z.to_nat n) else None.

(** The C string at the start of some cells. *)
Fixpoint cstr_of (m : cells) : option bytes :=
  match m with
  | [] | None :: _ => None
  | Some c :: m =>
      if decide (c = NUL) then Some [] else cons c <$> cstr_of m
  end.

Lemma cstr_of_app bs m :
  NUL ∉ bs -> cstr_of ((Some <$> bs) ++ Some NUL :: m) = Some bs.
Proof.
  induction bs as [|c bs IH]; intros Hn; cbn.
  - by rewrite decide_True.
  - apply not_elem_of_cons in Hn as [Hc Hn]. rewrite decide_False by done.
    by rewrite IH.
Qed.

Definition deref_cstr (b : buffer_t) (p : ptr) : option bytes :=
  if decide (ptr_gen p = m_gen b)
  then cstr_of (drop (Z.to_nat (ptr_off p)) (m_p b)) else None.

Section instance.
Context {F : Type}.

Record cloudi_instance_t : Type := mk_instance {
  p_state : Z;
  p_fd_in : Z;
  p_fd_out : Z;
  p_use_header : Z;
  p_initialization_complete : Z;
  p_terminate : Z;
  p_buffer_size : Z;
  p_lookup : lookup_t F;
  p_buffer_send : buffer_t;
  p_buffer_recv : buffer_t;
  p_buffer_recv_index : Z;
  p_buffer_call : buffer_t;
  p_process_index : Z;
  p_process_count : Z;
  p_process_count_max : Z;
  p_process_count_min : Z;
  p_prefix : option cells;          (* new char[size], or 0 *)
  p_timeout_initialize : Z;
  p_timeout_async : Z;
  p_timeout_sync : Z;
  p_timeout_terminate : Z;
  p_priority_default : Z;
  p_response_info : option ptr;
  p_response_info_size : Z;
  p_response : option ptr;
  p_response_size : Z;
  p_trans_id : option ptr;
  p_trans_id_count : Z;
  p_subscribe_count : Z
}.

(** The record rebuilt from its fields, for the setters below. *)
Definition rebuild (p : cloudi_instance_t) : cloudi_instance_t :=
  mk_instance (p_state p) (p_fd_in p) (p_fd_out p) (p_use_header p)
    (p_initialization_complete p) (p_terminate p) (p_buffer_size p) (p_lookup p)
    (p_buffer_send p) (p_buffer_recv p) (p_buffer_recv_index p) (p_buffer_call p)
    (p_process_index p) (p_process_count p) (p_process_count_max p)
    (p_process_count_min p) (p_prefix p) (p_timeout_initialize p)
    (p_timeout_async p) (p_timeout_sync p) (p_timeout_terminate p)
    (p_priority_default p) (p_response_info p) (p_response_info_size p)
    (p_response p) (p_response_size p) (p_trans_id p) (p_trans_id_count p)
    (p_subscribe_count p).
End instance.
#[global] Arguments cloudi_instance_t : clear implicits.

(** [setter F g]: the function that replaces the field [g]. *)
Ltac setter F g :=
  let e := eval cbv beta delta [rebuild] in (@rebuild F) in
  let e := eval pattern g in e in
  lazymatch e with
  | ?h _ => let r := eval cbv beta in (fun v p => h (fun _ => v) p) in exact r
  end.

Section setters.
Context {F : Type}.
Abbreviation inst := (cloudi_instance_t F).
Definition set_state : Z -> inst -> inst := ltac:(setter F (@p_state F)).
Definition set_use_header : Z -> inst -> inst := ltac:(setter F (@p_use_header F)).
Definition set_fd_in : Z -> inst -> inst := ltac:(setter F (@p_fd_in F)).
Definition set_fd_out : Z -> inst -> inst := ltac:(setter F (@p_fd_out F)).
Definition set_initialization_complete : Z -> inst -> inst := ltac:(setter F (@p_initialization_complete F)).
Definition set_terminate : Z -> inst -> inst := ltac:(setter F (@p_terminate F)).
Definition set_buffer_size : Z -> inst -> inst := ltac:(setter F (@p_buffer_size F)).
Definition set_lookup : lookup_t F -> inst -> inst := ltac:(setter F (@p_lookup F)).
Definition set_buffer_send : buffer_t -> inst -> inst := ltac:(setter F (@p_buffer_send F)).
Definition set_buffer_recv : buffer_t -> inst -> inst := ltac:(setter F (@p_buffer_recv F)).
Definition set_buffer_recv_index : Z -> inst -> inst := ltac:(setter F (@p_buffer_recv_index F)).
Definition set_buffer_call : buffer_t -> inst -> inst := ltac:(setter F (@p_buffer_call F)).
Definition set_process_index : Z -> inst -> inst := ltac:(setter F (@p_process_index F)).
Definition set_process_count : Z -> inst -> inst := ltac:(setter F (@p_process_count F)).
Definition set_process_count_max : Z -> inst -> inst := ltac:(setter F (@p_process_count_max F)).
Definition set_process_count_min : Z -> inst -> inst := ltac:(setter F (@p_process_count_min F)).
Definition set_prefix : option cells -> inst -> inst := ltac:(setter F (@p_prefix F)).
Definition set_timeout_initialize : Z -> inst -> inst := ltac:(setter F (@p_timeout_initialize F)).
Definition set_timeout_async : Z -> inst -> inst := ltac:(setter F (@p_timeout_async F)).
Definition set_timeout_sync : Z -> inst -> inst := ltac:(setter F (@p_timeout_sync F)).
Definition set_timeout_terminate : Z -> inst -> inst := ltac:(setter F (@p_timeout_terminate F)).
Definition set_priority_default : Z -> inst -> inst := ltac:(setter F (@p_priority_default F)).
Definition set_response_info : option ptr -> inst -> inst := ltac:(setter F (@p_response_info F)).
Definition set_response_info_size : Z -> inst -> inst := ltac:(setter F (@p_response_info_size F)).
Definition set_response : option ptr -> inst -> inst := ltac:(setter F (@p_response F)).
Definition set_response_size : Z -> inst -> inst := ltac:(setter F (@p_response_size F)).
Definition set_trans_id : option ptr -> inst -> inst := ltac:(setter F (@p_trans_id F)).
Definition set_trans_id_count : Z -> inst -> inst := ltac:(setter F (@p_trans_id_count F)).
Definition set_subscribe_count : Z -> inst -> inst := ltac:(setter F (@p_subscribe_count F)).
End setters.

(** ** The world of an instance *)

(** The instance, its environment, and what else the callback functions of the
    program read and write. *)
Record world (F U : Type) : Type := mk_world {
  w_inst : cloudi_instance_t F;
  w_sys : sys;
  w_user : U
}.
#[global] Arguments mk_world {F U}.
#[global] Arguments w_inst {F U}.
#[global] Arguments w_sys {F U}.
#[global] Arguments w_user {F U}.

Section world.
Context {F U : Type}.

Definition upd_inst (f : cloudi_instance_t F -> cloudi_instance_t F) (w : world F U) :
  world F U := mk_world (f (w_inst w)) (w_sys w) (w_user w).

(** A system-level function called from the API. *)
Definition on_sys {R A} (c : C sys R A) : C (world F U) R A := fun w =>
  let '(o, s) := c (w_sys w) in (o, mk_world (w_inst w) s (w_user w)).

(** [p->field] *)
Definition field {R A} (f : cloudi_instance_t F -> A) : C (world F U) R A :=
  creads (fun w => f (w_inst w)).

(** [p->field = v;] *)
Definition assign {R} (f : cloudi_instance_t F -> cloudi_instance_t F) :
  C (world F U) R unit := cmodify (upd_inst f).

(** [buffer.reserve(size)] of [p->buffer_send] *)
Definition reserve_send {R} (size : Z) : C (world F U) R bool :=
  let* w := cget in
  let* (ok, b) :=
    copt (reserve 1 (sys_realloc (w_sys w)) size (p_buffer_send (w_inst w))) in
  assign (set_buffer_send b);;;
  cret ok.
End world.

(** An instance with small buffers on a socket with no header, and a peer that
    takes and sends a few bytes at a time: the examples run on it. *)
Definition example_instance (F : Type) (use_header : Z) : cloudi_instance_t F :=
  let b := construct 1 256 65536 in
  mk_instance 0 3 3 use_header 0 0 64 ∅ b b 0 b 0 0 0 0 (Some (Some <$> chars "/p/" ++ [NUL]))
    0 5000 5000 0 0 None 0 None 0 None 0 0.

Definition example_world (F : Type) (use_header : Z) (i : bytes) (polls : list pl) :
  world F unit :=
  mk_world (example_instance F use_header) (set_polls polls (example_sys i)) tt.
