(* ===== verification/Requests.v ===== *)
(** * Requests that do not wait  (cloudi.cpp)

    The operations that encode a term into [buffer_send] and write it:
    subscribe and unsubscribe, forward, return, shutdown, polling and
    keepalive. *)

From S2P Require Import Prelude CMonad Status Sys ReallocPtr Framing Lookup Ei Instance.

Section requests.
Context {F U : Type} {E : Ei}.
Abbreviation M := (C (world F U) Z).
Implicit Types (name pattern command_name : bytes).

(** [int index = 0; if (p->use_header) index = 4;] *)
Definition start_index {R} : C (world F U) R Z :=
  let* use_header := field p_use_header in
  cret (if negb (use_header =? 0) then 4 else 0).

(** Bytes written at [index] of [buffer_send] without a bounds check; [index]
    is an [int]. *)
Definition append (index : Z) (bs : bytes) : M Z :=
  let* b := field p_buffer_send in
  let index' := index + Z.of_nat (length bs) in
  if decide (Z.to_nat index + length bs <= length (m_p b))%nat then
    if index' <=? INT_MAX then
      assign (set_buffer_send (set_cells b (store (m_p b) (Z.to_nat index) bs)));;;
      cret index'
    else cundef
  else cundef.

(** [if (ei_encode_*(buffer, &index, ...)) return cloudi_error_ei_encode;] *)
Definition encode (index : Z) (term : option bytes) : M Z :=
  match term with
  | None => creturn (cloudi_error_ei_encode : Z)
  | Some bs => append index bs
  end.

(** Consecutive [ei_encode_*] statements. *)
Fixpoint encode_all (index : Z) (terms : list (option bytes)) : M Z :=
  match terms with
  | [] => cret index
  | t :: terms => let* index := encode index t in encode_all index terms
  end.

(** [if (buffer.reserve(size) == false) return cloudi_error_write_overflow;] *)
Definition reserve_or_overflow (size : Z) : M unit :=
  let* ok := reserve_send size in
  creturn_if (negb ok) (cloudi_error_write_overflow : Z).

(** [write_exact(p->fd_out, p->use_header, buffer.get<char>(), index)] *)
Definition send_buffer (index : Z) : M Z :=
  let* use_header := field p_use_header in
  let* b := field p_buffer_send in
  let* (status, m) := call (on_sys (write_exact use_header (m_p b) index)) in
  assign (set_buffer_send (set_cells b m));;;
  cret status.

(** Encode [pre], make [room] beyond it, encode [post]. *)
Definition encode_request (pre : list (option bytes)) (room : Z)
    (post : list (option bytes)) : M Z :=
  let* index := start_index in
  let* index := encode_all index pre in
  reserve_or_overflow (index + room);;;
  encode_all index post.

(** [int result = write_exact(...); if (result) return result;
    return cloudi_success;] *)
Definition send_result (index : Z) : M Z :=
  let* result := send_buffer index in
  creturn_if (negb (result =? 0)) result;;;
  creturn (cloudi_success : Z).

Definition strlen (s : bytes) : Z := Z.of_nat (length s).

(** [std::string(p->prefix)] *)
Definition prefix_string {R} : C (world F U) R bytes :=
  let* prefix := field p_prefix in
  copt (match prefix with Some m => cstr_of m | None => None end).

Definition cloudi_subscribe_ (pattern : bytes) (f : callback_function F) : M Z :=
  let* prefix := prefix_string in
  let* lookup := field p_lookup in
  assign (set_lookup (lookup_insert (prefix ++ pattern) f lookup));;;
  let* index := encode_request
    [ ei_encode_version; ei_encode_tuple_header 2;
      ei_encode_atom (chars "subscribe") ]
    (strlen pattern + 128)
    [ ei_encode_string pattern ] in
  send_result index.

Definition cloudi_subscribe (pattern : bytes) (f : F) : M Z :=
  let* result := call (cloudi_subscribe_ pattern (callback_user f)) in
  creturn result.

Definition cloudi_unsubscribe (pattern : bytes) : M Z :=
  let* prefix := prefix_string in
  let* lookup := field p_lookup in
  let* (removed, lookup) := lookup_remove (prefix ++ pattern) lookup in
  assign (set_lookup lookup);;;
  if (removed : bool) then
    let* index := encode_request
      [ ei_encode_version; ei_encode_tuple_header 2;
        ei_encode_atom (chars "unsubscribe") ]
      (strlen pattern + 128)
      [ ei_encode_string pattern ] in
    send_result index
  else creturn (cloudi_error_function_parameter : Z).

(** The common tail of [cloudi_forward_] and [cloudi_return_]: the bytes of
    [pid] after its version, and the write. *)
Definition append_pid_and_write (index : Z) (pid : bytes) : M Z :=
  match ei_decode_version pid with
  | None => creturn (cloudi_error_ei_decode : Z)
  | Some pid_index =>
      let* b := field p_buffer_send in
      cassert (index <? m_size b);;;
      let* index := append index (drop pid_index pid) in
      let* result := send_buffer index in
      creturn result
  end.

Definition cloudi_forward_ (command_name name request_info request : bytes)
    (timeout priority : Z) (trans_id pid : bytes) : M Z :=
  let* index := encode_request
    [ ei_encode_version; ei_encode_tuple_header 8; ei_encode_atom command_name ]
    (strlen name + Z.of_nat (length request_info) + Z.of_nat (length request) + 128)
    [ ei_encode_string name; ei_encode_binary request_info;
      ei_encode_binary request; ei_encode_ulong timeout;
      ei_encode_long priority; ei_encode_binary trans_id ] in
  append_pid_and_write index pid.

(** [if (result == cloudi_success) throw e; return result;] *)
Definition throw_on_success (result : Z) (e : exception) : M Z :=
  if result =? cloudi_success then cthrow e else creturn result.

Definition CLOUDI_ASYNC : Z := 1.
Definition CLOUDI_SYNC : Z := -1.

Definition cloudi_forward_async (name request_info request : bytes)
    (timeout priority : Z) (trans_id pid : bytes) : M Z :=
  let* result := call (cloudi_forward_ (chars "forward_async") name request_info
                         request timeout priority trans_id pid) in
  throw_on_success result forward_async_exception.

Definition cloudi_forward_sync (name request_info request : bytes)
    (timeout priority : Z) (trans_id pid : bytes) : M Z :=
  let* result := call (cloudi_forward_ (chars "forward_sync") name request_info
                         request timeout priority trans_id pid) in
  throw_on_success result forward_sync_exception.

Definition cloudi_forward (request_type : Z) (name request_info request : bytes)
    (timeout priority : Z) (trans_id pid : bytes) : M Z :=
  if request_type =? CLOUDI_ASYNC then
    let* result := call (cloudi_forward_ (chars "forward_async") name request_info
                           request timeout priority trans_id pid) in
    throw_on_success result forward_async_exception
  else if request_type =? CLOUDI_SYNC then
    let* result := call (cloudi_forward_ (chars "forward_sync") name request_info
                           request timeout priority trans_id pid) in
    throw_on_success result forward_sync_exception
  else creturn (cloudi_error_function_parameter : Z).

Definition cloudi_return_ (command_name name pattern response_info response : bytes)
    (timeout : Z) (trans_id pid : bytes) : M Z :=
  let* index := encode_request
    [ ei_encode_version; ei_encode_tuple_header 8; ei_encode_atom command_name ]
    (strlen name + strlen pattern + Z.of_nat (length response_info)
     + Z.of_nat (length response) + 128)
    [ ei_encode_string name; ei_encode_string pattern;
      ei_encode_binary response_info; ei_encode_binary response;
      ei_encode_ulong timeout; ei_encode_binary trans_id ] in
  append_pid_and_write index pid.

Definition cloudi_return_async (name pattern response_info response : bytes)
    (timeout : Z) (trans_id pid : bytes) : M Z :=
  let* result := call (cloudi_return_ (chars "return_async") name pattern
                         response_info response timeout trans_id pid) in
  throw_on_success result return_async_exception.

Definition cloudi_return_sync (name pattern response_info response : bytes)
    (timeout : Z) (trans_id pid : bytes) : M Z :=
  let* result := call (cloudi_return_ (chars "return_sync") name pattern
                         response_info response timeout trans_id pid) in
  throw_on_success result return_sync_exception.

Definition cloudi_return (request_type : Z)
    (name pattern response_info response : bytes)
    (timeout : Z) (trans_id pid : bytes) : M Z :=
  if request_type =? CLOUDI_ASYNC then
    let* result := call (cloudi_return_ (chars "return_async") name pattern
                           response_info response timeout trans_id pid) in
    throw_on_success result return_async_exception
  else if request_type =? CLOUDI_SYNC then
    let* result := call (cloudi_return_ (chars "return_sync") name pattern
                           response_info response timeout trans_id pid) in
    throw_on_success result return_sync_exception
  else creturn (cloudi_error_function_parameter : Z).

(** No [reserve]: the buffer is as large as earlier requests left it. *)
Definition cloudi_shutdown (reason : option bytes) : M Z :=
  let* index := start_index in
  let* index := encode_all index
    [ ei_encode_version; ei_encode_tuple_header 2;
      ei_encode_atom (chars "shutdown");
      ei_encode_string (default [] reason) ] in
  send_result index.

Definition polling : M Z :=
  let* complete := field p_initialization_complete in
  cassert (complete =? 0);;;
  let* index := start_index in
  let* index := encode_all index
    [ ei_encode_version; ei_encode_atom (chars "polling") ] in
  send_result index.

Definition keepalive : M Z :=
  let* index := start_index in
  let* index := encode_all index
    [ ei_encode_version; ei_encode_atom (chars "keepalive") ] in
  send_result index.
End requests.

(** ** Lemmas *)

(** [buffer_send] in working order: as large as its size says, with room for
      the start of any request before the first [reserve]. *)
Definition buffer_ok (b : buffer_t) : Prop := wf b /\ 128 <= m_size b.

Lemma set_cells_ok b m :
  buffer_ok b -> length m = length (m_p b) -> buffer_ok (set_cells b m).
Proof. intros [[H1 H2] H3] Hl. repeat split; cbn; lia. Qed.

Lemma extends_ok b b' : buffer_ok b -> extends b b' -> buffer_ok b'.
Proof. intros [H1 H2] (K1 & K2 & _). split; [done|lia]. Qed.

Section facts.
Context {F U : Type} {E : Ei}.
Implicit Types (w : world F U) (b : buffer_t).

Abbreviation send_buf w := (p_buffer_send (w_inst w)).
(** The world with another [buffer_send]. *)
Definition with_send b w : world F U := upd_inst (set_buffer_send b) w.

Lemma with_send_with_send b b' w : with_send b (with_send b' w) = with_send b w.
Proof. done. Qed.

Lemma set_cells_id b : set_cells b (m_p b) = b.
Proof. by destruct b. Qed.

Lemma with_send_id w : with_send (send_buf w) w = w.
Proof. by destruct w as [[] ?]. Qed.

Lemma append_ok index bs w :
  0 <= index -> (Z.to_nat index + length bs <= length (m_p (send_buf w)))%nat ->
  index + Z.of_nat (length bs) <= INT_MAX ->
  append index bs w =
    (Next (index + Z.of_nat (length bs)),
     with_send (set_cells (send_buf w)
                  (store (m_p (send_buf w)) (Z.to_nat index) bs)) w).
Proof.
  intros H0 Hl Hi. unfold append. unfold field. crun.
  rewrite decide_True by done. rewrite (proj2 (Z.leb_le _ _)) by done.
  unfold assign. crun. done.
Qed.

Lemma encode_all_ok index terms bss w :
  mapM id terms = Some bss -> 0 <= index ->
  (Z.to_nat index + length (concat bss) <= length (m_p (send_buf w)))%nat ->
  index + Z.of_nat (length (concat bss)) <= INT_MAX ->
  encode_all index terms w =
    (Next (index + Z.of_nat (length (concat bss))),
     with_send (set_cells (send_buf w)
                  (store (m_p (send_buf w)) (Z.to_nat index) (concat bss))) w).
Proof.
  intros ->%mapM_id_Some. revert index w.
  induction bss as [|bs bss IH]; intros index w H0 Hl Hi; cbn [concat app fmap list_fmap encode_all].
  - by rewrite store_nil, Z.add_0_r, set_cells_id, with_send_id.
  - cbn [concat app] in Hl, Hi. rewrite length_app in Hl, Hi.
    cbn [encode]. erewrite bind_next by (apply append_ok; lia). cbv beta.
    rewrite IH; [|lia|..]; cycle 1.
    { cbn. rewrite length_store by lia. lia. }
    { lia. }
    rewrite with_send_with_send. cbn [with_send upd_inst w_inst]. f_equal.
    + f_equal. rewrite length_app. lia.
    + unfold with_send, upd_inst. cbn. unfold set_cells at 1 2. cbn.
      rewrite Z2Nat.inj_add, Nat2Z.id, store_store by lia. done.
Qed.

Lemma reserve_or_overflow_ok size b w :
  reserve 1 (sys_realloc (w_sys w)) size (send_buf w) = Some (true, b) ->
  reserve_or_overflow size w = (Next tt, with_send b w).
Proof.
  intros Hr. unfold reserve_or_overflow, reserve_send. crun. rewrite Hr.
  cbn [copt]. unfold assign. crun. done.
Qed.

Lemma reserve_or_overflow_fail size b w :
  reserve 1 (sys_realloc (w_sys w)) size (send_buf w) = Some (false, b) ->
  reserve_or_overflow size w = (Return (cloudi_error_write_overflow : Z), w).
Proof.
  intros Hr. unfold reserve_or_overflow, reserve_send. crun. rewrite Hr.
  cbn [copt]. unfold assign. crun. apply reserve_false in Hr as ->.
  unfold creturn_if, creturn. cbn [negb]. f_equal. apply with_send_id.
Qed.

(** Where a message body starts in [buffer_send]. *)
Definition start w : Z := body_index (p_use_header (w_inst w)).

Lemma start_range w : 0 <= start w <= 4.
Proof. unfold start, body_index. case_match; lia. Qed.

Lemma start_index_eq {R} w : start_index (R := R) w = (Next (start w), w).
Proof. done. Qed.

(** [encode_request] leaves the two groups of terms one after the other in
    a buffer that has [room] bytes beyond the first. *)
Lemma encode_request_ok pre prebs room post postbs w :
  mapM id pre = Some prebs -> mapM id post = Some postbs ->
  let body := concat prebs ++ concat postbs in
  let top := start w + Z.of_nat (length (concat prebs)) + room in
  buffer_ok (send_buf w) -> (forall n, sys_realloc (w_sys w) n = true) ->
  Z.of_nat (length (concat prebs)) <= 124 ->
  Z.of_nat (length (concat postbs)) <= room ->
  top <= m_maxSize (send_buf w) -> top <= INT_MAX ->
  exists b,
    encode_request pre room post w =
      (Next (start w + Z.of_nat (length body)), with_send b w) /\
    holds (m_p b) (Z.to_nat (start w)) body /\ buffer_ok b /\ top < m_size b /\
    m_size (send_buf w) <= m_size b /\ m_maxSize b = m_maxSize (send_buf w).
Proof.
  intros Hpre Hpost body top Hok Halloc Hp Hr Hmax Hint.
  pose proof (start_range w) as Hs.
  destruct Hok as [[Hl Hz] H128]. set (B := send_buf w) in *.
  set (b1 := set_cells B (store (m_p B) (Z.to_nat (start w)) (concat prebs))).
  assert (wf b1) as Hwf1.
  { apply set_cells_ok; [by repeat split; lia|]. apply length_store. lia. }
  destruct (reserve_succeeds 1 (sys_realloc (w_sys w)) top b1)
    as (b2 & Hres & Hext & Htop); [done|unfold top, INT_MAX in *; lia|done..|].
  assert (holds (m_p b2) (Z.to_nat (start w)) (concat prebs)) as Hh.
  { apply (extends_holds _ _ _ _ Hext), holds_store_eq. lia. }
  destruct Hext as (Hwf2 & Hge & _ & Hmx & _). cbn in Hge, Hmx.
  set (i1 := start w + Z.of_nat (length (concat prebs))) in *.
  assert (encode_request pre room post w =
          encode_all i1 post (with_send b2 w)) as ->.
  { unfold encode_request. erewrite bind_next by apply start_index_eq. cbv beta.
    erewrite bind_next by (apply encode_all_ok; unfold INT_MAX, top in *; fold B;
      try done; lia).
    cbv beta. fold i1 top. erewrite bind_next; [done|].
    by erewrite reserve_or_overflow_ok by exact Hres. }
  exists (set_cells b2 (store (m_p b2) (Z.to_nat i1) (concat postbs))).
  destruct Hwf2 as [Hl2 Hz2].
  assert (Z.to_nat i1 + length (concat postbs) <= length (m_p b2))%nat as Hfit by lia.
  rewrite (encode_all_ok _ _ postbs) by (cbn; unfold top in *; try done; lia).
  unfold body. rewrite length_app. cbn [m_p set_cells m_size m_maxSize].
  repeat split; cbn; rewrite ?length_store; try lia.
  - f_equal. f_equal. lia.
  - apply holds_app. replace (Z.to_nat (start w) + length (concat prebs))%nat
      with (Z.to_nat i1) by lia.
    split; [apply holds_store_below; try done; lia|]. apply holds_store_eq. lia.
Qed.

(** [write_exact] of a body in place sends its frame. *)
Lemma send_buffer_ok body w :
  buffer_ok (send_buf w) ->
  holds (m_p (send_buf w)) (Z.to_nat (start w)) body ->
  start w + Z.of_nat (length body) <= m_size (send_buf w) ->
  start w + Z.of_nat (length body) <= INT_MAX ->
  let msg := frame (p_use_header (w_inst w)) body in
  good_writes (length msg) (sys_writes (w_sys w)) ->
  exists j b, (j <= length msg)%nat /\ buffer_ok b /\
    m_maxSize b = m_maxSize (send_buf w) /\ m_size b = m_size (send_buf w) /\
    send_buffer (start w + Z.of_nat (length body)) w =
      (Next (cloudi_success : Z),
       mk_world (set_buffer_send b (w_inst w))
         (set_write (sys_out (w_sys w) ++ msg) (drop j (sys_writes (w_sys w))) (w_sys w)) (w_user w)).
Proof.
  intros Hok Hh Hl Hi msg Hg. pose proof (start_range w) as Hs.
  destruct (write_exact_sends (p_use_header (w_inst w)) (m_p (send_buf w)) (w_sys w) body)
    as (j & m & Hj & Hm & He); fold (start w); unfold INT_MAX in *; try done; try lia.
  { destruct Hok as [[??]?]. lia. }
  exists j, (set_cells (send_buf w) m).
  split; [done|]. split; [by apply set_cells_ok|]. split; [done|]. split; [done|].
  unfold send_buffer, field. crun.
  erewrite bind_next; cycle 1.
  { apply call_return. unfold on_sys. fold (start w) in He. rewrite He. done. }
  cbv beta iota. unfold assign. crun. done.
Qed.

(** What a request changes: [buffer_send] is still in order, and the frame
    of [body] was written. *)
Definition sent (body : bytes) w w' : Prop :=
  exists b j, buffer_ok b /\ m_maxSize b = m_maxSize (send_buf w) /\
    m_size (send_buf w) <= m_size b /\
    (j <= length (frame (p_use_header (w_inst w)) body))%nat /\
    w' = mk_world (set_buffer_send b (w_inst w))
           (set_write (sys_out (w_sys w) ++ frame (p_use_header (w_inst w)) body)
              (drop j (sys_writes (w_sys w))) (w_sys w)) (w_user w).

Lemma sent_out body w w' :
  sent body w w' ->
  sys_out (w_sys w') = sys_out (w_sys w) ++ frame (p_use_header (w_inst w)) body.
Proof. by intros (b & j & _ & _ & _ & _ & ->). Qed.

(** Memory and the peer are available for a message [body]. *)
Record can_send (body : bytes) w : Prop := {
  can_buffer : buffer_ok (send_buf w);
  can_alloc : forall n, sys_realloc (w_sys w) n = true;
  can_write :
    good_writes (length (frame (p_use_header (w_inst w)) body)) (sys_writes (w_sys w))
}.

Lemma send_buffer_sent b body w :
  can_send body w ->
  buffer_ok b -> m_maxSize b = m_maxSize (send_buf w) ->
  m_size (send_buf w) <= m_size b ->
  holds (m_p b) (Z.to_nat (start w)) body ->
  start w + Z.of_nat (length body) <= m_size b ->
  start w + Z.of_nat (length body) <= INT_MAX ->
  exists w', send_buffer (start w + Z.of_nat (length body)) (with_send b w) =
      (Next (cloudi_success : Z), w') /\ sent body w w'.
Proof.
  intros [Hb _ Hw] Hok Hmax Hsz Hh Hl Hi.
  destruct (send_buffer_ok body (with_send b w)) as (j & b' & Hj & Hok' & Hm & Hs & He);
    try done.
  eexists. split; [exact He|]. exists b', j. repeat split; try done; try apply Hok'.
  - by rewrite Hm.
  - rewrite Hs. done.
Qed.

(** The whole of a request that makes room before its second part, up to its
    [write_exact]. *)
Lemma request_written pre prebs room post postbs w :
  mapM id pre = Some prebs -> mapM id post = Some postbs ->
  let body := concat prebs ++ concat postbs in
  let top := start w + Z.of_nat (length (concat prebs)) + room in
  can_send body w ->
  Z.of_nat (length (concat prebs)) <= 124 ->
  Z.of_nat (length (concat postbs)) <= room ->
  top <= m_maxSize (send_buf w) -> top <= INT_MAX ->
  exists index w1 w', encode_request pre room post w = (Next index, w1) /\
    send_buffer index w1 = (Next (cloudi_success : Z), w') /\ sent body w w'.
Proof.
  intros Hpre Hpost body top Hcan Hp Hr Hmax Hint.
  destruct (encode_request_ok pre prebs room post postbs w)
    as (b & He & Hh & Hok & Htop & Hsz & Hmx); try done; try apply Hcan.
  unfold body, top in *.
  destruct (send_buffer_sent b body w) as (w' & Hs & Hsent); try done;
    unfold body; rewrite ?length_app; try lia.
  eexists _, _, w'. split; [apply He|]. split; [|done]. apply Hs.
Qed.

(** A request that does not make room: it has to fit in [buffer_send]. *)
Lemma direct_send terms bss w :
  mapM id terms = Some bss ->
  let body := concat bss in
  can_send body w -> start w + Z.of_nat (length body) <= m_size (send_buf w) ->
  start w + Z.of_nat (length body) <= INT_MAX ->
  exists w',
    (let* index := start_index in
     let* index := encode_all index terms in send_buffer index) w =
    (Next (cloudi_success : Z), w') /\ sent body w w'.
Proof.
  intros Ht body Hcan Hl Hint. pose proof (start_range w) as Hs0.
  pose proof (can_buffer _ _ Hcan) as Hok. destruct (Hok) as [[Hlen _] _].
  destruct (send_buffer_sent (set_cells (send_buf w)
      (store (m_p (send_buf w)) (Z.to_nat (start w)) body)) body w)
    as (w' & Hs & Hsent); cbn [m_p set_cells m_size m_maxSize]; try done; try lia.
  { apply set_cells_ok; [done|]. apply length_store. lia. }
  { apply holds_store_eq. lia. }
  exists w'. split; [|done].
  erewrite bind_next by apply start_index_eq. cbv beta.
  erewrite bind_next by (apply encode_all_ok; try done; fold body; lia).
  cbv beta. apply Hs.
Qed.

Lemma encode_all_app index pre post w :
  encode_all index (pre ++ post) w = (let* i := encode_all index pre in encode_all i post) w.
Proof.
  revert index w. induction pre as [|t pre IH]; intros index w; [done|].
  cbn [app encode_all]. unfold cbind. by destruct (encode index t w) as [[] w1].
Qed.

(** The same, encoded in two parts, of which the second may depend on the
    instance. *)
Lemma direct_written pre post bss w :
  mapM id (pre ++ post) = Some bss ->
  let body := concat bss in
  can_send body w -> start w + Z.of_nat (length body) <= m_size (send_buf w) ->
  start w + Z.of_nat (length body) <= INT_MAX ->
  exists i bf i' w2 w', encode_all (start w) pre w = (Next i, with_send bf w) /\
    encode_all i post (with_send bf w) = (Next i', w2) /\
    send_buffer i' w2 = (Next (cloudi_success : Z), w') /\ sent body w w'.
Proof.
  intros Ht body Hcan Hl Hint. pose proof (start_range w) as Hs0.
  destruct (direct_send _ bss w Ht Hcan Hl Hint) as (w' & Hs & Hsent).
  pose proof (can_buffer _ _ Hcan) as [[Hlen _] _].
  erewrite bind_next in Hs by apply start_index_eq. cbv beta in Hs.
  pose proof Ht as (pbs & qbs & -> & Hb & ->)%mapM_id_Some%eq_sym%fmap_app_inv.
  unfold body in Hl, Hint. rewrite concat_app, length_app in Hl, Hint.
  assert (encode_all (start w) (Some <$> pbs) w = _) as Ha
    by (apply encode_all_ok; [apply mapM_Some|lia|lia|lia]).
  destruct (encode_all (start w) ((Some <$> pbs) ++ post) w) as [o w2] eqn:He.
  pose proof He as Hab. rewrite encode_all_app in Hab. erewrite bind_next in Hab by exact Ha.
  cbv beta in Hab. eexists _, _. assert (exists i', o = Next i') as [i' ->].
  { rewrite encode_all_ok with (bss := pbs ++ qbs) in He; [|exact Ht|lia|..].
    - injection He as <- _. by eexists.
    - rewrite concat_app, length_app. lia.
    - rewrite concat_app, length_app. lia. }
  erewrite bind_next in Hs by exact He. cbv beta in Hs.
  exists i', w2, w'. split; [exact Ha|]. split; [exact Hab|]. by split.
Qed.

Lemma direct_sends terms bss w :
  mapM id terms = Some bss ->
  let body := concat bss in
  can_send body w -> start w + Z.of_nat (length body) <= m_size (send_buf w) ->
  start w + Z.of_nat (length body) <= INT_MAX ->
  exists w',
    (let* index := start_index in
     let* index := encode_all index terms in send_result index) w =
    (Return (cloudi_success : Z), w') /\ sent body w w'.
Proof.
  intros Ht body Hcan Hl Hint.
  destruct (direct_send terms bss w Ht Hcan Hl Hint) as (w' & Hs & Hsent).
  exists w'. split; [|done]. unfold send_result.
  erewrite bind_next by apply start_index_eq. cbv beta.
  erewrite bind_next in Hs by apply start_index_eq. cbv beta in Hs.
  rewrite <- bind_assoc. by erewrite bind_next by exact Hs.
Qed.

(** A request that does not make room, when the first [write] fails. *)
Lemma direct_fails terms bss e ws w :
  mapM id terms = Some bss ->
  let body := concat bss in
  buffer_ok (send_buf w) -> (0 < length body)%nat ->
  start w + Z.of_nat (length body) <= m_size (send_buf w) ->
  start w + Z.of_nat (length body) <= INT_MAX ->
  sys_writes (w_sys w) = wr_err e :: ws ->
  exists b,
    (let* index := start_index in
     let* index := encode_all index terms in send_result index) w =
    (Return (errno_write e : Z),
     mk_world (set_buffer_send b (w_inst w))
       (set_write (sys_out (w_sys w)) ws (w_sys w)) (w_user w)).
Proof.
  intros Ht body Hok Hpos Hl Hint Hw. pose proof (start_range w) as Hs0.
  destruct (Hok) as [[Hlen _] _].
  set (B := set_cells (send_buf w) (store (m_p (send_buf w)) (Z.to_nat (start w)) body)).
  destruct (write_exact_error (p_use_header (w_inst w)) (m_p B) (w_sys w) body e ws)
    as (m' & Hm' & He); try done; fold (start w).
  { apply holds_store_eq. lia. }
  { cbn. rewrite length_store; lia. }
  { unfold INT_MAX in *. lia. }
  exists (set_cells B m').
  erewrite bind_next by apply start_index_eq. cbv beta.
  erewrite bind_next by (apply encode_all_ok; try done; fold body; lia).
  cbv beta. fold body B. unfold send_result, send_buffer, field.
  rewrite bind_assoc. erewrite bind_next by reflexivity. cbv beta.
  rewrite bind_assoc. erewrite bind_next by reflexivity. cbv beta.
  rewrite bind_assoc. erewrite bind_next; cycle 1.
  { apply call_return. unfold on_sys. cbn [w_inst w_sys with_send upd_inst].
    change (p_buffer_send (set_buffer_send B (w_inst w))) with B.
    change (p_use_header (set_buffer_send B (w_inst w))) with (p_use_header (w_inst w)).
    fold (start w) in He. rewrite He. done. }
  cbv beta iota. unfold assign. rewrite bind_assoc. erewrite bind_next by reflexivity.
  cbv beta. erewrite bind_next by reflexivity. cbv beta.
  pose proof (errno_write_range e).
  rewrite (proj2 (Z.eqb_neq (errno_write e) 0)) by lia. cbn [negb creturn_if]. done.
Qed.

(** A request that ends with a pid. *)
Lemma request_pid_sends pre prebs room post postbs pid n w :
  mapM id pre = Some prebs -> mapM id post = Some postbs ->
  ei_decode_version pid = Some n ->
  let body := concat prebs ++ concat postbs ++ drop n pid in
  let top := start w + Z.of_nat (length (concat prebs)) + room in
  can_send body w ->
  Z.of_nat (length (concat prebs)) <= 124 ->
  Z.of_nat (length (concat postbs ++ drop n pid)) <= room ->
  top <= m_maxSize (send_buf w) -> top <= INT_MAX ->
  exists w',
    (let* index := encode_request pre room post in append_pid_and_write index pid) w =
    (Return (cloudi_success : Z), w') /\ sent body w w'.
Proof.
  intros Hpre Hpost Hpid body top Hcan Hp Hr Hmax Hint. rewrite length_app in Hr.
  pose proof (start_range w) as Hs0.
  destruct (encode_request_ok pre prebs room post postbs w)
    as (b & He & Hh & Hok & Htop & Hsz & Hmx); try done; try apply Hcan; try lia.
  unfold top in *. rewrite length_app in He. set (i := start w + _) in He.
  destruct (Hok) as [[Hlen ?] ?].
  assert (Z.to_nat i + length (drop n pid) <= length (m_p b))%nat as Hfit
    by (unfold i; lia).
  set (b' := set_cells b (store (m_p b) (Z.to_nat i) (drop n pid))).
  assert (i + Z.of_nat (length (drop n pid)) = start w + Z.of_nat (length body)) as Hi.
  { unfold i, body. rewrite !length_app. lia. }
  destruct (send_buffer_sent b' body w) as (w' & Hs & Hsent);
    cbn [b' m_p set_cells m_size m_maxSize]; try done; try lia.
  { by apply set_cells_ok, length_store. }
  { unfold body. rewrite app_assoc. apply holds_app. rewrite length_app.
    replace (Z.to_nat (start w) + (length (concat prebs) + length (concat postbs)))%nat
      with (Z.to_nat i) by (unfold i; lia). split; [|apply holds_store_eq; lia].
    apply holds_store_below; try done. rewrite length_app. unfold i. lia. }
  exists w'. split; [|done]. erewrite bind_next by apply He. cbv beta.
  unfold append_pid_and_write. rewrite Hpid. unfold field. crun.
  change (p_buffer_send (w_inst (with_send b w))) with b.
  rewrite (proj2 (Z.ltb_lt _ _)) by (unfold i; lia). cbn [cassert]. crun.
  erewrite bind_next by (apply append_ok; cbn; try done; lia). cbv beta.
  rewrite with_send_with_send. cbn [with_send upd_inst w_inst set_buffer_send p_buffer_send].
  fold b'. rewrite Hi. erewrite bind_next by apply Hs. done.
Qed.
End facts.

(** ** Messages of a request *)

Section messages.
Context {F U : Type} {E : Ei}.
Implicit Types (w : world F U).
Abbreviation send_buf w := (p_buffer_send (w_inst w)).

(** Memory and the peer are available for messages of up to [n] bytes, the
    header included. *)
Record ready (n : Z) w : Prop := {
  ready_buffer : buffer_ok (send_buf w);
  ready_max : n + 128 <= m_maxSize (send_buf w);
  ready_int : n + 128 <= INT_MAX;
  ready_alloc : forall k, sys_realloc (w_sys w) k = true;
  ready_write : good_writes (Z.to_nat n) (sys_writes (w_sys w))
}.

Lemma length_frame uh body :
  Z.of_nat (length (frame uh body)) = body_index uh + Z.of_nat (length body).
Proof.
  unfold frame, body_index. destruct (uh =? 0); cbn [negb]; [lia|].
  rewrite length_app, length_header_bytes. lia.
Qed.

Lemma ready_can_send n body w :
  ready n w -> Z.of_nat (length body) + 4 <= n -> can_send body w.
Proof.
  intros [H1 H2 H3 H4 H5] Hn. split; try done.
  eapply good_writes_le; [|exact H5].
  pose proof (length_frame (p_use_header (w_inst w)) body). pose proof (start_range w).
  unfold start in *. lia.
Qed.

(** A request of [pre] and [post] around a [reserve] with [room], and a pid
    that fits what is left of it. *)
Lemma request_pid_ok ns ts room ns' ts' pid k n w :
  Forall2 within ns ts -> Forall2 within ns' ts' ->
  ei_decode_version pid = Some k ->
  foldr Z.add 0 ns <= 124 ->
  foldr Z.add 0 ns' + Z.of_nat (length (drop k pid)) <= room ->
  foldr Z.add 0 ns + room + 4 <= n -> ready n w ->
  exists bs w', term_bytes (ts ++ ts') = Some bs /\
    (let* index := encode_request ts room ts' in append_pid_and_write index pid) w =
      (Return (cloudi_success : Z), w') /\ sent (bs ++ drop k pid) w w'.
Proof.
  intros H1 H2 Hpid Hs Hr Hn Hready.
  destruct (within_all _ _ H1) as (pre & Hpre & Hl1).
  destruct (within_all _ _ H2) as (post & Hpost & Hl2).
  destruct (request_pid_sends ts pre room ts' post pid k w) as (w' & He & Hsent);
    try done; try (pose proof (start_range w); destruct Hready; lia).
  - apply (ready_can_send n); [done|]. rewrite !length_app. lia.
  - rewrite length_app. lia.
  - exists (concat pre ++ concat post), w'. split; [|split; [done|by rewrite <- app_assoc]].
    by apply term_bytes_app; apply term_bytes_Some.
Qed.

(** The same without a pid. *)
Lemma request_written_ok ns ts room ns' ts' n w :
  Forall2 within ns ts -> Forall2 within ns' ts' ->
  foldr Z.add 0 ns <= 124 -> foldr Z.add 0 ns' <= room ->
  foldr Z.add 0 ns + room + 4 <= n -> ready n w ->
  exists bs index w1 w', term_bytes (ts ++ ts') = Some bs /\
    encode_request ts room ts' w = (Next index, w1) /\
    send_buffer index w1 = (Next (cloudi_success : Z), w') /\ sent bs w w'.
Proof.
  intros H1 H2 Hs Hr Hn Hready.
  destruct (within_all _ _ H1) as (pre & Hpre & Hl1).
  destruct (within_all _ _ H2) as (post & Hpost & Hl2).
  destruct (request_written ts pre room ts' post w) as (i & w1 & w' & He & Hw & Hsent);
    try done; try (pose proof (start_range w); destruct Hready; lia).
  - apply (ready_can_send n); [done|]. rewrite length_app. lia.
  - exists (concat pre ++ concat post), i, w1, w'. split; [|done].
    by apply term_bytes_app; apply term_bytes_Some.
Qed.

Lemma request_ok ns ts room ns' ts' n w :
  Forall2 within ns ts -> Forall2 within ns' ts' ->
  foldr Z.add 0 ns <= 124 -> foldr Z.add 0 ns' <= room ->
  foldr Z.add 0 ns + room + 4 <= n -> ready n w ->
  exists bs w', term_bytes (ts ++ ts') = Some bs /\
    (let* index := encode_request ts room ts' in send_result index) w =
      (Return (cloudi_success : Z), w') /\ sent bs w w'.
Proof.
  intros H1 H2 Hs Hr Hn Hready.
  destruct (request_written_ok ns ts room ns' ts' n w) as (bs & i & w1 & w' & Ht & He & Hw & Hsent);
    try done.
  exists bs, w'. split; [done|]. split; [|done]. erewrite bind_next by exact He. cbv beta.
  unfold send_result. by erewrite bind_next by exact Hw.
Qed.
End messages.

(** ** Properties *)

Section properties.
Context {F U : Type} {E : Ei} {laws : EiLaws E}.
Implicit Types (w : world F U).
Abbreviation send_buf w := (p_buffer_send (w_inst w)).

#[local] Hint Resolve version_within tuple_header_within atom_within string_within
  binary_within ulong_within long_within : cloudi.
(** The sizes of the terms of a request. *)
Ltac sizes := repeat (constructor; [first
  [ apply version_within | apply tuple_header_within | apply atom_within
  | apply string_within | apply binary_within | apply ulong_within
  | apply long_within ]; first [lia | cbn; lia]|]); constructor.

Lemma cloudi_return__ok command name pattern response_info response timeout
    trans_id pid k w :
  Z.of_nat (length command) <= 30 ->
  strlen name <= 65535 -> strlen pattern <= 65535 -> length trans_id = 16%nat ->
  0 <= timeout < 2 ^ 32 -> ei_decode_version pid = Some k ->
  Z.of_nat (length (drop k pid)) <= 84 ->
  ready (strlen name + strlen pattern + Z.of_nat (length response_info)
         + Z.of_nat (length response) + 180) w ->
  exists bs w',
    term_bytes
      [ ei_encode_version; ei_encode_tuple_header 8; ei_encode_atom command;
        ei_encode_string name; ei_encode_string pattern;
        ei_encode_binary response_info; ei_encode_binary response;
        ei_encode_ulong timeout; ei_encode_binary trans_id ] = Some bs /\
    cloudi_return_ command name pattern response_info response timeout trans_id pid w
      = (Return (cloudi_success : Z), w') /\
    sent (bs ++ drop k pid) w w'.
Proof.
  intros Hc Hn Hp Ht Htm Hv Hk Hr. pose proof (ready_int _ _ Hr) as Hi.
  unfold strlen, INT_MAX in *.
  eapply (request_pid_ok
    [1; 2; Z.of_nat (length command) + 3]
    [ ei_encode_version; ei_encode_tuple_header 8; ei_encode_atom command ]
    (strlen name + strlen pattern + Z.of_nat (length response_info)
     + Z.of_nat (length response) + 128)
    [Z.of_nat (length name) + 3; Z.of_nat (length pattern) + 3;
     Z.of_nat (length response_info) + 5; Z.of_nat (length response) + 5; 7;
     Z.of_nat (length trans_id) + 5]
    [ ei_encode_string name; ei_encode_string pattern;
      ei_encode_binary response_info; ei_encode_binary response;
      ei_encode_ulong timeout; ei_encode_binary trans_id ]);
    [sizes|sizes|done|..|exact Hr]; cbn [foldr]; unfold strlen; lia.
Qed.

Lemma cloudi_forward__ok command name request_info request timeout priority
    trans_id pid k w :
  Z.of_nat (length command) <= 30 ->
  strlen name <= 65535 -> length trans_id = 16%nat ->
  0 <= timeout < 2 ^ 32 -> - 128 <= priority < 128 ->
  ei_decode_version pid = Some k -> Z.of_nat (length (drop k pid)) <= 80 ->
  ready (strlen name + Z.of_nat (length request_info)
         + Z.of_nat (length request) + 180) w ->
  exists bs w',
    term_bytes
      [ ei_encode_version; ei_encode_tuple_header 8; ei_encode_atom command;
        ei_encode_string name; ei_encode_binary request_info;
        ei_encode_binary request; ei_encode_ulong timeout;
        ei_encode_long priority; ei_encode_binary trans_id ] = Some bs /\
    cloudi_forward_ command name request_info request timeout priority trans_id pid w
      = (Return (cloudi_success : Z), w') /\
    sent (bs ++ drop k pid) w w'.
Proof.
  intros Hc Hn Ht Htm Hpr Hv Hk Hr. pose proof (ready_int _ _ Hr) as Hi.
  unfold strlen, INT_MAX in *.
  eapply (request_pid_ok
    [1; 2; Z.of_nat (length command) + 3]
    [ ei_encode_version; ei_encode_tuple_header 8; ei_encode_atom command ]
    (strlen name + Z.of_nat (length request_info) + Z.of_nat (length request) + 128)
    [Z.of_nat (length name) + 3; Z.of_nat (length request_info) + 5;
     Z.of_nat (length request) + 5; 7; 7; Z.of_nat (length trans_id) + 5]
    [ ei_encode_string name; ei_encode_binary request_info;
      ei_encode_binary request; ei_encode_ulong timeout;
      ei_encode_long priority; ei_encode_binary trans_id ]);
    [sizes|sizes|done|..|exact Hr]; cbn [foldr]; unfold strlen; lia.
Qed.

(** C31. Returning a response.  With room for the sizes and a pid of at most
    84 bytes, [cloudi_return] writes one message, the frame of
    {return_async|return_sync, Name, Pattern, ResponseInfo, Response,
    Timeout, TransId, Pid} with the pid's own encoding at the end, touches no
    memory outside the buffer, changes nothing else of the instance, and
    leaves by the exception of the request's type. *)
Theorem cloudi_return_sends (async : bool) name pattern response_info response
    timeout trans_id pid k w
    (Hn : strlen name <= 65535) (Hp : strlen pattern <= 65535)
    (Ht : length trans_id = 16%nat) (Htm : 0 <= timeout < 2 ^ 32)
    (Hv : ei_decode_version pid = Some k)
    (Hk : Z.of_nat (length (drop k pid)) <= 84)
    (Hr : ready (strlen name + strlen pattern + Z.of_nat (length response_info)
                 + Z.of_nat (length response) + 180) w) :
  exists bs w',
    term_bytes
      [ ei_encode_version; ei_encode_tuple_header 8;
        ei_encode_atom (if async then chars "return_async" else chars "return_sync");
        ei_encode_string name; ei_encode_string pattern;
        ei_encode_binary response_info; ei_encode_binary response;
        ei_encode_ulong timeout; ei_encode_binary trans_id ] = Some bs /\
    cloudi_return (if async then CLOUDI_ASYNC else CLOUDI_SYNC) name pattern
      response_info response timeout trans_id pid w =
      (Throw (if async then return_async_exception else return_sync_exception), w') /\
    sent (bs ++ drop k pid) w w'.
Proof.
  destruct (cloudi_return__ok
    (if async then chars "return_async" else chars "return_sync") name pattern
    response_info response timeout trans_id pid k w) as (bs & w' & Hb & He & Hs);
    try done; [by destruct async|].
  exists bs, w'. split; [done|]. split; [|done].
  destruct async; unfold cloudi_return; cbn [Z.eqb Pos.eqb CLOUDI_ASYNC CLOUDI_SYNC];
    (erewrite bind_next by (apply call_return; exact He)); done.
Qed.

(** Forwarding a request: the same for [cloudi_forward], with
    {forward_async|forward_sync, Name, RequestInfo, Request, Timeout,
    Priority, TransId, Pid} and a pid of at most 80 bytes. *)
Theorem cloudi_forward_sends (async : bool) name request_info request
    timeout priority trans_id pid k w
    (Hn : strlen name <= 65535) (Ht : length trans_id = 16%nat)
    (Htm : 0 <= timeout < 2 ^ 32) (Hpr : - 128 <= priority < 128)
    (Hv : ei_decode_version pid = Some k)
    (Hk : Z.of_nat (length (drop k pid)) <= 80)
    (Hr : ready (strlen name + Z.of_nat (length request_info)
                 + Z.of_nat (length request) + 180) w) :
  exists bs w',
    term_bytes
      [ ei_encode_version; ei_encode_tuple_header 8;
        ei_encode_atom (if async then chars "forward_async" else chars "forward_sync");
        ei_encode_string name; ei_encode_binary request_info;
        ei_encode_binary request; ei_encode_ulong timeout;
        ei_encode_long priority; ei_encode_binary trans_id ] = Some bs /\
    cloudi_forward (if async then CLOUDI_ASYNC else CLOUDI_SYNC) name request_info
      request timeout priority trans_id pid w =
      (Throw (if async then forward_async_exception else forward_sync_exception), w') /\
    sent (bs ++ drop k pid) w w'.
Proof.
  destruct (cloudi_forward__ok
    (if async then chars "forward_async" else chars "forward_sync") name
    request_info request timeout priority trans_id pid k w)
    as (bs & w' & Hb & He & Hs); try done; [by destruct async|].
  exists bs, w'. split; [done|]. split; [|done].
  destruct async; unfold cloudi_forward; cbn [Z.eqb Pos.eqb CLOUDI_ASYNC CLOUDI_SYNC];
    (erewrite bind_next by (apply call_return; exact He)); done.
Qed.

(** A subscription is the last in turn of its full pattern (the prefix
    of the service, then the pattern), and one message says so: the frame of
    {subscribe, Pattern}. *)
Theorem cloudi_subscribe_sends pattern f prefix cells w
    (Hpre : p_prefix (w_inst w) = Some cells) (Hpr : cstr_of cells = Some prefix)
    (Hp : strlen pattern <= 65535) (Hr : ready (strlen pattern + 180) w) :
  exists bs w',
    term_bytes [ ei_encode_version; ei_encode_tuple_header 2;
                 ei_encode_atom (chars "subscribe"); ei_encode_string pattern ]
      = Some bs /\
    cloudi_subscribe pattern f w = (Return (cloudi_success : Z), w') /\
    sent bs (upd_inst (set_lookup (lookup_insert (prefix ++ pattern) (callback_user f)
                                     (p_lookup (w_inst w)))) w) w'.
Proof.
  set (w1 := upd_inst _ w). pose proof (ready_int _ _ Hr) as Hi. unfold strlen, INT_MAX in *.
  destruct (request_ok [1; 2; Z.of_nat (length (chars "subscribe")) + 3]
    [ ei_encode_version; ei_encode_tuple_header 2; ei_encode_atom (chars "subscribe") ]
    (strlen pattern + 128) [Z.of_nat (length pattern) + 3] [ ei_encode_string pattern ]
    (Z.of_nat (length pattern) + 180) w1) as (bs & w' & Hb & He & Hs);
    [sizes|sizes|cbn [foldr]; unfold strlen; cbn; lia..|by destruct Hr|].
  exists bs, w'. split; [done|]. split; [|done].
  unfold cloudi_subscribe. erewrite bind_next; [done|]. apply call_return.
  unfold cloudi_subscribe_, prefix_string, field, assign. crun.
  rewrite Hpre, Hpr. cbn [copt]. crun. exact He.
Qed.

(** Unsubscribing.  A pattern with no callback function is an error
    that changes no subscription and writes nothing; otherwise the next in
    turn is removed and one message says so: the frame of
    {unsubscribe, Pattern}. *)
Theorem cloudi_unsubscribe_sends pattern prefix cells w
    (Hwf : lookup_wf (p_lookup (w_inst w)))
    (Hpre : p_prefix (w_inst w) = Some cells) (Hpr : cstr_of cells = Some prefix)
    (Hp : strlen pattern <= 65535) (Hr : ready (strlen pattern + 180) w) :
  let key := prefix ++ pattern in
  let l := p_lookup (w_inst w) in
  exists bs w' l',
    lookup_wf l' /\ (forall k, abs l' k = upd (abs l) key (tail (abs l key)) k) /\
    term_bytes [ ei_encode_version; ei_encode_tuple_header 2;
                 ei_encode_atom (chars "unsubscribe"); ei_encode_string pattern ]
      = Some bs /\
    if decide (abs l key = [])
    then cloudi_unsubscribe pattern w =
           (Return (cloudi_error_function_parameter : Z), upd_inst (set_lookup l') w)
    else cloudi_unsubscribe pattern w = (Return (cloudi_success : Z), w') /\
         sent bs (upd_inst (set_lookup l') w) w'.
Proof.
  intros key l. pose proof (ready_int _ _ Hr) as Hi. unfold strlen, INT_MAX in *.
  destruct (lookup_remove_refines (R := Z) key l w Hwf) as (l' & Hrm & Hwf' & Ha).
  destruct (request_ok [1; 2; Z.of_nat (length (chars "unsubscribe")) + 3]
    [ ei_encode_version; ei_encode_tuple_header 2; ei_encode_atom (chars "unsubscribe") ]
    (strlen pattern + 128) [Z.of_nat (length pattern) + 3] [ ei_encode_string pattern ]
    (Z.of_nat (length pattern) + 180) (upd_inst (set_lookup l') w))
    as (bs & w' & Hb & He & Hs);
    [sizes|sizes|cbn [foldr]; unfold strlen; cbn; lia..|by destruct Hr|].
  exists bs, w', l'. split_and!; try done.
  unfold cloudi_unsubscribe, prefix_string, field, assign.
  case_decide as Hd.
  - crun. rewrite Hpre, Hpr. cbn [copt]. crun. fold key l.
    rewrite bool_decide_false in Hrm by (by intros ?).
    erewrite bind_next by apply Hrm. cbv beta iota. crun. done.
  - split; [|done]. crun. rewrite Hpre, Hpr. cbn [copt]. crun. fold key l.
    rewrite bool_decide_true in Hrm by done.
    erewrite bind_next by apply Hrm. cbv beta iota. crun. exact He.
Qed.

(** [cloudi_return] and [cloudi_forward] never return success: what
    they return is an error, and a request type that is neither of the two
    is refused with the instance untouched. *)
Theorem return_forward_never_succeed request_type name pattern info data
    timeout priority trans_id pid w :
  fst (cloudi_return request_type name pattern info data timeout trans_id pid w)
    <> Return (cloudi_success : Z) /\
  fst (cloudi_forward request_type name info data timeout priority trans_id pid w)
    <> Return (cloudi_success : Z) /\
  (request_type <> CLOUDI_ASYNC -> request_type <> CLOUDI_SYNC ->
   cloudi_return request_type name pattern info data timeout trans_id pid w
     = (Return (cloudi_error_function_parameter : Z), w) /\
   cloudi_forward request_type name info data timeout priority trans_id pid w
     = (Return (cloudi_error_function_parameter : Z), w)).
Proof.
  assert (forall (c : C (world F U) Z Z) e w,
    fst ((let* result := call c in throw_on_success result e) w) <>
      Return (cloudi_success : Z)) as H.
  { intros c e w0. unfold cbind, call. destruct (c w0) as [[r|r|e'| | |] w1]; try done;
      unfold throw_on_success; cbv beta iota;
      destruct (Z.eqb_spec r (cloudi_success : Z)) as [|Hr]; cbn; try done;
      by intros [=]. }
  unfold cloudi_return, cloudi_forward.
  destruct (Z.eqb_spec request_type CLOUDI_ASYNC) as [->|H1]; [by split_and!|].
  destruct (Z.eqb_spec request_type CLOUDI_SYNC) as [->|H2]; by split_and!.
Qed.

(** ** What the code does when a message does not fit *)

Lemma append_overflow index bs w :
  (length (m_p (send_buf w)) < Z.to_nat index + length bs)%nat ->
  append index bs w = (Undef, w).
Proof.
  intros Hl. unfold append, field. crun. by rewrite decide_False by lia.
Qed.

Lemma encode_all_overflow index ts bss w :
  mapM id ts = Some bss -> 0 <= index <= Z.of_nat (length (m_p (send_buf w))) ->
  Z.of_nat (length (m_p (send_buf w))) <= INT_MAX ->
  (length (m_p (send_buf w)) < Z.to_nat index + length (concat bss))%nat ->
  fst (encode_all index ts w) = Undef.
Proof.
  intros ->%mapM_id_Some. revert index w.
  induction bss as [|bs bss IH]; intros index w Hi Hmax Hl; cbn [concat fmap list_fmap encode_all] in *.
  { cbn in Hl. lia. }
  rewrite length_app in Hl. cbn [encode].
  destruct (decide (Z.to_nat index + length bs <= length (m_p (send_buf w)))%nat) as [Hd|Hd].
  - erewrite bind_next by (apply append_ok; lia). cbv beta. apply IH; cbn;
      rewrite length_store; lia.
  - erewrite bind_undef; [done|]. apply append_overflow. lia.
Qed.

(** A request that memory cannot hold ends before anything is written. *)
Lemma encode_request_refused pre prebs room post w :
  mapM id pre = Some prebs -> wf (send_buf w) -> m_size (send_buf w) <= INT_MAX ->
  start w + Z.of_nat (length (concat prebs)) <= m_size (send_buf w) ->
  m_size (send_buf w) <= start w + Z.of_nat (length (concat prebs)) + room < 2 ^ 63 ->
  (forall n, sys_realloc (w_sys w) n = false) ->
  exists b, encode_request pre room post w =
    (Return (cloudi_error_write_overflow : Z), with_send b w).
Proof.
  intros Hpre [Hl Hz] Hmax Hfit Hroom Halloc. pose proof (start_range w) as Hs.
  set (B := set_cells (send_buf w)
    (store (m_p (send_buf w)) (Z.to_nat (start w)) (concat prebs))).
  exists B. unfold encode_request. erewrite bind_next by apply start_index_eq. cbv beta.
  erewrite bind_next by (apply encode_all_ok; try done; lia). cbv beta. fold B.
  erewrite bind_return; [done|].
  assert (wf B) as HB by (apply set_cells_wf; [done|]; apply length_store; lia).
  destruct (reserve_defined 1 (sys_realloc (w_sys w))
    (start w + Z.of_nat (length (concat prebs)) + room) B HB ltac:(lia))
    as (b & p' & Hr).
  destruct b; [|by eapply reserve_or_overflow_fail].
  exfalso. revert Hr. unfold reserve, reallocate. cbn [m_size B set_cells].
  rewrite (proj2 (Z.ltb_ge _ _)) by lia. repeat case_match; try done.
  by rewrite Halloc in *.
Qed.

(** C32. [cloudi_shutdown] makes no room for its message: a reason that does
    not fit what earlier requests left of the buffer is written past its
    end. *)
Theorem cloudi_shutdown_overflows reason bs w
    (Hok : buffer_ok (send_buf w)) (Hmax : m_size (send_buf w) <= INT_MAX)
    (Hb : term_bytes [ ei_encode_version; ei_encode_tuple_header 2;
                       ei_encode_atom (chars "shutdown");
                       ei_encode_string (default [] reason) ] = Some bs)
    (Hl : m_size (send_buf w) < start w + Z.of_nat (length bs)) :
  fst (cloudi_shutdown reason w) = Undef.
Proof.
  unfold term_bytes in Hb. destruct (mapM id _) as [bss|] eqn:Hm; [|done].
  injection Hb as <-. unfold cloudi_shutdown.
  erewrite bind_next by apply start_index_eq. cbv beta.
  pose proof (start_range w) as Hs. destruct Hok as [[Hlen ?] ?].
  unfold cbind at 1.
  pose proof (encode_all_overflow (start w) _ bss w Hm ltac:(lia) ltac:(lia) ltac:(lia)) as H1.
  destruct (encode_all _ _ w) as [o w']. cbn in H1. by subst.
Qed.

(** A [reserve] that finds enough room already. *)
Lemma reserve_no_growth size w :
  size < m_size (send_buf w) -> reserve_or_overflow size w = (Next tt, w).
Proof.
  intros H. erewrite reserve_or_overflow_ok.
  - f_equal. apply with_send_id.
  - unfold reserve. by rewrite (proj2 (Z.ltb_lt _ _)).
Qed.

Lemma encode_request_no_growth pre prebs room post postbs w :
  mapM id pre = Some prebs -> mapM id post = Some postbs ->
  wf (send_buf w) -> m_size (send_buf w) <= INT_MAX ->
  start w + Z.of_nat (length (concat prebs)) + room < m_size (send_buf w) ->
  Z.of_nat (length (concat postbs)) <= room ->
  exists b, encode_request pre room post w =
      (Next (start w + Z.of_nat (length (concat prebs ++ concat postbs))),
       with_send b w) /\
    wf b /\ m_size b = m_size (send_buf w).
Proof.
  intros Hpre Hpost [Hl Hz] Hmax Hroom Hr. pose proof (start_range w) as Hs.
  unfold encode_request. erewrite bind_next by apply start_index_eq. cbv beta.
  erewrite bind_next by (apply encode_all_ok; try done; lia). cbv beta.
  erewrite bind_next by (apply reserve_no_growth; cbn; lia). cbv beta.
  erewrite encode_all_ok; try done; cbn; rewrite ?length_store; try lia.
  eexists. split; [f_equal; f_equal; rewrite length_app; lia|].
  split; [|done].
  assert (length (store (m_p (send_buf w)) (Z.to_nat (start w)) (concat prebs)) =
          length (m_p (send_buf w))) as E1 by (apply length_store; lia).
  split; cbn; [|done]. rewrite length_store; rewrite E1; lia.
Qed.

(** [cloudi_return] makes room for a pid that happens to be short: when
    its [reserve] finds room already, a pid longer than what is left after
    the other fields is copied past the end of the buffer. *)
Theorem cloudi_return_pid_overflows name pattern response_info response timeout
    trans_id pid k bs w
    (Hn : strlen name <= 65535) (Hp : strlen pattern <= 65535)
    (Ht : length trans_id = 16%nat) (Htm : 0 <= timeout < 2 ^ 32)
    (Hv : ei_decode_version pid = Some k)
    (Hok : buffer_ok (send_buf w)) (Hmax : m_size (send_buf w) <= INT_MAX)
    (Hb : term_bytes
      [ ei_encode_version; ei_encode_tuple_header 8; ei_encode_atom (chars "return_async");
        ei_encode_string name; ei_encode_string pattern;
        ei_encode_binary response_info; ei_encode_binary response;
        ei_encode_ulong timeout; ei_encode_binary trans_id ] = Some bs)
    (Hroom : start w + 18 + strlen name + strlen pattern
               + Z.of_nat (length response_info) + Z.of_nat (length response) + 128
             < m_size (send_buf w))
    (Hl : m_size (send_buf w) < start w + Z.of_nat (length bs) + Z.of_nat (length (drop k pid))) :
  fst (cloudi_return CLOUDI_ASYNC name pattern response_info response timeout
         trans_id pid w) = Undef.
Proof.
  unfold strlen, INT_MAX in *. pose proof (start_range w) as Hs.
  destruct (within_all [1; 2; Z.of_nat (length (chars "return_async")) + 3]
    [ ei_encode_version; ei_encode_tuple_header 8; ei_encode_atom (chars "return_async") ])
    as (pre & Hpre & Hl1); [sizes|].
  destruct (within_all
    [Z.of_nat (length name) + 3; Z.of_nat (length pattern) + 3;
     Z.of_nat (length response_info) + 5; Z.of_nat (length response) + 5; 7;
     Z.of_nat (length trans_id) + 5]
    [ ei_encode_string name; ei_encode_string pattern;
      ei_encode_binary response_info; ei_encode_binary response;
      ei_encode_ulong timeout; ei_encode_binary trans_id ])
    as (post & Hpost & Hl2); [sizes|].
  assert (bs = concat pre ++ concat post) as ->.
  { pose proof (term_bytes_app _ _ _ _ (term_bytes_Some _ _ Hpre)
      (term_bytes_Some _ _ Hpost)) as Hb2. cbn [app] in Hb2. congruence. }
  cbn [foldr] in Hl1, Hl2. change (Z.of_nat (length (chars "return_async"))) with 12 in Hl1.
  destruct (encode_request_no_growth _ pre (strlen name + strlen pattern
      + Z.of_nat (length response_info) + Z.of_nat (length response) + 128) _ post w
      Hpre Hpost) as (b & He & [Hlb Hzb] & Hsz); try apply Hok; unfold strlen, INT_MAX; try lia.
  unfold cloudi_return. cbn [Z.eqb Pos.eqb CLOUDI_ASYNC].
  unfold cbind at 1, call.
  assert (fst (cloudi_return_ (chars "return_async") name pattern response_info
    response timeout trans_id pid w) = Undef) as Hu.
  { unfold cloudi_return_. erewrite bind_next by apply He. cbv beta.
    unfold append_pid_and_write. rewrite Hv. unfold field.
    erewrite bind_next by reflexivity. cbv beta.
    change (p_buffer_send (w_inst (with_send b w))) with b.
    rewrite (proj2 (Z.ltb_lt _ _)) by (rewrite length_app; lia). cbn [cassert].
    erewrite bind_next by reflexivity. cbv beta.
    erewrite bind_undef; [done|]. apply append_overflow. cbn. lia. }
  destruct (cloudi_return_ _ _ _ _ _ _ _ _ w) as [o w']. cbn in Hu. by subst.
Qed.
End properties.

(** ** Examples *)

Lemma example_ready F uh i polls n : n <= 300 -> ready n (example_world F uh i polls).
Proof.
  intros Hn. split; try done.
  - change (n + 128 <= 65536). lia.
  - unfold INT_MAX. lia.
  - apply good_writes_replicate. lia.
Qed.

Definition example_pid : bytes := byte.of_Z 131 :: chars "pid of the sender".

Lemma cloudi_return_sends_witness :
  exists bs w', cloudi_return CLOUDI_ASYNC (chars "/p/a") (chars "/p/a") [] (chars "ok") 5000
      (replicate 16 NUL) example_pid (example_world unit 1 [] []) =
    (Throw return_async_exception, w') /\
    sent (bs ++ chars "pid of the sender") (example_world unit 1 [] []) w'.
Proof.
  destruct (cloudi_return_sends true (chars "/p/a") (chars "/p/a") [] (chars "ok") 5000
    (replicate 16 NUL) example_pid 1%nat (example_world unit 1 [] []))
    as (bs & w' & _ & He & Hs).
  1-6: first [reflexivity | vm_compute; done | lia].
  { apply example_ready. vm_compute. done. }
  exists bs, w'. split; [exact He|exact Hs].
Defined.

Lemma cloudi_forward_sends_witness :
  exists bs w', cloudi_forward CLOUDI_SYNC (chars "/p/b") [] (chars "req") 5000 (-128)
      (replicate 16 NUL) example_pid (example_world unit 0 [] []) =
    (Throw forward_sync_exception, w') /\
    sent (bs ++ chars "pid of the sender") (example_world unit 0 [] []) w'.
Proof.
  destruct (cloudi_forward_sends false (chars "/p/b") [] (chars "req") 5000 (-128)
    (replicate 16 NUL) example_pid 1%nat (example_world unit 0 [] []))
    as (bs & w' & _ & He & Hs).
  1-6: first [reflexivity | vm_compute; done | lia].
  { apply example_ready. vm_compute. done. }
  exists bs, w'. split; [exact He|exact Hs].
Defined.

Lemma cloudi_subscribe_sends_witness :
  exists bs w', cloudi_subscribe (chars "a") tt (example_world unit 1 [] []) =
      (Return (cloudi_success : Z), w') /\
    sent bs (upd_inst (set_lookup {[chars "/p/a" := queue_new (callback_user tt)]})
               (example_world unit 1 [] [])) w'.
Proof.
  destruct (cloudi_subscribe_sends (chars "a") tt (chars "/p/") _
    (example_world unit 1 [] []) eq_refl eq_refl ltac:(vm_compute; done)
    ltac:(apply example_ready; vm_compute; done)) as (bs & w' & _ & He & Hs).
  exists bs, w'. split; [exact He|exact Hs].
Defined.

Lemma cloudi_unsubscribe_sends_witness :
  exists w', cloudi_unsubscribe (chars "a") (example_world unit 1 [] []) =
    (Return (cloudi_error_function_parameter : Z), w').
Proof.
  assert (lookup_wf (p_lookup (w_inst (example_world unit 1 [] [])))) as Hwf by done.
  destruct (cloudi_unsubscribe_sends (chars "a") (chars "/p/") _
    (example_world unit 1 [] []) Hwf eq_refl eq_refl ltac:(vm_compute; done)
    ltac:(apply example_ready; vm_compute; done)) as (bs & w' & l' & _ & _ & _ & H).
  eexists. exact H.
Defined.

Lemma cloudi_shutdown_overflows_witness :
  fst (cloudi_shutdown (Some (replicate 300 (byte.of_Z 97))) (example_world unit 1 [] []))
    = Undef.
Proof.
  apply (cloudi_shutdown_overflows (Some (replicate 300 (byte.of_Z 97)))
    (default [] (term_bytes [ ei_encode_version; ei_encode_tuple_header 2;
       ei_encode_atom (chars "shutdown");
       ei_encode_string (replicate 300 (byte.of_Z 97)) ])) (example_world unit 1 [] [])).
  - split; vm_compute; done.
  - vm_compute. done.
  - vm_compute. reflexivity.
  - vm_compute. reflexivity.
Defined.

Lemma cloudi_return_pid_overflows_witness :
  fst (cloudi_return CLOUDI_ASYNC (chars "/p/a") (chars "/p/a") []
         (replicate 90 (byte.of_Z 0)) 5000 (replicate 16 NUL)
         (byte.of_Z 131 :: replicate 100 (byte.of_Z 0)) (example_world unit 1 [] [])) = Undef.
Proof.
  apply (cloudi_return_pid_overflows (chars "/p/a") (chars "/p/a") []
    (replicate 90 (byte.of_Z 0)) 5000 (replicate 16 NUL)
    (byte.of_Z 131 :: replicate 100 (byte.of_Z 0)) 1%nat
    (default [] (term_bytes [ ei_encode_version; ei_encode_tuple_header 8;
          ei_encode_atom (chars "return_async");
          ei_encode_string (chars "/p/a"); ei_encode_string (chars "/p/a");
          ei_encode_binary []; ei_encode_binary (replicate 90 (byte.of_Z 0));
          ei_encode_ulong 5000; ei_encode_binary (replicate 16 NUL) ]))
    (example_world unit 1 [] [])).
  all: first [reflexivity | lia | done | vm_compute; done].
Defined.
