(* ===== verification/Poll.v ===== *)
(** * Receiving messages  (cloudi.cpp)

    [callback], [store_incoming_*], [handle_events] and [poll_request]: the
    messages the Erlang VM sends to an instance, dispatched by command. *)

From S2P Require Import Prelude CMonad Status Sys ReallocPtr Framing Lookup Ei Instance Requests.

(** The arguments a callback function gets: pointers into [buffer_call]. *)
Record request : Type := mk_request {
  rq_type : Z;
  rq_name : ptr;
  rq_pattern : ptr;
  rq_request_info : ptr;
  rq_request_info_size : Z;
  rq_request : ptr;
  rq_request_size : Z;
  rq_timeout : Z;
  rq_priority : Z;
  rq_trans_id : ptr;
  rq_pid : ptr;
  rq_pid_size : Z
}.

Definition MESSAGE_INIT : Z := 1.
Definition MESSAGE_SEND_ASYNC : Z := 2.
Definition MESSAGE_SEND_SYNC : Z := 3.
Definition MESSAGE_RECV_ASYNC : Z := 4.
Definition MESSAGE_RETURN_ASYNC : Z := 5.
Definition MESSAGE_RETURN_SYNC : Z := 6.
Definition MESSAGE_RETURNS_ASYNC : Z := 7.
Definition MESSAGE_KEEPALIVE : Z := 8.
Definition MESSAGE_REINIT : Z := 9.
Definition MESSAGE_SUBSCRIBE_COUNT : Z := 10.
Definition MESSAGE_TERM : Z := 11.

(** ** store_incoming_*: a value of [buffer] at [index], and the next index *)

Section store_incoming.
Context {S R : Type}.
Implicit Types (buffer : buffer_t) (index : Z).

(** [&buffer[index]] *)
Definition address buffer index : C S R ptr :=
  cassert (index <? m_size buffer);;; cret (ptr_to buffer index).

Definition store_incoming_uint32 buffer index : C S R (Z * Z) :=
  cassert (index <? m_size buffer);;;
  let* bs := copt (load (m_p buffer) (Z.to_nat index) 4) in
  cret (le_combine bs, wrap32 (index + 4)).

Definition store_incoming_int8 buffer index : C S R (Z * Z) :=
  cassert (index <? m_size buffer);;;
  let* bs := copt (load (m_p buffer) (Z.to_nat index) 1) in
  match bs with
  | [b] => cret (byte_signed b, wrap32 (index + 1))
  | _ => cundef
  end.

(** [p = new char[size]; memcpy(p, &buffer[index], size);] *)
Definition store_incoming_binary buffer index : C S R (cells * Z) :=
  let* (size, index) := store_incoming_uint32 buffer index in
  cassert (index <? m_size buffer);;;
  let* p := copt (get_cells (m_p buffer) index size) in
  cret (p, wrap32 (index + size)).
End store_incoming.

Section poll.
Context {F U : Type} {E : Ei}.
(** A user's callback function: code that may use the API of the instance. *)
Context (run : F -> request -> C (world F U) unit unit).
Abbreviation M := (C (world F U) Z).

(** [f(...)]: the call operator of class callback_function. *)
Definition invoke {R} (f : callback_function F) (rq : request) : C (world F U) R unit :=
  match f with
  | callback_user f => call (run f rq)
  | callback_null_response => cret tt
  end.

(** [std::string(pattern)] etc. of a pointer into [buffer_call] *)
Definition call_cstr {R} (p : ptr) : C (world F U) R bytes :=
  let* b := field p_buffer_call in copt (deref_cstr b p).
Definition call_bytes {R} (p : ptr) (n : Z) : C (world F U) R bytes :=
  let* b := field p_buffer_call in copt (deref b p n).

(** [cloudi_return(p, type, name, pattern, "", 0, "", 0, timeout, trans_id,
    pid, pid_size)] *)
Definition return_null (request_type : Z) (rq : request) : C (world F U) Z Z :=
  let* name := call_cstr (rq_name rq) in
  let* pattern := call_cstr (rq_pattern rq) in
  let* trans_id := call_bytes (rq_trans_id rq) 16 in
  let* pid := call_bytes (rq_pid rq) (rq_pid_size rq) in
  cloudi_return request_type name pattern [] [] (rq_timeout rq) trans_id pid.

(** One arm of [callback]: the exceptions that end it, those that are
    asserted not to happen, and the null response when the callback function
    neither returned nor forwarded. *)
Definition callback_arm (request_type : Z) (f : callback_function F) (rq : request)
    (expected unexpected : list exception) (e_return : exception) :
    C (world F U) unit unit :=
  ctry (invoke f rq)
    (fun e =>
       if decide (e ∈ expected) then Some (creturn tt)
       else if decide (e ∈ unexpected) then Some (cassert false;;; creturn tt)
       else if decide (e = unknown_exception) then None
       else Some (cret tt));;;      (* boost and std exceptions are logged *)
  ctry (let* result := call (return_null request_type rq) in
        cassert (result =? cloudi_success))
    (fun e => if decide (e = e_return) then Some (creturn tt) else None);;;
  cassert false.

Definition callback (command : Z) (rq : request) : C (world F U) unit unit :=
  let* pattern := call_cstr (rq_pattern rq) in
  let* lookup := field p_lookup in
  let* (f, lookup) := copt (lookup_find pattern lookup) in
  assign (set_lookup lookup);;;
  if command =? MESSAGE_SEND_ASYNC then
    callback_arm CLOUDI_ASYNC f rq
      [return_async_exception; forward_async_exception]
      [return_sync_exception; forward_sync_exception] return_async_exception
  else if command =? MESSAGE_SEND_SYNC then
    callback_arm CLOUDI_SYNC f rq
      [return_sync_exception; forward_sync_exception]
      [return_async_exception; forward_async_exception] return_sync_exception
  else cassert false.

(** ** Events after a message *)

(** [store_incoming_uint32(buffer_recv, index, p->field)] *)
Definition incoming_uint32 {R} (set : Z -> cloudi_instance_t F -> cloudi_instance_t F)
    (index : Z) : C (world F U) R Z :=
  let* b := field p_buffer_recv in
  let* (v, index) := store_incoming_uint32 b index in
  assign (set v);;; cret index.

Definition incoming_int8 {R} (set : Z -> cloudi_instance_t F -> cloudi_instance_t F)
    (index : Z) : C (world F U) R Z :=
  let* b := field p_buffer_recv in
  let* (v, index) := store_incoming_int8 b index in
  assign (set v);;; cret index.

(** The fields of a REINIT message. *)
Definition store_reinit {R} (index : Z) : C (world F U) R Z :=
  let* index := incoming_uint32 set_process_count index in
  let* index := incoming_uint32 set_timeout_async index in
  let* index := incoming_uint32 set_timeout_sync index in
  incoming_int8 set_priority_default index.

(** The [while (true)] of [handle_events]: the [bool] returned, and
    [result]. *)
Fixpoint handle_events_loop (fuel : nat) (external index command : Z) :
  C (world F U) (bool * Z) (bool * Z) :=
  match fuel with
  | O => cnofuel
  | S fuel =>
      let* index :=
        (if command =? MESSAGE_TERM then
           assign (set_terminate 1);;;
           if negb (external =? 0) then creturn (false, cloudi_success : Z)
           else creturn (false, cloudi_terminate : Z)
         else if command =? MESSAGE_REINIT then store_reinit index
         else if command =? MESSAGE_KEEPALIVE then
           let* result := call keepalive in
           creturn_if (negb (result =? 0)) (false, result);;;
           cret index
         else creturn (false, cloudi_error_read_underflow : Z)) in
      let* recv_index := field p_buffer_recv_index in
      if recv_index <? index then creturn (false, cloudi_error_read_underflow : Z)
      else if index =? recv_index then creturn (true, cloudi_success : Z)
      else
        let* b := field p_buffer_recv in
        let* (command, index) := store_incoming_uint32 b index in
        handle_events_loop fuel external index command
  end.

(** [handle_events(p, external, index, result, command)]; [command] is 0
    where the argument is left out. *)
Definition handle_events (external index command : Z) :
  C (world F U) (bool * Z) (bool * Z) :=
  let* recv_index := field p_buffer_recv_index in
  let fuel := S (Z.to_nat recv_index) in
  if command =? 0 then
    if recv_index <? index then creturn (false, cloudi_error_read_underflow : Z)
    else
      let* b := field p_buffer_recv in
      let* (command, index) := store_incoming_uint32 b index in
      handle_events_loop fuel external index command
  else handle_events_loop fuel external index command.

(** ** poll_request *)

(** [if (index != p->buffer_recv_index) { assert(allowed);
    if (! handle_events(...)) return result; }] *)
Definition trailing_events (allowed : bool) (external index : Z) : M unit :=
  let* recv_index := field p_buffer_recv_index in
  if index =? recv_index then cret tt
  else
    cassert allowed;;;
    let* (ok, result) := call (handle_events external index 0) in
    creturn_if (negb ok) result.

(** [trailing_events], [p->buffer_recv_index = 0; return cloudi_success;] *)
Definition finish {A} (external index : Z) : M A :=
  trailing_events (external =? 0) external index;;;
  assign (set_buffer_recv_index 0);;;
  creturn (cloudi_success : Z).

Definition message_init {A} (external index : Z) : M A :=
  let* index := incoming_uint32 set_process_index index in
  let* index := incoming_uint32 set_process_count index in
  let* index := incoming_uint32 set_process_count_max index in
  let* index := incoming_uint32 set_process_count_min index in
  let* b := field p_buffer_recv in
  let* (prefix, index) := store_incoming_binary b index in
  assign (set_prefix (Some prefix));;;
  let* index := incoming_uint32 set_timeout_initialize index in
  let* index := incoming_uint32 set_timeout_async index in
  let* index := incoming_uint32 set_timeout_sync index in
  let* index := incoming_uint32 set_timeout_terminate index in
  let* index := incoming_int8 set_priority_default index in
  finish external index.

(** [buffer_call.copy(buffer_recv);], its result ignored *)
Definition copy_call : M unit :=
  let* w := cget in
  let* (_, b) := copt (copy 1 (sys_realloc (w_sys w)) (p_buffer_recv (w_inst w)) 0
                         (p_buffer_call (w_inst w))) in
  assign (set_buffer_call b).

(** The arguments of a SEND message, and the index after them. *)
Definition parse_send {R} (b : buffer_t) (request_type index : Z) :
  C (world F U) R (request * Z) :=
  let* (name_size, index) := store_incoming_uint32 b index in
  let* name := address b index in
  let index := wrap32 (index + name_size) in
  let* (pattern_size, index) := store_incoming_uint32 b index in
  let* pattern := address b index in
  let index := wrap32 (index + pattern_size) in
  let* (request_info_size, index) := store_incoming_uint32 b index in
  let* request_info := address b index in
  let index := wrap32 (index + wrap32 (request_info_size + 1)) in
  let* (request_size, index) := store_incoming_uint32 b index in
  let* request := address b index in
  let index := wrap32 (index + wrap32 (request_size + 1)) in
  let* (request_timeout, index) := store_incoming_uint32 b index in
  let* (priority, index) := store_incoming_int8 b index in
  let* trans_id := address b index in
  let index := wrap32 (index + 16) in
  let* (pid_size, index) := store_incoming_uint32 b index in
  let* pid := address b index in
  let index := wrap32 (index + pid_size) in
  cret (mk_request request_type name pattern request_info request_info_size
          request request_size request_timeout priority trans_id pid pid_size,
        index).

Definition message_send (command external index : Z) : M unit :=
  copy_call;;;
  let* b := field p_buffer_call in
  let request_type :=
    if command =? MESSAGE_SEND_ASYNC then CLOUDI_ASYNC else CLOUDI_SYNC in
  let* (rq, index) := parse_send b request_type index in
  trailing_events (negb (external =? 0)) external index;;;
  assign (set_buffer_recv_index 0);;;
  call (callback command rq).

(** [p->x = &buffer_recv[index];] *)
Definition incoming_pointer {R}
    (set : option ptr -> cloudi_instance_t F -> cloudi_instance_t F) (index : Z) :
    C (world F U) R unit :=
  let* b := field p_buffer_recv in
  let* p := address b index in
  assign (set (Some p)).

Definition message_return_sync {A} (external index : Z) : M A :=
  let* index := incoming_uint32 set_response_info_size index in
  incoming_pointer set_response_info index;;;
  let* n := field p_response_info_size in
  let index := wrap32 (index + wrap32 (n + 1)) in
  let* index := incoming_uint32 set_response_size index in
  incoming_pointer set_response index;;;
  let* n := field p_response_size in
  let index := wrap32 (index + wrap32 (n + 1)) in
  assign (set_trans_id_count 1);;;
  incoming_pointer set_trans_id index;;;
  finish external (wrap32 (index + 16)).

Definition message_return_async {A} (external index : Z) : M A :=
  assign (set_trans_id_count 1);;;
  incoming_pointer set_trans_id index;;;
  finish external (wrap32 (index + 16)).

Definition message_returns_async {A} (external index : Z) : M A :=
  let* index := incoming_uint32 set_trans_id_count index in
  incoming_pointer set_trans_id index;;;
  let* n := field p_trans_id_count in
  finish external (wrap32 (index + wrap32 (16 * n))).

Definition message_subscribe_count {A} (external index : Z) : M A :=
  let* index := incoming_uint32 set_subscribe_count index in
  finish external index.

(** How the [switch] ends when it does not return: [break], which waits for
    the next message, or [continue] with the next command of this one. *)
Inductive action : Type := Break | Continue (index : Z).

(** The end of REINIT and KEEPALIVE. *)
Definition next_command (index : Z) : M action :=
  let* recv_index := field p_buffer_recv_index in
  if index =? recv_index then
    assign (set_buffer_recv_index 0);;; cret Break
  else if index <? recv_index then cret (Continue index)
  else creturn (cloudi_error_read_underflow : Z).

(** [switch (command)]; [index] is after the command. *)
Definition dispatch (external command index : Z) : M action :=
  if command =? MESSAGE_INIT then message_init external index
  else if (command =? MESSAGE_SEND_ASYNC) || (command =? MESSAGE_SEND_SYNC) then
    message_send command external index;;; cret Break
  else if (command =? MESSAGE_RECV_ASYNC) || (command =? MESSAGE_RETURN_SYNC) then
    message_return_sync external index
  else if command =? MESSAGE_RETURN_ASYNC then message_return_async external index
  else if command =? MESSAGE_RETURNS_ASYNC then message_returns_async external index
  else if command =? MESSAGE_SUBSCRIBE_COUNT then message_subscribe_count external index
  else if command =? MESSAGE_TERM then
    let* (ok, result) := call (handle_events external index command) in
    creturn_if (negb ok) result;;;
    cassert false;;;
    cret Break
  else if command =? MESSAGE_REINIT then
    let* index := store_reinit index in
    next_command index
  else if command =? MESSAGE_KEEPALIVE then
    let* result := call keepalive in
    creturn_if (negb (result =? 0)) 0;;;       (* return false; *)
    next_command index
  else creturn (cloudi_error_read_underflow : Z).

(** [::poll(fds, 1, timeout)] and the message that is ready, into
    [buffer_recv]. *)
Definition receive (timeout : Z) : M unit :=
  let* count := on_sys (sys_poll timeout) in
  match count with
  | inl e => creturn (errno_poll e : Z)
  | inr count =>
      creturn_if (count =? 0) (cloudi_timeout : Z);;;
      let* p := field id in
      let* (result, b, total) :=
        call (on_sys (read_all (p_use_header p) (p_buffer_recv p) (p_buffer_size p))) in
      assign (fun p => set_buffer_recv_index total (set_buffer_recv b p));;;
      creturn_if (negb (result =? 0)) result;;;
      creturn_if (total =? 0) (cloudi_error_read_underflow : Z)
  end.

(** [timeout -= std::min(elapsed, timeout)] when there is one *)
Definition remaining_timeout (timeout : Z) : M Z :=
  if 0 <? timeout then
    let* ms := on_sys sys_elapsed_ms in
    cret (timeout - Z.min ms timeout)
  else cret timeout.

(** The [while (true)] of [poll_request]. *)
Fixpoint poll_loop (fuel : nat) (timeout external index : Z) : M Z :=
  match fuel with
  | O => cnofuel
  | S fuel =>
      let* b := field p_buffer_recv in
      let* (command, index) := store_incoming_uint32 b index in
      let* a := dispatch external command index in
      match a with
      | Continue index => poll_loop fuel timeout external index
      | Break =>
          let* timeout := remaining_timeout timeout in
          creturn_if (timeout =? 0) (cloudi_timeout : Z);;;
          receive timeout;;;
          poll_loop fuel timeout external 0
      end
  end.

(** Every round of the loop takes a [poll] or four bytes that were
    received. *)
Definition poll_fuel (w : world F U) : nat :=
  S (length (sys_polls (w_sys w)) + length (sys_in (w_sys w))).

Definition poll_request (timeout external : Z) : M Z :=
  let* p := field id in
  if negb (p_terminate p =? 0) then creturn (cloudi_success : Z)
  else
    cwhen (negb (external =? 0) && (p_initialization_complete p =? 0))
      (let* result := call polling in
       creturn_if (negb (result =? 0)) result;;;
       assign (set_initialization_complete 1));;;
    let* fuel := creads poll_fuel in
    receive timeout;;;
    poll_loop fuel timeout external 0.
End poll.
