(* ===== verification/Calls.v ===== *)
(** * Operations that wait for an answer  (cloudi.cpp)

    Initialisation and destruction, the sends, subscribe_count, recv_async
    and poll. *)

From S2P Require Import Prelude Text CMonad Status Sys ReallocPtr Framing Lookup Ei Instance Requests Poll.

Definition CLOUDI_MAX_BUFFERSIZE : Z := 2147483648.

Section calls.
Context {F U : Type} {E : Ei}.
Context (run : F -> request -> C (world F U) unit unit).
Abbreviation M := (C (world F U) Z).

(** [result = poll_request(p, -1, 0); if (result) return result;
    return cloudi_success;] after a write that succeeded. *)
Definition send_and_wait (index : Z) : M Z :=
  let* result := send_buffer index in
  creturn_if (negb (result =? 0)) result;;;
  let* result := call (poll_request run (-1) 0) in
  creturn_if (negb (result =? 0)) result;;;
  creturn (cloudi_success : Z).

Definition cloudi_subscribe_count (pattern : bytes) : M Z :=
  let* index := encode_request
    [ ei_encode_version; ei_encode_tuple_header 2;
      ei_encode_atom (chars "subscribe_count") ]
    (strlen pattern + 128)
    [ ei_encode_string pattern ] in
  send_and_wait index.

Definition cloudi_send_ (command_name name request_info request : bytes)
    (timeout priority : Z) : M Z :=
  let* index := encode_request
    [ ei_encode_version; ei_encode_tuple_header 6; ei_encode_atom command_name ]
    (strlen name + Z.of_nat (length request_info) + Z.of_nat (length request) + 128)
    [ ei_encode_string name; ei_encode_binary request_info;
      ei_encode_binary request; ei_encode_ulong timeout;
      ei_encode_long priority ] in
  send_and_wait index.

Definition cloudi_send_async (name request : bytes) : M Z :=
  let* p := field id in
  let* result := call (cloudi_send_ (chars "send_async") name [] request
                         (p_timeout_async p) (p_priority_default p)) in
  creturn result.

(** [if (timeout == 0) timeout = p->timeout_*;] *)
Definition default_timeout (timeout : Z) (get : cloudi_instance_t F -> Z) : M Z :=
  if timeout =? 0 then field get else cret timeout.

Definition cloudi_send_async_ (name request_info request : bytes)
    (timeout priority : Z) : M Z :=
  let* timeout := default_timeout timeout p_timeout_async in
  let* result := call (cloudi_send_ (chars "send_async") name request_info request
                         timeout priority) in
  creturn result.

Definition cloudi_send_sync (name request : bytes) : M Z :=
  let* p := field id in
  let* result := call (cloudi_send_ (chars "send_sync") name [] request
                         (p_timeout_sync p) (p_priority_default p)) in
  creturn result.

Definition cloudi_send_sync_ (name request_info request : bytes)
    (timeout priority : Z) : M Z :=
  let* timeout := default_timeout timeout p_timeout_sync in
  let* result := call (cloudi_send_ (chars "send_sync") name request_info request
                         timeout priority) in
  creturn result.

Definition cloudi_mcast_async (name request : bytes) : M Z :=
  let* p := field id in
  let* result := call (cloudi_send_ (chars "mcast_async") name [] request
                         (p_timeout_async p) (p_priority_default p)) in
  creturn result.

Definition cloudi_mcast_async_ (name request_info request : bytes)
    (timeout priority : Z) : M Z :=
  let* timeout := default_timeout timeout p_timeout_async in
  let* result := call (cloudi_send_ (chars "mcast_async") name request_info request
                         timeout priority) in
  creturn result.

Definition trans_id_null : bytes := replicate 16 NUL.

(** No [reserve]: the request is short. *)
Definition cloudi_recv_async (timeout : Z) (trans_id : option bytes) (consume : Z) :
  M Z :=
  let* index := start_index in
  let* index := encode_all index
    [ ei_encode_version; ei_encode_tuple_header 4;
      ei_encode_atom (chars "recv_async") ] in
  let* timeout := default_timeout timeout p_timeout_sync in
  let* index := encode_all index
    [ ei_encode_ulong timeout;
      ei_encode_binary (default trans_id_null trans_id);
      ei_encode_atom (if negb (consume =? 0) then chars "true" else chars "false") ] in
  send_and_wait index.

Definition cloudi_poll (timeout : Z) : M Z :=
  let* result := call (poll_request run timeout 1) in
  creturn result.

(** ** Initialisation *)

(** [memset(p, 0, sizeof(cloudi_instance_t))]; a null buffer is empty. *)
Definition zero_instance : cloudi_instance_t F :=
  let null := mk_realloc_ptr 0 0 0 [] 0 in
  mk_instance 0 0 0 0 0 0 0 ∅ null null 0 null 0 0 0 0 None 0 0 0 0 0
    None 0 None 0 None 0 0.

(** The descriptors and the header flag of a protocol; [None] for a name
    that is not one. *)
Definition protocol_of (protocol : bytes) (thread_index : Z) :
  option (Z * Z) :=
  if decide (protocol = chars "tcp") then Some (int32 (thread_index + 3), 1)
  else if decide (protocol = chars "udp") then Some (int32 (thread_index + 3), 0)
  else if decide (protocol = chars "local") then Some (int32 (thread_index + 3), 1)
  else None.

Definition new_buffer : buffer_t := construct 1 32768 CLOUDI_MAX_BUFFERSIZE.

(** The fields set before the attempt to initialise. *)
Definition configure (fd use_header buffer_size : Z) (p : cloudi_instance_t F) :
  cloudi_instance_t F :=
  set_timeout_terminate 1000 (set_buffer_call new_buffer
    (set_buffer_recv new_buffer (set_buffer_send new_buffer
      (set_lookup ∅ (set_buffer_size buffer_size
        (set_use_header use_header (set_fd_out fd (set_fd_in fd p)))))))).

(** [while (cloudi_timeout == (result = poll_request(p, 1000, 0))) {}]
    Every round takes an answer of [poll]. *)
Fixpoint await_init (fuel : nat) : M Z :=
  match fuel with
  | O => cnofuel
  | S fuel =>
      let* result := call (poll_request run 1000 0) in
      if result =? cloudi_timeout then await_init fuel else creturn result
  end.

(** [getenv] answers for the environment variables read. *)
Definition cloudi_initialize (null : bool) (getenv : bytes -> option bytes)
    (thread_index state : Z) : M Z :=
  if null then creturn (cloudi_out_of_memory : Z) else
  match getenv (chars "CLOUDI_API_INIT_PROTOCOL") with
  | None => creturn (cloudi_invalid_input : Z)
  | Some protocol =>
      match getenv (chars "CLOUDI_API_INIT_BUFFER_SIZE") with
      | None => creturn (cloudi_invalid_input : Z)
      | Some buffer_size_p =>
          assign (fun _ => set_state state zero_instance);;;
          let buffer_size := wrap32 (atoi buffer_size_p) in
          match protocol_of protocol thread_index with
          | None => creturn (cloudi_invalid_input : Z)
          | Some (fd, use_header) =>
              assign (configure fd use_header buffer_size);;;
              let* index := start_index in
              let* index := encode_all index
                [ ei_encode_version; ei_encode_atom (chars "init") ] in
              let* result := send_buffer index in
              creturn_if (negb (result =? 0)) result;;;
              let* fuel := creads poll_fuel in
              await_init fuel
          end
      end
  end.

(** [cloudi_destroy]: the descriptors closed and the pointer returned. *)
Definition cloudi_destroy (p : option (cloudi_instance_t F)) : list Z * Z :=
  match p with
  | None => ([], 0)
  | Some p =>
      if negb (p_fd_in p =? 0) then
        (p_fd_in p :: (if negb (p_fd_in p =? p_fd_out p) then [p_fd_out p] else []),
         p_state p)
      else ([], 0)
  end.

(** [cloudi_initialize_thread_count]: the status and the count. *)
Definition cloudi_initialize_thread_count (getenv : bytes -> option bytes) :
  Z * option Z :=
  match getenv (chars "CLOUDI_API_INIT_THREAD_COUNT") with
  | None => (cloudi_invalid_input : Z, None)
  | Some p =>
      let value := atoi p in
      if value <? 0 then (cloudi_invalid_input : Z, None)
      else (cloudi_success : Z, Some value)
  end.
End calls.
