(* ===== verification/Messages.v ===== *)
(** * Messages of the Erlang VM

    The messages cloudi_core_i_services_external.erl sends to an instance
    (its functions ['init_out'] to ['subscribe_count_out'], in the native
    byte order of the little-endian machines the API is modelled on), and
    what [poll_request] does with each of them. *)

From S2P Require Import Prelude CMonad Status Sys ReallocPtr Framing Lookup Ei Instance Requests Poll.

(** ** The encoders  (src/src/lib/cloudi_core/src/cloudi_core_i_services_external.erl) *)

(** [I:8/signed-integer-native] *)
Definition i8 (n : Z) : bytes := [byte.of_Z n].

(** The external process is given less time to end than it is waited for
    (cloudi_core_i_constants.hrl). *)
Definition TIMEOUT_TERMINATE_EXTERNAL (timeout_term : Z) : Z := Z.max 0 (timeout_term - 500).

Definition init_out (process_index process_count process_count_max process_count_min : Z)
    (prefix : bytes) (timeout_init timeout_async timeout_sync timeout_term : Z)
    (priority_default : Z) : bytes :=
  u32 MESSAGE_INIT ++ u32 process_index ++ u32 process_count ++
  u32 process_count_max ++ u32 process_count_min ++
  u32 (Z.of_nat (length prefix) + 1) ++ (prefix ++ [NUL]) ++
  u32 timeout_init ++ u32 timeout_async ++ u32 timeout_sync ++
  u32 (TIMEOUT_TERMINATE_EXTERNAL timeout_term) ++ i8 priority_default.

Definition reinit_out (process_count timeout_async timeout_sync priority_default : Z) :
  bytes :=
  u32 MESSAGE_REINIT ++ u32 process_count ++ u32 timeout_async ++ u32 timeout_sync ++
  i8 priority_default.

Definition terminate_out : bytes := u32 MESSAGE_TERM.
Definition keepalive_out : bytes := u32 MESSAGE_KEEPALIVE.

(** ['send_async_out'] and ['send_sync_out'], which differ in the command. *)
Definition send_out (command : Z) (name pattern request_info request : bytes)
    (timeout priority : Z) (trans_id source : bytes) : bytes :=
  u32 command ++
  u32 (Z.of_nat (length name) + 1) ++ (name ++ [NUL]) ++
  u32 (Z.of_nat (length pattern) + 1) ++ (pattern ++ [NUL]) ++
  u32 (Z.of_nat (length request_info)) ++ (request_info ++ [NUL]) ++
  u32 (Z.of_nat (length request)) ++ (request ++ [NUL]) ++
  u32 timeout ++ i8 priority ++ trans_id ++
  u32 (Z.of_nat (length source)) ++ source.

Definition return_async_out (trans_id : bytes) : bytes :=
  u32 MESSAGE_RETURN_ASYNC ++ trans_id.

(** ['return_sync_out'] and ['recv_async_out']. *)
Definition response_out (command : Z) (response_info response trans_id : bytes) : bytes :=
  u32 command ++
  u32 (Z.of_nat (length response_info)) ++ (response_info ++ [NUL]) ++
  u32 (Z.of_nat (length response)) ++ (response ++ [NUL]) ++
  trans_id.

Definition returns_async_out (trans_ids : list bytes) : bytes :=
  u32 MESSAGE_RETURNS_ASYNC ++ u32 (Z.of_nat (length trans_ids)) ++ concat trans_ids.

Definition subscribe_count_out (count : Z) : bytes :=
  u32 MESSAGE_SUBSCRIBE_COUNT ++ u32 count.

(** ** Reading fields *)

(** The bytes [bs] are in the buffer at [i], not up to its end. *)
Definition field_at (b : buffer_t) (i : Z) (bs : bytes) : Prop :=
  wf b /\ 0 <= i /\ i + Z.of_nat (length bs) < m_size b /\
  holds (m_p b) (Z.to_nat i) bs.

Lemma field_at_app b i xs ys :
  field_at b i (xs ++ ys) ->
  field_at b i xs /\ field_at b (i + Z.of_nat (length xs)) ys.
Proof.
  intros (Hwf & Hi & Hl & Hh). rewrite length_app in Hl.
  apply holds_app in Hh as [H1 H2].
  split; (split; [done|]); (split; [lia|]); (split; [lia|]); [done|].
  by rewrite Z2Nat.inj_add, Nat2Z.id by lia.
Qed.

Lemma field_at_mid b i pre xs post bs :
  field_at b 0 bs -> bs = pre ++ xs ++ post -> i = Z.of_nat (length pre) ->
  field_at b i xs.
Proof.
  intros Hf -> ->. apply field_at_app in Hf as [_ Hf].
  by apply field_at_app in Hf as [Hf _].
Qed.

Section fields.
Context {F U : Type}.
Implicit Types (w : world F U) (b : buffer_t).

Lemma field_load b i bs :
  field_at b i bs -> load (m_p b) (Z.to_nat i) (length bs) = Some bs.
Proof. intros (_ & _ & _ & H). by apply load_holds. Qed.

Lemma field_assert b i bs : field_at b i bs -> (i <? m_size b) = true.
Proof. intros (_ & _ & H & _). apply Z.ltb_lt. lia. Qed.

Lemma store_incoming_uint32_ok {St R : Type} b i v (s : St) :
  field_at b i (u32 v) -> 0 <= v < 2 ^ 32 -> i + 4 < 2 ^ 32 ->
  store_incoming_uint32 (R := R) b i s = (Next (v, i + 4), s).
Proof.
  intros Hf Hv Hi. unfold store_incoming_uint32.
  rewrite (field_assert _ _ _ Hf). cbn [cassert]. crun.
  pose proof (field_load _ _ _ Hf) as Hld. rewrite length_u32 in Hld. rewrite Hld.
  cbn [copt]. crun. rewrite le_combine_u32 by done.
  rewrite wrap32_small by (destruct Hf as (_ & ? & _); lia). done.
Qed.

Lemma store_incoming_int8_ok {St R : Type} b i v (s : St) :
  field_at b i (i8 v) -> - 2 ^ 7 <= v < 2 ^ 7 -> i + 1 < 2 ^ 32 ->
  store_incoming_int8 (R := R) b i s = (Next (v, i + 1), s).
Proof.
  intros Hf Hv Hi. unfold store_incoming_int8.
  rewrite (field_assert _ _ _ Hf). cbn [cassert]. crun.
  pose proof (field_load _ _ _ Hf) as Hld. unfold i8 in Hld. cbn [length] in Hld. rewrite Hld.
  cbn [copt]. crun. unfold cret. rewrite byte_signed_of_Z by done.
  rewrite wrap32_small by (destruct Hf as (_ & ? & _); lia). done.
Qed.

Lemma address_ok {St R : Type} b i bs (s : St) :
  field_at b i bs -> address (R := R) b i s = (Next (ptr_to b i), s).
Proof. intros Hf. unfold address. rewrite (field_assert _ _ _ Hf). done. Qed.

(** What a pointer to a field denotes. *)
Lemma deref_ok b i bs :
  field_at b i bs -> deref b (ptr_to b i) (Z.of_nat (length bs)) = Some bs.
Proof.
  intros Hf. unfold deref, ptr_to. cbn. rewrite decide_True by done.
  rewrite Nat2Z.id. by apply field_load.
Qed.

Lemma deref_cstr_ok b i bs :
  field_at b i (bs ++ [NUL]) -> NUL ∉ bs ->
  deref_cstr b (ptr_to b i) = Some bs.
Proof.
  intros (Hwf & Hi & Hl & Hh) Hn. unfold deref_cstr, ptr_to. cbn.
  rewrite decide_True by done. unfold holds in Hh.
  rewrite <- (take_drop (length (bs ++ [NUL])) (drop _ (m_p b))), Hh, fmap_app.
  rewrite <- app_assoc. by apply cstr_of_app.
Qed.
End fields.

Lemma length_concat_ids (ids : list bytes) :
  Forall (fun t : bytes => length t = 16%nat) ids ->
  Z.of_nat (length (concat ids)) = 16 * Z.of_nat (length ids).
Proof.
  induction 1 as [|t l Ht _ IH]; [done|]. cbn [concat length]. rewrite length_app. lia.
Qed.

(** ** Walking through a message *)

(** [bs] is what is left of a message of [n] bytes in [b], from [i] on. *)
Definition unread (b : buffer_t) (n i : Z) (bs : bytes) : Prop :=
  field_at b i bs /\ i + Z.of_nat (length bs) = n /\ n < 2 ^ 31.

Lemma unread_app b n i xs ys :
  unread b n i (xs ++ ys) ->
  field_at b i xs /\ unread b n (i + Z.of_nat (length xs)) ys.
Proof.
  intros (Hf & Hn & Hlt). apply field_at_app in Hf as [H1 H2].
  rewrite length_app in Hn. split; [done|]. split; [done|]. split; [lia|done].
Qed.

Lemma unread_start b bs : field_at b 0 bs -> Z.of_nat (length bs) < 2 ^ 31 ->
  unread b (Z.of_nat (length bs)) 0 bs.
Proof. intros Hf Hl. split; [done|]. lia. Qed.

(** ** Receiving one message *)

Section arrival.
Context {F U : Type} {E : Ei}.
Implicit Types (w : world F U) (b : buffer_t).

(** A message is next on the stream, [poll] reports it, and memory is
    available. *)
Record arriving (msg rest : bytes) (ps : list pl) w : Prop := {
  ar_header : p_use_header (w_inst w) <> 0;
  ar_in : sys_in (w_sys w) = frame (p_use_header (w_inst w)) msg ++ rest;
  ar_polls : sys_polls (w_sys w) = pl_ready :: ps;
  ar_reads : good_reads (4 + length msg) (sys_reads (w_sys w));
  ar_recv : wf (p_buffer_recv (w_inst w));
  ar_alloc : forall n, sys_realloc (w_sys w) n = true;
  ar_size : 0 < Z.of_nat (length msg) < 2 ^ 31;
  ar_max : Z.of_nat (length msg) <= m_maxSize (p_buffer_recv (w_inst w))
}.

(** The instance and the socket after it. *)
Definition arrival (msg : bytes) b w : cloudi_instance_t F :=
  set_buffer_recv_index (Z.of_nat (length msg)) (set_buffer_recv b (w_inst w)).

(** The buffer it is in after it, and the reads left for what follows. *)
Record received (msg : bytes) b (rs : list rd) w : Prop := {
  rc_field : field_at b 0 msg;
  rc_size : m_size b <= Z.max (m_size (p_buffer_recv (w_inst w))) (2 * Z.of_nat (length msg));
  rc_max : m_maxSize b = m_maxSize (p_buffer_recv (w_inst w));
  rc_reads n : good_reads (4 + length msg + n) (sys_reads (w_sys w)) -> good_reads n rs
}.

Lemma receive_next timeout msg rest ps w :
  arriving msg rest ps w ->
  exists b rs, received msg b rs w /\
    receive timeout w =
      (Next tt, mk_world (arrival msg b w) (set_polls ps (set_read rest rs (w_sys w))) (w_user w)).
Proof.
  intros [Hu Hin Hp Hr Hwf Ha Hs Hm].
  destruct (reserve_succeeds 1 (sys_realloc (w_sys w)) (Z.of_nat (length msg))
    (p_buffer_recv (w_inst w))) as (b1 & Hres & He & Hsz); try done; [lia|].
  pose proof (proj1 He) as Hwf1. destruct (Hwf1) as [Hl1 ?].
  destruct (reserve_true 1 (sys_realloc (w_sys w)) (Z.of_nat (length msg)) _ _ Hwf
    ltac:(lia) Hres)
    as (_ & _ & Hbound).
  set (s1 := set_polls ps (w_sys w)).
  assert (length (frame (p_use_header (w_inst w)) msg) = 4 + length msg)%nat as Hframe.
  { unfold frame. rewrite (proj2 (Z.eqb_neq _ 0)) by done. cbn [negb].
    by rewrite length_app, length_header_bytes. }
  destruct (read_all_receives (p_use_header (w_inst w)) (p_buffer_recv (w_inst w)) b1
    (p_buffer_size (w_inst w)) s1 msg rest) as (j & Hj & Hrd); try done; try lia.
  { by rewrite Hframe. }
  rewrite Hframe in Hj.
  set (b := set_cells b1 (store (m_p b1) 0 msg)) in *.
  exists b, (drop j (sys_reads (w_sys w))). split.
  { split; [|done|apply He|intros n; by apply good_reads_drop].
    split; [apply set_cells_wf; [done|]; apply length_store; lia|].
    split; [lia|]. split; [cbn; lia|]. apply holds_store_eq. lia. }
  unfold receive. erewrite bind_next; cycle 1.
  { unfold on_sys, sys_poll. by rewrite Hp. }
  cbv beta iota. cbn [Z.eqb creturn_if]. erewrite bind_next by reflexivity. cbv beta.
  unfold field. erewrite bind_next by reflexivity. cbv beta. cbn [id w_inst].
  erewrite bind_next; cycle 1.
  { apply call_return. unfold on_sys. cbn [w_sys]. fold s1. by rewrite Hrd. }
  cbv beta iota. unfold assign. erewrite bind_next by reflexivity. cbv beta.
  cbn [Z.eqb negb creturn_if status_value]. erewrite bind_next by reflexivity. cbv beta.
  rewrite (proj2 (Z.eqb_neq _ 0)) by lia. done.
Qed.

(** Waiting for a message, and what is done with it. *)
Definition waits run fuel timeout external : C (world F U) Z Z :=
  receive timeout;;; poll_loop run fuel timeout external 0.

(** What [poll_request] does after a message that does not end it. *)
Definition next_message run fuel timeout external : C (world F U) Z Z :=
  let* timeout := remaining_timeout timeout in
  creturn_if (timeout =? 0) (cloudi_timeout : Z);;;
  waits run fuel timeout external.

(** One round of the loop. *)
Lemma waits_ok run fuel timeout external command fields rest ps w :
  arriving (u32 command ++ fields) rest ps w ->
  0 <= command < 2 ^ 32 ->
  exists b rs, let w1 := mk_world (arrival (u32 command ++ fields) b w)
                 (set_polls ps (set_read rest rs (w_sys w))) (w_user w) in
    received (u32 command ++ fields) b rs w /\
    unread b (Z.of_nat (length (u32 command ++ fields))) 4 fields /\
    waits run (S fuel) timeout external w =
      (let* a := dispatch run external command 4 in
       match a with
       | Continue index => poll_loop run fuel timeout external index
       | Break => next_message run fuel timeout external
       end) w1.
Proof.
  intros Har Hc.
  destruct (receive_next timeout _ _ _ _ Har) as (b & rs & Hf & Hr).
  pose proof (unread_start _ _ (rc_field _ _ _ _ Hf) (proj2 (ar_size _ _ _ _ Har))) as Hu.
  destruct (unread_app _ _ _ _ _ Hu) as [H1 H2].
  exists b, rs. cbv zeta. split; [done|]. split; [by rewrite length_u32 in H2|].
  unfold waits. erewrite bind_next by exact Hr. cbv beta.
  cbn [poll_loop]. unfold field. erewrite bind_next by reflexivity. cbv beta.
  cbn [w_inst arrival set_buffer_recv_index set_buffer_recv p_buffer_recv].
  erewrite bind_next by (apply (store_incoming_uint32_ok _ _ command); done).
  reflexivity.
Qed.

(** [poll_request] of an instance that was polled before. *)
Lemma poll_request_waits run timeout external w :
  p_terminate (w_inst w) = 0 ->
  external = 0 \/ p_initialization_complete (w_inst w) <> 0 ->
  poll_request run timeout external w = waits run (poll_fuel w) timeout external w.
Proof.
  intros Ht He. unfold poll_request, field. erewrite bind_next by reflexivity. cbv beta. cbn [id].
  rewrite Ht. cbn [Z.eqb negb].
  assert (negb (external =? 0) && (p_initialization_complete (w_inst w) =? 0) = false) as ->.
  { destruct He as [-> | He]; [done|]. rewrite (proj2 (Z.eqb_neq _ 0) He).
    apply andb_false_r. }
  cbn [cwhen]. erewrite bind_next by reflexivity. cbv beta.
  by erewrite bind_next by reflexivity.
Qed.

(** The first round of [poll_request] on it. *)
Lemma poll_request_ok run timeout external command fields rest ps w :
  arriving (u32 command ++ fields) rest ps w ->
  p_terminate (w_inst w) = 0 ->
  external = 0 \/ p_initialization_complete (w_inst w) <> 0 ->
  0 <= command < 2 ^ 32 ->
  exists b rs, let w1 := mk_world (arrival (u32 command ++ fields) b w)
                 (set_polls ps (set_read rest rs (w_sys w))) (w_user w) in
    received (u32 command ++ fields) b rs w /\
    unread b (Z.of_nat (length (u32 command ++ fields))) 4 fields /\
    poll_request run timeout external w =
      (let* a := dispatch run external command 4 in
       match a with
       | Continue index => poll_loop run (pred (poll_fuel w)) timeout external index
       | Break => next_message run (pred (poll_fuel w)) timeout external
       end) w1.
Proof.
  intros Har Ht He Hc. rewrite (poll_request_waits run timeout external w Ht He).
  destruct (waits_ok run (pred (poll_fuel w)) timeout external command fields rest ps w Har Hc)
    as (b & rs & Hf & Hu & Heq). by exists b, rs.
Qed.
End arrival.

Section walk.
Context {F U R : Type}.
Implicit Types (w : world F U) (b : buffer_t).

Lemma unread_uint32 {A} (set : Z -> cloudi_instance_t F -> cloudi_instance_t F)
    b n i v rest w (k : Z -> C (world F U) R A) :
  p_buffer_recv (w_inst w) = b -> unread b n i (u32 v ++ rest) -> 0 <= v < 2 ^ 32 ->
  cbind (incoming_uint32 set i) k w = k (i + 4) (upd_inst (set v) w) /\
  unread b n (i + 4) rest.
Proof.
  intros Hb Hu Hv. apply unread_app in Hu as [H1 H2]. rewrite length_u32 in H2.
  split; [|done]. destruct H2 as (_ & Hn & Hlt).
  erewrite bind_next; [reflexivity|]. unfold incoming_uint32, field, assign.
  erewrite bind_next by reflexivity. cbv beta. rewrite Hb.
  erewrite bind_next by (apply (store_incoming_uint32_ok _ _ v); [done|done|lia]).
  done.
Qed.

Lemma unread_int8 {A} (set : Z -> cloudi_instance_t F -> cloudi_instance_t F)
    b n i v rest w (k : Z -> C (world F U) R A) :
  p_buffer_recv (w_inst w) = b -> unread b n i (i8 v ++ rest) -> - 128 <= v < 128 ->
  cbind (incoming_int8 set i) k w = k (i + 1) (upd_inst (set v) w) /\
  unread b n (i + 1) rest.
Proof.
  intros Hb Hu Hv. apply unread_app in Hu as [H1 H2]. change (Z.of_nat (length (i8 v))) with 1 in H2.
  split; [|done]. destruct H2 as (_ & Hn & Hlt).
  erewrite bind_next; [reflexivity|]. unfold incoming_int8, field, assign.
  erewrite bind_next by reflexivity. cbv beta. rewrite Hb.
  erewrite bind_next by (apply (store_incoming_int8_ok _ _ v); [done|lia|lia]).
  done.
Qed.

Lemma unread_pointer {A} set b n i bs w (k : unit -> C (world F U) R A) :
  p_buffer_recv (w_inst w) = b -> unread b n i bs ->
  cbind (incoming_pointer set i) k w = k tt (upd_inst (set (Some (ptr_to b i))) w).
Proof.
  intros Hb (Hf & _). erewrite bind_next; [reflexivity|].
  unfold incoming_pointer, field, assign. erewrite bind_next by reflexivity. cbv beta.
  rewrite Hb. erewrite bind_next by (by eapply address_ok). done.
Qed.

(** A size, as many bytes, and what follows. *)
Lemma unread_binary {A} b n i xs rest w (k : cells * Z -> C (world F U) R A) :
  unread b n i (u32 (Z.of_nat (length xs)) ++ xs ++ rest) ->
  cbind (store_incoming_binary b i) k w =
    k (Some <$> xs, i + 4 + Z.of_nat (length xs)) w /\
  unread b n (i + 4 + Z.of_nat (length xs)) rest.
Proof.
  intros Hu. apply unread_app in Hu as [H1 H2]. rewrite length_u32 in H2.
  pose proof H2 as ((Hwf & Hi & Hl & Hh) & Hn & Hlt). rewrite length_app in Hn, Hl.
  pose proof (proj2 (unread_app _ _ _ _ _ H2)) as H3.
  destruct (unread_app _ _ _ _ _ H2) as [Hx _]. split; [|done].
  unfold store_incoming_binary. rewrite bind_assoc.
  erewrite bind_next by (apply (store_incoming_uint32_ok _ _ (Z.of_nat (length xs)));
    [done|lia|lia]).
  cbv beta iota. rewrite bind_assoc.
  destruct H1 as (_ & Hi0 & _ & _). change (Z.of_nat 4) with 4 in *.
  rewrite (field_assert _ _ _ (proj1 H2)). cbn [cassert].
  erewrite bind_next by reflexivity. cbv beta. rewrite bind_assoc.
  destruct Hwf as [Hlm _].
  rewrite get_cells_fits by lia. cbn [copt]. erewrite bind_next by reflexivity. cbv beta.
  rewrite Nat2Z.id.
  destruct Hx as (_ & _ & _ & Hx). unfold holds in Hx. rewrite Hx.
  erewrite bind_next by reflexivity. cbv beta. by rewrite wrap32_small by lia.
Qed.

(** The end of a message with no events after it. *)
Lemma unread_finish {E : Ei} {A} external b n i w :
  p_buffer_recv_index (w_inst w) = n -> unread b n i [] ->
  finish (A := A) external i w =
    (Return (cloudi_success : Z), upd_inst (set_buffer_recv_index 0) w).
Proof.
  intros Hn (_ & Hi & _). cbn in Hi. unfold finish, trailing_events, field. crun.
  rewrite Hn, (proj2 (Z.eqb_eq _ _)) by lia. unfold assign. crun. done.
Qed.

Lemma unread_store_uint32 {A} b n i v rest w (k : Z * Z -> C (world F U) R A) :
  unread b n i (u32 v ++ rest) -> 0 <= v < 2 ^ 32 ->
  cbind (store_incoming_uint32 b i) k w = k (v, i + 4) w /\ unread b n (i + 4) rest.
Proof.
  intros Hu Hv. apply unread_app in Hu as [H1 H2]. rewrite length_u32 in H2.
  split; [|done]. destruct H2 as (_ & Hn & Hlt).
  by erewrite bind_next by (apply (store_incoming_uint32_ok _ _ v); [done|done|lia]).
Qed.

Lemma unread_store_int8 {A} b n i v rest w (k : Z * Z -> C (world F U) R A) :
  unread b n i (i8 v ++ rest) -> - 128 <= v < 128 ->
  cbind (store_incoming_int8 b i) k w = k (v, i + 1) w /\ unread b n (i + 1) rest.
Proof.
  intros Hu Hv. apply unread_app in Hu as [H1 H2].
  change (Z.of_nat (length (i8 v))) with 1 in H2.
  split; [|done]. destruct H2 as (_ & Hn & Hlt).
  by erewrite bind_next by (apply (store_incoming_int8_ok _ _ v); [done|lia|lia]).
Qed.

Lemma unread_address {A} b n i bs w (k : ptr -> C (world F U) R A) :
  unread b n i bs -> cbind (address b i) k w = k (ptr_to b i) w.
Proof. intros (Hf & _). by erewrite bind_next by (by eapply address_ok). Qed.
End walk.

(** ** Properties *)

Section properties.
Context {F U : Type} {E : Ei}.
Context (run : F -> request -> C (world F U) unit unit).
Implicit Types (w : world F U) (b : buffer_t).

(** An instance that waits for the VM ([external] is 0) or was polled
    before. *)
Definition waiting external w : Prop :=
  p_terminate (w_inst w) = 0 /\
  (external = 0 \/ p_initialization_complete (w_inst w) <> 0).

(** What a message without events after it leaves: the message taken from
    the stream, [f] done to the instance, and no message being read. *)
Definition taken (msg rest : bytes) ps (f : buffer_t -> cloudi_instance_t F -> cloudi_instance_t F)
    w w' : Prop :=
  exists b rs, received msg b rs w /\
    w' = mk_world (set_buffer_recv_index 0 (f b (arrival msg b w)))
           (set_polls ps (set_read rest rs (w_sys w))) (w_user w).

Definition init_fields (process_index process_count process_count_max process_count_min : Z)
    (prefix : bytes) (timeout_init timeout_async timeout_sync timeout_term priority : Z)
    (p : cloudi_instance_t F) : cloudi_instance_t F :=
  set_priority_default priority (set_timeout_terminate timeout_term
    (set_timeout_sync timeout_sync (set_timeout_async timeout_async
      (set_timeout_initialize timeout_init
        (set_prefix (Some (Some <$> prefix ++ [NUL]))
          (set_process_count_min process_count_min
            (set_process_count_max process_count_max
              (set_process_count process_count
                (set_process_index process_index p))))))))).

(** One more field of the message in hypothesis [Hu]. *)
Ltac take1 lem Hb Hu :=
  let H := fresh "H" in
  edestruct lem as [-> H]; [exact Hb|exact Hu|lia|];
  clear Hu; rename H into Hu; cbv beta.
Ltac take :=
  match goal with
  | Hb : p_buffer_recv _ = ?b, Hu : unread ?b _ _ _ |- _ =>
      lazymatch goal with
      | |- cbind (incoming_uint32 _ _) _ _ = _ => take1 @unread_uint32 Hb Hu
      | |- cbind (incoming_int8 _ _) _ _ = _ => take1 @unread_int8 Hb Hu
      end
  end.

(** The arm of a command. *)
Ltac switch :=
  unfold dispatch;
  cbn [Z.eqb Pos.eqb orb MESSAGE_INIT MESSAGE_SEND_ASYNC MESSAGE_SEND_SYNC
    MESSAGE_RECV_ASYNC MESSAGE_RETURN_ASYNC MESSAGE_RETURN_SYNC MESSAGE_RETURNS_ASYNC
    MESSAGE_KEEPALIVE MESSAGE_REINIT MESSAGE_SUBSCRIBE_COUNT MESSAGE_TERM].

(** A message whose arm of the [switch] returns success. *)
Lemma message_returns command fields rest ps timeout external f w :
  0 <= command < 2 ^ 32 -> waiting external w ->
  arriving (u32 command ++ fields) rest ps w ->
  (forall b n w1, unread b n 4 fields -> p_buffer_recv (w_inst w1) = b ->
     p_buffer_recv_index (w_inst w1) = n ->
     dispatch run external command 4 w1 =
       (Return (cloudi_success : Z),
        upd_inst (set_buffer_recv_index 0) (upd_inst (f b) w1))) ->
  exists w', poll_request run timeout external w = (Return (cloudi_success : Z), w') /\
    taken (u32 command ++ fields) rest ps f w w'.
Proof.
  intros Hc [Ht He] Har Hd.
  destruct (poll_request_ok run timeout external _ _ rest ps w Har Ht He Hc)
    as (b & rs & Hf & Hu & ->).
  eexists. split; [|by exists b, rs]. erewrite bind_return; [reflexivity|].
  rewrite (Hd b _ _ Hu); done.
Qed.

(** A message whose arm of the [switch] breaks. *)
Lemma message_breaks command fields rest ps timeout external f w :
  0 <= command < 2 ^ 32 -> waiting external w ->
  arriving (u32 command ++ fields) rest ps w ->
  (forall b n w1, unread b n 4 fields -> p_buffer_recv (w_inst w1) = b ->
     p_buffer_recv_index (w_inst w1) = n ->
     dispatch run external command 4 w1 =
       (Next Break, upd_inst (set_buffer_recv_index 0) (upd_inst (f b) w1))) ->
  exists w', poll_request run timeout external w =
      next_message run (pred (poll_fuel w)) timeout external w' /\
    taken (u32 command ++ fields) rest ps f w w'.
Proof.
  intros Hc [Ht He] Har Hd.
  destruct (poll_request_ok run timeout external _ _ rest ps w Har Ht He Hc)
    as (b & rs & Hf & Hu & ->).
  eexists. split; [|by exists b, rs]. by erewrite bind_next by (apply (Hd b _ _ Hu); done).
Qed.

(** The arm of the first message. *)
Lemma init_dispatched process_index process_count process_count_max process_count_min
    prefix timeout_init timeout_async timeout_sync timeout_term priority external b n w :
  Forall (fun v => 0 <= v < 2 ^ 32)
    [process_index; process_count; process_count_max; process_count_min;
     timeout_init; timeout_async; timeout_sync; timeout_term] ->
  - 128 <= priority < 128 ->
  unread b n 4 (u32 process_index ++ u32 process_count ++ u32 process_count_max ++
    u32 process_count_min ++ u32 (Z.of_nat (length prefix) + 1) ++ (prefix ++ [NUL]) ++
    u32 timeout_init ++ u32 timeout_async ++ u32 timeout_sync ++
    u32 (TIMEOUT_TERMINATE_EXTERNAL timeout_term) ++ i8 priority) ->
  p_buffer_recv (w_inst w) = b -> p_buffer_recv_index (w_inst w) = n ->
  dispatch run external MESSAGE_INIT 4 w =
    (Return (cloudi_success : Z), upd_inst (set_buffer_recv_index 0)
       (upd_inst (init_fields process_index process_count process_count_max process_count_min
          prefix timeout_init timeout_async timeout_sync
          (TIMEOUT_TERMINATE_EXTERNAL timeout_term) priority) w)).
Proof.
  intros Hv Hp Hu Hb Hn. repeat (apply Forall_cons in Hv as [? Hv]).
  assert (0 <= TIMEOUT_TERMINATE_EXTERNAL timeout_term < 2 ^ 32)
    by (unfold TIMEOUT_TERMINATE_EXTERNAL; lia).
  switch. unfold message_init. do 4 take.
  unfold field. erewrite bind_next by reflexivity. cbv beta.
  assert (Z.of_nat (length prefix) + 1 = Z.of_nat (length (prefix ++ [NUL]))) as El
    by (rewrite length_app; cbn; lia). rewrite El in Hu.
  cbn [w_inst upd_inst set_process_count_min set_process_count_max set_process_count
    set_process_index p_buffer_recv]. rewrite Hb.
  edestruct @unread_binary as [-> Hu']; [exact Hu|].
  clear Hu. rename Hu' into Hu. cbv beta iota.
  unfold assign. erewrite bind_next by reflexivity. cbv beta.
  do 4 take. rewrite <- (app_nil_r (i8 priority)) in Hu. take.
  erewrite unread_finish; [reflexivity|exact Hn|exact Hu].
Qed.

(** C33. Initialisation.  The message ['init_out'] makes [poll_request]
    return success with every field of the instance the message has set to
    the value it was encoded from, the prefix as a C string of its own; the
    timeout for the termination is 500 milliseconds less than the one the
    service was configured with, and never negative.  Nothing of the stream
    after the message is taken. *)
Theorem poll_request_init process_index process_count process_count_max
    process_count_min prefix timeout_init timeout_async timeout_sync timeout_term
    priority rest ps timeout external w
    (Hv : Forall (fun v => 0 <= v < 2 ^ 32)
            [process_index; process_count; process_count_max; process_count_min;
             timeout_init; timeout_async; timeout_sync; timeout_term])
    (Hp : - 128 <= priority < 128) (Hw : waiting external w)
    (Har : arriving (init_out process_index process_count process_count_max
              process_count_min prefix timeout_init timeout_async timeout_sync
              timeout_term priority) rest ps w) :
  exists w',
    poll_request run timeout external w = (Return (cloudi_success : Z), w') /\
    taken (init_out process_index process_count process_count_max process_count_min
             prefix timeout_init timeout_async timeout_sync timeout_term priority)
      rest ps
      (fun _ => init_fields process_index process_count process_count_max
         process_count_min prefix timeout_init timeout_async timeout_sync
         (Z.max 0 (timeout_term - 500)) priority) w w'.
Proof.
  apply message_returns; [done|done|exact Har|].
  intros b n w1 Hu Hb Hn. by apply (init_dispatched _ _ _ _ _ _ _ _ _ _ external b n).
Qed.

(** Where a response points: after the sizes of its parts. *)
Definition response_fields (response_info response : bytes) b
    (p : cloudi_instance_t F) : cloudi_instance_t F :=
  let i1 := 8 in
  let i2 := i1 + Z.of_nat (length response_info) + 1 + 4 in
  let i3 := i2 + Z.of_nat (length response) + 1 in
  set_trans_id (Some (ptr_to b i3)) (set_trans_id_count 1
    (set_response (Some (ptr_to b i2)) (set_response_size (Z.of_nat (length response))
      (set_response_info (Some (ptr_to b i1))
        (set_response_info_size (Z.of_nat (length response_info)) p))))).

Lemma message_response response_info response trans_id external b n w :
  length trans_id = 16%nat ->
  unread b n 4 (u32 (Z.of_nat (length response_info)) ++ (response_info ++ [NUL]) ++
    u32 (Z.of_nat (length response)) ++ (response ++ [NUL]) ++ trans_id) ->
  p_buffer_recv (w_inst w) = b -> p_buffer_recv_index (w_inst w) = n ->
  message_return_sync (A := action) external 4 w =
    (Return (cloudi_success : Z),
     upd_inst (set_buffer_recv_index 0)
       (upd_inst (response_fields response_info response b) w)).
Proof.
  intros Ht Hu Hb Hn. pose proof Hu as (_ & Hl & Hlt).
  rewrite !length_app, !length_u32, Ht in Hl. cbn [length] in Hl.
  unfold message_return_sync. take.
  erewrite unread_pointer by (exact Hb || exact Hu). unfold field.
  erewrite bind_next by reflexivity. cbv beta zeta.
  cbn [w_inst upd_inst p_response_info_size set_response_info set_response_info_size].
  apply unread_app in Hu as [_ Hu]. rewrite length_app in Hu. cbn [length] in Hu.
  unwrap. rewrite Nat2Z.inj_add in Hu. change (Z.of_nat 1) with 1 in Hu.
  take. erewrite unread_pointer by (exact Hb || exact Hu).
  erewrite bind_next by reflexivity. cbv beta.
  cbn [w_inst upd_inst p_response_size set_response set_response_size].
  apply unread_app in Hu as [_ Hu]. rewrite length_app in Hu. cbn [length] in Hu.
  unwrap. rewrite Nat2Z.inj_add in Hu. change (Z.of_nat 1) with 1 in Hu.
  unfold assign. erewrite bind_next by reflexivity. cbv beta.
  erewrite unread_pointer by (exact Hb || exact Hu).
  rewrite <- (app_nil_r trans_id) in Hu. apply unread_app in Hu as [_ Hu].
  rewrite Ht in Hu. unwrap.
  erewrite unread_finish; [|exact Hn|exact Hu].
  unfold response_fields. cbv zeta. change (4 + 4) with 8.
  set (n1 := Z.of_nat (length response_info)). set (n2 := Z.of_nat (length response)).
  replace (8 + (n1 + 1) + 4) with (8 + n1 + 1 + 4) by lia.
  replace (8 + n1 + 1 + 4 + (n2 + 1)) with (8 + n1 + 1 + 4 + n2 + 1) by lia.
  reflexivity.
Qed.

(** What a pointer of an instance into [buffer_recv] points to. *)
Definition points_to (p : cloudi_instance_t F) (o : option ptr) (bs : bytes) : Prop :=
  exists q, o = Some q /\ 0 <= ptr_off q /\
    deref (p_buffer_recv p) q (Z.of_nat (length bs)) = Some bs.

(** The response an instance has, with a null after each of its parts. *)
Definition has_response (response_info response trans_id : bytes) (p : cloudi_instance_t F) : Prop :=
  p_response_info_size p = Z.of_nat (length response_info) /\
  points_to p (p_response_info p) (response_info ++ [NUL]) /\
  p_response_size p = Z.of_nat (length response) /\
  points_to p (p_response p) (response ++ NUL :: trans_id) /\
  p_trans_id_count p = 1 /\ points_to p (p_trans_id p) trans_id.

Definition has_trans_ids (trans_ids : list bytes) (p : cloudi_instance_t F) : Prop :=
  p_trans_id_count p = Z.of_nat (length trans_ids) /\
  points_to p (p_trans_id p) (concat trans_ids).

Lemma points_to_field p b i bs :
  p_buffer_recv p = b -> field_at b i bs -> points_to p (Some (ptr_to b i)) bs.
Proof.
  intros <- Hf. exists (ptr_to (p_buffer_recv p) i). split; [done|].
  split; [by destruct Hf as (_ & ? & _)|by apply deref_ok].
Qed.

(** The response of a synchronous request or of recv_async: success, and the
    pointers of the instance point to exactly the bytes that were sent. *)
Lemma poll_request_response command response_info response trans_id rest ps timeout external w :
  command = MESSAGE_RECV_ASYNC \/ command = MESSAGE_RETURN_SYNC ->
  length trans_id = 16%nat -> waiting external w ->
  arriving (response_out command response_info response trans_id) rest ps w ->
  exists w', poll_request run timeout external w = (Return (cloudi_success : Z), w') /\
    taken (response_out command response_info response trans_id) rest ps
      (response_fields response_info response) w w' /\
    has_response response_info response trans_id (w_inst w').
Proof.
  intros Hc Ht Hw Har.
  assert (0 <= command < 2 ^ 32) as Hc' by (destruct Hc; subst; done).
  destruct (message_returns command _ rest ps timeout external
    (response_fields response_info response) w Hc' Hw Har) as (w' & He & b & rs & Hrc & ->).
  { intros b n w1 Hu Hb Hn.
    rewrite <- (message_response _ _ _ external _ _ _ Ht Hu Hb Hn).
    destruct Hc; subst; done. }
  pose proof (rc_field _ _ _ _ Hrc) as Hf.
  eexists. split; [exact He|]. split; [by exists b, rs|].
  split; [done|]. split; [|split; [done|split; [|split; [done|]]]]; apply points_to_field;
    try reflexivity.
  - eapply (field_at_mid _ _
      (u32 command ++ u32 (Z.of_nat (length response_info)))); [exact Hf|..].
    + by rewrite <- !app_assoc.
    + by rewrite length_app, !length_u32.
  - eapply (field_at_mid _ _
      (u32 command ++ u32 (Z.of_nat (length response_info)) ++
       (response_info ++ [NUL]) ++ u32 (Z.of_nat (length response))) _ []); [exact Hf|..].
    + by rewrite app_nil_r, <- !app_assoc.
    + rewrite !length_app, !length_u32. cbn [length]. lia.
  - eapply (field_at_mid _ _
      (u32 command ++ u32 (Z.of_nat (length response_info)) ++
       (response_info ++ [NUL]) ++ u32 (Z.of_nat (length response)) ++
       (response ++ [NUL])) _ []); [exact Hf|..].
    + by rewrite <- !app_assoc, app_nil_r.
    + rewrite !length_app, !length_u32. cbn [length]. lia.
Qed.

(** The arguments a SEND message gives to a callback function. *)
Definition send_request (request_type : Z) (name pattern request_info request : bytes)
    (timeout priority : Z) (source : bytes) b : Poll.request :=
  let i1 := 8 in
  let i2 := i1 + (Z.of_nat (length name) + 1) + 4 in
  let i3 := i2 + (Z.of_nat (length pattern) + 1) + 4 in
  let i4 := i3 + (Z.of_nat (length request_info) + 1) + 4 in
  let i5 := i4 + (Z.of_nat (length request) + 1) + 4 + 1 in
  mk_request request_type (ptr_to b i1) (ptr_to b i2)
    (ptr_to b i3) (Z.of_nat (length request_info))
    (ptr_to b i4) (Z.of_nat (length request)) timeout priority
    (ptr_to b i5) (ptr_to b (i5 + 16 + 4)) (Z.of_nat (length source)).

Ltac skip Hu :=
  let H := fresh "H" in
  apply unread_app in Hu as [_ H]; rewrite ?length_app in H; cbn [length] in H;
  rewrite ?Nat2Z.inj_add in H; change (Z.of_nat 1) with 1 in H;
  rename H into Hu.
Ltac fetch Hu :=
  let H := fresh "H" in
  first [ edestruct @unread_store_uint32 as [-> H]; [exact Hu|lia|]
        | edestruct @unread_store_int8 as [-> H]; [exact Hu|lia|] ];
  clear Hu; rename H into Hu; cbv beta iota.

Lemma parse_send_ok {R} request_type name pattern request_info request timeout priority
    trans_id source b n (w : world F U) :
  0 <= timeout < 2 ^ 32 -> - 128 <= priority < 128 -> length trans_id = 16%nat ->
  unread b n 4 (
    u32 (Z.of_nat (length name) + 1) ++ (name ++ [NUL]) ++
    u32 (Z.of_nat (length pattern) + 1) ++ (pattern ++ [NUL]) ++
    u32 (Z.of_nat (length request_info)) ++ (request_info ++ [NUL]) ++
    u32 (Z.of_nat (length request)) ++ (request ++ [NUL]) ++
    u32 timeout ++ i8 priority ++ trans_id ++
    u32 (Z.of_nat (length source)) ++ source) ->
  parse_send (R := R) b request_type 4 w =
    (Next (send_request request_type name pattern request_info request timeout
             priority source b, n), w).
Proof.
  intros Htm Hp Ht Hu. pose proof Hu as (_ & Hl & Hlt).
  rewrite !length_app, !length_u32, Ht in Hl. cbn [length i8] in Hl.
  unfold parse_send.
  fetch Hu. erewrite unread_address by exact Hu. cbv zeta. skip Hu. unwrap.
  fetch Hu. erewrite unread_address by exact Hu. cbv zeta. skip Hu. unwrap.
  fetch Hu. erewrite unread_address by exact Hu. cbv zeta. skip Hu. unwrap.
  fetch Hu. erewrite unread_address by exact Hu. cbv zeta. skip Hu. unwrap.
  fetch Hu. fetch Hu. erewrite unread_address by exact Hu. cbv zeta. skip Hu.
  rewrite Ht in Hu. change (Z.of_nat 16) with 16 in Hu. unwrap.
  fetch Hu. erewrite unread_address by exact Hu. unwrap.
  destruct Hu as (_ & Hn & _). unfold cret, send_request. cbv zeta. change (4 + 4) with 8.
  do 3 f_equal. lia.
Qed.

(** The copy of a received message in [buffer_call]. *)
Lemma copy_call_ok msg b w :
  p_buffer_recv (w_inst w) = b -> field_at b 0 msg ->
  wf (p_buffer_call (w_inst w)) -> m_size b < 2 ^ 63 ->
  m_size b <= m_maxSize (p_buffer_call (w_inst w)) ->
  (forall n, sys_realloc (w_sys w) n = true) ->
  exists bc, copy_call w = (Next tt, upd_inst (set_buffer_call bc) w) /\
    field_at bc 0 msg /\ m_maxSize bc = m_maxSize (p_buffer_call (w_inst w)).
Proof.
  intros Hb (Hwf & Hi & Hl & Hh) Hwc Hlt Hmax Ha.
  destruct (copy_ok 1 (sys_realloc (w_sys w)) b (p_buffer_call (w_inst w)))
    as (bc & Hc & Hwb & Hs & Hm & Ht); try done.
  exists bc. split.
  - unfold copy_call. crun. rewrite Hb, Hc. cbn [copt]. crun. done.
  - split; [|done]. split; [done|]. split; [done|]. split; [lia|].
    unfold holds in *. change (Z.to_nat 0) with 0%nat in *. rewrite drop_0 in *.
    rewrite <- Hh, <- Ht, take_take. f_equal. destruct Hwf. lia.
Qed.

(** A field of a message after [pre], and before [post]. *)
Ltac locate_close Hf :=
  [> exact Hf
  | unfold send_out;
    repeat match goal with x := _ ++ _ |- _ => subst x end;
    rewrite <- ?app_assoc; (reflexivity || by rewrite ?app_nil_r)
  | repeat match goal with x := _ ++ _ |- _ => subst x end;
    rewrite ?length_app, ?length_u32; cbn [length i8]; lia ].
Ltac located Hf pre := eapply (field_at_mid _ _ pre); locate_close Hf.
Ltac located_last Hf pre :=
  eapply (field_at_mid _ _ pre _ []); locate_close Hf.

(** What the pointers of [send_request] denote. *)
Lemma send_request_denotes request_type command name pattern request_info request
    timeout priority trans_id source b :
  NUL ∉ name -> NUL ∉ pattern -> length trans_id = 16%nat ->
  field_at b 0 (send_out command name pattern request_info request timeout
                  priority trans_id source) ->
  let rq := send_request request_type name pattern request_info request timeout
              priority source b in
  deref_cstr b (rq_name rq) = Some name /\
  deref_cstr b (rq_pattern rq) = Some pattern /\
  deref b (rq_request_info rq) (rq_request_info_size rq + 1)
    = Some (request_info ++ [NUL]) /\
  deref b (rq_request rq) (rq_request_size rq + 1) = Some (request ++ [NUL]) /\
  deref b (rq_trans_id rq) 16 = Some trans_id /\
  deref b (rq_pid rq) (rq_pid_size rq) = Some source.
Proof.
  intros Hn Hp Ht Hf. unfold send_request. cbv zeta.
  cbn [rq_name rq_pattern rq_request_info rq_request_info_size rq_request
    rq_request_size rq_timeout rq_priority rq_trans_id rq_pid rq_pid_size].
  assert (forall xs : bytes, Z.of_nat (length xs) + 1 = Z.of_nat (length (xs ++ [NUL])))
    as El by (intros xs; rewrite length_app; cbn [length]; lia).
  set (a := u32 command ++ u32 (Z.of_nat (length name) + 1)).
  set (b1 := a ++ (name ++ [NUL]) ++ u32 (Z.of_nat (length pattern) + 1)).
  set (c := b1 ++ (pattern ++ [NUL]) ++ u32 (Z.of_nat (length request_info))).
  set (d := c ++ (request_info ++ [NUL]) ++ u32 (Z.of_nat (length request))).
  set (e := d ++ (request ++ [NUL]) ++ u32 timeout ++ i8 priority).
  split_and!.
  - apply deref_cstr_ok; [|done]. located Hf a.
  - apply deref_cstr_ok; [|done]. located Hf b1.
  - rewrite (El request_info). apply deref_ok. located Hf c.
  - rewrite (El request). apply deref_ok. located Hf d.
  - change 16 with (Z.of_nat 16). rewrite <- Ht. apply deref_ok. located Hf e.
  - apply deref_ok.
    located_last Hf (e ++ trans_id ++ u32 (Z.of_nat (length source))).
Qed.

(** The arm of the [switch] for it: the message is copied and [callback]
    called with pointers into the copy. *)
Lemma send_dispatched command name pattern request_info request timeout priority
    trans_id source external w :
  command = MESSAGE_SEND_ASYNC \/ command = MESSAGE_SEND_SYNC ->
  length trans_id = 16%nat -> 0 <= timeout < 2 ^ 32 -> - 128 <= priority < 128 ->
  let msg := send_out command name pattern request_info request timeout priority
               trans_id source in
  field_at (p_buffer_recv (w_inst w)) 0 msg ->
  p_buffer_recv_index (w_inst w) = Z.of_nat (length msg) ->
  Z.of_nat (length msg) < 2 ^ 31 -> wf (p_buffer_call (w_inst w)) ->
  m_size (p_buffer_recv (w_inst w)) < 2 ^ 63 ->
  m_size (p_buffer_recv (w_inst w)) <= m_maxSize (p_buffer_call (w_inst w)) ->
  (forall n, sys_realloc (w_sys w) n = true) ->
  exists bc, field_at bc 0 msg /\ m_maxSize bc = m_maxSize (p_buffer_call (w_inst w)) /\
    forall A (k : action -> C (world F U) Z A),
      cbind (dispatch run external command 4) k w =
      cbind (call (callback run command (send_request
          (if command =? MESSAGE_SEND_ASYNC then CLOUDI_ASYNC else CLOUDI_SYNC)
          name pattern request_info request timeout priority source bc)))
        (fun _ => k Break)
        (upd_inst (set_buffer_recv_index 0) (upd_inst (set_buffer_call bc) w)).
Proof.
  intros Hc Ht Htm Hpr msg Hf Hidx Hlen Hcall Hsz Hmax Ha.
  destruct (copy_call_ok msg _ w eq_refl Hf) as (bc & Hcc & Hfc & Hm); try done.
  exists bc. split; [done|]. split; [done|].
  set (w1 := upd_inst (set_buffer_recv_index 0) (upd_inst (set_buffer_call bc) w)).
  set (rq := send_request _ _ _ _ _ _ _ _ _).
  pose proof (unread_start _ _ Hfc Hlen) as Huc. unfold msg, send_out in Huc.
  fold (send_out command name pattern request_info request timeout priority
    trans_id source) msg in Huc.
  apply unread_app in Huc as [_ Huc]. rewrite length_u32 in Huc.
  assert (message_send run command external 4 w = call (callback run command rq) w1)
    as Hms.
  { unfold message_send. erewrite bind_next by exact Hcc. cbv beta. unfold field.
    erewrite bind_next by reflexivity. cbv beta zeta.
    cbn [w_inst upd_inst p_buffer_call set_buffer_call].
    erewrite bind_next by (apply (parse_send_ok _ name pattern request_info request
      timeout priority trans_id source); [done..|exact Huc]). cbv beta iota.
    unfold trailing_events, field. erewrite bind_next; cycle 1.
    { erewrite bind_next by reflexivity. cbv beta.
      rewrite (proj2 (Z.eqb_eq _ _)) by done. reflexivity. }
    cbv beta. unfold assign. by erewrite bind_next by reflexivity. }
  intros A k. unfold cbind. rewrite <- Hms. unfold dispatch.
  destruct Hc; subst command; cbn -[message_send];
    unfold cbind; by destruct (message_send _ _ _ _ w) as [[] ?].
Qed.

(** C34. A request.  The message ['send_async_out'] or ['send_sync_out']
    calls [callback] exactly once, with arguments in a copy of the message
    ([buffer_call]) that denote the name, the pattern, the request_info, the
    request (with a 0 byte after it), the trans_id and the pid the VM sent;
    nothing else of the instance has changed, and afterwards [poll_request]
    waits for the next message. *)
Theorem poll_request_send command name pattern request_info request timeout priority
    trans_id source rest ps poll_timeout external w
    (Hc : command = MESSAGE_SEND_ASYNC \/ command = MESSAGE_SEND_SYNC)
    (Hn : NUL ∉ name) (Hp : NUL ∉ pattern) (Ht : length trans_id = 16%nat)
    (Htm : 0 <= timeout < 2 ^ 32) (Hpr : - 128 <= priority < 128)
    (Hw : waiting external w)
    (Har : arriving (send_out command name pattern request_info request timeout
             priority trans_id source) rest ps w)
    (Hcall : wf (p_buffer_call (w_inst w)))
    (Hmax : Z.max (m_size (p_buffer_recv (w_inst w)))
              (2 * Z.of_nat (length (send_out command name pattern request_info request
                timeout priority trans_id source)))
            <= m_maxSize (p_buffer_call (w_inst w)) < 2 ^ 63) :
  exists br bc rs rq,
    let w1 := mk_world (set_buffer_recv_index 0 (set_buffer_call bc
                (set_buffer_recv br (w_inst w))))
                (set_polls ps (set_read rest rs (w_sys w))) (w_user w) in
    poll_request run poll_timeout external w =
      (call (callback run command rq);;;
       next_message run (pred (poll_fuel w)) poll_timeout external) w1 /\
    rq_type rq = (if command =? MESSAGE_SEND_ASYNC then CLOUDI_ASYNC else CLOUDI_SYNC) /\
    deref_cstr bc (rq_name rq) = Some name /\
    deref_cstr bc (rq_pattern rq) = Some pattern /\
    deref bc (rq_request_info rq) (rq_request_info_size rq + 1)
      = Some (request_info ++ [NUL]) /\
    rq_request_info_size rq = Z.of_nat (length request_info) /\
    deref bc (rq_request rq) (rq_request_size rq + 1) = Some (request ++ [NUL]) /\
    rq_request_size rq = Z.of_nat (length request) /\
    rq_timeout rq = timeout /\ rq_priority rq = priority /\
    deref bc (rq_trans_id rq) 16 = Some trans_id /\
    deref bc (rq_pid rq) (rq_pid_size rq) = Some source.
Proof.
  assert (0 <= command < 2 ^ 32) as Hc' by (destruct Hc; subst; done).
  destruct Hw as [Hterm He].
  destruct (poll_request_ok run poll_timeout external command _ rest ps w Har Hterm He Hc')
    as (br & rs & [Hf Hsz _ _] & Hu & Heq).
  fold (send_out command name pattern request_info request timeout priority
    trans_id source) in Hf, Hu, Hsz, Heq.
  set (msg := send_out _ _ _ _ _ _ _ _ _) in *.
  set (w0 := mk_world (arrival msg br w) (set_polls ps (set_read rest rs (w_sys w))) (w_user w)) in *.
  destruct (send_dispatched command name pattern request_info request timeout priority
    trans_id source external w0) as (bc & Hfc & _ & Hdisp); try done.
  { apply Har. }
  { cbn. lia. }
  { cbn. lia. }
  { apply Har. }
  set (ty := if command =? MESSAGE_SEND_ASYNC then CLOUDI_ASYNC else CLOUDI_SYNC) in *.
  exists br, bc, rs, (send_request ty name pattern request_info request timeout priority
    source bc).
  set (rq := send_request _ _ _ _ _ _ _ _ _) in *. cbv zeta.
  split; [by rewrite Heq, Hdisp|].
  split; [done|].
  destruct (send_request_denotes ty command name pattern request_info request timeout
    priority trans_id source bc Hn Hp Ht Hfc) as (H1 & H2 & H3 & H4 & H5 & H6).
  by split_and!.
Qed.

(** The answer to an asynchronous request is its identifier, that to a
    multicast as many as there are receivers. *)
Lemma poll_request_trans_id trans_id rest ps timeout external w :
  length trans_id = 16%nat -> waiting external w ->
  arriving (return_async_out trans_id) rest ps w ->
  exists w', poll_request run timeout external w = (Return (cloudi_success : Z), w') /\
    taken (return_async_out trans_id) rest ps
      (fun b p => set_trans_id (Some (ptr_to b 4)) (set_trans_id_count 1 p)) w w' /\
    has_trans_ids [trans_id] (w_inst w').
Proof.
  intros Ht Hw Har.
  destruct (message_returns MESSAGE_RETURN_ASYNC _ rest ps timeout external
    (fun b p => set_trans_id (Some (ptr_to b 4)) (set_trans_id_count 1 p)) w ltac:(done) Hw Har)
    as (w' & He & b & rs & Hrc & ->).
  { intros b n w1 Hu Hb Hn. pose proof Hu as (_ & Hl & Hlt). rewrite Ht in Hl.
    switch. unfold message_return_async, assign. erewrite bind_next by reflexivity. cbv beta.
    erewrite unread_pointer by (exact Hb || exact Hu).
    rewrite <- (app_nil_r trans_id) in Hu. apply unread_app in Hu as [_ Hu].
    rewrite Ht in Hu. unwrap.
    erewrite unread_finish; [reflexivity|exact Hn|exact Hu]. }
  pose proof (rc_field _ _ _ _ Hrc) as Hf. eexists. split; [exact He|].
  split; [by exists b, rs|]. split; [done|]. cbn [concat]. rewrite app_nil_r.
  apply points_to_field; [reflexivity|].
  eapply (field_at_mid _ _ (u32 MESSAGE_RETURN_ASYNC) _ []); [exact Hf|by rewrite app_nil_r|].
  by rewrite length_u32.
Qed.

Lemma poll_request_trans_ids trans_ids rest ps timeout external w :
  Forall (fun t : bytes => length t = 16%nat) trans_ids -> waiting external w ->
  arriving (returns_async_out trans_ids) rest ps w ->
  exists w', poll_request run timeout external w = (Return (cloudi_success : Z), w') /\
    taken (returns_async_out trans_ids) rest ps
      (fun b p => set_trans_id (Some (ptr_to b 8))
         (set_trans_id_count (Z.of_nat (length trans_ids)) p)) w w' /\
    has_trans_ids trans_ids (w_inst w').
Proof.
  intros Hi Hw Har. pose proof (length_concat_ids trans_ids Hi) as El.
  pose proof (ar_size _ _ _ _ Har) as Hsz. unfold returns_async_out in Hsz.
  rewrite !length_app, !length_u32 in Hsz.
  destruct (message_returns MESSAGE_RETURNS_ASYNC _ rest ps timeout external
    (fun b p => set_trans_id (Some (ptr_to b 8))
      (set_trans_id_count (Z.of_nat (length trans_ids)) p)) w ltac:(done) Hw Har)
    as (w' & He & b & rs & Hrc & ->).
  { intros b n w1 Hu Hb Hn.
    switch. unfold message_returns_async. take. erewrite unread_pointer by (exact Hb || exact Hu).
    unfold field. erewrite bind_next by reflexivity. cbv beta.
    cbn [w_inst upd_inst p_trans_id_count set_trans_id set_trans_id_count].
    rewrite <- (app_nil_r (concat trans_ids)) in Hu. apply unread_app in Hu as [_ Hu].
    rewrite El in Hu. unwrap.
    erewrite unread_finish; [reflexivity|exact Hn|exact Hu]. }
  pose proof (rc_field _ _ _ _ Hrc) as Hf. eexists. split; [exact He|].
  split; [by exists b, rs|]. split; [done|]. apply points_to_field; [reflexivity|].
  located_last Hf (u32 MESSAGE_RETURNS_ASYNC ++ u32 (Z.of_nat (length trans_ids))).
Qed.

(** A subscribe_count message sets the count and returns success. *)
Lemma poll_request_subscribe_count count rest ps timeout external w
    (Hc : 0 <= count < 2 ^ 32) (Hw : waiting external w)
    (Har : arriving (subscribe_count_out count) rest ps w) :
  exists w',
    poll_request run timeout external w = (Return (cloudi_success : Z), w') /\
    taken (subscribe_count_out count) rest ps (fun _ => set_subscribe_count count) w w'.
Proof.
  apply message_returns; [done|done|exact Har|]. intros b n w1 Hu Hb Hn.
  switch. unfold message_subscribe_count. rewrite <- (app_nil_r (u32 count)) in Hu. take.
  erewrite unread_finish; [reflexivity|exact Hn|exact Hu].
Qed.

(** Termination.  After a terminate message [poll_request] returns:
    cloudi_terminate to an operation that waits for its answer, success to
    [cloudi_poll]; the instance is marked, and every later [poll_request]
    returns success at once, whatever is on the stream. *)
Theorem poll_request_terminate rest ps timeout external w
    (Hw : waiting external w) (Har : arriving terminate_out rest ps w) :
  exists w',
    poll_request run timeout external w =
      (Return (if external =? 0 then cloudi_terminate : Z else cloudi_success : Z), w') /\
    p_terminate (w_inst w') = 1 /\ sys_in (w_sys w') = rest /\
    forall timeout' external',
      poll_request run timeout' external' w' = (Return (cloudi_success : Z), w').
Proof.
  destruct Hw as [Ht He]. unfold terminate_out in Har.
  rewrite <- (app_nil_r (u32 MESSAGE_TERM)) in Har.
  destruct (poll_request_ok run timeout external _ _ rest ps w Har Ht He)
    as (b & rs & _ & _ & ->); [done|].
  set (w1 := mk_world _ _ _). exists (upd_inst (set_terminate 1) w1).
  assert (handle_events external 4 MESSAGE_TERM w1 =
    (Return (false, if external =? 0 then cloudi_terminate : Z else cloudi_success : Z),
     upd_inst (set_terminate 1) w1)) as Hh.
  { unfold handle_events, field. crun. cbn [Z.eqb MESSAGE_TERM].
    cbn [handle_events_loop]. cbn [Z.eqb MESSAGE_TERM Pos.eqb]. unfold assign.
    erewrite bind_return; [reflexivity|]. crun. by destruct (external =? 0). }
  split_and!; try done.
  erewrite bind_return; [reflexivity|]. switch.
  erewrite bind_next by (apply call_return; exact Hh). done.
Qed.

(** A reinit message updates the process count, the timeouts and the
    priority, and [poll_request] waits for the next message. *)
Theorem poll_request_reinit process_count timeout_async timeout_sync priority
    rest ps timeout external w
    (Hv : Forall (fun v => 0 <= v < 2 ^ 32) [process_count; timeout_async; timeout_sync])
    (Hp : - 128 <= priority < 128) (Hw : waiting external w)
    (Har : arriving (reinit_out process_count timeout_async timeout_sync priority)
             rest ps w) :
  exists w',
    poll_request run timeout external w =
      next_message run (pred (poll_fuel w)) timeout external w' /\
    taken (reinit_out process_count timeout_async timeout_sync priority) rest ps
      (fun _ p => set_priority_default priority (set_timeout_sync timeout_sync
         (set_timeout_async timeout_async (set_process_count process_count p)))) w w'.
Proof.
  repeat (apply Forall_cons in Hv as [? Hv]).
  apply message_breaks; [done|done|exact Har|]. intros b n w1 Hu Hb Hn.
  switch. unfold store_reinit. rewrite bind_assoc. take. rewrite bind_assoc. take.
  rewrite bind_assoc. take. rewrite <- (app_nil_r (i8 priority)) in Hu. take.
  unfold next_command, field. erewrite bind_next by reflexivity. cbv beta.
  destruct Hu as (_ & Hi & _). cbn [length] in Hi.
  cbn [w_inst upd_inst p_buffer_recv_index set_priority_default set_timeout_sync
    set_timeout_async set_process_count].
  rewrite Hn, (proj2 (Z.eqb_eq _ _)) by lia. done.
Qed.

(** The bytes of a keepalive answer. *)
Lemma keepalive_bytes {laws : EiLaws E} :
  exists bss, mapM id [ ei_encode_version; ei_encode_atom (chars "keepalive") ] = Some bss /\
    Z.of_nat (length (concat bss)) <= 13.
Proof.
  destruct (within_all [1; 12] [ ei_encode_version; ei_encode_atom (chars "keepalive") ])
    as (bss & H1 & H2); [|by exists bss].
  repeat constructor; [apply version_within|].
  change 12 with (Z.of_nat (length (chars "keepalive")) + 3). apply atom_within. cbn. lia.
Qed.

(** A keepalive message is answered by one message, the frame of the
    atom keepalive, and [poll_request] waits for the next message. *)
Theorem poll_request_keepalive {laws : EiLaws E} rest ps timeout external w
    (Hw : waiting external w) (Hr : ready 200 w)
    (Har : arriving keepalive_out rest ps w) :
  exists bs br rs w2,
    term_bytes [ ei_encode_version; ei_encode_atom (chars "keepalive") ] = Some bs /\
    sent bs (mk_world (arrival keepalive_out br w)
               (set_polls ps (set_read rest rs (w_sys w))) (w_user w)) w2 /\
    poll_request run timeout external w =
      next_message run (pred (poll_fuel w)) timeout external
        (upd_inst (set_buffer_recv_index 0) w2).
Proof.
  destruct Hw as [Ht He]. unfold keepalive_out in *.
  rewrite <- (app_nil_r (u32 MESSAGE_KEEPALIVE)) in Har |- *.
  destruct (poll_request_ok run timeout external _ _ rest ps w Har Ht He)
    as (b & rs & _ & Hu & ->); [done|].
  set (w1 := mk_world _ (set_polls ps (set_read rest rs (w_sys w))) (w_user w)).
  destruct keepalive_bytes as (bss & Hb & Hlen).
  destruct (direct_sends _ bss w1 Hb) as (w2 & Hk & Hsent).
  { apply (ready_can_send 200); [by destruct Hr|lia]. }
  { pose proof (start_range w1). destruct Hr as [[_ ?] _ _ _ _]. cbn. lia. }
  { pose proof (start_range w1). unfold INT_MAX. lia. }
  exists (concat bss), b, rs, w2. split; [by apply term_bytes_Some|]. split; [done|].
  erewrite bind_next; cycle 1.
  { switch. erewrite bind_next by (apply call_return; exact Hk). cbv beta.
    cbn [Z.eqb negb creturn_if status_value]. erewrite bind_next by reflexivity. cbv beta.
    destruct Hsent as (b2 & j & _ & _ & _ & _ & ->).
    unfold next_command, field. erewrite bind_next by reflexivity. cbv beta.
    match goal with |- context [4 =? ?i] => change (4 =? i) with true end.
    reflexivity. }
  done.
Qed.

(** When the answer to a keepalive message cannot be written,
    [poll_request] returns success, whatever the error was: the arm of
    MESSAGE_KEEPALIVE returns [false], which is 0. *)
Theorem poll_request_keepalive_error {laws : EiLaws E} rest ps timeout external e ws w
    (Hw : waiting external w) (Hr : buffer_ok (p_buffer_send (w_inst w)))
    (He : sys_writes (w_sys w) = wr_err e :: ws)
    (Har : arriving keepalive_out rest ps w) :
  exists w', poll_request run timeout external w = (Return (cloudi_success : Z), w') /\
    sys_out (w_sys w') = sys_out (w_sys w).
Proof.
  destruct Hw as [Ht Hx]. unfold keepalive_out in *.
  rewrite <- (app_nil_r (u32 MESSAGE_KEEPALIVE)) in Har.
  destruct (poll_request_ok run timeout external _ _ rest ps w Har Ht Hx)
    as (b & rs & _ & Hu & ->); [done|].
  set (w1 := mk_world _ (set_polls ps (set_read rest rs (w_sys w))) (w_user w)).
  destruct keepalive_bytes as (bss & Hb & Hlen).
  assert (0 < length (concat bss))%nat as Hpos.
  { destruct version_byte as [v Hv]. revert Hb. rewrite Hv. cbn.
    destruct (ei_encode_atom _); [|done]. intros [= <-]. cbn. lia. }
  destruct (direct_fails _ bss e ws w1 Hb) as (b2 & Hk); try done.
  { pose proof (start_range w1). destruct Hr as [_ ?]. cbn. lia. }
  { pose proof (start_range w1). unfold INT_MAX. lia. }
  pose proof (errno_write_range e).
  eexists. split.
  - erewrite bind_return; [reflexivity|]. switch.
    erewrite bind_next by (apply call_return; exact Hk). cbv beta.
    rewrite (proj2 (Z.eqb_neq (errno_write e) 0)) by lia. cbn [negb creturn_if].
    by erewrite bind_return by reflexivity.
  - done.
Qed.

(** [poll_request] without a message: a terminated instance gives
    success at once; otherwise a timeout of [poll] gives cloudi_timeout, and
    a failure of [poll] its code, with the stream untouched. *)
Theorem poll_request_no_message timeout external w
    (Hx : external = 0 \/ p_initialization_complete (w_inst w) <> 0) :
  let '(o, w') := poll_request run timeout external w in
  if negb (p_terminate (w_inst w) =? 0)
  then o = Return (cloudi_success : Z) /\ w' = w
  else match sys_polls (w_sys w) with
       | pl_err e :: _ => o = Return (errno_poll e : Z) /\ sys_in (w_sys w') = sys_in (w_sys w)
       | pl_timeout :: _ =>
           (0 <= timeout -> o = Return (cloudi_timeout : Z)) /\
           sys_in (w_sys w') = sys_in (w_sys w)
       | [] => o = Blocked
       | pl_ready :: _ => True
       end.
Proof.
  unfold poll_request, field. unfold creads at 1. unfold cbind at 1. cbn [id].
  destruct (negb (p_terminate (w_inst w) =? 0)); [done|].
  assert (negb (external =? 0) && (p_initialization_complete (w_inst w) =? 0) = false) as ->.
  { destruct Hx as [-> | Hx]; [done|]. rewrite (proj2 (Z.eqb_neq _ 0) Hx).
    apply andb_false_r. }
  cbn [cwhen]. unfold cret at 1. unfold cbind at 1. unfold creads at 1. unfold cbind at 1.
  unfold receive, on_sys, sys_poll. unfold cbind at 1. unfold cbind at 1.
  destruct (sys_polls (w_sys w)) as [|[| |e] l] eqn:Hp; try done.
  - match goal with |- let '(_, _) := ?x in _ => by destruct x end.
  - destruct (Z.ltb_spec timeout 0); [by split; [lia|]|]. done.
Qed.
End properties.

(** ** Examples *)

Lemma example_arriving F msg rest ps :
  (0 < length msg <= 290)%nat ->
  arriving msg rest ps (example_world F 1 (frame 1 msg ++ rest) (pl_ready :: ps)).
Proof.
  intros Hl. split; [by intros [=]|reflexivity|reflexivity|..].
  - apply good_reads_replicate. lia.
  - split; [vm_compute; reflexivity|vm_compute; done].
  - reflexivity.
  - lia.
  - change (Z.of_nat (length msg) <= 65536). lia.
Qed.

Lemma example_waiting F i ps : waiting (F := F) 0 (example_world F 1 i ps).
Proof. split; [done|by left]. Qed.

Definition example_idle (_ : unit) (_ : request) : C (world unit unit) unit unit := cret tt.

Lemma poll_request_init_witness :
  exists w',
    poll_request example_idle (-1) 0
      (example_world unit 1 (frame 1 (init_out 0 4 8 2 (chars "/svc/") 5000 5000 5000 2000 (-7))
                      ++ []) [pl_ready]) = (Return (cloudi_success : Z), w') /\
    p_timeout_terminate (w_inst w') = 1500.
Proof.
  destruct (poll_request_init example_idle 0 4 8 2 (chars "/svc/") 5000 5000 5000 2000 (-7)
    [] [] (-1) 0 (example_world unit 1 (frame 1 (init_out 0 4 8 2 (chars "/svc/") 5000 5000
       5000 2000 (-7)) ++ []) [pl_ready])) as (w' & He & b & rs & _ & ->).
  - repeat first [apply Forall_nil_2 | apply Forall_cons_2; [first [lia|done]|]].
  - lia.
  - apply example_waiting.
  - apply example_arriving. vm_compute. lia.
  - eexists. split; [exact He|]. reflexivity.
Defined.

Definition example_send : bytes :=
  send_out MESSAGE_SEND_ASYNC (chars "/p/a") (chars "/p/a") [] (chars "hi") 5000 0
    (replicate 16 NUL) example_pid.

Lemma poll_request_send_witness :
  exists br bc rs rq,
    poll_request example_idle 1000 0
      (example_world unit 1 (frame 1 example_send ++ []) [pl_ready]) =
      (call (callback example_idle MESSAGE_SEND_ASYNC rq);;;
       next_message example_idle
         (pred (poll_fuel (example_world unit 1 (frame 1 example_send ++ []) [pl_ready])))
         1000 0)
      (mk_world (set_buffer_recv_index 0 (set_buffer_call bc
                  (set_buffer_recv br (example_instance unit 1))))
                (set_polls [] (set_read [] rs
                   (w_sys (example_world unit 1 (frame 1 example_send ++ []) [pl_ready])))) tt) /\
    deref_cstr bc (rq_name rq) = Some (chars "/p/a") /\
    deref bc (rq_request rq) 3 = Some (chars "hi" ++ [NUL]).
Proof.
  destruct (poll_request_send example_idle MESSAGE_SEND_ASYNC (chars "/p/a") (chars "/p/a")
    [] (chars "hi") 5000 0 (replicate 16 NUL) example_pid [] [] 1000 0
    (example_world unit 1 (frame 1 example_send ++ []) [pl_ready]))
    as (br & bc & rs & rq & He & _ & Hn & _ & _ & _ & Hq & Hz & _).
  - by left.
  - refine (bool_decide_unpack _ _). vm_compute. exact Logic.I.
  - refine (bool_decide_unpack _ _). vm_compute. exact Logic.I.
  - done.
  - lia.
  - lia.
  - apply example_waiting.
  - apply example_arriving. vm_compute. lia.
  - vm_compute. done.
  - vm_compute. done.
  - exists br, bc, rs, rq. split; [exact He|]. split; [exact Hn|].
    rewrite Hz in Hq. exact Hq.
Defined.

Lemma poll_request_terminate_witness :
  exists w', poll_request example_idle (-1) 0
      (example_world unit 1 (frame 1 terminate_out ++ []) [pl_ready]) =
    (Return (cloudi_terminate : Z), w') /\ p_terminate (w_inst w') = 1.
Proof.
  destruct (poll_request_terminate example_idle [] [] (-1) 0
    (example_world unit 1 (frame 1 terminate_out ++ []) [pl_ready])) as (w' & He & Ht & _).
  - apply example_waiting.
  - apply example_arriving. vm_compute. lia.
  - exists w'. split; [exact He|exact Ht].
Defined.

Lemma poll_request_reinit_witness :
  exists w', poll_request example_idle (-1) 0
      (example_world unit 1 (frame 1 (reinit_out 4 1000 1000 (-1)) ++ []) [pl_ready]) =
    next_message example_idle
      (pred (poll_fuel (example_world unit 1 (frame 1 (reinit_out 4 1000 1000 (-1)) ++ [])
                         [pl_ready]))) (-1) 0 w'.
Proof.
  destruct (poll_request_reinit example_idle 4 1000 1000 (-1) [] [] (-1) 0
    (example_world unit 1 (frame 1 (reinit_out 4 1000 1000 (-1)) ++ []) [pl_ready]))
    as (w' & He & _).
  - repeat first [apply Forall_nil_2 | apply Forall_cons_2; [first [lia|done]|]].
  - lia.
  - apply example_waiting.
  - apply example_arriving. vm_compute. lia.
  - exists w'. exact He.
Defined.

Lemma poll_request_keepalive_witness :
  exists bs br rs w2,
    term_bytes [ ei_encode_version; ei_encode_atom (chars "keepalive") ] = Some bs /\
    sent bs (mk_world (arrival keepalive_out br
               (example_world unit 1 (frame 1 keepalive_out ++ []) [pl_ready]))
               (set_polls [] (set_read [] rs
                 (w_sys (example_world unit 1 (frame 1 keepalive_out ++ []) [pl_ready])))) tt) w2.
Proof.
  destruct (poll_request_keepalive example_idle [] [] (-1) 0
    (example_world unit 1 (frame 1 keepalive_out ++ []) [pl_ready]))
    as (bs & br & rs & w2 & Hb & Hs & _).
  - apply example_waiting.
  - apply example_ready. lia.
  - apply example_arriving. vm_compute. lia.
  - exists bs, br, rs, w2. split; [exact Hb|exact Hs].
Defined.

Lemma poll_request_keepalive_error_witness :
  let w := example_world unit 1 (frame 1 keepalive_out ++ []) [pl_ready] in
  exists w', poll_request example_idle (-1) 0
      (mk_world (w_inst w) (set_write [] [wr_err EPIPE] (w_sys w)) (w_user w)) =
    (Return (cloudi_success : Z), w') /\ sys_out (w_sys w') = [].
Proof.
  cbv zeta. set (w := example_world unit 1 (frame 1 keepalive_out ++ []) [pl_ready]).
  destruct (poll_request_keepalive_error example_idle [] [] (-1) 0 EPIPE []
    (mk_world (w_inst w) (set_write [] [wr_err EPIPE] (w_sys w)) (w_user w))) as (w' & He & Ho).
  - split; [done|by left].
  - vm_compute. done.
  - done.
  - destruct (example_arriving unit keepalive_out [] [] ltac:(vm_compute; lia)).
    by constructor.
  - exists w'. split; [exact He|exact Ho].
Defined.

Lemma poll_request_no_message_witness :
  fst (poll_request example_idle 1000 0 (example_world unit 1 [] [pl_err EINTR])) =
    Return (cloudi_error_poll_EINTR : Z).
Proof.
  pose proof (poll_request_no_message example_idle 1000 0
    (example_world unit 1 [] [pl_err EINTR]) (or_introl eq_refl)) as H.
  destruct (poll_request example_idle 1000 0 (example_world unit 1 [] [pl_err EINTR])).
  exact (proj1 H).
Defined.
