(* ===== verification/Callback.v ===== *)
(** * What becomes of a request  ([callback], cloudi.cpp)

    A request ends with exactly one response or forward: the callback
    function's own, or the null response [callback] sends for it. *)

From S2P Require Import Prelude CMonad Status Sys ReallocPtr Framing Lookup Ei Instance Requests Poll Messages.

Section callback.
Context {F U : Type} {E : Ei} {laws : EiLaws E}.
Context (run : F -> request -> C (world F U) unit unit).
Implicit Types (w : world F U) (rq : request).

(** The arguments of a request, read in the world [w]. *)
Record denotes rq (name pattern trans_id pid : bytes) w : Prop := {
  den_name : deref_cstr (p_buffer_call (w_inst w)) (rq_name rq) = Some name;
  den_pattern : deref_cstr (p_buffer_call (w_inst w)) (rq_pattern rq) = Some pattern;
  den_trans_id : deref (p_buffer_call (w_inst w)) (rq_trans_id rq) 16 = Some trans_id;
  den_pid : deref (p_buffer_call (w_inst w)) (rq_pid rq) (rq_pid_size rq) = Some pid
}.

(** [SEND_ASYNC] or [SEND_SYNC], with the request type, the exceptions and
    the command that go with it. *)
Definition send_command (async : bool) : Z :=
  if async then MESSAGE_SEND_ASYNC else MESSAGE_SEND_SYNC.
Definition type_of (async : bool) : Z := if async then CLOUDI_ASYNC else CLOUDI_SYNC.
Definition answers (async : bool) : list exception :=
  if async then [return_async_exception; forward_async_exception]
  else [return_sync_exception; forward_sync_exception].

Lemma callback_begins (async : bool) rq pattern name trans_id pid f l w :
  denotes rq name pattern trans_id pid w ->
  lookup_find pattern (p_lookup (w_inst w)) = Some (f, l) ->
  callback run (send_command async) rq w =
    callback_arm run (type_of async) f rq (answers async) (answers (negb async))
      (if async then return_async_exception else return_sync_exception)
      (upd_inst (set_lookup l) w).
Proof.
  intros Hd Hf. unfold callback. erewrite bind_next; cycle 1.
  { unfold call_cstr, field. erewrite bind_next by reflexivity. cbv beta.
    rewrite (den_pattern _ _ _ _ _ _ Hd). reflexivity. }
  cbv beta. unfold field. erewrite bind_next by reflexivity. cbv beta. rewrite Hf.
  cbn [copt]. erewrite bind_next by reflexivity. cbv beta iota.
  unfold assign. erewrite bind_next by reflexivity. cbv beta.
  by destruct async.
Qed.

(** The response of [callback] itself. *)
Lemma return_null_sends (async : bool) rq name pattern trans_id pid k w :
  denotes rq name pattern trans_id pid w ->
  strlen name <= 65535 -> strlen pattern <= 65535 -> length trans_id = 16%nat ->
  0 <= rq_timeout rq < 2 ^ 32 -> ei_decode_version pid = Some k ->
  Z.of_nat (length (drop k pid)) <= 84 ->
  ready (strlen name + strlen pattern + 180) w ->
  exists bs w',
    term_bytes
      [ ei_encode_version; ei_encode_tuple_header 8;
        ei_encode_atom (if async then chars "return_async" else chars "return_sync");
        ei_encode_string name; ei_encode_string pattern;
        ei_encode_binary []; ei_encode_binary [];
        ei_encode_ulong (rq_timeout rq); ei_encode_binary trans_id ] = Some bs /\
    return_null (type_of async) rq w =
      (Throw (if async then return_async_exception else return_sync_exception), w') /\
    sent (bs ++ drop k pid) w w'.
Proof.
  intros [H1 H2 H3 H4] Hn Hp Ht Htm Hv Hk Hr.
  assert (ready (strlen name + strlen pattern + Z.of_nat (length (@nil byte))
                 + Z.of_nat (length (@nil byte)) + 180) w) as Hr'
    by (change (Z.of_nat (length (@nil byte))) with 0; by rewrite !Z.add_0_r).
  destruct (cloudi_return__ok (if async then chars "return_async" else chars "return_sync")
    name pattern [] [] (rq_timeout rq) trans_id pid k w) as (bs & w' & Hb & He & Hs);
    try done; [by destruct async|].
  exists bs, w'. split; [done|]. split; [|done].
  unfold return_null, call_cstr, call_bytes, field.
  rewrite bind_assoc. erewrite bind_next by reflexivity. cbv beta. rewrite H1.
  cbn [copt]. erewrite bind_next by reflexivity. cbv beta.
  rewrite bind_assoc. erewrite bind_next by reflexivity. cbv beta. rewrite H2.
  cbn [copt]. erewrite bind_next by reflexivity. cbv beta.
  rewrite bind_assoc. erewrite bind_next by reflexivity. cbv beta. rewrite H3.
  cbn [copt]. erewrite bind_next by reflexivity. cbv beta.
  rewrite bind_assoc. erewrite bind_next by reflexivity. cbv beta. rewrite H4.
  cbn [copt]. erewrite bind_next by reflexivity. cbv beta.
  destruct async; unfold cloudi_return; cbn [type_of Z.eqb Pos.eqb CLOUDI_ASYNC CLOUDI_SYNC];
    (erewrite bind_next by (apply call_return; exact He)); done.
Qed.

(** ** Properties *)

(** When the callback function does not answer (none is subscribed, or
    it returns, or it fails with a standard or boost exception), [callback]
    sends one null response: the frame of a return message with empty
    response_info and response and the request's own name, pattern, timeout,
    trans_id and pid.  It ends normally. *)
Theorem callback_null_response_sent (async : bool) rq name pattern trans_id pid k f l w o w2
    (Hd : denotes rq name pattern trans_id pid w)
    (Hf : lookup_find pattern (p_lookup (w_inst w)) = Some (f, l))
    (Hi : invoke (R := unit) run f rq (upd_inst (set_lookup l) w) = (o, w2))
    (Ho : o = Next tt \/ o = Throw std_exception \/ o = Throw boost_exception)
    (Hd2 : denotes rq name pattern trans_id pid w2)
    (Hn : strlen name <= 65535) (Hp : strlen pattern <= 65535)
    (Ht : length trans_id = 16%nat) (Htm : 0 <= rq_timeout rq < 2 ^ 32)
    (Hv : ei_decode_version pid = Some k) (Hk : Z.of_nat (length (drop k pid)) <= 84)
    (Hr : ready (strlen name + strlen pattern + 180) w2) :
  exists bs w3,
    term_bytes
      [ ei_encode_version; ei_encode_tuple_header 8;
        ei_encode_atom (if async then chars "return_async" else chars "return_sync");
        ei_encode_string name; ei_encode_string pattern;
        ei_encode_binary []; ei_encode_binary [];
        ei_encode_ulong (rq_timeout rq); ei_encode_binary trans_id ] = Some bs /\
    callback run (send_command async) rq w = (Return tt, w3) /\
    sent (bs ++ drop k pid) w2 w3.
Proof.
  destruct (return_null_sends async rq name pattern trans_id pid k w2)
    as (bs & w3 & Hb & He & Hs); try done.
  exists bs, w3. split; [done|]. split; [|done].
  erewrite callback_begins by done. unfold callback_arm.
  erewrite bind_next with (s' := w2) (a := tt); cycle 1.
  { unfold ctry. rewrite Hi. destruct Ho as [-> |[-> | ->]]; by destruct async. }
  cbv beta. erewrite bind_return; [reflexivity|]. unfold ctry.
  erewrite bind_throw by (apply call_throw; exact He). by destruct async.
Qed.

(** When the callback function answers (its return or forward throws
    the exception of the request's type), [callback] ends normally and sends
    nothing more; an answer of the other type is a failed assertion, and an
    exception that is no std::exception goes on to the caller. *)
Theorem callback_answered (async : bool) rq name pattern trans_id pid f l w e w2
    (Hd : denotes rq name pattern trans_id pid w)
    (Hf : lookup_find pattern (p_lookup (w_inst w)) = Some (f, l))
    (Hi : invoke (R := unit) run f rq (upd_inst (set_lookup l) w) = (Throw e, w2)) :
  (e ∈ answers async -> callback run (send_command async) rq w = (Return tt, w2)) /\
  (e ∈ answers (negb async) ->
   callback run (send_command async) rq w = (Throw assert_exception, w2)) /\
  (e = unknown_exception ->
   callback run (send_command async) rq w = (Throw unknown_exception, w2)).
Proof.
  erewrite callback_begins by done. unfold callback_arm.
  split_and!; intros He; (erewrite bind_return + erewrite bind_throw); try reflexivity;
    unfold ctry; rewrite Hi.
  - by rewrite decide_True.
  - rewrite decide_False; [by rewrite decide_True|].
    destruct async; cbn in *; rewrite !elem_of_cons, elem_of_nil in He |- *;
      destruct He as [-> | [-> | []]]; by intros [?|[?|[]]].
  - subst e. by destruct async.
Qed.
End callback.

(** ** Examples *)

(** A request in [buffer_call], with or without a callback subscribed. *)
Definition example_call_buffer : buffer_t :=
  set_cells (construct 1 256 65536) (store (replicate 256 None) 0 example_send).

Definition example_request : request :=
  send_request CLOUDI_ASYNC (chars "/p/a") (chars "/p/a") [] (chars "hi") 5000 0
    example_pid example_call_buffer.

Definition example_called (l : lookup_t unit) : world unit unit :=
  upd_inst (fun p => set_lookup l (set_buffer_call example_call_buffer p))
    (example_world unit 1 [] []).

Lemma example_denotes l :
  denotes example_request (chars "/p/a") (chars "/p/a") (replicate 16 NUL) example_pid
    (example_called l).
Proof. split; vm_compute; reflexivity. Qed.

Lemma callback_null_response_sent_witness :
  exists bs w3,
    callback example_idle MESSAGE_SEND_ASYNC example_request (example_called ∅) =
      (Return tt, w3) /\
    sent (bs ++ chars "pid of the sender") (example_called ∅) w3.
Proof.
  destruct (callback_null_response_sent example_idle true example_request (chars "/p/a")
    (chars "/p/a") (replicate 16 NUL) example_pid 1%nat callback_null_response ∅
    (example_called ∅) (Next tt) (example_called ∅) (example_denotes ∅))
    as (bs & w3 & _ & He & Hs).
  - reflexivity.
  - reflexivity.
  - by left.
  - apply example_denotes.
  - vm_compute. done.
  - vm_compute. done.
  - reflexivity.
  - vm_compute. done.
  - reflexivity.
  - vm_compute. done.
  - assert (ready 200 (example_world unit 1 [] [])) as [H1 H2 H3 H4 H5]
      by (apply example_ready; lia).
    change (strlen (chars "/p/a") + strlen (chars "/p/a") + 180) with 188.
    split; [exact H1|..|exact H4|].
    + vm_compute. done.
    + vm_compute. done.
    + apply (good_writes_le _ (Z.to_nat 200)); [vm_compute; lia|exact H5].
  - exists bs, w3. split; [exact He|exact Hs].
Defined.

(** A callback function that answers before it would return. *)
Definition example_answer (_ : unit) (_ : request) : C (world unit unit) unit unit :=
  cthrow return_async_exception.

Lemma callback_answered_witness :
  exists w2,
    callback example_answer MESSAGE_SEND_ASYNC example_request
      (example_called {[chars "/p/a" := queue_new (callback_user tt)]}) = (Return tt, w2).
Proof.
  destruct (callback_answered example_answer true example_request (chars "/p/a")
    (chars "/p/a") (replicate 16 NUL) example_pid (callback_user tt)
    {[chars "/p/a" := queue_new (callback_user tt)]}
    (example_called {[chars "/p/a" := queue_new (callback_user tt)]})
    return_async_exception
    (upd_inst (set_lookup {[chars "/p/a" := queue_new (callback_user tt)]})
       (example_called {[chars "/p/a" := queue_new (callback_user tt)]}))
    (example_denotes _)) as [H _].
  - reflexivity.
  - reflexivity.
  - eexists. apply H. by left.
Defined.
