(* ===== verification/KeyValue.v ===== *)
(** * Key/value data in request_info  (text_key_value_parse, cloudi.cpp)

    The parser of the [text_pairs] format and, from
    src/src/lib/cloudi_core/src/cloudi_request_info.erl, the function that
    writes it. *)

From S2P Require Import Prelude ReallocPtr.

(** The pointers the parser stores, as indexes into [text]. *)
Abbreviation pointers := (realloc_ptr (option Z)).

(** The size of a [char const] pointer, the element of the array. *)
Definition sizeof_pointer : Z := 8.

(** [result[i] = v], after the assertion of [operator []]. *)
Definition set_pointer (p : pointers) (i : Z) (v : option Z) : option pointers :=
  if i <? m_size p
  then Some (set_cells p (store (m_p p) (Z.to_nat i) [v])) else None.

Section parse.
Context (realloc_ok : Z -> bool).
Context (text : bytes).

(** [for (; text_i < text_size - 1; ++text_i)]: the array and the next free
    index.  Every round increments [text_i], so the text's length bounds
    the rounds.  [None]: an assertion failed. *)
Fixpoint parse_loop (fuel : nat) (text_i i : Z) (result : pointers) :
  option (pointers * Z) :=
  match fuel with
  | O => Some (result, i)
  | S fuel =>
      if text_i <? Z.of_nat (length text) - 1 then
        match text !! Z.to_nat text_i with
        | Some c =>
            if decide (c = NUL) then
              let text_i := text_i + 1 in
              result ← set_pointer result i (Some text_i);
              let i := i + 1 in
              '(_, result) ← reserve sizeof_pointer realloc_ok (i + 1) result;
              parse_loop fuel (text_i + 1) i result
            else parse_loop fuel (text_i + 1) i result
        | None => None
        end
      else Some (result, i)
  end.

(** [text_key_value_parse]: the array released to the caller. *)
Definition text_key_value_parse : option (list (option (option Z))) :=
  let result := construct sizeof_pointer 16 8192 in
  result ← set_pointer result 0 (Some 0);
  '(result, i) ← (if 1 <? Z.of_nat (length text)
                  then parse_loop (length text) 1 1 result
                  else Some (result, 1));
  result ← set_pointer result i None;
  Some (fst (release result)).
End parse.

(** What a caller reads from the array: the C strings up to the null
    pointer. *)
Fixpoint cstring (s : bytes) : bytes :=
  match s with
  | [] => []
  | c :: s => if decide (c = NUL) then [] else c :: cstring s
  end.

Fixpoint read_strings (text : bytes) (l : list (option (option Z))) : list bytes :=
  match l with
  | Some (Some off) :: l => cstring (drop (Z.to_nat off) text) :: read_strings text l
  | _ => []
  end.

(** text_pairs_list_to_binary of cloudi_request_info.erl: a key that is empty
    or starts with a 0 byte is an error. *)
Fixpoint text_pairs_list_to_binary (l : list (bytes * bytes)) : option bytes :=
  match l with
  | [] => Some []
  | (k, v) :: l =>
      match k with
      | [] => None
      | c :: _ =>
          if decide (c = NUL) then None
          else rest ← text_pairs_list_to_binary l;
               Some (k ++ [NUL] ++ v ++ [NUL] ++ rest)
      end
  end.

(** ** Lemmas *)

(** The strings of a list of pairs, and the format: each with a NUL. *)
Definition strings_of (l : list (bytes * bytes)) : list bytes :=
  concat (map (fun '(k, v) => [k; v]) l).
Definition terminated (ss : list bytes) : bytes := concat (map (fun s => s ++ [NUL]) ss).

Fixpoint offsets (off : Z) (ss : list bytes) : list (option Z) :=
  match ss with
  | [] => []
  | s :: ss => Some off :: offsets (off + Z.of_nat (length s) + 1) ss
  end.

Lemma text_pairs_terminated l :
  Forall (fun '(k, v) => k <> [] /\ NUL ∉ k) l ->
  text_pairs_list_to_binary l = Some (terminated (strings_of l)).
Proof.
  induction 1 as [|[k v] l [Hk Hn] _ IH]; [done|]. cbn.
  destruct k as [|c k]; [done|]. apply not_elem_of_cons in Hn as [Hc _].
  rewrite decide_False by done. rewrite IH. cbn. do 2 f_equal.
  unfold terminated, strings_of. cbn. by rewrite <- !app_assoc.
Qed.

Lemma cstring_app s rest : NUL ∉ s -> cstring (s ++ NUL :: rest) = s.
Proof.
  induction s as [|c s IH]; intros Hn; cbn; [by rewrite decide_True|].
  apply not_elem_of_cons in Hn as [Hc Hn]. rewrite decide_False by done. by rewrite IH.
Qed.

(** Reading the array back. *)
Lemma read_strings_offsets pre ss arr :
  Forall (fun s => NUL ∉ s) ss ->
  read_strings (pre ++ terminated ss)
    ((Some <$> offsets (Z.of_nat (length pre)) ss) ++ Some None :: arr) = ss.
Proof.
  intros Hs. revert pre. induction Hs as [|s ss Hn _ IH]; intros pre; [done|].
  cbn. f_equal.
  - rewrite Nat2Z.id, drop_app_length. unfold terminated. cbn.
    rewrite <- app_assoc. by apply cstring_app.
  - replace (Z.of_nat (length pre) + Z.of_nat (length s) + 1)
      with (Z.of_nat (length (pre ++ s ++ [NUL]))) by (rewrite !length_app; cbn; lia).
    rewrite <- (IH (pre ++ s ++ [NUL])) at 3. f_equal. unfold terminated. cbn.
    by rewrite <- !app_assoc.
Qed.

Section parsing.
Context (realloc_ok : Z -> bool) (Hok : forall n, realloc_ok n = true).
Context (text : bytes).
Abbreviation parse_loop := (parse_loop realloc_ok text).
Abbreviation size := (Z.of_nat (length text)).

(** Characters before a NUL are passed over. *)
Lemma parse_skip cs fuel pre post i r :
  text = pre ++ cs ++ post -> NUL ∉ cs -> post <> [] ->
  parse_loop (length cs + fuel) (Z.of_nat (length pre)) i r =
  parse_loop fuel (Z.of_nat (length pre) + Z.of_nat (length cs)) i r.
Proof.
  revert pre. induction cs as [|c cs IH]; intros pre Ht Hn Hp; [by rewrite Z.add_0_r|].
  assert (Z.of_nat (length pre) < size - 1) as Hlt.
  { rewrite Ht, !length_app. destruct post; [done|]. cbn. lia. }
  cbn [length Nat.add KeyValue.parse_loop]. rewrite (proj2 (Z.ltb_lt _ _)) by done.
  assert (text !! Z.to_nat (Z.of_nat (length pre)) = Some c) as ->.
  { rewrite Nat2Z.id, Ht. by rewrite lookup_app_r, Nat.sub_diag by lia. }
  apply not_elem_of_cons in Hn as [Hc Hn]. rewrite decide_False by done.
  replace (Z.of_nat (length pre) + 1) with (Z.of_nat (length (pre ++ [c])))
    by (rewrite length_app; cbn; lia).
  rewrite IH; try done; [|by rewrite <- app_assoc].
  f_equal. rewrite length_app. cbn. lia.
Qed.

(** The array after [l] was stored: nothing else was written. *)
Definition stored (l : list (option Z)) (r : pointers) : Prop :=
  wf r /\ holds (m_p r) 0 l /\ Z.of_nat (length l) < m_size r /\ m_maxSize r = 65536 /\
  Forall (eq None) (drop (length l) (m_p r)).

Lemma stored_push l v r :
  stored l r -> Z.of_nat (length l) < 65535 ->
  exists r1 r2, set_pointer r (Z.of_nat (length l)) v = Some r1 /\
    holds (m_p r1) 0 (l ++ [v]) /\
    reserve sizeof_pointer realloc_ok (Z.of_nat (length l) + 1 + 1) r1 = Some (true, r2) /\
    stored (l ++ [v]) r2.
Proof.
  intros (Hwf & Hh & Hl & Hmax & Hnone) Hlt. unfold set_pointer.
  rewrite (proj2 (Z.ltb_lt _ _)) by done. rewrite Nat2Z.id.
  set (r1 := set_cells r _). pose proof Hwf as [Hlen Hz].
  assert (wf r1) as Hwf1.
  { split; cbn; [|done]. rewrite length_store; cbn; lia. }
  assert (holds (m_p r1) 0 (l ++ [v])) as Hh1.
  { apply holds_app. split; [|apply holds_store_eq; lia].
    apply holds_store_below; cbn; try done; lia. }
  destruct (reserve_succeeds sizeof_pointer realloc_ok (Z.of_nat (length l) + 1 + 1) r1)
    as (r2 & Hr & He & Hs); try done; try lia.
  { cbn. lia. }
  exists r1, r2. split; [done|]. split; [done|]. split; [done|].
  destruct (reserve_junk sizeof_pointer realloc_ok (Z.of_nat (length l) + 1 + 1) r1 r2 Hwf1) as (n & Hj);
    [lia|exact Hr|].
  destruct He as (Hwf2 & _ & _ & Hm & _).
  split; [done|]. split; [rewrite Hj; by apply holds_extend|].
  rewrite length_app. cbn [length]. split; [lia|]. split; [by rewrite Hm|].
  destruct Hwf1 as [Hlen1 _]. change (m_size r1) with (m_size r) in Hlen1.
  rewrite Hj, drop_app_le by lia.
  apply Forall_app. split; [|by apply Forall_replicate].
  unfold r1. cbn [m_p set_cells]. change 1%nat with (length [v]). rewrite drop_store by (cbn [length]; lia).
  rewrite <- drop_drop. by apply Forall_drop.
Qed.

(** What is between the 0 bytes the loop sees: it does not look at the first
    byte. *)
Definition segment (s : bytes) : Prop := s <> [] /\ NUL ∉ tail s.

Lemma parse_strings fuel pre s ss l r :
  text = pre ++ terminated (s :: ss) -> Forall segment (s :: ss) ->
  stored l r -> Z.of_nat (length l + length ss) < 65535 ->
  (length (terminated (s :: ss)) <= fuel)%nat ->
  exists r', parse_loop fuel (Z.of_nat (length pre) + 1) (Z.of_nat (length l)) r =
      Some (r', Z.of_nat (length l + length ss)) /\
    stored (l ++ offsets (Z.of_nat (length pre) + Z.of_nat (length s) + 1) ss) r'.
Proof.
  revert fuel pre s l r. induction ss as [|s2 ss IH];
    intros fuel pre s l r Ht Hf Hst Hlt Hfuel;
    apply Forall_cons in Hf as [[Hne Hn] Hf]; destruct s as [|c s]; try done; cbn [tail] in Hn.
  all: match type of Ht with _ = _ ++ terminated (_ :: ?ss) =>
    assert (text = (pre ++ [c]) ++ s ++ NUL :: terminated ss) as Ht2
      by (rewrite Ht; unfold terminated; cbn; by rewrite <- !app_assoc);
    assert (length s + 2 + length (terminated ss) <= fuel)%nat as Hf2
      by (revert Hfuel; unfold terminated; cbn; rewrite !length_app; cbn; lia)
  end.
  all: replace (Z.of_nat (length pre) + 1) with (Z.of_nat (length (pre ++ [c])))
      by (rewrite length_app; cbn; lia).
  all: replace fuel with (length s + S (fuel - length s - 1))%nat by lia.
  all: rewrite (parse_skip s _ (pre ++ [c]) _ _ _ Ht2) by done.
  all: assert (size = Z.of_nat (length pre) + 1 + Z.of_nat (length s) + 1 +
      Z.of_nat (length text - (length pre + 1 + length s + 1)))
    as Hsz by (rewrite Ht2, !length_app; cbn; lia).
  all: cbn [KeyValue.parse_loop]; rewrite length_app; cbn [length].
  - rewrite (proj2 (Z.ltb_ge _ _)); cycle 1.
    { rewrite Ht2, !length_app. unfold terminated. cbn. lia. }
    exists r. rewrite app_nil_r, Nat.add_0_r. by split.
  - rewrite (proj2 (Z.ltb_lt _ _)); cycle 1.
    { rewrite Ht2, !length_app. unfold terminated. cbn. rewrite !length_app. cbn. lia. }
    set (idx := Z.of_nat (length pre + 1) + Z.of_nat (length s)).
    assert (text !! Z.to_nat idx = Some NUL) as ->.
    { replace (Z.to_nat idx) with (length (pre ++ [c]) + length s)%nat
        by (unfold idx; rewrite length_app; cbn; lia).
      rewrite Ht2, lookup_app_r by lia. rewrite lookup_app_r by lia.
      by replace (_ - _ - _)%nat with 0%nat by lia. }
    rewrite decide_True by done.
    destruct (stored_push l (Some (idx + 1)) r Hst) as (r1 & r2 & -> & _ & Hr & Hst2);
      [cbn in Hlt; lia|].
    cbn [mbind option_bind]. rewrite Hr. cbn [mbind option_bind].
    set (pre2 := pre ++ (c :: s) ++ [NUL]).
    assert (Z.of_nat (length pre2) = idx + 1) as Hp2
      by (unfold pre2, idx; rewrite !length_app; cbn; lia).
    destruct (IH (fuel - length s - 1)%nat pre2 s2 (l ++ [Some (idx + 1)]) r2)
      as (r' & He & Hst'); try done.
    { rewrite Ht2. unfold pre2. by rewrite <- !app_assoc. }
    { rewrite length_app. cbn in Hlt |- *. lia. }
    { lia. }
    rewrite Hp2 in He, Hst'. rewrite length_app in He. cbn [length] in He.
    exists r'. split.
    + replace (Z.of_nat (length l) + 1) with (Z.of_nat (length l + 1)) by lia.
      rewrite He. do 2 f_equal. cbn. lia.
    + rewrite <- app_assoc in Hst'. cbn [app offsets length].
      replace (Z.of_nat (length pre) + Z.of_nat (S (length s)) + 1) with (idx + 1)
        by (unfold idx; lia). exact Hst'.
Qed.
End parsing.

Lemma length_offsets off ss : length (offsets off ss) = length ss.
Proof. revert off. induction ss as [|s ss IH]; intros off; cbn; [done|]. by rewrite IH. Qed.

Lemma length_strings_of l : length (strings_of l) = (2 * length l)%nat.
Proof. induction l as [|[k v] l IH]; [done|]. unfold strings_of in *. cbn. lia. Qed.

Lemma holds_split {T : Type} (m : list (option T)) bs :
  holds m 0 bs -> m = (Some <$> bs) ++ drop (length bs) m.
Proof. unfold holds. rewrite drop_0. intros H. by rewrite <- H, take_drop. Qed.

Lemma strings_no_null l :
  Forall (fun '(k, v) => k <> [] /\ NUL ∉ k) l -> Forall (fun '(_, v) => v <> [] /\ NUL ∉ v) l ->
  Forall (fun s : bytes => NUL ∉ s) (strings_of l).
Proof.
  induction l as [|[k v] l IH]; [constructor|]. intros Hk Hv.
  apply Forall_cons in Hk as [[? ?] Hk]. apply Forall_cons in Hv as [[? ?] Hv].
  unfold strings_of. cbn. constructor; [done|]. constructor; [done|]. by apply IH.
Qed.

Lemma segment_string s : s <> [] -> NUL ∉ s -> segment s.
Proof.
  intros Hne Hn. split; [done|]. destruct s; [done|]. by apply not_elem_of_cons in Hn as [_ ?].
Qed.

Lemma strings_segments l :
  Forall (fun '(k, v) => k <> [] /\ NUL ∉ k) l -> Forall (fun '(_, v) => v <> [] /\ NUL ∉ v) l ->
  Forall segment (strings_of l).
Proof.
  induction l as [|[k v] l IH]; [constructor|]. intros Hk Hv.
  apply Forall_cons in Hk as [[? ?] Hk]. apply Forall_cons in Hv as [[? ?] Hv].
  unfold strings_of. cbn. constructor; [by apply segment_string|].
  constructor; [by apply segment_string|]. by apply IH.
Qed.

(** The array for a text: a pointer to each of its segments, a null pointer,
    and nothing more that was written. *)
Lemma text_key_value_segments realloc_ok s ss :
  (forall n, realloc_ok n = true) -> Forall segment (s :: ss) ->
  (2 <= length (terminated (s :: ss)))%nat -> Z.of_nat (length ss) < 65000 ->
  exists rest, text_key_value_parse realloc_ok (terminated (s :: ss)) =
    Some ((Some <$> offsets 0 (s :: ss)) ++ Some None :: rest) /\ Forall (eq None) rest.
Proof.
  intros Hok Hs Ht2 Hlen. set (text := terminated (s :: ss)).
  unfold text_key_value_parse. cbv zeta.
  set (r0 := construct sizeof_pointer 16 8192).
  assert (m_size r0 = 128) as Hs0 by (vm_compute; done).
  assert (wf r0) as Hwf0 by (vm_compute; done).
  set (r1 := set_cells r0 (store (m_p r0) (Z.to_nat 0) [Some 0])).
  assert (set_pointer r0 0 (Some 0) = Some r1) as -> by (unfold set_pointer; by rewrite Hs0).
  cbn [mbind option_bind].
  assert (stored [Some 0] r1) as Hst.
  { split; [|split; [|split; [|split; [done|]]]].
    - destruct Hwf0 as [Hl0 Hz0]. split; [|done]. cbn.
      rewrite length_store; [done|]. change (Z.to_nat 0) with 0%nat. rewrite Hs0 in Hl0.
      change (0 + length [Some 0%Z] <= length (m_p r0))%nat. cbn [length]. lia.
    - apply holds_store_eq. change (Z.to_nat 0) with 0%nat. lia.
    - change (1 < m_size r0). rewrite Hs0. lia.
    - refine (bool_decide_unpack _ _). vm_compute. exact Logic.I. }
  rewrite (proj2 (Z.ltb_lt 1 _)) by (fold text in Ht2; lia).
  destruct (parse_strings realloc_ok Hok text (length text) [] s ss [Some 0] r1)
    as (r2 & He & Hwf2 & Hh2 & Hl2 & _ & Hn2); try done.
  { cbn [length] in *. lia. }
  change (Z.of_nat (length (@nil byte)) + 1) with 1 in He.
  change (Z.of_nat (length [Some 0])) with 1 in He. rewrite He. cbn [mbind option_bind].
  set (os := [Some 0] ++ offsets (Z.of_nat (length (@nil byte)) + Z.of_nat (length s) + 1) ss)
    in *.
  assert (length os = 1 + length ss)%nat as Hlo.
  { unfold os. by rewrite length_app, length_offsets. }
  unfold set_pointer. rewrite (proj2 (Z.ltb_lt _ _)) by (cbn [length]; lia).
  cbn [mbind option_bind release fst set_cells m_p].
  assert (Z.to_nat (Z.of_nat (length [Some 0%Z] + length ss)) = length os) as ->
    by (rewrite Nat2Z.id, Hlo; done).
  destruct Hwf2 as [Hlw Hzw].
  eexists (drop (length (os ++ [None])) (store (m_p r2) (length os) [None])). split.
  - rewrite (holds_split (store (m_p r2) (length os) [None]) (os ++ [None])) at 1.
    { by rewrite fmap_app, <- app_assoc. }
    apply holds_app. split; [apply holds_store_below; cbn [length]; try done; lia|].
    apply holds_store_eq. lia.
  - rewrite length_app, drop_store by (cbn [length]; lia).
    rewrite <- drop_drop. by apply Forall_drop.
Qed.

(** That of pairs whose keys and values are not empty: a pointer to each. *)
Lemma text_key_value_pointers realloc_ok l :
  (forall n, realloc_ok n = true) -> l <> [] ->
  Forall (fun '(k, v) => k <> [] /\ NUL ∉ k) l ->
  Forall (fun '(_, v) => v <> [] /\ NUL ∉ v) l -> Z.of_nat (length l) < 32000 ->
  exists rest, text_key_value_parse realloc_ok (terminated (strings_of l)) =
    Some ((Some <$> offsets 0 (strings_of l)) ++ Some None :: rest).
Proof.
  intros Hok Hne Hk Hv Hl.
  pose proof (strings_segments l Hk Hv) as Hs. pose proof (length_strings_of l) as Hlen.
  destruct (strings_of l) as [|s ss] eqn:E; [destruct l; [done|]; cbn in Hlen; lia|].
  destruct (text_key_value_segments realloc_ok s ss) as (rest & He & _); try done;
    [|cbn in Hlen; lia|by exists rest].
  unfold terminated. apply Forall_cons in Hs as [[Hs _] _].
  destruct s; [done|]. cbn. rewrite !length_app. cbn. lia.
Qed.

(** ** Properties *)

(** C38. Round trip.  For any non-empty list of pairs the Erlang function
    accepts, whose values are not empty and hold no 0 byte, the array
    [text_key_value_parse] returns for the encoded text reads as exactly the
    keys and values in order, ended by a null pointer; no access is outside
    the text or the array. *)
Theorem text_key_value_roundtrip realloc_ok l text
    (Hok : forall n, realloc_ok n = true) (Hne : l <> [])
    (Hk : Forall (fun '(k, v) => k <> [] /\ NUL ∉ k) l)
    (Hv : Forall (fun '(_, v) => v <> [] /\ NUL ∉ v) l)
    (Hl : Z.of_nat (length l) < 32000)
    (Ht : text_pairs_list_to_binary l = Some text) :
  exists arr, text_key_value_parse realloc_ok text = Some arr /\
    read_strings text arr = strings_of l.
Proof.
  rewrite text_pairs_terminated in Ht by done. injection Ht as <-.
  destruct (text_key_value_pointers realloc_ok l) as [rest He]; try done.
  eexists. split; [exact He|]. apply (read_strings_offsets []).
  by apply strings_no_null.
Qed.

Lemma text_key_value_roundtrip_witness :
  exists arr, text_key_value_parse (fun _ => true)
      (chars "k" ++ [NUL] ++ chars "v1" ++ [NUL] ++ chars "key2" ++ [NUL] ++ chars "v" ++ [NUL])
    = Some arr /\
    read_strings
      (chars "k" ++ [NUL] ++ chars "v1" ++ [NUL] ++ chars "key2" ++ [NUL] ++ chars "v" ++ [NUL])
      arr = [chars "k"; chars "v1"; chars "key2"; chars "v"].
Proof.
  apply (text_key_value_roundtrip (fun _ => true)
    [(chars "k", chars "v1"); (chars "key2", chars "v")]).
  - done.
  - done.
  - refine (bool_decide_unpack _ _). vm_compute. exact Logic.I.
  - refine (bool_decide_unpack _ _). vm_compute. exact Logic.I.
  - vm_compute. done.
  - reflexivity.
Defined.

(** An empty value, which the Erlang function accepts, is misread when a
    pair follows it: the byte after a 0 byte is never looked at, so the next
    key is joined to the value before it and lost. *)
Theorem text_key_value_empty_value :
  exists text arr,
    text_pairs_list_to_binary [(chars "k1", []); (chars "k2", chars "v2")] = Some text /\
    text_key_value_parse (fun _ => true) text = Some arr /\
    read_strings text arr = [chars "k1"; []; chars "v2"].
Proof.
  eexists _, _. split; [reflexivity|]. split; [reflexivity|]. vm_compute. reflexivity.
Qed.
