(* ===== verification/Serve.v ===== *)
(** * Services

    What a program does with the requests it is sent, from the socket to the
    socket.  A callback function is specified by a function that gives, for
    the program's state and a request, an answer and the next state, and
    implements it when it gives that answer; the callback functions that are
    subscribed with one pattern take turns.  Then [cloudi_poll] answers every
    request of a run in turn, until the program is told to end. *)

From S2P Require Import Prelude CMonad Status Sys ReallocPtr Framing Lookup Ei Instance Requests Poll Calls Messages Callback.

(** ** Specification *)

(** A request, as the sender has it. *)
Record message : Type := mk_message {
  msg_async : bool;
  msg_name : bytes;
  msg_pattern : bytes;
  msg_info : bytes;
  msg_request : bytes;
  msg_timeout : Z;
  msg_priority : Z;
  msg_trans_id : bytes;
  msg_source : bytes
}.

(** What a callback function does with it. *)
Inductive answer : Type :=
| Responded (response_info response : bytes)
| Forwarded (name request_info request : bytes) (timeout priority : Z)
| Unanswered.

(** The answers to requests one after the other, and the last state. *)
Fixpoint replies {U} (spec : U -> message -> answer * U) (u : U) (ms : list message) :
    list answer * U :=
  match ms with
  | [] => ([], u)
  | m :: ms =>
      let '(a, u) := spec u m in
      let '(l, u) := replies spec u ms in (a :: l, u)
  end.

(** The answers of a service with several callback functions: [t] has those of
    each pattern, the next in turn first, and a request to a pattern without
    any is not answered. *)
Section turns.
Context {F U : Type}.
Implicit Types (t : bytes -> list (callback_function F)).

Definition turn t (m : message) : callback_function F :=
  default callback_null_response (head (t (msg_pattern m))).
Definition next_turn t (m : message) : bytes -> list (callback_function F) :=
  upd t (msg_pattern m) (rotate (t (msg_pattern m))).

Definition reply (spec : F -> U -> message -> answer * U) (c : callback_function F) (u : U)
    (m : message) : answer * U :=
  match c with
  | callback_user f => spec f u m
  | callback_null_response => (Unanswered, u)
  end.

Fixpoint turns (spec : F -> U -> message -> answer * U) t (u : U) (ms : list message) :
    list answer * U :=
  match ms with
  | [] => ([], u)
  | m :: ms =>
      let '(a, u) := reply spec (turn t m) u m in
      let '(l, u) := turns spec (next_turn t m) u ms in (a :: l, u)
  end.

(** Each callback function is given requests it accepts. *)
Definition accepted (accepts : F -> message -> Prop) (c : callback_function F) (m : message) : Prop :=
  match c with
  | callback_user f => accepts f m
  | callback_null_response => True
  end.
Fixpoint all_accepted (accepts : F -> message -> Prop) t (ms : list message) : Prop :=
  match ms with
  | [] => True
  | m :: ms => accepted accepts (turn t m) m /\ all_accepted accepts (next_turn t m) ms
  end.

Lemma next_turn_ext t t' m :
  (forall k, t k = t' k) -> forall k, next_turn t m k = next_turn t' m k.
Proof. intros H k. unfold next_turn, upd. by rewrite !H. Qed.

Lemma turns_ext spec t t' u ms :
  (forall k, t k = t' k) -> turns spec t u ms = turns spec t' u ms.
Proof.
  revert t t' u. induction ms as [|m ms IH]; intros t t' u H; [done|].
  cbn [turns]. assert (turn t m = turn t' m) as -> by (unfold turn; by rewrite H).
  destruct (reply _ _ _ _) as [a u1]. by rewrite (IH _ (next_turn t' m)) by by apply next_turn_ext.
Qed.

Lemma all_accepted_ext accepts t t' ms :
  (forall k, t k = t' k) -> all_accepted accepts t ms -> all_accepted accepts t' ms.
Proof.
  revert t t'. induction ms as [|m ms IH]; intros t t' H; [done|].
  cbn [all_accepted]. assert (turn t m = turn t' m) as -> by (unfold turn; by rewrite H).
  intros [? Ha]. split; [done|]. exact (IH _ _ (next_turn_ext t t' m H) Ha).
Qed.

(** One callback function, alone with its patterns. *)
Lemma next_turn_alone t m k f : t k = [callback_user f] -> next_turn t m k = [callback_user f].
Proof. intros H. unfold next_turn, upd. case_decide as Hk; [|done]. by rewrite Hk, H. Qed.

Lemma turns_alone spec t u ms f :
  Forall (fun m => t (msg_pattern m) = [callback_user f]) ms ->
  turns spec t u ms = replies (spec f) u ms.
Proof.
  revert t u. induction ms as [|m ms IH]; intros t u Ht; [done|].
  apply Forall_cons in Ht as [Hm Ht]. cbn [turns replies].
  assert (turn t m = callback_user f) as -> by (unfold turn; by rewrite Hm).
  cbn [reply]. destruct (spec f u m) as [a u1]. rewrite IH; [done|].
  eapply Forall_impl; [exact Ht|]. intros m' H. by apply next_turn_alone.
Qed.

Lemma all_accepted_alone (accepts : F -> message -> Prop) t ms f :
  Forall (fun m => t (msg_pattern m) = [callback_user f]) ms -> Forall (accepts f) ms ->
  all_accepted accepts t ms.
Proof.
  intros Ht Ha. revert t Ht. induction Ha as [|m ms Hm _ IH]; intros t Ht; [done|].
  apply Forall_cons in Ht as [Htm Ht]. cbn [all_accepted]. unfold turn at 1. rewrite Htm.
  split; [done|]. apply IH. eapply Forall_impl; [exact Ht|]. intros m' H. by apply next_turn_alone.
Qed.
End turns.

(** The message of a request, and that of its answer. *)
Definition message_out (m : message) : bytes :=
  send_out (send_command (msg_async m)) (msg_name m) (msg_pattern m) (msg_info m)
    (msg_request m) (msg_timeout m) (msg_priority m) (msg_trans_id m) (msg_source m).

Section terms.
Context {E : Ei}.

Definition return_terms (m : message) (response_info response : bytes) : list (option bytes) :=
  [ ei_encode_version; ei_encode_tuple_header 8;
    ei_encode_atom (if msg_async m then chars "return_async" else chars "return_sync");
    ei_encode_string (msg_name m); ei_encode_string (msg_pattern m);
    ei_encode_binary response_info; ei_encode_binary response;
    ei_encode_ulong (msg_timeout m); ei_encode_binary (msg_trans_id m) ].

Definition forward_terms (m : message) (name request_info request : bytes)
    (timeout priority : Z) : list (option bytes) :=
  [ ei_encode_version; ei_encode_tuple_header 8;
    ei_encode_atom (if msg_async m then chars "forward_async" else chars "forward_sync");
    ei_encode_string name; ei_encode_binary request_info; ei_encode_binary request;
    ei_encode_ulong timeout; ei_encode_long priority; ei_encode_binary (msg_trans_id m) ].

Definition answer_terms (m : message) (a : answer) : list (option bytes) :=
  match a with
  | Responded response_info response => return_terms m response_info response
  | Forwarded name request_info request timeout priority =>
      forward_terms m name request_info request timeout priority
  | Unanswered => return_terms m [] []
  end.

(** The pid of the sender goes last, without its version byte. *)
Definition answer_out (m : message) (a : answer) : option bytes :=
  bs ← term_bytes (answer_terms m a);
  k ← ei_decode_version (msg_source m);
  Some (bs ++ drop k (msg_source m)).

(** The answers of a run, each for its request. *)
Definition replies_out (ms : list message) (l : list answer) : option (list bytes) :=
  mapM id (zip_with answer_out ms l).
End terms.

(** The requests the VM sends, and answers that fit their fields. *)
Record valid_message `{Ei} (m : message) : Prop := {
  vm_name : NUL ∉ msg_name m;
  vm_pattern : NUL ∉ msg_pattern m;
  vm_name_size : strlen (msg_name m) <= 65535;
  vm_pattern_size : strlen (msg_pattern m) <= 65535;
  vm_timeout : 0 <= msg_timeout m < 2 ^ 32;
  vm_priority : - 128 <= msg_priority m < 128;
  vm_trans_id : length (msg_trans_id m) = 16%nat;
  vm_source : exists k, ei_decode_version (msg_source m) = Some k /\
    Z.of_nat (length (drop k (msg_source m))) <= 80
}.

Definition valid_answer (a : answer) : Prop :=
  match a with
  | Forwarded name _ _ timeout priority =>
      strlen name <= 65535 /\ 0 <= timeout < 2 ^ 32 /\ - 128 <= priority < 128
  | _ => True
  end.

(** Room for the frame of an answer. *)
Definition room (m : message) (a : answer) : Z :=
  match a with
  | Responded i r =>
      strlen (msg_name m) + strlen (msg_pattern m) + Z.of_nat (length i) + Z.of_nat (length r) + 180
  | Forwarded n i r _ _ => strlen n + Z.of_nat (length i) + Z.of_nat (length r) + 180
  | Unanswered => strlen (msg_name m) + strlen (msg_pattern m) + 180
  end.

Lemma room_positive m a : 180 <= room m a.
Proof. destruct a; cbn; unfold strlen; lia. Qed.

Section lengths.
Context {E : Ei} {laws : EiLaws E}.

(** The sizes of the terms of a message, in a goal with their sum. *)
Ltac term_sizes :=
  repeat constructor; first
    [ apply version_within | apply tuple_header_within | apply string_within
    | apply ulong_within | apply long_within
    | eapply within_le; [apply binary_within|]
    | eapply within_le; [apply atom_within|]; case_match; cbn ];
  unfold strlen, INT_MAX in *; lia.

Lemma return_terms_within m i r :
  valid_message m -> room m (Responded i r) + 128 <= INT_MAX ->
  Forall2 within [1; 2; 15; strlen (msg_name m) + 3; strlen (msg_pattern m) + 3;
    Z.of_nat (length i) + 5; Z.of_nat (length r) + 5; 7; 21] (return_terms m i r).
Proof. intros [] Hr. cbn in Hr. unfold return_terms. term_sizes. Qed.

Lemma forward_terms_within m n i r tm pr :
  valid_message m -> valid_answer (Forwarded n i r tm pr) ->
  room m (Forwarded n i r tm pr) + 128 <= INT_MAX ->
  Forall2 within [1; 2; 16; strlen n + 3; Z.of_nat (length i) + 5; Z.of_nat (length r) + 5;
    7; 7; 21] (forward_terms m n i r tm pr).
Proof. intros [] (? & ? & ?) Hr. cbn in Hr. unfold forward_terms. term_sizes. Qed.

Lemma answer_out_ok m a :
  valid_message m -> valid_answer a -> room m a + 128 <= INT_MAX ->
  exists bs, answer_out m a = Some bs /\ Z.of_nat (length bs) + 4 <= room m a.
Proof.
  intros Hm Ha Hi. pose proof Hm as [_ _ _ _ _ _ _ (k & Hv & Hk)]. unfold answer_out. rewrite Hv.
  assert (exists ns, Forall2 within ns (answer_terms m a) /\
    foldr Z.add 0 ns + 84 <= room m a) as (ns & Hw & Hsum).
  { destruct a as [i r|n i r tm pr|].
    - eexists. split; [by apply return_terms_within|]. cbn. lia.
    - eexists. split; [by apply forward_terms_within|]. cbn. lia.
    - eexists. split; [apply return_terms_within; [done|]|]; cbn in Hi |- *; lia. }
  destruct (within_all _ _ Hw) as (bss & Hb & Hl).
  rewrite (term_bytes_Some _ _ Hb). cbn [mbind option_bind].
  eexists. split; [reflexivity|]. rewrite length_app. lia.
Qed.
End lengths.

(** ** Callback functions that implement a specification *)

Section service.
Context {F U : Type} {E : Ei} {laws : EiLaws E}.
Context (run : F -> request -> C (world F U) unit unit).
Implicit Types (w : world F U) (m : message) (rq : request).

(** What a service does not change of an instance. *)
Definition endpoint (p : cloudi_instance_t F) : Z * Z * Z * option cells :=
  (p_use_header p, p_fd_in p, p_fd_out p, p_prefix p).

Definition with_user (u : U) w : world F U := mk_world (w_inst w) (w_sys w) u.

(** The arguments of a call stand for the request. *)
Record called m rq w : Prop := {
  ca_denotes : denotes rq (msg_name m) (msg_pattern m) (msg_trans_id m) (msg_source m) w;
  ca_type : rq_type rq = type_of (msg_async m);
  ca_info : deref (p_buffer_call (w_inst w)) (rq_request_info rq)
    (rq_request_info_size rq + 1) = Some (msg_info m ++ [NUL]);
  ca_info_size : rq_request_info_size rq = Z.of_nat (length (msg_info m));
  ca_request : deref (p_buffer_call (w_inst w)) (rq_request rq) (rq_request_size rq + 1)
    = Some (msg_request m ++ [NUL]);
  ca_request_size : rq_request_size rq = Z.of_nat (length (msg_request m));
  ca_request_ptr : 0 <= ptr_off (rq_request rq);
  ca_timeout : rq_timeout rq = msg_timeout m;
  ca_priority : rq_priority rq = msg_priority m
}.

(** How a call ends that gives an answer. *)
Definition answered m (a : answer) (o : outcome unit unit) w w' : Prop :=
  match a with
  | Unanswered =>
      (o = Next tt \/ o = Return tt \/ o = Throw std_exception \/ o = Throw boost_exception) /\
      w' = w
  | _ =>
      (exists e, o = Throw e /\ e ∈ answers (msg_async m)) /\
      exists bs, answer_out m a = Some bs /\ sent bs w w'
  end.

(** The function [f] does what the specification says with the requests it
    accepts, in an instance with the endpoint [ep]. *)
Class Implements (ep : Z * Z * Z * option cells) (f : F) (accepts : message -> Prop)
    (spec : U -> message -> answer * U) : Prop :=
  implements m rq w :
    endpoint (w_inst w) = ep -> valid_message m -> accepts m -> called m rq w ->
    let '(a, u) := spec (w_user w) m in
    valid_answer a -> ready (room m a) w ->
    exists o w', run f rq w = (o, w') /\ answered m a o (with_user u w) w'.

(** What the functions of the API that answer do with the values of a
    request. *)
Lemma cloudi_return_answers m i r w :
  valid_message m -> ready (room m (Responded i r)) w ->
  exists w', cloudi_return (type_of (msg_async m)) (msg_name m) (msg_pattern m) i r (msg_timeout m)
      (msg_trans_id m) (msg_source m) w =
      (Throw (if msg_async m then return_async_exception else return_sync_exception), w') /\
    exists bs, answer_out m (Responded i r) = Some bs /\ sent bs w w'.
Proof.
  intros Hm Hr. pose proof Hm as [_ _ Hns Hps Htm _ Ht (k & Hv & Hk)].
  destruct (cloudi_return__ok
    (if msg_async m then chars "return_async" else chars "return_sync") (msg_name m)
    (msg_pattern m) i r (msg_timeout m) (msg_trans_id m) (msg_source m) k w)
    as (bs & w' & Hb & He & Hs); try done; [by destruct (msg_async m)|lia|].
  exists w'. split.
  - unfold cloudi_return. destruct (msg_async m); cbn [type_of Z.eqb Pos.eqb CLOUDI_ASYNC CLOUDI_SYNC];
      (erewrite bind_next by (apply call_return; exact He)); done.
  - exists (bs ++ drop k (msg_source m)). split; [|done]. unfold answer_out.
    cbn [answer_terms]. unfold return_terms. rewrite Hb. cbn. by rewrite Hv.
Qed.

Lemma cloudi_forward_answers m n i r w :
  valid_message m -> valid_answer (Forwarded n i r (msg_timeout m) (msg_priority m)) ->
  ready (room m (Forwarded n i r (msg_timeout m) (msg_priority m))) w ->
  exists w', cloudi_forward (type_of (msg_async m)) n i r (msg_timeout m) (msg_priority m)
      (msg_trans_id m) (msg_source m) w =
      (Throw (if msg_async m then forward_async_exception else forward_sync_exception), w') /\
    exists bs, answer_out m (Forwarded n i r (msg_timeout m) (msg_priority m)) = Some bs /\
      sent bs w w'.
Proof.
  intros Hm (Hn & _) Hr. pose proof Hm as [_ _ _ _ Htm Hpr Ht (k & Hv & Hk)].
  destruct (cloudi_forward__ok
    (if msg_async m then chars "forward_async" else chars "forward_sync") n
    i r (msg_timeout m) (msg_priority m) (msg_trans_id m) (msg_source m) k w)
    as (bs & w' & Hb & He & Hs); try done; [by destruct (msg_async m)|].
  exists w'. split.
  - unfold cloudi_forward. destruct (msg_async m); cbn [type_of Z.eqb Pos.eqb CLOUDI_ASYNC CLOUDI_SYNC];
      (erewrite bind_next by (apply call_return; exact He)); done.
  - exists (bs ++ drop k (msg_source m)). split; [|done]. unfold answer_out.
    cbn [answer_terms]. unfold forward_terms. rewrite Hb. cbn. by rewrite Hv.
Qed.

(** The exceptions of an answer are those that end the callback. *)
Lemma return_answers (async : bool) :
  exists e, (if async then return_async_exception else return_sync_exception) = e /\
    e ∈ answers async.
Proof. destruct async; eexists; (split; [done|]); by left. Qed.
Lemma forward_exception_answers (async : bool) :
  exists e, (if async then forward_async_exception else forward_sync_exception) = e /\
    e ∈ answers async.
Proof. destruct async; eexists; (split; [done|]); by right; left. Qed.

Lemma called_with_user m rq (u : U) w : called m rq w -> called m rq (with_user u w).
Proof. intros [[] ? ? ? ? ? ? ? ?]. by repeat split. Qed.

(** The arguments of a call, read. *)
Lemma called_name {R} m rq w : called m rq w ->
  call_cstr (R := R) (rq_name rq) w = (Next (msg_name m), w).
Proof. intros [[Hn _ _ _] _ _ _ _ _ _ _ _]. unfold call_cstr, field. crun. by rewrite Hn. Qed.
Lemma called_pattern {R} m rq w : called m rq w ->
  call_cstr (R := R) (rq_pattern rq) w = (Next (msg_pattern m), w).
Proof. intros [[_ Hn _ _] _ _ _ _ _ _ _ _]. unfold call_cstr, field. crun. by rewrite Hn. Qed.
Lemma called_trans_id {R} m rq w : called m rq w ->
  call_bytes (R := R) (rq_trans_id rq) 16 w = (Next (msg_trans_id m), w).
Proof. intros [[_ _ Hn _] _ _ _ _ _ _ _ _]. unfold call_bytes, field. crun. by rewrite Hn. Qed.
Lemma called_pid {R} m rq w : called m rq w ->
  call_bytes (R := R) (rq_pid rq) (rq_pid_size rq) w = (Next (msg_source m), w).
Proof. intros [[_ _ _ Hn] _ _ _ _ _ _ _ _]. unfold call_bytes, field. crun. by rewrite Hn. Qed.

(** A string with a null after it, without the null. *)
Lemma deref_before_null b p n (s : bytes) :
  n = Z.of_nat (length s) -> deref b p (n + 1) = Some (s ++ [NUL]) -> deref b p n = Some s.
Proof.
  intros -> H. unfold deref in *. case_decide; [|done].
  rewrite Z2Nat.inj_add, Nat2Z.id in H by lia. apply load_Some in H as [H _].
  apply holds_app in H as [H _]. rewrite Nat2Z.id. by apply load_holds.
Qed.

(** The string at an offset of a text in memory. *)
Lemma deref_string b p n (text pre s post : bytes) :
  0 <= ptr_off p -> deref b p n = Some text -> text = pre ++ s ++ NUL :: post -> NUL ∉ s ->
  deref_cstr b (mk_ptr (ptr_gen p) (ptr_off p + Z.of_nat (length pre))) = Some s.
Proof.
  intros Hp Hd -> Hs. unfold deref, deref_cstr in *. cbn [ptr_gen ptr_off].
  case_decide; [|done]. apply load_Some in Hd as [Hd _].
  apply holds_app in Hd as [_ Hd]. unfold holds in Hd.
  replace (Z.to_nat (ptr_off p + Z.of_nat (length pre)))
    with (Z.to_nat (ptr_off p) + length pre)%nat by lia.
  rewrite <- (take_drop (length (s ++ NUL :: post)) (drop _ (m_p b))), Hd, fmap_app.
  rewrite <- app_assoc. cbn. by apply cstr_of_app.
Qed.

Lemma called_request {R} m rq w : called m rq w ->
  call_bytes (R := R) (rq_request rq) (rq_request_size rq) w = (Next (msg_request m), w).
Proof.
  intros [_ _ _ _ Hr Hs _ _ _]. unfold call_bytes, field. crun.
  by rewrite (deref_before_null _ _ _ _ Hs Hr).
Qed.
Lemma called_info {R} m rq w : called m rq w ->
  call_bytes (R := R) (rq_request_info rq) (rq_request_info_size rq) w = (Next (msg_info m), w).
Proof.
  intros [_ _ Hr Hs _ _ _ _ _]. unfold call_bytes, field. crun.
  by rewrite (deref_before_null _ _ _ _ Hs Hr).
Qed.

Section callbacks.
Context (ep : Z * Z * Z * option cells).
Context (accepts : F -> message -> Prop) (spec : F -> U -> message -> answer * U).
Context {implemented : forall f, Implements ep f (accepts f) (spec f)}.

(** What [callback] invokes, which may be nothing. *)
Lemma invoke_answers c m rq w :
  endpoint (w_inst w) = ep -> valid_message m -> accepted accepts c m -> called m rq w ->
  let '(a, u) := reply spec c (w_user w) m in
  valid_answer a -> ready (room m a) w ->
  exists o w', invoke (R := unit) run c rq w = (o, w') /\ o <> Return tt /\
    answered m a o (with_user u w) w'.
Proof.
  intros Hep Hm Hacc Hc. destruct c as [f|]; cbn [reply].
  - pose proof (implemented f m rq w Hep Hm Hacc Hc) as Hi.
    destruct (spec f (w_user w) m) as [a u]. intros Ha Hr.
    destruct (Hi Ha Hr) as (o & w' & Hrun & Hans).
    exists (match o with Next _ | Return _ => Next tt | o => o end), w'. split.
    { cbn [invoke]. unfold call. rewrite Hrun. by destruct o as [[]|[]| | | |]. }
    split; [by destruct o|].
    destruct a as [i r|n i r tm pr|]; cbn [answered] in Hans |- *.
    1, 2: destruct Hans as [(e & -> & He) Hs]; split; [by exists e|exact Hs].
    destruct Hans as [Ho ->]. split; [|done]. destruct Ho as [->|[->|[->| ->]]]; auto.
  - intros _ _. exists (Next tt), w. split; [done|]. split; [done|]. split; [by left|]. by destruct w.
Qed.

(** Then [callback] sends one message, the answer. *)
Lemma callback_serves c m rq l w :
  endpoint (w_inst w) = ep -> valid_message m -> accepted accepts c m -> called m rq w ->
  lookup_find (msg_pattern m) (p_lookup (w_inst w)) = Some (c, l) ->
  let '(a, u) := reply spec c (w_user w) m in
  valid_answer a -> ready (room m a) w ->
  exists bs w', answer_out m a = Some bs /\
    callback run (send_command (msg_async m)) rq w = (Return tt, w') /\
    sent bs (with_user u (upd_inst (set_lookup l) w)) w'.
Proof.
  intros Hep Hm Hacc Hc Hf.
  assert (called m rq (upd_inst (set_lookup l) w)) as Hc'
    by (destruct Hc as [[] ? ? ? ? ? ? ? ?]; by repeat split).
  pose proof (invoke_answers c m rq (upd_inst (set_lookup l) w) Hep Hm Hacc Hc') as Hi.
  change (w_user (upd_inst (set_lookup l) w)) with (w_user w) in Hi.
  destruct (reply spec c (w_user w) m) as [a u]. intros Ha Hr.
  destruct (Hi Ha) as (o & w2 & Hinv & Hret & Hans); [by destruct Hr|].
  destruct a as [i r|n i r tm pr|].
  1, 2: destruct Hans as [(e & -> & He) (bs & Hb & Hs)]; exists bs, w2; split; [done|];
    split; [|done];
    destruct (callback_answered run (msg_async m) rq _ _ _ _ c l w e w2
      (ca_denotes _ _ _ Hc) Hf Hinv) as [Hok _]; by apply Hok.
  destruct Hans as [Ho ->]. pose proof Hm as [_ _ Hns Hps Htm _ Ht (k & Hv & Hk)].
  destruct (return_null_sends (msg_async m) rq (msg_name m) (msg_pattern m) (msg_trans_id m)
    (msg_source m) k (with_user u (upd_inst (set_lookup l) w))) as (bs & w3 & Hb & He & Hs);
    try done.
  { destruct (ca_denotes _ _ _ Hc). by split. }
  { by rewrite (ca_timeout _ _ _ Hc). }
  { lia. }
  { by destruct Hr. }
  exists (bs ++ drop k (msg_source m)), w3. split.
  { unfold answer_out. cbn [answer_terms]. unfold return_terms.
    rewrite (ca_timeout _ _ _ Hc) in Hb. rewrite Hb. cbn. by rewrite Hv. }
  split; [|done]. erewrite callback_begins by (done || apply Hc). unfold callback_arm.
  erewrite bind_next with (s' := with_user u (upd_inst (set_lookup l) w)) (a := tt); cycle 1.
  { unfold ctry. rewrite Hinv. by destruct Ho as [->|[->|[->| ->]]]; destruct (msg_async m). }
  cbv beta. erewrite bind_return; [reflexivity|]. unfold ctry.
  erewrite bind_throw by (apply call_throw; exact He). by destruct (msg_async m).
Qed.
End callbacks.

(** ** Serving requests *)

(** The requests that are still to come, the message that ends the service
    after them, and what the instance has for them: its subscriptions in order,
    memory, and a peer that takes what is written.  [N] bounds the messages,
    [B] the buffer they are received in. *)
Record serving (N B : Z) (ms : list message) (l : list answer) (rest : bytes)
    (ps : list pl) w : Prop := {
  sv_header : p_use_header (w_inst w) <> 0;
  sv_terminate : p_terminate (w_inst w) = 0;
  sv_in : sys_in (w_sys w) =
    concat (map (frame (p_use_header (w_inst w))) (map message_out ms ++ [terminate_out])) ++ rest;
  sv_polls : sys_polls (w_sys w) = replicate (S (length ms)) pl_ready ++ ps;
  sv_reads : good_reads (foldr Nat.add 8 (map (fun m => 4 + length (message_out m)) ms))%nat
    (sys_reads (w_sys w));
  sv_writes : good_writes (Z.to_nat (foldr Z.add 0 (zip_with room ms l))) (sys_writes (w_sys w));
  sv_alloc : forall n, sys_realloc (w_sys w) n = true;
  sv_recv : wf (p_buffer_recv (w_inst w));
  sv_recv_size : m_size (p_buffer_recv (w_inst w)) <= B;
  sv_recv_max : N <= m_maxSize (p_buffer_recv (w_inst w));
  sv_call : wf (p_buffer_call (w_inst w));
  sv_call_max : B <= m_maxSize (p_buffer_call (w_inst w));
  sv_send : buffer_ok (p_buffer_send (w_inst w));
  sv_send_max : Forall2 (fun m a => room m a + 128 <= m_maxSize (p_buffer_send (w_inst w))) ms l;
  sv_lookup : lookup_wf (p_lookup (w_inst w))
}.

(** The sizes that do not change. *)
Definition sizes (N B : Z) (ms : list message) (l : list answer) : Prop :=
  4 <= N /\ 2 * N <= B < 2 ^ 63 /\ N < 2 ^ 31 /\
  Forall (fun m => Z.of_nat (length (message_out m)) <= N) ms /\
  Forall2 (fun m a => room m a + 128 <= INT_MAX) ms l.

Lemma frame_length_header uh body : uh <> 0 -> length (frame uh body) = (4 + length body)%nat.
Proof.
  intros H. unfold frame. rewrite (proj2 (Z.eqb_neq _ 0)) by done. cbn [negb].
  by rewrite length_app, length_header_bytes.
Qed.

Lemma message_out_length m : (4 < length (message_out m))%nat.
Proof. unfold message_out, send_out. rewrite !length_app, !length_u32. cbn [length i8]. lia. Qed.

Lemma serving_arrives N B m ms a l rest ps w :
  sizes N B (m :: ms) (a :: l) -> serving N B (m :: ms) (a :: l) rest ps w ->
  arriving (message_out m)
    (concat (map (frame (p_use_header (w_inst w))) (map message_out ms ++ [terminate_out])) ++ rest)
    (replicate (S (length ms)) pl_ready ++ ps) w.
Proof.
  intros (_ & _ & HN & Hlen & _) []. apply Forall_cons in Hlen as [Hlen _].
  pose proof (message_out_length m). split; try done.
  - rewrite sv_in0. cbn [map app concat]. by rewrite <- app_assoc.
  - eapply good_reads_le; [|exact sv_reads0]. cbn [map foldr]. lia.
  - lia.
  - lia.
Qed.

(** The end of the service. *)
Lemma waits_terminate fuel timeout external rest ps w :
  arriving terminate_out rest ps w -> external <> 0 ->
  exists w', waits run (S fuel) timeout external w = (Return (cloudi_success : Z), w') /\
    p_terminate (w_inst w') = 1 /\ endpoint (w_inst w') = endpoint (w_inst w) /\
    sys_in (w_sys w') = rest /\
    sys_out (w_sys w') = sys_out (w_sys w) /\ w_user w' = w_user w.
Proof.
  intros Har He. unfold terminate_out in Har. rewrite <- (app_nil_r (u32 MESSAGE_TERM)) in Har.
  destruct (waits_ok run fuel timeout external _ _ rest ps w Har) as (b & rs & _ & _ & Hw); [done|].
  set (w1 := mk_world _ _ _) in Hw. exists (upd_inst (set_terminate 1) w1).
  split; [|done]. rewrite Hw. erewrite bind_return; [reflexivity|].
  assert (handle_events external 4 MESSAGE_TERM w1 =
    (Return (false, cloudi_success : Z), upd_inst (set_terminate 1) w1)) as Hh.
  { unfold handle_events, field. crun. cbn [Z.eqb MESSAGE_TERM].
    cbn [handle_events_loop]. cbn [Z.eqb MESSAGE_TERM Pos.eqb]. unfold assign.
    erewrite bind_return; [reflexivity|]. crun. by rewrite (proj2 (Z.eqb_neq _ 0)). }
  unfold dispatch. cbn [Z.eqb Pos.eqb orb MESSAGE_INIT MESSAGE_SEND_ASYNC MESSAGE_SEND_SYNC
    MESSAGE_RECV_ASYNC MESSAGE_RETURN_ASYNC MESSAGE_RETURN_SYNC MESSAGE_RETURNS_ASYNC
    MESSAGE_KEEPALIVE MESSAGE_REINIT MESSAGE_SUBSCRIBE_COUNT MESSAGE_TERM].
  by erewrite bind_next by (apply call_return; exact Hh).
Qed.

(** A message of the VM is called with as it was sent. *)
Lemma send_request_called m bc w :
  valid_message m -> field_at bc 0 (message_out m) -> p_buffer_call (w_inst w) = bc ->
  called m (send_request (type_of (msg_async m)) (msg_name m) (msg_pattern m) (msg_info m)
    (msg_request m) (msg_timeout m) (msg_priority m) (msg_source m) bc) w.
Proof.
  intros [] Hf Hb.
  destruct (send_request_denotes (type_of (msg_async m)) (send_command (msg_async m))
    (msg_name m) (msg_pattern m) (msg_info m) (msg_request m) (msg_timeout m) (msg_priority m)
    (msg_trans_id m) (msg_source m) bc) as (H1 & H2 & H3 & H4 & H5 & H6); try done.
  split; rewrite ?Hb; try done; [split; by rewrite Hb|].
  unfold send_request. cbn [rq_request ptr_to ptr_off]. lia.
Qed.

(** A message with the instance ready for it: received, and given to
    [callback]. *)
Lemma request_dispatched N B m ms a l rest ps fuel timeout w :
  sizes N B (m :: ms) (a :: l) -> serving N B (m :: ms) (a :: l) rest ps w ->
  valid_message m ->
  exists br bc rs rq,
    let w1 := mk_world (set_buffer_recv_index 0 (set_buffer_call bc
                (set_buffer_recv br (w_inst w))))
                (set_polls (replicate (S (length ms)) pl_ready ++ ps) (set_read
                  (concat (map (frame (p_use_header (w_inst w)))
                     (map message_out ms ++ [terminate_out])) ++ rest) rs (w_sys w)))
                (w_user w) in
    waits run (S fuel) timeout 1 w =
      (call (callback run (send_command (msg_async m)) rq);;; next_message run fuel timeout 1) w1 /\
    called m rq w1 /\ wf br /\ m_size br <= B /\
    m_maxSize br = m_maxSize (p_buffer_recv (w_inst w)) /\
    wf bc /\ m_maxSize bc = m_maxSize (p_buffer_call (w_inst w)) /\
    good_reads (foldr Nat.add 8 (map (fun m => 4 + length (message_out m)) ms))%nat rs.
Proof.
  intros Hsz Hsv Hm. pose proof (serving_arrives _ _ _ _ _ _ _ _ _ Hsz Hsv) as Har.
  destruct Hsz as (_ & HB & HN & Hlen & _). apply Forall_cons in Hlen as [Hlen _].
  pose proof Hm as [_ _ _ _ Htm Hpr Ht _].
  assert (send_command (msg_async m) = MESSAGE_SEND_ASYNC \/
    send_command (msg_async m) = MESSAGE_SEND_SYNC) as Hc by (destruct (msg_async m); auto).
  assert (0 <= send_command (msg_async m) < 2 ^ 32) as Hc32 by (by destruct Hc as [-> | ->]).
  unfold message_out in Har. unfold send_out in Har.
  edestruct (waits_ok run fuel timeout 1 _ _ _ _ w Har Hc32) as (br & rs & [Hf Hbs Hbm Hg] & Hu & Hw).
  specialize (Hg _ (sv_reads _ _ _ _ _ _ _ Hsv)).
  fold (send_out (send_command (msg_async m)) (msg_name m) (msg_pattern m) (msg_info m)
    (msg_request m) (msg_timeout m) (msg_priority m) (msg_trans_id m) (msg_source m))
    (message_out m) in Hf, Hw, Hbs.
  destruct Hsv. set (w0 := mk_world (arrival (message_out m) br w) _ _) in Hw.
  destruct (send_dispatched run (send_command (msg_async m)) (msg_name m) (msg_pattern m)
    (msg_info m) (msg_request m) (msg_timeout m) (msg_priority m) (msg_trans_id m)
    (msg_source m) 1 w0) as (bc & Hfc & Hbcm & Hd); try done; try (cbn; lia).
  { cbn. fold (message_out m). lia. }
  assert ((if send_command (msg_async m) =? MESSAGE_SEND_ASYNC then CLOUDI_ASYNC
    else CLOUDI_SYNC) = type_of (msg_async m)) as Hty by (by destruct (msg_async m)).
  rewrite Hty in Hd.
  exists br, bc, rs. eexists. cbv zeta. split; [rewrite Hw; apply Hd|].
  split; [by apply send_request_called|]. split; [apply Hf|]. split; [lia|]. split; [done|].
  split; [apply Hfc|]. done.
Qed.

Section requests.
Context (ep : Z * Z * Z * option cells).
Context (accepts : F -> message -> Prop) (spec : F -> U -> message -> answer * U).
Context {implemented : forall f, Implements ep f (accepts f) (spec f)}.

(** The subscriptions of an instance, in turn. *)
Definition subscriptions w : bytes -> list (callback_function F) := abs (p_lookup (w_inst w)).

(** What a program whose functions implement [spec] has to do: to give the
    answers [l] to the requests [ms], with which its state becomes [u]. *)
Record pending (N B : Z) (ms : list message) (l : list answer) (u : U) (rest : bytes)
    (ps : list pl) w : Prop := {
  pd_endpoint : endpoint (w_inst w) = ep;
  pd_sizes : sizes N B ms l;
  pd_serving : serving N B ms l rest ps w;
  pd_messages : Forall valid_message ms;
  pd_answers : Forall valid_answer l;
  pd_turns : turns spec (subscriptions w) (w_user w) ms = (l, u);
  pd_accepted : all_accepted accepts (subscriptions w) ms
}.

(** Messages were written, and the rest of the instance kept. *)
Definition wrote (outs : list bytes) w w' : Prop :=
  endpoint (w_inst w') = endpoint (w_inst w) /\
  sys_out (w_sys w') =
    sys_out (w_sys w) ++ concat (map (frame (p_use_header (w_inst w))) outs).

Lemma wrote_app outs outs' w w1 w' :
  wrote outs w w1 -> wrote outs' w1 w' -> wrote (outs ++ outs') w w'.
Proof.
  intros [He Ho] [He' Ho']. split; [by rewrite He'|].
  assert (p_use_header (w_inst w1) = p_use_header (w_inst w)) as Hh by (by injection He).
  by rewrite Ho', Ho, Hh, map_app, concat_app, app_assoc.
Qed.

Lemma wrote_nil w w' :
  endpoint (w_inst w') = endpoint (w_inst w) -> sys_out (w_sys w') = sys_out (w_sys w) ->
  wrote [] w w'.
Proof. intros He Ho. split; [done|]. cbn. by rewrite app_nil_r. Qed.

(** One request is answered. *)
Lemma request_served N B m ms l u rest ps fuel timeout w :
  pending N B (m :: ms) l u rest ps w ->
  exists a l' bs w', l = a :: l' /\ answer_out m a = Some bs /\
    waits run (S fuel) timeout 1 w = next_message run fuel timeout 1 w' /\
    pending N B ms l' u rest ps w' /\ wrote [bs] w w' /\
    p_initialization_complete (w_inst w') = p_initialization_complete (w_inst w) /\
    sys_elapsed (w_sys w') = sys_elapsed (w_sys w).
Proof using implemented laws.
  intros [Hep Hsz Hsv Hms Hl Hspec [Hacc Haccs]]. cbn [turns] in Hspec.
  destruct (reply _ _ _ _) as [a u1] eqn:Hreply.
  destruct (turns _ _ u1 ms) as [l1 u2] eqn:Hturns. injection Hspec as <- <-.
  apply Forall_cons in Hms as [Hm Hms]. apply Forall_cons in Hl as [Ha Hl].
  destruct (request_dispatched N B m ms a l1 rest ps fuel timeout w Hsz Hsv Hm)
    as (br & bc & rs & rq & Hw & Hcd & Hwr & Hbr & Hrm & Hwc & Hcm & Hg).
  set (w1 := mk_world _ _ _) in *.
  assert (sizes N B ms l1) as Hsz1.
  { destruct Hsz as (? & ? & ? & ? & ?). do 3 (split; [done|]).
    split; [by eapply Forall_inv_tail|by eapply Forall2_cons_1]. }
  destruct Hsz as (_ & _ & _ & _ & Hint). apply Forall2_cons in Hint as [Hint _].
  destruct Hsv. apply Forall2_cons in sv_send_max0 as [Hmax Hmaxs].
  destruct (lookup_find_refines (msg_pattern m) (p_lookup (w_inst w)) sv_lookup0)
    as (l' & Hfind & Hl' & Hnext).
  destruct (answer_out_ok m a Hm Ha Hint) as (bs & Hbs & Hlen).
  pose proof (room_positive m a) as Hroom.
  assert (0 <= foldr Z.add 0 (zip_with room ms l1)) as Hrest.
  { clear. revert l1. induction ms as [|m ms IH]; intros [|a l]; cbn; try lia.
    pose proof (room_positive m a). specialize (IH l). lia. }
  cbn [zip_with foldr] in sv_writes0. rewrite Z2Nat.inj_add in sv_writes0 by lia.
  pose proof (callback_serves ep accepts spec (turn (subscriptions w) m) m rq l' w1 Hep Hm Hacc
    Hcd Hfind) as Hserve.
  change (w_user w1) with (w_user w) in Hserve. rewrite Hreply in Hserve.
  destruct (Hserve Ha) as (bs' & w2 & Hbs' & He & b & j & Hb & Hbm & Hbsz & Hj & ->).
  { split; try done. eapply good_writes_le; [|exact sv_writes0]. lia. }
  rewrite Hbs in Hbs'. injection Hbs' as <-.
  exists a, l1, bs. eexists. split; [done|]. split; [done|]. split.
  { rewrite Hw. erewrite bind_next by (apply call_return; exact He). reflexivity. }
  cbn in Hj. rewrite frame_length_header in Hj by done.
  split; [|split; [split; [done|]; cbn [map concat]; by rewrite app_nil_r|done]].
  split; try done; cbn.
  - split; try done; cbn; try lia.
    + eapply good_writes_drop; [|exact sv_writes0]. lia.
    + by rewrite Hbm.
  - by rewrite (turns_ext _ _ _ _ _ Hnext).
  - eapply all_accepted_ext; [|exact Haccs]. intros k. unfold subscriptions. cbn.
    by rewrite Hnext.
Qed.

(** The service has ended. *)
Definition finished (u : U) (rest : bytes) w : Prop :=
  p_terminate (w_inst w) = 1 /\ w_user w = u /\ sys_in (w_sys w) = rest.

(** The time of a [cloudi_poll] is over after [k] messages: it counts what the
    timer, which starts again with every wait, says after each of them; without
    any time at all it is over after the first. *)
Definition time_over (timeout : Z) (clock : list Z) (k : nat) : Prop :=
  (0 < k)%nat /\ (timeout = 0 \/ 0 < timeout <= foldr Z.add 0 (take k clock)).

Lemma time_over_0 timeout clock : ~ time_over timeout clock 0.
Proof. intros [? _]. lia. Qed.

Lemma time_over_forever timeout clock k : timeout < 0 -> ~ time_over timeout clock k.
Proof. intros ? [_ ?]. lia. Qed.

(** After a message that took [e] of it. *)
Lemma time_over_next timeout e es j :
  0 < timeout - Z.min e timeout -> 0 < timeout ->
  time_over timeout (e :: es) (S j) <-> time_over (timeout - Z.min e timeout) es j.
Proof.
  intros Hl Ht. unfold time_over. rewrite firstn_cons. cbn [foldr].
  destruct j as [|j]; [change (foldr Z.add 0 (take 0 es)) with 0; lia|]. generalize (foldr Z.add 0 (take (S j) es)). lia.
Qed.

(** All of them are answered by [c], and the service ends; or the time is over
    after some. *)
Definition progress (N B : Z) (ms : list message) (l : list answer) (u : U) (rest : bytes)
    (ps : list pl) (timeout : Z) (c : C (world F U) Z Z) w : Prop :=
  exists ms1 ms2 l1 l2 outs status w', ms = ms1 ++ ms2 /\ l = l1 ++ l2 /\
    replies_out ms1 l1 = Some outs /\ c w = (Return status, w') /\ wrote outs w w' /\
    length ms1 = length l1 /\
    (forall j, (j < length ms1)%nat -> ~ time_over timeout (sys_elapsed (w_sys w)) j) /\
    ((status = cloudi_success /\ ms2 = [] /\ l2 = [] /\
      ~ time_over timeout (sys_elapsed (w_sys w)) (length ms1) /\ finished u rest w') \/
     (status = cloudi_timeout /\ time_over timeout (sys_elapsed (w_sys w)) (length ms1) /\
      pending N B ms2 l2 u rest ps w' /\
      p_initialization_complete (w_inst w') = p_initialization_complete (w_inst w) /\
      (0 < timeout -> (length ms2 <= length (sys_elapsed (w_sys w')))%nat))).

Lemma progress_cons N B m ms a l u rest ps timeout timeout' bs c c' w w1 :
  answer_out m a = Some bs -> wrote [bs] w w1 -> c w = c' w1 ->
  p_initialization_complete (w_inst w1) = p_initialization_complete (w_inst w) ->
  (forall j, time_over timeout (sys_elapsed (w_sys w)) (S j) <->
             time_over timeout' (sys_elapsed (w_sys w1)) j) ->
  (0 < timeout -> 0 < timeout') -> progress N B ms l u rest ps timeout' c' w1 ->
  progress N B (m :: ms) (a :: l) u rest ps timeout c w.
Proof.
  intros Hbs Hwr Hc Hic Hto Ht (ms1 & ms2 & l1 & l2 & outs & status & w' & -> & -> & Ho & He &
    Hwr' & Hlen & Hearly & Hend).
  exists (m :: ms1), ms2, (a :: l1), l2, (bs :: outs), status, w'.
  split; [done|]. split; [done|]. split.
  { unfold replies_out in *. cbn [zip_with]. by apply mapM_cons_Some. }
  split; [by rewrite Hc|]. split; [exact (wrote_app [bs] outs w w1 w' Hwr Hwr')|].
  split; [cbn; lia|]. split.
  { intros [|j] Hj; [apply time_over_0|]. rewrite Hto. apply Hearly. cbn in Hj. lia. }
  cbn [length]. rewrite Hto.
  destruct Hend as [Hend|(? & ? & ? & Hi & Hcl)]; [by left|right].
  split_and!; try done; [by rewrite Hi, Hic|]. intros ?. by apply Hcl, Ht.
Qed.

Lemma replies_out_app ms1 ms2 l1 l2 outs1 outs2 :
  length ms1 = length l1 -> replies_out ms1 l1 = Some outs1 -> replies_out ms2 l2 = Some outs2 ->
  replies_out (ms1 ++ ms2) (l1 ++ l2) = Some (outs1 ++ outs2).
Proof.
  unfold replies_out. intros Hl H1 H2. rewrite zip_with_app by done.
  clear Hl. revert outs1 H1. generalize (zip_with answer_out ms1 l1).
  intros os. induction os as [|o os IH]; intros outs1 H1; [by injection H1 as <-|].
  cbn in H1 |- *. destruct o as [o|]; [|done]. cbn in H1 |- *.
  destruct (mapM id os) as [outs|]; [|done]. injection H1 as <-. by rewrite (IH outs).
Qed.

(** After a message the time that is left is what counts. *)
Lemma next_message_forever fuel timeout external w :
  timeout < 0 -> next_message run fuel timeout external w = waits run fuel timeout external w.
Proof.
  intros Ht. unfold next_message, remaining_timeout. rewrite (proj2 (Z.ltb_ge 0 timeout)) by lia.
  erewrite bind_next by reflexivity. cbv beta. rewrite (proj2 (Z.eqb_neq timeout 0)) by lia.
  by erewrite bind_next by reflexivity.
Qed.

Lemma next_message_limit fuel timeout external e es w :
  0 < timeout -> sys_elapsed (w_sys w) = e :: es ->
  let left := timeout - Z.min e timeout in
  next_message run fuel timeout external w =
    (if left =? 0 then creturn (cloudi_timeout : Z) else waits run fuel left external)
      (mk_world (w_inst w) (set_elapsed es (w_sys w)) (w_user w)).
Proof.
  intros Ht He left. unfold next_message, remaining_timeout.
  rewrite (proj2 (Z.ltb_lt 0 timeout)) by done. rewrite bind_assoc. erewrite bind_next; cycle 1.
  { unfold on_sys, sys_elapsed_ms. by rewrite He. }
  cbv beta. erewrite bind_next by reflexivity. cbv beta. fold left.
  destruct (left =? 0); [by erewrite bind_return by reflexivity|by erewrite bind_next by reflexivity].
Qed.

(** Without time [poll_request] returns after the message. *)
Lemma next_message_none fuel external w :
  next_message run fuel 0 external w = (Return (cloudi_timeout : Z), w).
Proof. reflexivity. Qed.

(** A message after which the time is over. *)
Lemma progress_over N B m ms a l u rest ps timeout bs c w w1 :
  answer_out m a = Some bs -> wrote [bs] w w1 -> c w = (Return (cloudi_timeout : Z), w1) ->
  p_initialization_complete (w_inst w1) = p_initialization_complete (w_inst w) ->
  time_over timeout (sys_elapsed (w_sys w)) 1 -> pending N B ms l u rest ps w1 ->
  (0 < timeout -> (length ms <= length (sys_elapsed (w_sys w1)))%nat) ->
  progress N B (m :: ms) (a :: l) u rest ps timeout c w.
Proof.
  intros Hbs Hwr Hc Hic Hto Hpd Hcl.
  exists [m], ms, [a], l, [bs], (cloudi_timeout : Z), w1. split_and!; try done.
  - unfold replies_out. cbn. by rewrite Hbs.
  - intros j Hj. cbn in Hj. replace j with 0%nat by lia. apply time_over_0.
  - right. by split_and!.
Qed.

Lemma requests_served N B ms l u rest ps fuel timeout w :
  pending N B ms l u rest ps w -> (length ms < fuel)%nat ->
  (0 < timeout -> (length ms <= length (sys_elapsed (w_sys w)))%nat) ->
  progress N B ms l u rest ps timeout (waits run fuel timeout 1) w.
Proof using implemented laws.
  revert fuel timeout w l. induction ms as [|m ms IH]; intros fuel timeout w l Hpd Hfuel Hclock;
    (destruct fuel as [|fuel]; [lia|]).
  - destruct Hpd as [_ [HN _] Hsv _ _ Hspec _]. injection Hspec as <- <-.
    destruct (waits_terminate fuel timeout 1 rest ps w) as (w' & He & Hte & Hend & Hin & Hout & Hu);
      [|done|].
    { destruct Hsv. split; try done.
      - by rewrite sv_in0; cbn [map app concat]; rewrite app_nil_r.
      - change (Z.of_nat (length terminate_out)) with 4. lia. }
    exists [], [], [], [], [], (cloudi_success : Z), w'. split_and!; try done.
    + by apply wrote_nil.
    + intros j Hj. cbn in Hj. lia.
    + left. split_and!; try done. apply time_over_0.
  - destruct (request_served N B m ms l u rest ps fuel timeout w Hpd)
      as (a & l' & bs & w1 & -> & Hbs & Hw & Hpd1 & Hwr & Hic & Hel).
    cbn [length] in Hfuel, Hclock. rewrite <- Hel in Hclock.
    destruct (Z.lt_trichotomy timeout 0) as [Hneg|[->|Hpos]].
    { assert (waits run (S fuel) timeout 1 w = waits run fuel timeout 1 w1) as Hw'
        by (rewrite Hw; by apply next_message_forever).
      apply (progress_cons N B m ms a l' u rest ps timeout timeout bs _ _ w w1 Hbs Hwr Hw' Hic);
        [|done|].
      - intros j. by split; intros Ho%time_over_forever.
      - apply IH; [done|lia|lia]. }
    { rewrite next_message_none in Hw.
      apply (progress_over N B m ms a l' u rest ps 0 bs _ w w1 Hbs Hwr Hw Hic); [|done|lia].
      split; [lia|by left]. }
    specialize (Hclock Hpos). destruct (sys_elapsed (w_sys w1)) as [|e es] eqn:Hes; [cbn in Hclock; lia|].
    cbn [length] in Hclock. pose proof (next_message_limit fuel timeout 1 e es w1 Hpos Hes) as Hnm.
    set (w2 := mk_world _ _ _) in Hnm. rewrite Hnm in Hw. cbv zeta in Hw.
    assert (pending N B ms l' u rest ps w2) as Hpd2 by (by destruct Hpd1 as [? ? [] ? ? ? ?]).
    set (left := timeout - Z.min e timeout) in Hw.
    destruct (Z.eqb_spec left 0) as [H0|Hne].
    + apply (progress_over N B m ms a l' u rest ps timeout bs _ w w2 Hbs Hwr Hw Hic); [|done|].
      * rewrite <- Hel. split; [lia|]. right. rewrite firstn_cons, firstn_O. cbn [foldr]. lia.
      * intros _. cbn. lia.
    + apply (progress_cons N B m ms a l' u rest ps timeout left bs _ _ w w2 Hbs Hwr Hw Hic).
      * intros j. rewrite <- Hel. apply time_over_next; lia.
      * lia.
      * apply IH; [done|lia|]. intros _. cbn. lia.
Qed.
End requests.

(** The message that says the instance polls for the first time. *)
Definition polling_terms : list (option bytes) :=
  [ ei_encode_version; ei_encode_atom (chars "polling") ].

(** A message of a few terms, which needs no room to be made, and [n] more good
    writes left for what follows. *)
Lemma small_terms ns terms n w :
  Forall2 within ns terms -> foldr Z.add 0 ns <= 100 -> buffer_ok (p_buffer_send (w_inst w)) ->
  (forall k, sys_realloc (w_sys w) k = true) ->
  good_writes (4 + Z.to_nat (foldr Z.add 0 ns) + n) (sys_writes (w_sys w)) ->
  exists bss, mapM id terms = Some bss /\ can_send (concat bss) w /\
    start w + Z.of_nat (length (concat bss)) <= m_size (p_buffer_send (w_inst w)) /\
    start w + Z.of_nat (length (concat bss)) <= INT_MAX /\
    forall w', sent (concat bss) w w' -> good_writes n (sys_writes (w_sys w')).
Proof.
  intros Ht Hsum Hb Ha Hw. destruct (within_all ns terms Ht) as (bss & Hm & Hl).
  pose proof (start_range w).
  pose proof (length_frame (p_use_header (w_inst w)) (concat bss)) as Hf.
  unfold start in *. exists bss. split; [done|].
  split; [split; try done; eapply good_writes_le; [|exact Hw]; lia|].
  destruct Hb as [_ ?]. split; [lia|]. split; [unfold INT_MAX; lia|].
  intros w' (b & j & _ & _ & _ & Hj & ->). cbn.
  eapply good_writes_drop; [|exact Hw]. lia.
Qed.

Lemma polling_sends n w :
  p_initialization_complete (w_inst w) = 0 -> buffer_ok (p_buffer_send (w_inst w)) ->
  (forall k, sys_realloc (w_sys w) k = true) -> good_writes (15 + n) (sys_writes (w_sys w)) ->
  exists pb w', term_bytes polling_terms = Some pb /\
    polling w = (Return (cloudi_success : Z), w') /\ sent pb w w' /\
    good_writes n (sys_writes (w_sys w')).
Proof.
  intros Hi Hb Ha Hw.
  destruct (small_terms [1; 10] polling_terms n w) as (bss & Hm & Hc & Hl & Hint & Hn); try done.
  { repeat constructor; [apply version_within|]. by apply (atom_within (chars "polling")). }
  destruct (direct_sends polling_terms bss w Hm Hc Hl Hint) as (w' & He & Hs).
  exists (concat bss), w'. split; [by apply term_bytes_Some|]. split; [|split; [done|by apply Hn]].
  unfold polling, field. erewrite bind_next by reflexivity. cbv beta. rewrite Hi.
  cbn [Z.eqb cassert]. erewrite bind_next by reflexivity. cbv beta. exact He.
Qed.

(** An instance before its first [cloudi_poll], with the requests of a run and
    the answers to them. *)
Record starting (N B : Z) (ms : list message) (l : list answer) (rest : bytes)
    (ps : list pl) w : Prop := {
  st_sizes : sizes N B ms l;
  st_serving : serving N B ms l rest ps w;
  st_messages : Forall valid_message ms;
  st_answers : Forall valid_answer l;
  st_first : p_initialization_complete (w_inst w) = 0;
  st_writes : good_writes (15 + Z.to_nat (foldr Z.add 0 (zip_with room ms l)))
    (sys_writes (w_sys w))
}.

(** What a run leaves: the requests taken, the message of the first poll and
    the answers written, the instance told to end, the user's state [u]. *)
Definition served (ms : list message) (l : list answer) (u : U) (rest : bytes) w w' : Prop :=
  p_terminate (w_inst w') = 1 /\ endpoint (w_inst w') = endpoint (w_inst w) /\
  w_user w' = u /\ sys_in (w_sys w') = rest /\
  exists pb outs, term_bytes polling_terms = Some pb /\ replies_out ms l = Some outs /\
    sys_out (w_sys w') =
      sys_out (w_sys w) ++ concat (map (frame (p_use_header (w_inst w))) (pb :: outs)).

(** The first [cloudi_poll] says so to the VM. *)
Lemma poll_begins accepts spec timeout N B ms l u rest ps w :
  turns spec (subscriptions w) (w_user w) ms = (l, u) -> starting N B ms l rest ps w ->
  all_accepted accepts (subscriptions w) ms ->
  exists pb w1, term_bytes polling_terms = Some pb /\
    poll_request run timeout 1 w = waits run (poll_fuel w1) timeout 1 w1 /\
    pending (endpoint (w_inst w)) accepts spec N B ms l u rest ps w1 /\ wrote [pb] w w1 /\
    p_initialization_complete (w_inst w1) = 1 /\ sys_elapsed (w_sys w1) = sys_elapsed (w_sys w).
Proof.
  intros Hspec [Hsz Hsv Hms Hl Hi Hw] Hacs.
  destruct (polling_sends _ w Hi (sv_send _ _ _ _ _ _ _ Hsv) (sv_alloc _ _ _ _ _ _ _ Hsv) Hw)
    as (pb & w1 & Hpb & Hp & Hsent & Hw1).
  pose proof (sent_out _ _ _ Hsent) as Hout1.
  set (w2 := upd_inst (set_initialization_complete 1) w1).
  exists pb, w2. split; [done|]. split.
  { unfold poll_request, field. erewrite bind_next by reflexivity. cbv beta. cbn [id].
    rewrite (sv_terminate _ _ _ _ _ _ _ Hsv), Hi. cbn [Z.eqb negb andb cwhen].
    rewrite bind_assoc. erewrite bind_next by (apply call_return; exact Hp). cbv beta.
    cbn [Z.eqb negb creturn_if status_value]. rewrite bind_assoc.
    erewrite bind_next by reflexivity. cbv beta. unfold assign.
    erewrite bind_next by reflexivity. cbv beta. fold w2.
    erewrite bind_next by reflexivity. reflexivity. }
  assert (endpoint (w_inst w2) = endpoint (w_inst w) /\ w_user w2 = w_user w /\
    subscriptions w2 = subscriptions w /\ sys_elapsed (w_sys w2) = sys_elapsed (w_sys w))
    as (Hh & Hu & Hsub & Hel) by (by destruct Hsent as (b & j & _ & _ & _ & _ & ->)).
  split; [|split; [split; [done|]; cbn [map concat]; by rewrite app_nil_r|done]].
  split; try done; [|by rewrite Hsub, Hu|by rewrite Hsub].
  destruct Hsent as (b & j & Hb & Hbm & _ & _ & ->). destruct Hsv.
  split; try done. eapply Forall2_impl; [exact sv_send_max0|]. intros m a Hma. unfold w2. cbn.
  by rewrite Hbm.
Qed.

(** What a run leaves that the time ended after [k] requests: the answers to
    these, and an instance ready to go on with the others. *)
Definition interrupted accepts spec (N B : Z) (ms : list message) (l : list answer) (u : U)
    (rest : bytes) (ps : list pl) (k : nat) w w' : Prop :=
  pending (endpoint (w_inst w)) accepts spec N B (drop k ms) (drop k l) u rest ps w' /\
  p_initialization_complete (w_inst w') = 1 /\
  exists pb outs, term_bytes polling_terms = Some pb /\
    replies_out (take k ms) (take k l) = Some outs /\
    sys_out (w_sys w') =
      sys_out (w_sys w) ++ concat (map (frame (p_use_header (w_inst w))) (pb :: outs)).

Lemma polls_progress accepts spec timeout N B ms l u rest ps w
    `{!forall f, Implements (endpoint (w_inst w)) f (accepts f) (spec f)} :
  turns spec (subscriptions w) (w_user w) ms = (l, u) -> starting N B ms l rest ps w ->
  all_accepted accepts (subscriptions w) ms ->
  (0 < timeout -> (length ms <= length (sys_elapsed (w_sys w)))%nat) ->
  exists k w', (k <= length ms)%nat /\
    (forall j, (j < k)%nat -> ~ time_over timeout (sys_elapsed (w_sys w)) j) /\
    ((~ time_over timeout (sys_elapsed (w_sys w)) k /\ k = length ms /\
      cloudi_poll run timeout w = (Return (cloudi_success : Z), w') /\ served ms l u rest w w') \/
     (time_over timeout (sys_elapsed (w_sys w)) k /\
      cloudi_poll run timeout w = (Return (cloudi_timeout : Z), w') /\
      interrupted accepts spec N B ms l u rest ps k w w')).
Proof.
  intros Hspec Hst Hacs Hclock.
  destruct (poll_begins accepts spec timeout N B ms l u rest ps w Hspec Hst Hacs)
    as (pb & w1 & Hpb & Hp & Hpd & Hwr & Hi1 & Hel).
  rewrite <- Hel in Hclock.
  destruct (requests_served (endpoint (w_inst w)) accepts spec N B ms l u rest ps (poll_fuel w1)
    timeout w1 Hpd) as (ms1 & ms2 & l1 & l2 & outs & status & w' & -> & -> & Ho & He & Hwr' &
      Hlen & Hearly & Hend); [|done|].
  { unfold poll_fuel. rewrite (sv_polls _ _ _ _ _ _ _ (pd_serving _ _ _ _ _ _ _ _ _ _ _ Hpd)),
      length_app, length_replicate. lia. }
  rewrite Hel in Hearly, Hend.
  destruct (wrote_app [pb] outs w w1 w' Hwr Hwr') as [Hep Hout].
  assert (cloudi_poll run timeout w = (Return status, w')) as Hpoll.
  { unfold cloudi_poll. erewrite bind_next; [reflexivity|]. apply call_return. by rewrite Hp. }
  exists (length ms1), w'. split; [rewrite length_app; lia|]. split; [done|].
  destruct Hend as [(-> & -> & -> & Hn & Ht & Hu & Hin)|(-> & Hto & Hpd' & Hi' & _)].
  - left. rewrite !app_nil_r in *. unfold served. split_and!; try done. by exists pb, outs.
  - right. split; [done|]. split; [done|]. unfold interrupted.
    rewrite drop_app_length, take_app_length, Hlen, drop_app_length, take_app_length.
    split; [done|]. split; [by rewrite Hi'|by exists pb, outs].
Qed.

(** Without a limit. *)
Lemma polls_served accepts spec N B ms l u rest ps w
    `{!forall f, Implements (endpoint (w_inst w)) f (accepts f) (spec f)} :
  turns spec (subscriptions w) (w_user w) ms = (l, u) -> starting N B ms l rest ps w ->
  all_accepted accepts (subscriptions w) ms ->
  exists w', cloudi_poll run (-1) w = (Return (cloudi_success : Z), w') /\
    served ms l u rest w w'.
Proof.
  intros Hspec Hst Hacs.
  destruct (polls_progress accepts spec (-1) N B ms l u rest ps w Hspec Hst Hacs ltac:(lia))
    as (k & w' & _ & _ & [(_ & _ & Hp)|[Ho _]]); [by exists w'|].
  destruct (time_over_forever (-1) _ _ ltac:(lia) Ho).
Qed.

(** ** Properties *)

(** C1. A service.  When its callback functions implement their
    specifications, then [cloudi_poll], with any timeout, of an instance that is
    ready for the requests of a run tells the VM that it polls, takes the
    requests from the stream, and writes the answer that is specified for the
    callback function whose turn it is, in the state the requests before it led
    to (a null response where there is none), one message for each request and
    in their order.  Where the time is not over after any of them (it never is
    with a negative timeout) it answers all, and the message that ends the
    service ends [cloudi_poll] with success, and the program's state is the last
    of the specification's.  Otherwise [cloudi_poll] returns the timeout after
    the first request, number [k], after which the time is over, with [k]
    answers written, and the instance is ready to go on with the others. *)
Theorem service_refines accepts spec timeout N B ms l u rest ps w
    `{!forall f, Implements (endpoint (w_inst w)) f (accepts f) (spec f)}
    (Hspec : turns spec (subscriptions w) (w_user w) ms = (l, u))
    (Hst : starting N B ms l rest ps w)
    (Hacc : all_accepted accepts (subscriptions w) ms)
    (Hclock : 0 < timeout -> (length ms <= length (sys_elapsed (w_sys w)))%nat) :
  exists k w', (k <= length ms)%nat /\
    (forall j, (j < k)%nat -> ~ time_over timeout (sys_elapsed (w_sys w)) j) /\
    ((~ time_over timeout (sys_elapsed (w_sys w)) k /\ k = length ms /\
      cloudi_poll run timeout w = (Return (cloudi_success : Z), w') /\ served ms l u rest w w') \/
     (time_over timeout (sys_elapsed (w_sys w)) k /\
      cloudi_poll run timeout w = (Return (cloudi_timeout : Z), w') /\
      interrupted accepts spec N B ms l u rest ps k w w')).
Proof. by apply polls_progress. Qed.
End service.
