(* ===== verification/Exchange.v ===== *)
(** * What a client is answered  (cloudi.cpp)

    The operations that wait for an answer are a conversation: each writes one
    request, and takes one message from the stream, which it leaves in the
    instance.  A program that makes such operations is specified by its
    requests and the answers to them ([says]). *)

From S2P Require Import Prelude CMonad Status Sys ReallocPtr Framing Lookup Ei Instance Requests Poll Calls Messages Serve.

(** ** Requests and answers *)

Inductive kind : Type := Async | Sync | Multicast.

Inductive ask : Type :=
| Send (k : kind) (name request_info request : bytes) (timeout priority : Z)
| Recv (timeout : Z) (trans_id : bytes) (consume : bool)
| Count (pattern : bytes).

Definition send_name (k : kind) : bytes :=
  match k with
  | Async => chars "send_async" | Sync => chars "send_sync" | Multicast => chars "mcast_async"
  end.

Section terms.
Context {E : Ei}.

Definition ask_terms (a : ask) : list (option bytes) :=
  match a with
  | Send k name request_info request timeout priority =>
      [ ei_encode_version; ei_encode_tuple_header 6; ei_encode_atom (send_name k);
        ei_encode_string name; ei_encode_binary request_info; ei_encode_binary request;
        ei_encode_ulong timeout; ei_encode_long priority ]
  | Recv timeout trans_id consume =>
      [ ei_encode_version; ei_encode_tuple_header 4; ei_encode_atom (chars "recv_async");
        ei_encode_ulong timeout; ei_encode_binary trans_id;
        ei_encode_atom (if consume then chars "true" else chars "false") ]
  | Count pattern =>
      [ ei_encode_version; ei_encode_tuple_header 2; ei_encode_atom (chars "subscribe_count");
        ei_encode_string pattern ]
  end.
Definition ask_out (a : ask) : option bytes := term_bytes (ask_terms a).
End terms.

(** Room for the frame of a request. *)
Definition ask_room (a : ask) : Z :=
  match a with
  | Send _ name request_info request _ _ =>
      strlen name + Z.of_nat (length request_info) + Z.of_nat (length request) + 180
  | Recv _ _ _ => 180
  | Count pattern => strlen pattern + 180
  end.

Definition valid_ask (a : ask) : Prop :=
  match a with
  | Send _ name _ _ timeout priority =>
      strlen name <= 65535 /\ 0 <= timeout < 2 ^ 32 /\ - 128 <= priority < 128
  | Recv timeout trans_id _ => 0 <= timeout < 2 ^ 32 /\ length trans_id = 16%nat
  | Count pattern => strlen pattern <= 65535
  end.

(** The answers of the VM: to the three ways of sending, to [recv_async], and
    to [subscribe_count]. *)
Inductive reply : Type :=
| Sent (trans_id : bytes)
| Returned (response_info response trans_id : bytes)
| Sents (trans_ids : list bytes)
| Received (response_info response trans_id : bytes)
| Subscribers (count : Z).

Definition reply_out (r : reply) : bytes :=
  match r with
  | Sent trans_id => return_async_out trans_id
  | Returned response_info response trans_id =>
      response_out MESSAGE_RETURN_SYNC response_info response trans_id
  | Sents trans_ids => returns_async_out trans_ids
  | Received response_info response trans_id =>
      response_out MESSAGE_RECV_ASYNC response_info response trans_id
  | Subscribers count => subscribe_count_out count
  end.

Definition valid_reply (r : reply) : Prop :=
  match r with
  | Sent trans_id | Returned _ _ trans_id | Received _ _ trans_id => length trans_id = 16%nat
  | Sents trans_ids => Forall (fun t => length t = 16%nat) trans_ids
  | Subscribers count => 0 <= count < 2 ^ 32
  end.

Lemma reply_out_length r : (0 < length (reply_out r))%nat.
Proof.
  destruct r; cbn [reply_out]; unfold return_async_out, response_out, returns_async_out,
    subscribe_count_out; rewrite ?length_app, ?length_u32; lia.
Qed.

(** A request and an answer to it that fit in [N] bytes.  The library does not
    look whether the answer is of the kind that was asked for. *)
Definition allowed (N : Z) (e : ask * reply) : Prop :=
  valid_ask e.1 /\ ask_room e.1 + 128 <= N /\ valid_reply e.2 /\
  Z.of_nat (length (reply_out e.2)) <= N.

#[export] Instance valid_ask_dec a : Decision (valid_ask a).
Proof. destruct a; apply _. Defined.

#[export] Instance valid_reply_dec r : Decision (valid_reply r).
Proof. destruct r; apply _. Defined.

#[export] Instance allowed_dec N e : Decision (allowed N e).
Proof. unfold allowed. apply _. Defined.

Section lengths.
Context {E : Ei} {laws : EiLaws E}.

Lemma ask_out_ok a N :
  valid_ask a -> ask_room a + 128 <= N -> N < 2 ^ 31 ->
  exists bs, ask_out a = Some bs /\ Z.of_nat (length bs) + 4 <= ask_room a.
Proof.
  intros Ha Hr HN.
  assert (exists ns, Forall2 within ns (ask_terms a) /\ foldr Z.add 0 ns + 4 <= ask_room a)
    as (ns & Hw & Hsum).
  { destruct a as [k n i r t p|t id c|n]; cbn [ask_room valid_ask ask_terms] in *.
    - exists [1; 2; 14; strlen n + 3; Z.of_nat (length i) + 5; Z.of_nat (length r) + 5; 7; 7].
      split; [|cbn; lia]. destruct Ha as (? & ? & ?).
      repeat constructor; first
        [ apply version_within | apply tuple_header_within | apply string_within
        | apply ulong_within | apply long_within
        | eapply within_le; [apply binary_within|]
        | eapply within_le; [apply atom_within|]; destruct k; cbn ];
        unfold strlen, INT_MAX in *; lia.
    - exists [1; 2; 13; 7; 21; 8]. split; [|cbn; lia]. destruct Ha as (? & ?).
      repeat constructor; first
        [ apply version_within | apply tuple_header_within | apply ulong_within
        | eapply within_le; [apply binary_within|]
        | eapply within_le; [apply atom_within|]; try destruct c; cbn ];
        unfold INT_MAX in *; lia.
    - exists [1; 2; 18; strlen n + 3]. split; [|cbn; lia].
      repeat constructor; first
        [ apply version_within | apply tuple_header_within | apply string_within
        | eapply within_le; [apply atom_within|]; cbn ];
        unfold strlen, INT_MAX in *; lia. }
  destruct (within_all _ _ Hw) as (bss & Hb & Hl). exists (concat bss).
  split; [by apply term_bytes_Some|lia].
Qed.
End lengths.

(** ** A client in the middle of a conversation *)

Section client.
Context {F U : Type} {E : Ei} {laws : EiLaws E}.
Context (run : F -> request -> C (world F U) unit unit).
Implicit Types (w : world F U) (p : cloudi_instance_t F).

(** What a conversation does not change. *)
Record client : Type := mk_client {
  cl_endpoint : Z * Z * Z * option cells;
  cl_lookup : lookup_t F;
  cl_call : buffer_t;
  cl_timeout_async : Z;
  cl_timeout_sync : Z;
  cl_priority : Z;
  cl_user : U
}.

Definition client_of w : client :=
  let p := w_inst w in
  mk_client (endpoint p) (p_lookup p) (p_buffer_call p) (p_timeout_async p) (p_timeout_sync p)
    (p_priority_default p) (w_user w).

(** An instance that has received an answer. *)
Definition has_reply (r : reply) p : Prop :=
  match r with
  | Sent trans_id => has_trans_ids [trans_id] p
  | Sents trans_ids => has_trans_ids trans_ids p
  | Returned response_info response trans_id | Received response_info response trans_id =>
      has_response response_info response trans_id p
  | Subscribers count => p_subscribe_count p = count
  end.

(** After the answer [last], the exchanges [es] are still to come; [n] reads and
    [k] writes are left for what follows. *)
Context (N : Z) (cl : client) (n k : nat) (rest : bytes) (ps : list pl).

Record talking (last : option reply) (es : list (ask * reply)) w : Prop := {
  tk_client : client_of w = cl;
  tk_header : p_use_header (w_inst w) <> 0;
  tk_terminate : p_terminate (w_inst w) = 0;
  tk_size : N < 2 ^ 31;
  tk_allowed : Forall (allowed N) es;
  tk_in : sys_in (w_sys w) =
    concat (map (fun e => frame (p_use_header (w_inst w)) (reply_out e.2)) es) ++ rest;
  tk_polls : sys_polls (w_sys w) = replicate (length es) pl_ready ++ ps;
  tk_reads : good_reads (foldr Nat.add n (map (fun e => 4 + length (reply_out e.2)) es))%nat
    (sys_reads (w_sys w));
  tk_writes : good_writes (foldr Nat.add k (map (fun e => Z.to_nat (ask_room e.1)) es))
    (sys_writes (w_sys w));
  tk_alloc : forall i, sys_realloc (w_sys w) i = true;
  tk_recv : wf (p_buffer_recv (w_inst w));
  tk_recv_max : N <= m_maxSize (p_buffer_recv (w_inst w));
  tk_send : buffer_ok (p_buffer_send (w_inst w));
  tk_send_max : N <= m_maxSize (p_buffer_send (w_inst w));
  tk_last : from_option (fun r => has_reply r (w_inst w)) True last
}.

Lemma talking_ready last a r es w :
  talking last ((a, r) :: es) w -> ready (ask_room a) w.
Proof.
  intros []. apply Forall_cons in tk_allowed0 as [(Ha & Hr & _) _]. cbn [fst] in *.
  split; try done; [lia|unfold INT_MAX; lia|].
  eapply good_writes_le; [|exact tk_writes0]. cbn. lia.
Qed.

(** What a message of the VM for a client that waits leaves. *)
Lemma reply_received r rest' ps' w :
  valid_reply r -> p_terminate (w_inst w) = 0 -> arriving (reply_out r) rest' ps' w ->
  exists f w', poll_request run (-1) 0 w = (Return (cloudi_success : Z), w') /\
    taken (reply_out r) rest' ps' f w w' /\ has_reply r (w_inst w') /\
    forall b p, endpoint (f b p) = endpoint p /\ p_lookup (f b p) = p_lookup p /\
      p_buffer_call (f b p) = p_buffer_call p /\ p_timeout_async (f b p) = p_timeout_async p /\
      p_timeout_sync (f b p) = p_timeout_sync p /\
      p_priority_default (f b p) = p_priority_default p /\
      p_terminate (f b p) = p_terminate p /\ p_buffer_recv (f b p) = p_buffer_recv p /\
      p_buffer_send (f b p) = p_buffer_send p.
Proof.
  intros Hv Ht Har. assert (waiting 0 w) as Hw by (split; [done|by left]).
  destruct r as [id|i s id|ids|i s id|c]; cbn [reply_out valid_reply] in *.
  - destruct (poll_request_trans_id run id rest' ps' (-1) 0 w Hv Hw Har) as (w' & ? & ? & ?).
    by eexists _, w'.
  - destruct (poll_request_response run _ i s id rest' ps' (-1) 0 w (or_intror eq_refl) Hv Hw Har)
      as (w' & ? & ? & ?). by eexists _, w'.
  - destruct (poll_request_trans_ids run ids rest' ps' (-1) 0 w Hv Hw Har) as (w' & ? & ? & ?).
    by eexists _, w'.
  - destruct (poll_request_response run _ i s id rest' ps' (-1) 0 w (or_introl eq_refl) Hv Hw Har)
      as (w' & ? & ? & ?). by eexists _, w'.
  - destruct (poll_request_subscribe_count run c rest' ps' (-1) 0 w Hv Hw Har) as (w' & ? & Htk).
    eexists _, w'. split; [done|]. split; [done|]. split; [|done].
    by destruct Htk as (b & rs & _ & ->).
Qed.

(** From the [write_exact] of a request on. *)
Lemma exchanged last a r es bs i w w1 w2 :
  talking last ((a, r) :: es) w -> ask_out a = Some bs ->
  send_buffer i w1 = (Next (cloudi_success : Z), w2) -> sent bs w w2 ->
  exists w', send_and_wait run i w1 = (Return (cloudi_success : Z), w') /\
    talking (Some r) es w' /\
    sys_out (w_sys w') = sys_out (w_sys w) ++ frame (p_use_header (w_inst w)) bs.
Proof.
  intros Htk Hout Hs Hsent. destruct (Htk).
  apply Forall_cons in tk_allowed0 as [(Ha & Hr & Hv & Hl) Hes]. cbn [fst snd] in *.
  destruct (ask_out_ok a N) as (bs' & Hout' & Hbs); [done..|].
  rewrite Hout in Hout'. injection Hout' as <-.
  assert (Z.of_nat (length (frame (p_use_header (w_inst w)) bs)) <= ask_room a) as Hf.
  { rewrite length_frame. pose proof (start_range w). unfold start in *. lia. }
  destruct Hsent as (b & j & Hb & Hbm & _ & Hj & ->).
  pose proof (reply_out_length r) as Hpos.
  destruct (reply_received r
    (concat (map (fun e => frame (p_use_header (w_inst w)) (reply_out e.2)) es) ++ rest)
    (replicate (length es) pl_ready ++ ps)
    (mk_world (set_buffer_send b (w_inst w))
       (set_write (sys_out (w_sys w) ++ frame (p_use_header (w_inst w)) bs)
          (drop j (sys_writes (w_sys w))) (w_sys w)) (w_user w)) Hv tk_terminate0)
    as (f & w' & He & (b' & rs & Hrc & ->) & Hhas & Hkeep).
  { split; try done.
    - cbn [w_sys w_inst sys_in set_write p_use_header set_buffer_send]. rewrite tk_in0.
      cbn [map concat snd]. by rewrite <- app_assoc.
    - eapply good_reads_le; [|exact tk_reads0]. cbn. lia.
    - lia.
    - cbn. lia. }
  eexists. split.
  { unfold send_and_wait. erewrite bind_next by exact Hs. cbv beta. cbn [Z.eqb negb creturn_if].
    erewrite bind_next by reflexivity. cbv beta.
    erewrite bind_next by (apply call_return; exact He). reflexivity. }
  split; [|reflexivity]. set (p1 := arrival _ b' _) in *.
  destruct (Hkeep b' p1) as (K1 & K2 & K3 & K4 & K5 & K6 & K7 & K8 & K9).
  destruct (rc_field _ _ _ _ Hrc) as (Hwf & _).
  assert (p_use_header (f b' p1) = p_use_header (w_inst w)) as Hh by (by injection K1).
  split.
  - rewrite <- tk_client0. unfold client_of.
    f_equal; [exact K1|exact K2|exact K3|exact K4|exact K5|exact K6].
  - cbn. by rewrite Hh.
  - cbn. by rewrite K7.
  - done.
  - done.
  - cbn. by rewrite Hh.
  - reflexivity.
  - apply (rc_reads _ _ _ _ Hrc). exact tk_reads0.
  - cbn. eapply good_writes_drop; [|exact tk_writes0]. cbn. lia.
  - done.
  - cbn. by rewrite K8.
  - cbn. rewrite K8. change (N <= m_maxSize b'). by rewrite (rc_max _ _ _ _ Hrc).
  - cbn. by rewrite K9.
  - cbn. rewrite K9. change (N <= m_maxSize b). by rewrite Hbm.
  - exact Hhas.
Qed.

(** ** Programs *)

(** [c] makes the requests [es] and gets their answers, the last of them
    [last']. *)
Definition says {R A} (c : C (world F U) R A) (last : option reply) (es : list (ask * reply))
    (o : outcome R A) (last' : option reply) : Prop :=
  forall es' w, talking last (es ++ es') w ->
    exists w' outs, c w = (o, w') /\ mapM ask_out (map fst es) = Some outs /\
      talking last' es' w' /\
      sys_out (w_sys w') =
        sys_out (w_sys w) ++ concat (map (frame (p_use_header (w_inst w))) outs).

Lemma says_reads {R A} (c : C (world F U) R A) last o :
  (forall es w, talking last es w -> c w = (o, w)) -> says c last [] o last.
Proof.
  intros H es w Hw. exists w, []. split; [by apply (H es)|]. split; [done|]. split; [done|].
  cbn. by rewrite app_nil_r.
Qed.

Lemma says_ret {R A} (a : A) last : says (R := R) (cret a) last [] (Next a) last.
Proof. by apply says_reads. Qed.

Lemma talking_header last last' es es' w w' :
  talking last es w -> talking last' es' w' ->
  p_use_header (w_inst w') = p_use_header (w_inst w).
Proof.
  intros H H'. pose proof (tk_client _ _ _ H) as Hc. rewrite <- (tk_client _ _ _ H') in Hc.
  by injection Hc.
Qed.

Lemma says_bind {R A B} (c : C (world F U) R A) (f : A -> C (world F U) R B) last last1 last2
    es1 es2 a o :
  says c last es1 (Next a) last1 -> says (f a) last1 es2 o last2 ->
  says (cbind c f) last (es1 ++ es2) o last2.
Proof.
  intros H1 H2 es w Hw. rewrite <- app_assoc in Hw.
  destruct (H1 _ _ Hw) as (w1 & outs1 & He1 & Ho1 & Hw1 & Hs1).
  destruct (H2 _ _ Hw1) as (w2 & outs2 & He2 & Ho2 & Hw2 & Hs2).
  exists w2, (outs1 ++ outs2). split; [by erewrite bind_next by exact He1|].
  apply mapM_Some_1 in Ho1, Ho2.
  split; [by apply mapM_Some_2; rewrite map_app; apply Forall2_app|]. split; [done|].
  by rewrite Hs2, Hs1, (talking_header _ _ _ _ _ _ Hw Hw1), map_app, concat_app, <- app_assoc.
Qed.

(** A first part without requests. *)
Lemma says_next {R A B} (c : C (world F U) R A) (f : A -> C (world F U) R B) last es a o last' :
  says c last [] (Next a) last -> says (f a) last es o last' -> says (cbind c f) last es o last'.
Proof. intros H1 H2. exact (says_bind _ _ _ _ _ [] es _ _ H1 H2). Qed.

Lemma says_throw {R A B} (c : C (world F U) R A) (f : A -> C (world F U) R B) last es e last' :
  says c last es (Throw e) last' -> says (cbind c f) last es (Throw e) last'.
Proof.
  intros H es' w Hw. destruct (H _ _ Hw) as (w' & outs & He & Ho & Hw' & Hs).
  exists w', outs. split; [by apply bind_throw|done].
Qed.

Lemma says_call {R R'} (c : C (world F U) R R) last es (r : R) last' :
  says c last es (Return r) last' -> says (call (R := R') c) last es (Next r) last'.
Proof.
  intros H es' w Hw. destruct (H _ _ Hw) as (w' & outs & He & Ho & Hw' & Hs).
  exists w', outs. split; [by apply call_return|done].
Qed.

(** Returning the result of a call. *)
Lemma says_returns {R} (c : C (world F U) R R) last es r last' :
  says c last es (Return r) last' ->
  says (let* result := call c in creturn (A := R) result) last es (Return r) last'.
Proof.
  intros H. rewrite <- (app_nil_r es). eapply says_bind; [apply says_call; exact H|].
  by apply says_reads.
Qed.

(** ** The operations *)

Lemma says_send_ kd name request_info request timeout priority r last :
  says (cloudi_send_ run (send_name kd) name request_info request timeout priority) last
    [(Send kd name request_info request timeout priority, r)] (Return (cloudi_success : Z))
    (Some r).
Proof.
  intros es w Hw. pose proof (talking_ready _ _ _ _ _ Hw) as Hr. pose proof (tk_allowed _ _ _ Hw) as Ha.
  apply Forall_cons in Ha as [((Hn & Ht & Hp) & Hroom & _) _]. pose proof (tk_size _ _ _ Hw).
  cbn [fst ask_room] in Hroom.
  destruct (request_written_ok [1; 2; 14]
    [ei_encode_version; ei_encode_tuple_header 6; ei_encode_atom (send_name kd)]
    (strlen name + Z.of_nat (length request_info) + Z.of_nat (length request) + 128)
    [strlen name + 3; Z.of_nat (length request_info) + 5; Z.of_nat (length request) + 5; 7; 7]
    [ei_encode_string name; ei_encode_binary request_info; ei_encode_binary request;
     ei_encode_ulong timeout; ei_encode_long priority]
    (ask_room (Send kd name request_info request timeout priority)) w)
    as (bs & i & w1 & w2 & Hout & He & Hs & Hsent); [..|exact Hr|].
  - repeat constructor; [apply version_within|by apply tuple_header_within|].
    eapply within_le; [apply atom_within|]; destruct kd; cbn; lia.
  - unfold strlen in *. repeat constructor; first
      [ apply string_within | apply binary_within | apply ulong_within | apply long_within ]; lia.
  - cbn. lia.
  - cbn. lia.
  - cbn. lia.
  - destruct (exchanged _ _ _ _ _ _ _ _ _ Hw Hout Hs Hsent) as (w' & Hex & Hw' & Ho).
    exists w', [bs]. split; [|split; [|split; [done|by rewrite Ho; cbn; rewrite app_nil_r]]].
    + unfold cloudi_send_. by erewrite bind_next by exact He.
    + apply mapM_Some_2. by repeat constructor.
Qed.

Lemma says_subscribe_count pattern r last :
  says (cloudi_subscribe_count run pattern) last [(Count pattern, r)]
    (Return (cloudi_success : Z)) (Some r).
Proof.
  intros es w Hw. pose proof (talking_ready _ _ _ _ _ Hw) as Hr. pose proof (tk_allowed _ _ _ Hw) as Ha.
  apply Forall_cons in Ha as [(Hn & Hroom & _) _]. pose proof (tk_size _ _ _ Hw).
  cbn [fst ask_room valid_ask] in *.
  destruct (request_written_ok [1; 2; 18]
    [ei_encode_version; ei_encode_tuple_header 2; ei_encode_atom (chars "subscribe_count")]
    (strlen pattern + 128) [strlen pattern + 3] [ei_encode_string pattern]
    (ask_room (Count pattern)) w)
    as (bs & i & w1 & w2 & Hout & He & Hs & Hsent); [..|exact Hr|].
  - repeat constructor; [apply version_within|by apply tuple_header_within|].
    by apply (atom_within (chars "subscribe_count")).
  - repeat constructor. apply string_within. unfold strlen in Hn. lia.
  - cbn. lia.
  - cbn [foldr]. lia.
  - cbn [foldr ask_room]. lia.
  - destruct (exchanged _ _ _ _ _ _ _ _ _ Hw Hout Hs Hsent) as (w' & Hex & Hw' & Ho).
    exists w', [bs]. split; [|split; [|split; [done|by rewrite Ho; cbn; rewrite app_nil_r]]].
    + unfold cloudi_subscribe_count. by erewrite bind_next by exact He.
    + apply mapM_Some_2. by repeat constructor.
Qed.

(** A timeout of 0 is the default of the instance. *)
Definition timeout_or (timeout default : Z) : Z := if timeout =? 0 then default else timeout.

Lemma says_recv_async timeout trans_id consume r last :
  says (cloudi_recv_async run timeout trans_id consume) last
    [(Recv (timeout_or timeout (cl_timeout_sync cl)) (default trans_id_null trans_id)
        (negb (consume =? 0)), r)] (Return (cloudi_success : Z)) (Some r).
Proof.
  set (t := timeout_or _ _). set (ti := default _ _). set (c := negb _).
  intros es w Hw. pose proof (tk_allowed _ _ _ Hw) as Ha.
  apply Forall_cons in Ha as [((Ht & Hid) & _) _]. cbn [fst] in *.
  destruct (small_terms [1; 2; 13; 7; 21; 8] (ask_terms (Recv t ti c)) 0 w)
    as (bss & Hm & Hcan & Hl & Hi & _);
    [|done|exact (tk_send _ _ _ Hw)|exact (tk_alloc _ _ _ Hw)| |].
  { unfold ask_terms. repeat constructor; first
      [ apply version_within | apply tuple_header_within | apply ulong_within
      | eapply within_le; [apply binary_within|]
      | eapply within_le; [apply atom_within|]; try destruct c; cbn ];
      unfold INT_MAX in *; lia. }
  { eapply good_writes_le; [|exact (tk_writes _ _ _ Hw)]. cbn [map foldr fst ask_room app]. lia. }
  destruct (direct_written
    [ei_encode_version; ei_encode_tuple_header 4; ei_encode_atom (chars "recv_async")]
    [ei_encode_ulong t; ei_encode_binary ti; ei_encode_atom (if c then chars "true" else chars "false")]
    bss w Hm Hcan Hl Hi) as (i & bf & i' & w2 & w3 & He1 & He2 & Hs & Hsent).
  assert (ask_out (Recv t ti c) = Some (concat bss)) as Hout by (by apply term_bytes_Some).
  destruct (exchanged _ _ _ _ _ _ _ _ _ Hw Hout Hs Hsent) as (w' & Hex & Hw' & Ho).
  exists w', [concat bss]. split; [|split; [|split; [done|by rewrite Ho; cbn; rewrite app_nil_r]]].
  - unfold cloudi_recv_async. erewrite bind_next by apply start_index_eq. cbv beta.
    erewrite bind_next by exact He1. cbv beta.
    assert (default_timeout timeout p_timeout_sync (with_send bf w) = (Next t, with_send bf w))
      as Hd.
    { unfold t, timeout_or, default_timeout. rewrite <- (tk_client _ _ _ Hw).
      by destruct (timeout =? 0). }
    erewrite bind_next by exact Hd. cbv beta. erewrite bind_next by exact He2. exact Hex.
  - apply mapM_Some_2. by repeat constructor.
Qed.

(** What a function reads of the instance first. *)
Lemma says_default {A} timeout get default (f : Z -> C (world F U) Z A) last es o last' :
  (forall w, client_of w = cl -> get (w_inst w) = default) ->
  says (f (timeout_or timeout default)) last es o last' ->
  says (let* timeout := default_timeout timeout get in f timeout) last es o last'.
Proof.
  intros Hget H. eapply says_next; [|exact H]. apply says_reads. intros es' w Hw.
  unfold timeout_or, default_timeout. destruct (timeout =? 0); [|done].
  unfold field, creads. by rewrite (Hget w (tk_client _ _ _ Hw)).
Qed.

Lemma says_instance {A} get (f : cloudi_instance_t F -> C (world F U) Z A) last es o last' :
  (forall es w, talking last es w -> f (w_inst w) = get) ->
  says get last es o last' -> says (let* p := field id in f p) last es o last'.
Proof.
  intros Hget H es' w Hw. destruct (H es' w Hw) as (w' & outs & He & Hrest).
  exists w', outs. split; [|exact Hrest]. unfold field. erewrite bind_next by reflexivity. cbv beta.
  cbn [id]. by rewrite (Hget _ _ Hw).
Qed.

(** The functions a client calls. *)
Inductive operation : Type :=
| send_async (name request : bytes)
| send_async_ (name request_info request : bytes) (timeout priority : Z)
| send_sync (name request : bytes)
| send_sync_ (name request_info request : bytes) (timeout priority : Z)
| mcast_async (name request : bytes)
| mcast_async_ (name request_info request : bytes) (timeout priority : Z)
| recv_async (timeout : Z) (trans_id : option bytes) (consume : bool)
| subscribe_count (pattern : bytes).

Definition perform (op : operation) : C (world F U) Z Z :=
  match op with
  | send_async name request => cloudi_send_async run name request
  | send_async_ name request_info request timeout priority =>
      cloudi_send_async_ run name request_info request timeout priority
  | send_sync name request => cloudi_send_sync run name request
  | send_sync_ name request_info request timeout priority =>
      cloudi_send_sync_ run name request_info request timeout priority
  | mcast_async name request => cloudi_mcast_async run name request
  | mcast_async_ name request_info request timeout priority =>
      cloudi_mcast_async_ run name request_info request timeout priority
  | recv_async timeout trans_id consume =>
      cloudi_recv_async run timeout trans_id (if consume then 1 else 0)
  | subscribe_count pattern => cloudi_subscribe_count run pattern
  end.

(** What they ask for. *)
Definition asks (op : operation) : ask :=
  match op with
  | send_async name request => Send Async name [] request (cl_timeout_async cl) (cl_priority cl)
  | send_async_ name request_info request timeout priority =>
      Send Async name request_info request (timeout_or timeout (cl_timeout_async cl)) priority
  | send_sync name request => Send Sync name [] request (cl_timeout_sync cl) (cl_priority cl)
  | send_sync_ name request_info request timeout priority =>
      Send Sync name request_info request (timeout_or timeout (cl_timeout_sync cl)) priority
  | mcast_async name request =>
      Send Multicast name [] request (cl_timeout_async cl) (cl_priority cl)
  | mcast_async_ name request_info request timeout priority =>
      Send Multicast name request_info request (timeout_or timeout (cl_timeout_async cl)) priority
  | recv_async timeout trans_id consume =>
      Recv (timeout_or timeout (cl_timeout_sync cl)) (default trans_id_null trans_id) consume
  | subscribe_count pattern => Count pattern
  end.

Lemma says_perform op r last :
  says (perform op) last [(asks op, r)] (Return (cloudi_success : Z)) (Some r).
Proof.
  assert (forall w, client_of w = cl -> p_timeout_async (w_inst w) = cl_timeout_async cl /\
    p_timeout_sync (w_inst w) = cl_timeout_sync cl /\
    p_priority_default (w_inst w) = cl_priority cl) as Hcl by (by intros w <-).
  destruct op; cbn [perform asks].
  1, 3, 5: eapply says_instance;
    [intros es w Hw; destruct (Hcl w (tk_client _ _ _ Hw)) as (H1 & H2 & H3);
     rewrite H3, ?H1, ?H2; reflexivity
    |apply says_returns; first
       [ exact (says_send_ Async _ _ _ _ _ _ _) | exact (says_send_ Sync _ _ _ _ _ _ _)
       | exact (says_send_ Multicast _ _ _ _ _ _ _) ]].
  1, 2, 3: eapply says_default;
    [intros w Hw; destruct (Hcl w Hw) as (H1 & H2 & H3); eassumption
    |apply says_returns; first
       [ exact (says_send_ Async _ _ _ _ _ _ _) | exact (says_send_ Sync _ _ _ _ _ _ _)
       | exact (says_send_ Multicast _ _ _ _ _ _ _) ]].
  - replace consume with (negb ((if consume then 1 else 0) =? 0)) at 2 by (by destruct consume).
    apply says_recv_async.
  - apply says_subscribe_count.
Qed.
End client.

(** ** Properties *)

Section properties.
Context {F U : Type} {E : Ei} {laws : EiLaws E}.
Context (run : F -> request -> C (world F U) unit unit).

(** C4. The operations of a client, each with its answer: it writes exactly
    its request, with the defaults of the instance where they are asked for,
    waits, and succeeds; the instance has the answer, its pointers valid, and
    nothing more of the stream was taken, so that the next operation finds
    its answer the same way, whatever the fragmentation of both. *)
Theorem operation_answered N (cl : client) n k rest ps op r es last (w : world F U)
    (Hw : talking N cl n k rest ps last ((asks cl op, r) :: es) w) :
  exists bs w', perform run op w = (Return (cloudi_success : Z), w') /\
    ask_out (asks cl op) = Some bs /\
    sys_out (w_sys w') = sys_out (w_sys w) ++ frame (p_use_header (w_inst w)) bs /\
    has_reply r (w_inst w') /\ client_of w' = client_of w /\
    talking N cl n k rest ps (Some r) es w'.
Proof.
  destruct (says_perform run N cl n k rest ps op r last es w Hw) as (w' & outs & He & Ho & Hw' & Hs).
  apply mapM_Some_1 in Ho. apply Forall2_cons_inv_l in Ho as (bs & outs' & Hbs & Hnil & ->).
  apply Forall2_nil_inv_l in Hnil as ->. cbn [map concat] in Hs. rewrite app_nil_r in Hs.
  exists bs, w'. split; [exact He|]. split; [exact Hbs|]. split; [exact Hs|].
  split; [exact (tk_last _ _ _ _ _ _ _ _ _ Hw')|]. split; [|exact Hw'].
  by rewrite (tk_client _ _ _ _ _ _ _ _ _ Hw), (tk_client _ _ _ _ _ _ _ _ _ Hw').
Qed.
End properties.

(** A multicast to two receivers, and the response of one of them. *)
Definition example_ids : list bytes := [replicate 16 Byte.x01; replicate 16 Byte.x02].
Definition example_replies : list reply :=
  [Sents example_ids; Received [] (chars "ok") (replicate 16 Byte.x01)].

Definition example_client : world unit unit :=
  mk_world (example_instance unit 1)
    (mk_sys (concat (map (fun r => frame 1 (reply_out r)) example_replies))
       (replicate 200 (rd_some 3)) [] (replicate 400 (wr_some 2)) (replicate 2 pl_ready) []
       (fun _ => true)) tt.

Lemma operation_answered_witness :
  exists bs w',
    perform example_idle (mcast_async (chars "/p/e") (chars "now")) example_client =
      (Return (cloudi_success : Z), w') /\
    ask_out (Send Multicast (chars "/p/e") [] (chars "now") 5000 0) = Some bs /\
    sys_out (w_sys w') = frame 1 bs /\ has_trans_ids example_ids (w_inst w').
Proof.
  set (cl := client_of example_client).
  destruct (operation_answered example_idle 1000 cl 0 0 [] [] (mcast_async (chars "/p/e") (chars "now"))
    (Sents example_ids)
    [(Recv 5000 (replicate 16 Byte.x01) true, Received [] (chars "ok") (replicate 16 Byte.x01))]
    None example_client) as (bs & w' & He & Hbs & Ho & Hr & _).
  - split; try reflexivity; try done.
    + refine (bool_decide_unpack _ _). vm_compute. exact Logic.I.
    + apply good_reads_replicate. vm_compute. lia.
    + apply good_writes_replicate. vm_compute. lia.
  - exists bs, w'. split; [exact He|]. split; [exact Hbs|]. split; [exact Ho|exact Hr].
Defined.
