(* ===== verification/Start.v ===== *)
(** * Starting an instance

    What a program does before its first request: [cloudi_initialize] in the
    environment the VM gives a process, with the VM's first message, and the
    subscriptions. *)

From S2P Require Import Prelude Text CMonad Status Sys ReallocPtr Framing Lookup Ei Instance Requests Poll Calls Messages Callback Serve.

(** ** What the VM gives a process *)

(** The environment of a process of [n] threads that talks over a stream. *)
Record environment (n : Z) (getenv : bytes -> option bytes) : Prop := {
  en_protocol : exists p, getenv (chars "CLOUDI_API_INIT_PROTOCOL") = Some p /\
    (p = chars "tcp" \/ p = chars "local");
  en_buffer_size : is_Some (getenv (chars "CLOUDI_API_INIT_BUFFER_SIZE"));
  en_thread_count : getenv (chars "CLOUDI_API_INIT_THREAD_COUNT") = Some (decimal n)
}.

(** The first message. *)
Record configuration : Type := mk_configuration {
  cf_process_index : Z;
  cf_process_count : Z;
  cf_process_count_max : Z;
  cf_process_count_min : Z;
  cf_prefix : bytes;
  cf_timeout_init : Z;
  cf_timeout_async : Z;
  cf_timeout_sync : Z;
  cf_timeout_term : Z;
  cf_priority : Z
}.

Definition configuration_out (c : configuration) : bytes :=
  init_out (cf_process_index c) (cf_process_count c) (cf_process_count_max c)
    (cf_process_count_min c) (cf_prefix c) (cf_timeout_init c) (cf_timeout_async c)
    (cf_timeout_sync c) (cf_timeout_term c) (cf_priority c).

Record valid_configuration (c : configuration) : Prop := {
  vc_fields : Forall (fun v => 0 <= v < 2 ^ 32)
    [cf_process_index c; cf_process_count c; cf_process_count_max c; cf_process_count_min c;
     cf_timeout_init c; cf_timeout_async c; cf_timeout_sync c; cf_timeout_term c];
  vc_priority : - 128 <= cf_priority c < 128;
  vc_prefix : NUL ∉ cf_prefix c
}.

Definition init_terms `{Ei} : list (option bytes) :=
  [ ei_encode_version; ei_encode_atom (chars "init") ].

Definition subscribe_terms `{Ei} (pattern : bytes) : list (option bytes) :=
  [ ei_encode_version; ei_encode_tuple_header 2; ei_encode_atom (chars "subscribe");
    ei_encode_string pattern ].

(** The buffers of a new instance. *)
Lemma new_buffer_wf : wf new_buffer.
Proof. split; [|split]; vm_compute; reflexivity. Qed.
Lemma new_buffer_size : m_size new_buffer = 32768.
Proof. vm_compute. reflexivity. Qed.
Lemma new_buffer_max : CLOUDI_MAX_BUFFERSIZE <= m_maxSize new_buffer.
Proof. vm_compute. discriminate. Qed.

#[local] Opaque new_buffer.

(** ** Starting *)

Section starting.
Context {F U : Type} {E : Ei} {laws : EiLaws E}.
Context (run : F -> request -> C (world F U) unit unit).
Implicit Types (w : world F U).

(** An instance that was started, before its first [cloudi_poll], with [n]
    good reads and [k] good writes to come. *)
Record started (prefix : bytes) (fd B : Z) (n k : nat) (bs : bytes) (ps : list pl) w : Prop := {
  sd_endpoint : endpoint (w_inst w) = (1, fd, fd, Some (Some <$> prefix ++ [NUL]));
  sd_terminate : p_terminate (w_inst w) = 0;
  sd_first : p_initialization_complete (w_inst w) = 0;
  sd_in : sys_in (w_sys w) = bs;
  sd_polls : sys_polls (w_sys w) = ps;
  sd_reads : good_reads n (sys_reads (w_sys w));
  sd_writes : good_writes k (sys_writes (w_sys w));
  sd_alloc : forall i, sys_realloc (w_sys w) i = true;
  sd_recv : wf (p_buffer_recv (w_inst w));
  sd_recv_size : m_size (p_buffer_recv (w_inst w)) <= B;
  sd_recv_max : CLOUDI_MAX_BUFFERSIZE <= m_maxSize (p_buffer_recv (w_inst w));
  sd_call : wf (p_buffer_call (w_inst w));
  sd_call_max : CLOUDI_MAX_BUFFERSIZE <= m_maxSize (p_buffer_call (w_inst w));
  sd_send : buffer_ok (p_buffer_send (w_inst w));
  sd_send_max : CLOUDI_MAX_BUFFERSIZE <= m_maxSize (p_buffer_send (w_inst w))
}.

(** The instance once the first message was received in [br]. *)
Definition configured (c : configuration) (br : buffer_t) (rs : list rd) (rest : bytes)
    (ps : list pl) w : world F U :=
  upd_inst (set_buffer_recv_index 0) (upd_inst
    (init_fields (cf_process_index c) (cf_process_count c) (cf_process_count_max c)
       (cf_process_count_min c) (cf_prefix c) (cf_timeout_init c) (cf_timeout_async c)
       (cf_timeout_sync c) (TIMEOUT_TERMINATE_EXTERNAL (cf_timeout_term c)) (cf_priority c))
    (mk_world (arrival (configuration_out c) br w) (set_polls ps (set_read rest rs (w_sys w)))
       (w_user w))).

(** The wait for it. *)
Lemma await_init_ok c n rest ps w :
  valid_configuration c -> arriving (configuration_out c) rest ps w ->
  good_reads (4 + length (configuration_out c) + n) (sys_reads (w_sys w)) ->
  p_terminate (w_inst w) = 0 ->
  exists br rs, wf br /\
    m_size br <= Z.max (m_size (p_buffer_recv (w_inst w)))
                   (2 * Z.of_nat (length (configuration_out c))) /\
    m_maxSize br = m_maxSize (p_buffer_recv (w_inst w)) /\ good_reads n rs /\
    await_init run (poll_fuel w) w =
      (Return (cloudi_success : Z), configured c br rs rest ps w).
Proof.
  intros [Hv Hpr _] Har Hr Ht. unfold configuration_out, init_out in Har, Hr.
  destruct (waits_ok run (pred (poll_fuel w)) 1000 0 _ _ rest ps w Har)
    as (br & rs & [Hf Hbs Hbm Hg] & Hu & Hw); [done|].
  exists br, rs. split; [exact (proj1 Hf)|]. do 2 (split; [done|]). split; [by apply Hg|].
  erewrite bind_return in Hw; cycle 1.
  { apply (init_dispatched run _ _ _ _ _ _ _ _ _ _ 0 br _ _ Hv Hpr Hu); reflexivity. }
  unfold poll_fuel. cbn [await_init].
  rewrite bind_next with (a := cloudi_success : Z) (s' := configured c br rs rest ps w);
    [reflexivity|]. apply call_return.
  rewrite poll_request_waits; [exact Hw|done|by left].
Qed.

(** [cloudi_initialize] of a thread. *)
Lemma initialize_ok threads getenv c i B n k rest ps w :
  0 <= i < 2 ^ 31 - 3 ->
  environment threads getenv -> valid_configuration c -> 32768 <= B ->
  2 * Z.of_nat (length (configuration_out c)) <= B < 2 ^ 32 ->
  sys_in (w_sys w) = frame 1 (configuration_out c) ++ rest ->
  sys_polls (w_sys w) = pl_ready :: ps ->
  good_reads (4 + length (configuration_out c) + n) (sys_reads (w_sys w)) ->
  good_writes (12 + k) (sys_writes (w_sys w)) ->
  (forall i, sys_realloc (w_sys w) i = true) ->
  exists ib w', term_bytes init_terms = Some ib /\
    cloudi_initialize run false getenv i 0 w = (Return (cloudi_success : Z), w') /\
    started (cf_prefix c) (i + 3) B n k rest ps w' /\ p_lookup (w_inst w') = ∅ /\
    w_user w' = w_user w /\ sys_elapsed (w_sys w') = sys_elapsed (w_sys w) /\
    sys_out (w_sys w') = sys_out (w_sys w) ++ frame 1 ib.
Proof.
  intros Hi [(p & Hp & Hpc) [size Hsize] _] Hc HB32 HB Hin Hps Hr Hw Ha.
  unfold cloudi_initialize. rewrite Hp, Hsize.
  assert (@protocol_of p i = Some (i + 3, 1)) as ->.
  { assert (int32 (i + 3) = i + 3) as H3 by (unfold int32; rewrite Z.mod_small; lia).
    unfold protocol_of. rewrite H3. by destruct Hpc as [-> | ->]. }
  unfold assign. erewrite bind_next by reflexivity. cbv beta zeta iota.
  erewrite bind_next by reflexivity. cbv beta.
  set (w1 := upd_inst (configure (i + 3) 1 (wrap32 (atoi size)))
               (upd_inst (fun _ => set_state 0 zero_instance) w)).
  pose proof new_buffer_wf as Hwf. pose proof new_buffer_size as Hnsz.
  pose proof new_buffer_max as Hnmax. change CLOUDI_MAX_BUFFERSIZE with (2 ^ 31) in Hnmax.
  destruct (small_terms [1; 7] init_terms k w1) as (bss & Hm & Hcan & Hl & Hint & Hn);
    [|done|split; [exact Hwf|]|exact Ha|exact Hw|].
  { repeat constructor; [apply version_within|]. by apply (atom_within (chars "init")). }
  { change (128 <= m_size new_buffer). lia. }
  destruct (direct_send init_terms bss w1 Hm Hcan Hl Hint) as (w2 & Hs & Hsent).
  specialize (Hn w2 Hsent).
  destruct Hsent as (b & j & Hb & Hbm & _ & _ & ->). set (w2 := mk_world _ _ _) in *.
  destruct (await_init_ok c n rest ps w2) as (br & rs & Hwbr & Hbs & Hbrm & Hg & Hwait);
    [done| |exact Hr|reflexivity|].
  { split; [discriminate|exact Hin|exact Hps| |exact Hwf|exact Ha| |].
    - eapply good_reads_le; [|exact Hr]. lia.
    - unfold configuration_out, init_out in *. rewrite length_app, length_u32 in *. lia.
    - change (Z.of_nat (length (configuration_out c)) <= m_maxSize new_buffer). lia. }
  change (p_buffer_recv (w_inst w2)) with new_buffer in Hbs, Hbrm.
  change (p_buffer_send (w_inst w1)) with new_buffer in Hbm.
  exists (concat bss), (configured c br rs rest ps w2). split; [by apply term_bytes_Some|].
  split; [|split; [|split; [|split; [|split]]; reflexivity]].
  - erewrite bind_next in Hs |- * by apply start_index_eq. cbv beta in Hs |- *.
    rewrite <- bind_assoc. erewrite bind_next by exact Hs. cbv beta.
    erewrite bind_next by reflexivity. cbv beta. erewrite bind_next by reflexivity. exact Hwait.
  - split; [reflexivity..|exact Hg|exact Hn|exact Ha|exact Hwbr| | |exact Hwf|exact Hnmax|exact Hb|].
    + change (m_size br <= B). lia.
    + change (2 ^ 31 <= m_maxSize br). by rewrite Hbrm.
    + change (2 ^ 31 <= m_maxSize b). by rewrite Hbm.
Qed.

(** [cloudi_subscribe] of an instance that was started. *)
Lemma subscribe_ok prefix fd B n k bs ps pattern (f : F) w :
  started prefix fd B n (Z.to_nat (strlen pattern + 180) + k) bs ps w -> NUL ∉ prefix ->
  strlen pattern <= 65535 ->
  exists sb w', term_bytes (subscribe_terms pattern) = Some sb /\
    cloudi_subscribe pattern f w = (Return (cloudi_success : Z), w') /\
    started prefix fd B n k bs ps w' /\
    p_lookup (w_inst w') =
      lookup_insert (prefix ++ pattern) (callback_user f) (p_lookup (w_inst w)) /\
    w_user w' = w_user w /\ sys_elapsed (w_sys w') = sys_elapsed (w_sys w) /\
    sys_out (w_sys w') = sys_out (w_sys w) ++ frame 1 sb.
Proof.
  intros [] Hp Hlen. unfold strlen in *.
  injection sd_endpoint0 as Hh Hfi Hfo Hpre.
  destruct (cloudi_subscribe_sends pattern f prefix (Some <$> prefix ++ [NUL]) w)
    as (sb & w' & Hb & He & Hs); [done| |done|..].
  { rewrite fmap_app. by apply cstr_of_app. }
  { split; try done; unfold strlen, INT_MAX; change CLOUDI_MAX_BUFFERSIZE with (2 ^ 31) in *.
    - lia.
    - lia.
    - eapply good_writes_le; [|exact sd_writes0]. lia. }
  exists sb, w'. split; [done|]. split; [done|].
  destruct Hs as (b & j & Hbok & Hbm & _ & Hj & ->). cbn in Hbm, Hj |- *. rewrite Hh in Hj |- *.
  split; [|done]. split; try done; cbn.
  - unfold endpoint. cbn. by rewrite Hh, Hfi, Hfo, Hpre.
  - destruct (within_all [1; 2; 12; strlen pattern + 3] (subscribe_terms pattern))
      as (bss & Hm & Hl).
    { repeat constructor; [apply version_within|by apply tuple_header_within| |].
      - by apply (atom_within (chars "subscribe")).
      - by apply string_within. }
    unfold subscribe_terms in Hb, Hm. rewrite (term_bytes_Some _ _ Hm) in Hb. injection Hb as <-.
    pose proof (length_frame 1 (concat bss)) as Hf.
    eapply good_writes_drop; [|exact sd_writes0].
    unfold strlen in Hl. cbn [foldr] in Hl. change (body_index 1) with 4 in Hf. lia.
  - by rewrite Hbm.
Qed.

(** ** The requests of a program *)

(** What the VM and the machine have for a process: the stream with the
    first message, the requests and the message that ends the service,
    memory, and a peer that takes what is written; [k] is for what the program
    writes to subscribe. *)
Record incoming (c : configuration) (k : nat) (N B : Z) (ms : list message) (l : list answer)
    (rest : bytes) (ps : list pl) w : Prop := {
  ic_configuration : valid_configuration c;
  ic_sizes : sizes N B ms l;
  ic_buffer : 32768 <= B <= CLOUDI_MAX_BUFFERSIZE;
  ic_configuration_size : 2 * Z.of_nat (length (configuration_out c)) <= B;
  ic_messages : Forall valid_message ms;
  ic_answers : Forall valid_answer l;
  ic_in : sys_in (w_sys w) =
    concat (map (frame 1) (configuration_out c :: map message_out ms ++ [terminate_out])) ++ rest;
  ic_polls : sys_polls (w_sys w) = pl_ready :: replicate (S (length ms)) pl_ready ++ ps;
  ic_reads : good_reads (4 + length (configuration_out c) +
      foldr Nat.add 8 (map (fun m => 4 + length (message_out m)) ms))%nat (sys_reads (w_sys w));
  ic_writes : good_writes (12 + (k + (15 + Z.to_nat (foldr Z.add 0 (zip_with room ms l)))))
    (sys_writes (w_sys w));
  ic_alloc : forall i, sys_realloc (w_sys w) i = true
}.

(** The instance a program has for them, with [k] good writes before it
    polls. *)
Definition open_for (c : configuration) (fd : Z) (k : nat) (B : Z) (ms : list message)
    (l : list answer) (rest : bytes) (ps : list pl) w : Prop :=
  started (cf_prefix c) fd B (foldr Nat.add 8 (map (fun m => 4 + length (message_out m)) ms))%nat
    (k + (15 + Z.to_nat (foldr Z.add 0 (zip_with room ms l))))
    (concat (map (frame 1) (map message_out ms ++ [terminate_out])) ++ rest)
    (replicate (S (length ms)) pl_ready ++ ps) w.

Lemma incoming_initializes threads getenv i c k N B ms l rest ps w :
  environment threads getenv -> 0 <= i < 2 ^ 31 - 3 -> incoming c k N B ms l rest ps w ->
  exists ib w', term_bytes init_terms = Some ib /\
    cloudi_initialize run false getenv i 0 w = (Return (cloudi_success : Z), w') /\
    open_for c (i + 3) k B ms l rest ps w' /\ p_lookup (w_inst w') = ∅ /\
    w_user w' = w_user w /\ sys_elapsed (w_sys w') = sys_elapsed (w_sys w) /\
    sys_out (w_sys w') = sys_out (w_sys w) ++ frame 1 ib.
Proof.
  intros Henv Hi []. eapply initialize_ok; try done.
  - apply ic_buffer0.
  - change CLOUDI_MAX_BUFFERSIZE with (2 ^ 31) in ic_buffer0. lia.
  - rewrite ic_in0. cbn [map concat]. by rewrite <- app_assoc.
Qed.

Lemma open_starting c fd N B ms l rest ps w :
  open_for c fd 0 B ms l rest ps w -> lookup_wf (p_lookup (w_inst w)) -> sizes N B ms l ->
  B <= CLOUDI_MAX_BUFFERSIZE -> Forall valid_message ms -> Forall valid_answer l ->
  starting N B ms l rest ps w.
Proof.
  intros [] Hlk Hsz HB Hms Hl. pose proof Hsz as (H4 & HNB & _ & _ & Hroom).
  injection sd_endpoint0 as Hh Hin Hout _.
  split; try done. split; try done.
  - by rewrite Hh.
  - by rewrite Hh.
  - eapply good_writes_le; [|exact sd_writes0]. lia.
  - lia.
  - lia.
  - eapply Forall2_impl; [exact Hroom|]. intros m a H. cbv beta in H.
    change CLOUDI_MAX_BUFFERSIZE with (INT_MAX + 1) in *. lia.
Qed.
End starting.

(** ** Examples *)

Definition example_getenv (threads : Z) (name : bytes) : option bytes :=
  if decide (name = chars "CLOUDI_API_INIT_PROTOCOL") then Some (chars "local")
  else if decide (name = chars "CLOUDI_API_INIT_THREAD_COUNT") then Some (decimal threads)
  else if decide (name = chars "CLOUDI_API_INIT_BUFFER_SIZE") then Some (chars "65536")
  else None.

Definition example_configuration : configuration :=
  mk_configuration 0 1 1 1 (chars "/p/") 5000 5000 5000 1000 0.

Lemma example_environment threads : environment threads (example_getenv threads).
Proof.
  split; [exists (chars "local"); split; [reflexivity|by right]|by exists (chars "65536")|reflexivity].
Qed.
