(* ===== verification/Services.v ===== *)
(** * The services of src/tests

    Four programs that use the C API: count/c, null/c and http_req/c (main.c
    of each), and msg_size/cxx (main.cpp): their callback functions, what
    each answers, and the whole programs.  The callback function of each is
    the only one it has; the user's state is what the function keeps.  What
    they print is left out; the result of a program is the descriptors that
    [cloudi_destroy] closes at its end. *)

From S2P Require Import Prelude Text CMonad Status Sys ReallocPtr Framing Lookup Ei Instance Requests Poll Calls Messages KeyValue Callback Serve.

(** The [assert] of the C library: [abort()] ends the process, which is what
    an exception does that nothing catches. *)
Definition assert_or_abort {S R} (b : bool) : C S R unit :=
  if b then cret tt else cthrow unknown_exception.

(** [snprintf(response, sizeof(response), ...)] of a text, and
    [strlen(response)]; the array has 128 characters. *)
Definition snprintf_response (text : bytes) : bytes := take 127 text.

Section functions.
Context {U : Type} {E : Ei}.
Abbreviation M := (C (world unit U) unit).

Definition user {R} : C (world unit U) R U := creads w_user.
Definition set_user {R} (u : U) : C (world unit U) R unit := cmodify (with_user u).

(** [cloudi_return(api, request_type, name, pattern, "", 0, response,
    strlen(response), timeout, trans_id, pid, pid_size);] with the arguments of
    the call. *)
Definition respond (rq : request) (response : bytes) : M unit :=
  let* name := call_cstr (rq_name rq) in
  let* pattern := call_cstr (rq_pattern rq) in
  let* trans_id := call_bytes (rq_trans_id rq) 16 in
  let* pid := call_bytes (rq_pid rq) (rq_pid_size rq) in
  let* _ := call (cloudi_return (rq_type rq) name pattern [] response (rq_timeout rq)
                    trans_id pid) in
  cret tt.

(** [cloudi_forward(api, request_type, name, request_info, request_info_size,
    buffer, request_size, timeout, priority, trans_id, pid, pid_size);] *)
Definition forward (rq : request) (name request : bytes) : M unit :=
  let* request_info := call_bytes (rq_request_info rq) (rq_request_info_size rq) in
  let* trans_id := call_bytes (rq_trans_id rq) 16 in
  let* pid := call_bytes (rq_pid rq) (rq_pid_size rq) in
  let* _ := call (cloudi_forward (rq_type rq) name request_info request (rq_timeout rq)
                    (rq_priority rq) trans_id pid) in
  cret tt.

(** [process_requests] and [main]: [before] is done with the instance before
    the subscription to [pattern]. *)
Definition process_requests (run : unit -> request -> M unit)
    (getenv : bytes -> option bytes) (thread_index : Z) (before : M unit) (pattern : bytes) :
    M (list Z) :=
  let* result := call (cloudi_initialize run false getenv thread_index 0) in
  assert_or_abort (result =? cloudi_success);;;
  before;;;
  let* result := call (cloudi_subscribe pattern tt) in
  assert_or_abort (result =? cloudi_success);;;
  let* _ := call (cloudi_poll run (-1)) in
  creads (fun w => fst (cloudi_destroy (Some (w_inst w)))).

Definition main (getenv : bytes -> option bytes) (process_requests : Z -> M (list Z)) : M (list Z) :=
  let '(result, thread_count) := cloudi_initialize_thread_count getenv in
  assert_or_abort (result =? cloudi_success);;;
  let* thread_count := copt thread_count in
  assert_or_abort (thread_count =? 1);;;
  process_requests 0.
End functions.

(** ** count/c *)

Module Count.
Section count.
Context {E : Ei}.

(** [state_p->count], an [unsigned int], printed with [%d]. *)
Definition request (_ : unit) (rq : Poll.request) : C (world unit Z) unit unit :=
  let* count := user in
  set_user (if count =? 4294967295 then 0 else wrap32 (count + 1));;;
  let* count := user in
  respond rq (snprintf_response (decimal (int32 count))).

Definition program (getenv : bytes -> option bytes) : C (world unit Z) unit (list Z) :=
  set_user 0;;;
  main getenv (fun i => process_requests request getenv i (cret tt) (chars "c/get")).

(** What it answers. *)
Definition spec (count : Z) (_ : message) : answer * Z :=
  let count := (count + 1) mod 2 ^ 32 in
  (Responded [] (decimal (int32 count)), count).
End count.
End Count.

(** ** null/c *)

Module Null.
Section null.
Context {E : Ei}.

Definition request (_ : unit) (_ : Poll.request) : C (world unit unit) unit unit := creturn tt.

Definition program (getenv : bytes -> option bytes) : C (world unit unit) unit (list Z) :=
  main getenv (fun i => process_requests request getenv i (cret tt) (chars "c/get")).

Definition spec (u : unit) (_ : message) : answer * unit := (Unanswered, u).
End null.
End Null.

(** ** http_req/c *)

Module HttpReq.
Section http.
Context {E : Ei}.
Abbreviation M := (C (world unit unit) unit).

(** The loop over [http_qs]: the pointer of the value of the first key that
    is "value", if there is one.  Past the array, and in the part of it that
    was not written, there is nothing to read. *)
Fixpoint find_value (text : ptr) (http_qs : list (option (option Z))) : M (option Z) :=
  match http_qs with
  | Some None :: _ => cret None
  | Some (Some key) :: http_qs =>
      let* s := call_cstr (mk_ptr (ptr_gen text) (ptr_off text + key)) in
      if decide (s = chars "value") then
        match http_qs with
        | Some value :: _ => cret value
        | _ => cundef
        end
      else match http_qs with _ :: http_qs => find_value text http_qs | [] => cundef end
  | _ => cundef
  end.

(** [atoi], whose value has to be an [int]. *)
Definition atoi_int (s : bytes) : option Z :=
  if decide (- 2 ^ 31 <= atoi s < 2 ^ 31) then Some (atoi s) else None.

Definition response_value (n : Z) : bytes :=
  chars "<http_test><value>" ++ decimal n ++ chars "</value></http_test>".
Definition response_error : bytes := chars "<http_test><error>no value specified</error></http_test>".

Definition request (_ : unit) (rq : Poll.request) : M unit :=
  let* request := call_bytes (rq_request rq) (rq_request_size rq) in
  let* s := creads w_sys in
  let* http_qs := copt (text_key_value_parse (sys_realloc s) request) in
  let* value := find_value (rq_request rq) http_qs in
  let* response :=
    match value with
    | Some value =>
        let* s := call_cstr (mk_ptr (ptr_gen (rq_request rq)) (ptr_off (rq_request rq) + value)) in
        let* n := copt (atoi_int s) in
        cret (snprintf_response (response_value n))
    | None => cret response_error
    end in
  respond rq response.

(** Before it subscribes it asks how often the pattern is subscribed. *)
Definition count_is (run : unit -> Poll.request -> M unit) (n : Z) : M unit :=
  let* result := call (cloudi_subscribe_count run (chars "c.xml/get")) in
  assert_or_abort (result =? cloudi_success);;;
  let* count := creads (fun w => p_subscribe_count (w_inst w)) in
  assert_or_abort (count =? n).

Definition process_requests (getenv : bytes -> option bytes) (thread_index : Z) : M (list Z) :=
  let* result := call (cloudi_initialize request false getenv thread_index 0) in
  assert_or_abort (result =? cloudi_success);;;
  count_is request 0;;;
  let* result := call (cloudi_subscribe (chars "c.xml/get") tt) in
  assert_or_abort (result =? cloudi_success);;;
  count_is request 1;;;
  let* _ := call (cloudi_poll request (-1)) in
  creads (fun w => fst (cloudi_destroy (Some (w_inst w)))).

Definition program (getenv : bytes -> option bytes) : M (list Z) :=
  main getenv (process_requests getenv).

(** What it answers to a query of keys and values. *)
Definition reply (pairs : list (bytes * bytes)) : bytes :=
  match list_find (fun p => p.1 = chars "value") pairs with
  | Some (_, (_, v)) => response_value (atoi v)
  | None => response_error
  end.

(** The keys and values of a text, each with a null after it. *)
Fixpoint fields (field s : bytes) : list bytes :=
  match s with
  | [] => []
  | c :: s => if decide (c = NUL) then field :: fields [] s else fields (field ++ [c]) s
  end.
Fixpoint pairs (l : list bytes) : list (bytes * bytes) :=
  match l with k :: v :: l => (k, v) :: pairs l | _ => [] end.

Definition spec (u : unit) (m : message) : answer * unit :=
  (Responded [] (reply (pairs (fields [] (msg_request m)))), u).

(** The queries it can answer: those the encoder of Erlang makes of pairs,
    without empty values, and with an [int] for "value". *)
Record query (l : list (bytes * bytes)) : Prop := {
  qu_some : l <> [];
  qu_keys : Forall (fun '(k, v) => k <> [] /\ NUL ∉ k) l;
  qu_values : Forall (fun '(_, v) => v <> [] /\ NUL ∉ v) l;
  qu_size : Z.of_nat (length l) < 32000;
  qu_int : Forall (fun '(k, v) => k = chars "value" -> is_Some (atoi_int v)) l
}.
End http.
End HttpReq.

(** ** msg_size/cxx *)

Module MsgSize.
Section msg_size.
Context {E : Ei}.
Abbreviation M := (C (world unit bytes) unit).

Definition DESTINATION : bytes := chars "/tests/msg_size/erlang".
Definition MSG_SIZE : Z := 2097152.

(** [buffer] is the user's state; its first four bytes are a number. *)
Definition request (_ : unit) (rq : Poll.request) : M unit :=
  assert_or_abort (rq_request_size rq =? MSG_SIZE);;;
  let* request := call_bytes (rq_request rq) (rq_request_size rq) in
  set_user request;;;
  let i := le_combine (take 4 request) in
  let i := if i =? 4294967295 then 0 else wrap32 (i + 1) in
  let buffer := u32 i ++ drop 4 request in
  set_user buffer;;;
  forward rq DESTINATION buffer.

(** The message it starts with. *)
Definition send_first : M unit :=
  assert_or_abort (MSG_SIZE <=? CLOUDI_MAX_BUFFERSIZE);;;
  let* result := call (cloudi_send_async_ request DESTINATION []
    (replicate (Z.to_nat MSG_SIZE) NUL) 600000 (-5)) in
  assert_or_abort (result =? cloudi_success).

Definition program (getenv : bytes -> option bytes) : M (list Z) :=
  main getenv (fun i => process_requests request getenv i send_first (chars "cxx")).

Definition spec (_ : bytes) (m : message) : answer * bytes :=
  let buffer := u32 ((le_combine (take 4 (msg_request m)) + 1) mod 2 ^ 32)
                  ++ drop 4 (msg_request m) in
  (Forwarded DESTINATION (msg_info m) buffer (msg_timeout m) (msg_priority m), buffer).
End msg_size.
End MsgSize.

(** ** Lemmas *)

Section answering.
Context {U : Type} {E : Ei} {laws : EiLaws E}.
Implicit Types (w : world unit U) (m : message) (rq : request).

Lemma respond_answers m rq r w :
  valid_message m -> called m rq w -> ready (room m (Responded [] r)) w ->
  exists w', respond rq r w =
      (Throw (if msg_async m then return_async_exception else return_sync_exception), w') /\
    exists bs, answer_out m (Responded [] r) = Some bs /\ sent bs w w'.
Proof.
  intros Hm Hc Hr. destruct (cloudi_return_answers m [] r w Hm Hr) as (w' & He & Hs).
  exists w'. split; [|exact Hs].
  unfold respond. erewrite bind_next by (by apply called_name). cbv beta.
  erewrite bind_next by (by apply called_pattern). cbv beta.
  erewrite bind_next by (by apply called_trans_id). cbv beta.
  erewrite bind_next by (by apply called_pid). cbv beta.
  rewrite (ca_type _ _ _ Hc), (ca_timeout _ _ _ Hc). by apply bind_throw, call_throw.
Qed.

Lemma forward_answers m rq n r w :
  valid_message m -> called m rq w ->
  valid_answer (Forwarded n (msg_info m) r (msg_timeout m) (msg_priority m)) ->
  ready (room m (Forwarded n (msg_info m) r (msg_timeout m) (msg_priority m))) w ->
  exists w', forward rq n r w =
      (Throw (if msg_async m then forward_async_exception else forward_sync_exception), w') /\
    exists bs, answer_out m (Forwarded n (msg_info m) r (msg_timeout m) (msg_priority m)) = Some bs /\
      sent bs w w'.
Proof.
  intros Hm Hc Ha Hr. destruct (cloudi_forward_answers m n (msg_info m) r w Hm Ha Hr)
    as (w' & He & Hs).
  exists w'. split; [|exact Hs].
  unfold forward. erewrite bind_next by (by apply called_info). cbv beta.
  erewrite bind_next by (by apply called_trans_id). cbv beta.
  erewrite bind_next by (by apply called_pid). cbv beta.
  rewrite (ca_type _ _ _ Hc), (ca_timeout _ _ _ Hc), (ca_priority _ _ _ Hc).
  by apply bind_throw, call_throw.
Qed.
End answering.

(** ** What the services implement *)

Section instances.
Context {E : Ei} {laws : EiLaws E}.

#[export] Instance count_implements ep f :
  Implements Count.request ep f (fun _ => True) Count.spec.
Proof.
  intros m rq w _ Hm _ Hc. cbn [Count.spec]. intros _ Hr.
  set (c := (w_user w + 1) mod 2 ^ 32) in *.
  assert ((if w_user w =? 4294967295 then 0 else wrap32 (w_user w + 1)) = c) as Hn
    by (unfold c, wrap32; by destruct (Z.eqb_spec (w_user w) 4294967295) as [->|]).
  destruct (respond_answers m rq (decimal (int32 c)) (with_user c w) Hm) as (w' & He & Hs).
  { by apply called_with_user. }
  { by destruct Hr. }
  eexists _, w'. split; [|split; [|exact Hs]].
  - unfold Count.request, user, set_user. erewrite bind_next by reflexivity. cbv beta.
    erewrite bind_next by reflexivity. cbv beta. rewrite Hn.
    erewrite bind_next by reflexivity. cbv beta. cbn [w_user with_user].
    unfold snprintf_response. rewrite take_ge; [exact He|].
    pose proof (length_decimal (int32 c)). lia.
  - destruct (return_answers (msg_async m)) as (e & -> & Hin). by exists e.
Qed.

#[export] Instance null_implements ep f :
  Implements Null.request ep f (fun _ => True) Null.spec.
Proof.
  intros m rq w _ Hm _ Hc. cbn [Null.spec]. intros _ Hr.
  exists (Return tt), w. split; [done|]. split; [by right; left|]. by destruct w as [? ? []].
Qed.

#[export] Instance msg_size_implements ep f :
  Implements MsgSize.request ep f
    (fun m => Z.of_nat (length (msg_request m)) = MsgSize.MSG_SIZE) MsgSize.spec.
Proof.
  intros m rq w _ Hm Hacc Hc. cbn [MsgSize.spec]. intros Ha Hr.
  set (i := (le_combine (take 4 (msg_request m)) + 1) mod 2 ^ 32) in *.
  set (buffer := u32 i ++ drop 4 (msg_request m)) in *.
  destruct (forward_answers m rq MsgSize.DESTINATION buffer (with_user buffer w) Hm)
    as (w' & He & Hs); try done.
  { by apply called_with_user. }
  { by destruct Hr. }
  eexists _, w'. split; [|split; [|exact Hs]].
  - unfold MsgSize.request. rewrite (ca_request_size _ _ _ Hc), Hacc. cbn [Z.eqb Pos.eqb assert_or_abort].
    erewrite bind_next by reflexivity. cbv beta.
    erewrite bind_next by (rewrite <- Hacc, <- (ca_request_size _ _ _ Hc); by apply called_request).
    cbv beta zeta. unfold set_user. erewrite bind_next by reflexivity. cbv beta.
    assert ((if le_combine (take 4 (msg_request m)) =? 4294967295 then 0
      else wrap32 (le_combine (take 4 (msg_request m)) + 1)) = i) as ->
      by (unfold i, wrap32; by destruct (Z.eqb_spec (le_combine (take 4 (msg_request m))) 4294967295) as [->|]).
    erewrite bind_next by reflexivity. cbv beta. exact He.
  - destruct (forward_exception_answers (msg_async m)) as (e & -> & Hin). by exists e.
Qed.

(** *** http_req/c *)

Lemma fields_terminated (ss : list bytes) :
  Forall (fun s => NUL ∉ s) ss -> HttpReq.fields [] (terminated ss) = ss.
Proof.
  assert (forall field s rest, NUL ∉ s ->
    HttpReq.fields field (s ++ NUL :: rest) = (field ++ s) :: HttpReq.fields [] rest) as Hone.
  { intros field s. revert field. induction s as [|c s IH]; intros field rest Hs; cbn.
    - by rewrite decide_True, app_nil_r.
    - apply not_elem_of_cons in Hs as [Hc Hs]. rewrite decide_False by done.
      rewrite IH by done. by rewrite <- app_assoc. }
  induction 1 as [|s ss Hs _ IH]; [done|]. unfold terminated in *. cbn.
  rewrite <- app_assoc. cbn. rewrite Hone by done. by rewrite IH.
Qed.

Lemma pairs_strings l : HttpReq.pairs (strings_of l) = l.
Proof.
  induction l as [|[k v] l IH]; [done|]. unfold strings_of in *. cbn. by rewrite IH.
Qed.

Lemma query_pairs l text :
  HttpReq.query l -> text_pairs_list_to_binary l = Some text ->
  text = terminated (strings_of l) /\ HttpReq.pairs (HttpReq.fields [] text) = l.
Proof.
  intros [_ Hk Hv _ _] Ht. rewrite text_pairs_terminated in Ht by done. injection Ht as <-.
  split; [done|]. rewrite fields_terminated by (by apply strings_no_null). apply pairs_strings.
Qed.

(** What the loop finds among the pointers of a text. *)
Lemma find_value_ok text (w : world unit unit) n pre l rest post :
  0 <= ptr_off text ->
  deref (p_buffer_call (w_inst w)) text n = Some (pre ++ terminated (strings_of l) ++ post) ->
  Forall (fun s : bytes => NUL ∉ s) (strings_of l) ->
  exists o, HttpReq.find_value text
      ((Some <$> offsets (Z.of_nat (length pre)) (strings_of l)) ++ Some None :: rest) w =
      (Next o, w) /\
    match list_find (fun p => p.1 = chars "value") l with
    | Some (_, (_, v)) => exists z, o = Some z /\
        deref_cstr (p_buffer_call (w_inst w)) (mk_ptr (ptr_gen text) (ptr_off text + z)) = Some v
    | None => o = None
    end.
Proof.
  intros Hp. revert pre. induction l as [|[k v] l IH]; intros pre Hd Hs.
  { by exists None. }
  unfold strings_of in Hs |- *. cbn [map concat app] in Hs |- *. fold (strings_of l) in Hs |- *.
  apply Forall_cons in Hs as [Hk Hs]. apply Forall_cons in Hs as [Hv Hs].
  assert (pre ++ terminated (strings_of ((k, v) :: l)) ++ post =
    pre ++ k ++ NUL :: v ++ NUL :: terminated (strings_of l) ++ post) as Ht.
  { unfold terminated, strings_of. cbn. by rewrite <- !app_assoc. }
  rewrite Ht in Hd. cbn [offsets fmap list_fmap app HttpReq.find_value].
  pose proof (deref_string _ _ _ _ pre k _ Hp Hd eq_refl Hk) as Hkey.
  unfold call_cstr, field. rewrite bind_assoc.
  erewrite bind_next by reflexivity. cbv beta. rewrite Hkey. cbn [copt].
  erewrite bind_next by reflexivity. cbv beta. cbn [list_find fst].
  destruct (decide (k = chars "value")) as [->|Hne].
  - eexists. split; [reflexivity|]. eexists. split; [reflexivity|].
    replace (Z.of_nat (length pre) + Z.of_nat (length (chars "value")) + 1)
      with (Z.of_nat (length (pre ++ chars "value" ++ [NUL])))
      by (rewrite !length_app; cbn [length]; lia).
    eapply (deref_string _ _ _ _ (pre ++ chars "value" ++ [NUL]) v); [done|exact Hd| |done].
    by rewrite <- !app_assoc.
  - destruct (IH (pre ++ k ++ NUL :: v ++ [NUL])) as (o & He & Ho); [|done|].
    { rewrite Hd. f_equal. rewrite <- !app_assoc. cbn. by rewrite <- !app_assoc. }
    exists o. split.
    + rewrite <- He. do 4 f_equal. repeat (rewrite length_app || cbn [length]). lia.
    + destruct (list_find _ l) as [[i [k' v']]|]; exact Ho.
Qed.

Lemma reply_length l : (length (HttpReq.reply l) <= 127)%nat.
Proof.
  unfold HttpReq.reply. destruct (list_find _ l) as [[i [k v]]|]; [|vm_compute; lia].
  unfold HttpReq.response_value. rewrite !length_app.
  change (length (chars "<http_test><value>")) with 18%nat.
  change (length (chars "</value></http_test>")) with 20%nat.
  pose proof (length_decimal (atoi v)). lia.
Qed.

#[export] Instance http_implements ep f :
  Implements HttpReq.request ep f
    (fun m => exists l, HttpReq.query l /\ text_pairs_list_to_binary l = Some (msg_request m))
    HttpReq.spec.
Proof.
  intros m rq w _ Hm (l & Hq & Ht) Hc. cbn [HttpReq.spec]. intros _ Hr.
  destruct (query_pairs l _ Hq Ht) as [Htext Hpairs]. rewrite Hpairs in Hr |- *.
  destruct (respond_answers m rq (HttpReq.reply l) w Hm Hc Hr) as (w' & He & Hs).
  destruct (return_answers (msg_async m)) as (e & Hexc & Hin). rewrite Hexc in He.
  exists (Throw e), w'. split; [|split; [by exists e|by destruct w as [? ? []]]].
  pose proof Hq as [Hne Hk Hv Hsize Hint].
  unfold HttpReq.request. erewrite bind_next by (by apply called_request). cbv beta.
  erewrite bind_next by reflexivity. cbv beta.
  destruct (text_key_value_pointers (sys_realloc (w_sys w)) l) as [rest Hparse]; try done.
  { by destruct Hr. }
  rewrite Htext, Hparse. cbn [copt]. erewrite bind_next by reflexivity. cbv beta.
  destruct (find_value_ok (rq_request rq) w (rq_request_size rq + 1) [] l rest [NUL])
    as (o & Hfind & Ho).
  { apply Hc. }
  { cbn [app]. rewrite <- Htext. by apply Hc. }
  { by apply strings_no_null. }
  change (Z.of_nat (length (@nil byte))) with 0 in Hfind.
  erewrite bind_next by exact Hfind. cbv beta.
  erewrite bind_next; [exact He|]. unfold HttpReq.reply.
  destruct (list_find _ l) as [[i [k v]]|] eqn:Hlf; [|by subst].
  destruct Ho as (z & -> & Hz). unfold call_cstr, field. rewrite bind_assoc.
  erewrite bind_next by reflexivity. cbv beta. rewrite Hz. cbn [copt].
  erewrite bind_next by reflexivity. cbv beta.
  apply list_find_Some in Hlf as (Hi & Hkey & _). cbn in Hkey. subst k.
  eapply Forall_lookup_1 in Hint; [|exact Hi]. destruct (Hint eq_refl) as [z' Hz'].
  rewrite Hz'. unfold HttpReq.atoi_int in Hz'. case_decide; [|done]. injection Hz' as <-.
  cbn [copt]. erewrite bind_next by reflexivity. cbv beta. unfold cret. do 2 f_equal.
  unfold snprintf_response. rewrite take_ge; [done|].
  pose proof (reply_length [(chars "value", v)]) as Hl. unfold HttpReq.reply in Hl.
  cbn in Hl. exact Hl.
Qed.
End instances.

(** ** Properties *)

(** One callback function, which every request is for. *)
Lemma polls_alone {U} {E : Ei} {laws : EiLaws E} run accepts spec
    N B ms l u rest ps (w : world unit U) `{!forall f, Implements run (endpoint (w_inst w)) f accepts spec} :
  replies spec (w_user w) ms = (l, u) ->
  Forall (fun m => subscriptions w (msg_pattern m) = [callback_user tt]) ms ->
  starting N B ms l rest ps w -> Forall accepts ms ->
  exists w', cloudi_poll run (-1) w = (Return (cloudi_success : Z), w') /\
    served ms l u rest w w'.
Proof.
  intros Hr Hf Hst Hacc. apply (polls_served run (fun _ => accepts) (fun _ => spec) N B _ _ _ rest ps w); [|done|].
  - by rewrite (turns_alone _ _ _ _ tt).
  - by apply (all_accepted_alone _ _ _ tt).
Qed.

Section properties.
Context {E : Ei} {laws : EiLaws E}.

Definition count_answers (first n : nat) : list answer :=
  map (fun i => Responded [] (decimal (int32 (Z.of_nat i mod 2 ^ 32)))) (seq first n).

Lemma count_replies i ms :
  replies Count.spec (Z.of_nat i mod 2 ^ 32) ms =
    (count_answers (S i) (length ms), Z.of_nat (i + length ms) mod 2 ^ 32).
Proof.
  revert i. induction ms as [|m ms IH]; intros i; cbn [replies Count.spec].
  - by rewrite Nat.add_0_r.
  - replace ((Z.of_nat i mod 2 ^ 32 + 1) mod 2 ^ 32) with (Z.of_nat (S i) mod 2 ^ 32)
      by (rewrite Zplus_mod_idemp_l; f_equal; lia).
    rewrite IH. unfold count_answers. cbn [length seq map]. do 2 f_equal. lia.
Qed.

Definition http_answers (ls : list (list (bytes * bytes))) : list answer :=
  map (fun l => Responded [] (HttpReq.reply l)) ls.

Lemma http_replies ms ls u :
  Forall2 (fun m l => HttpReq.query l /\ text_pairs_list_to_binary l = Some (msg_request m)) ms ls ->
  replies HttpReq.spec u ms = (http_answers ls, u).
Proof.
  induction 1 as [|m l ms ls [Hq Ht] _ IH]; [done|]. cbn [replies HttpReq.spec].
  destruct (query_pairs l _ Hq Ht) as [_ ->]. by rewrite IH.
Qed.

(** C35. The service http_req/c.  When each request of a run is what the
    Erlang side encodes of the keys and values of a query, none of which is
    empty, and "value" is an [int], the answer to each is the number of its
    first "value", or that there is none. *)
Theorem http_service N B ms ls rest ps (w : world unit unit)
    (Hq : Forall2 (fun m l => HttpReq.query l /\
                     text_pairs_list_to_binary l = Some (msg_request m)) ms ls)
    (Hf : Forall (fun m => subscriptions w (msg_pattern m) = [callback_user tt]) ms)
    (Hst : starting N B ms (http_answers ls) rest ps w) :
  exists w', cloudi_poll HttpReq.request (-1) w = (Return (cloudi_success : Z), w') /\
    served ms (http_answers ls) (w_user w) rest w w'.
Proof.
  apply (polls_alone HttpReq.request _ HttpReq.spec N B _ _ _ rest ps w);
    [by apply http_replies|done|done|].
  clear Hst Hf. induction Hq as [|m l ms ls Hml _ IH]; constructor; [by exists l|done].
Qed.

(** The memory of a request, and the pointers into it. *)
Lemma find_value_past text k v pre s post rest (w : world unit unit) n :
  0 <= ptr_off text -> k = Z.of_nat (length pre) ->
  deref (p_buffer_call (w_inst w)) text n = Some (pre ++ s ++ NUL :: post) ->
  NUL ∉ s -> s <> chars "value" ->
  HttpReq.find_value text (Some (Some k) :: v :: rest) w = HttpReq.find_value text rest w.
Proof.
  intros Hp -> Hd Hs Hne. cbn [HttpReq.find_value]. unfold call_cstr, field. rewrite bind_assoc.
  erewrite bind_next by reflexivity. cbv beta.
  rewrite (deref_string _ _ _ _ pre s post Hp Hd eq_refl Hs). cbn [copt].
  erewrite bind_next by reflexivity. cbv beta. by rewrite decide_False.
Qed.

(** An odd number of strings: the loop passes over the null pointer after the
    last, where none of the strings it compares is the key. *)
Lemma find_value_odd text (w : world unit unit) n pre q a rest post :
  0 <= ptr_off text ->
  deref (p_buffer_call (w_inst w)) text n = Some (pre ++ terminated (strings_of q ++ [a]) ++ post) ->
  Forall (fun s => (NUL ∉ s) /\ s <> chars "value") (map fst q ++ [a]) ->
  Forall (eq None) rest ->
  HttpReq.find_value text
    ((Some <$> offsets (Z.of_nat (length pre)) (strings_of q ++ [a])) ++ Some None :: rest) w =
  (Undef, w).
Proof.
  intros Hp. revert pre. induction q as [|[k v] q IH]; intros pre Hd Hs Hrest.
  - apply Forall_cons in Hs as [[Ha Hne] _]. cbn [strings_of map concat app offsets fmap list_fmap].
    assert (pre ++ terminated [a] ++ post = pre ++ a ++ NUL :: post) as Ht
      by (unfold terminated; cbn; by rewrite app_nil_r, <- app_assoc).
    rewrite (find_value_past text _ _ pre a post _ w n Hp eq_refl); [|by rewrite <- Ht|done|done].
    by destruct Hrest as [|? ? <- _].
  - apply Forall_cons in Hs as [[Hk Hne] Hs].
    assert (pre ++ terminated (strings_of ((k, v) :: q) ++ [a]) ++ post =
      pre ++ k ++ NUL :: v ++ NUL :: terminated (strings_of q ++ [a]) ++ post) as Ht.
    { unfold terminated, strings_of. cbn. by rewrite <- !app_assoc. }
    rewrite Ht in Hd. unfold strings_of. cbn [map concat app offsets fmap list_fmap].
    fold (strings_of q).
    rewrite (find_value_past text _ _ pre k _ _ w n Hp eq_refl Hd Hk Hne).
    rewrite <- (IH (pre ++ k ++ NUL :: v ++ [NUL])); [|rewrite Hd; f_equal|done|done].
    + do 4 f_equal. rewrite !length_app. cbn [length]. rewrite length_app. cbn. lia.
    + rewrite <- !app_assoc. cbn. by rewrite <- !app_assoc.
Qed.

(** The strings after a lost key in pairs: a value with the key after it, and
    the last value. *)
Fixpoint regroup (v : bytes) (l : list (bytes * bytes)) : list (bytes * bytes) * bytes :=
  match l with
  | [] => ([], v)
  | (k', v') :: l => let '(q, a) := regroup v' l in ((v, k') :: q, a)
  end.

Lemma regroup_strings v l :
  v :: strings_of l = strings_of (regroup v l).1 ++ [(regroup v l).2] /\
  map fst (regroup v l).1 ++ [(regroup v l).2] = v :: map snd l.
Proof.
  revert v. induction l as [|[k' v'] l IH]; intros v; [done|]. cbn [regroup].
  destruct (IH v') as [H1 H2]. destruct (regroup v' l) as [q a]. cbn [fst snd map] in *.
  rewrite <- H2. split; [|done]. unfold strings_of in *. cbn. by rewrite H1.
Qed.

(** One value is missing, and not the last. *)
Record incomplete (l1 : list (bytes * bytes)) (k k2 v2 : bytes) (l2 : list (bytes * bytes)) : Prop := {
  ic_keys : Forall (fun '(k, _) => k <> [] /\ NUL ∉ k) (l1 ++ (k, []) :: (k2, v2) :: l2);
  ic_values : Forall (fun '(_, v) => v <> [] /\ NUL ∉ v) (l1 ++ (k2, v2) :: l2);
  ic_no_value : Forall (fun s => s <> chars "value") (map fst l1 ++ k :: v2 :: map snd l2);
  ic_size : Z.of_nat (length l1 + length l2) < 32000
}.

(** What is parsed: the key after the missing value is lost. *)
Lemma incomplete_parsed realloc_ok l1 k k2 v2 l2 text :
  (forall n, realloc_ok n = true) -> incomplete l1 k k2 v2 l2 ->
  text_pairs_list_to_binary (l1 ++ (k, []) :: (k2, v2) :: l2) = Some text ->
  exists q a rest, text = terminated (strings_of q ++ [a]) /\
    text_key_value_parse realloc_ok text =
      Some ((Some <$> offsets 0 (strings_of q ++ [a])) ++ Some None :: rest) /\
    Forall (eq None) rest /\ Forall (fun s => (NUL ∉ s) /\ s <> chars "value") (map fst q ++ [a]).
Proof.
  intros Hok [Hk Hv Hno Hsz] Ht. rewrite text_pairs_terminated in Ht by done. injection Ht as <-.
  destruct (regroup_strings v2 l2) as [H1 H2].
  set (q := l1 ++ (k, NUL :: k2) :: (regroup v2 l2).1). set (a := (regroup v2 l2).2) in *.
  assert (strings_of q ++ [a] = strings_of l1 ++ k :: (NUL :: k2) :: v2 :: strings_of l2) as Hq.
  { rewrite H1. unfold q, strings_of. rewrite map_app, concat_app, <- app_assoc. done. }
  assert (terminated (strings_of (l1 ++ (k, []) :: (k2, v2) :: l2)) =
    terminated (strings_of q ++ [a])) as ->.
  { rewrite Hq. unfold terminated, strings_of. by rewrite !map_app, !concat_app, map_app, concat_app. }
  apply Forall_app in Hk as [Hk1 Hk2]. apply Forall_cons in Hk2 as [[Hkne Hkn] Hk2].
  apply Forall_cons in Hk2 as [[Hk2ne Hk2n] Hk2].
  apply Forall_app in Hv as [Hv1 Hv2]. apply Forall_cons in Hv2 as [[Hv2ne Hv2n] Hv2].
  assert (Forall segment (strings_of q ++ [a])) as Hseg.
  { rewrite Hq. apply Forall_app. split; [by apply strings_segments|].
    constructor; [by apply segment_string|]. constructor; [by split|].
    constructor; [by apply segment_string|]. by apply strings_segments. }
  assert (length (strings_of q ++ [a]) = 2 * length l1 + 3 + 2 * length l2)%nat as Hlen.
  { rewrite Hq, length_app, length_strings_of. cbn. rewrite length_strings_of. lia. }
  destruct (strings_of q ++ [a]) as [|s ss] eqn:Eq; [cbn in Hlen; lia|].
  assert (2 <= length (terminated (s :: ss)))%nat as Hl2.
  { apply Forall_cons in Hseg as [[Hs _] _]. unfold terminated. cbn. rewrite !length_app.
    destruct s; [done|]. cbn. lia. }
  destruct (text_key_value_segments realloc_ok s ss Hok Hseg Hl2) as (rest & He & Hrest);
    [cbn in Hlen; lia|].
  exists q, a, rest. rewrite Eq. do 3 (split; [done|]).
  unfold q. rewrite map_app, <- app_assoc. cbn [map app fst]. rewrite H2.
  rewrite Forall_app, !Forall_cons in Hno |- *. destruct Hno as (? & ? & ? & ?).
  assert (forall (l : list bytes), Forall (fun s => NUL ∉ s) l -> Forall (fun s => s <> chars "value") l ->
    Forall (fun s => (NUL ∉ s) /\ s <> chars "value") l) as Hboth
    by (intros l Hl1 Hl2'; apply Forall_and; by split).
  split_and!; try done; apply Hboth; try done; apply Forall_map.
  - eapply Forall_impl; [exact Hk1|]. by intros [? ?] [_ ?].
  - eapply Forall_impl; [exact Hv2|]. by intros [? ?] [_ ?].
Qed.

(** C36. Queries the service http_req/c has no answer to.  With an empty
    request, and with pairs of which exactly one, and not the last, has no value
    (an empty one, which the encoder accepts), the array of pointers has an odd
    number of them: where the loop does not find the key "value" it passes over
    the null pointer at the end and reads what was never written.  That it does
    not find it: none of the keys up to the one without a value is "value", nor
    is any of the values after it, which the loop then takes for the keys. *)
Theorem http_undefined m rq (w : world unit unit)
    (Hc : called m rq w) (Ha : forall n, sys_realloc (w_sys w) n = true)
    (Hm : msg_request m = [] \/
      exists l1 k k2 v2 l2, incomplete l1 k k2 v2 l2 /\
        text_pairs_list_to_binary (l1 ++ (k, []) :: (k2, v2) :: l2) = Some (msg_request m)) :
  HttpReq.request tt rq w = (Undef, w).
Proof.
  unfold HttpReq.request. erewrite bind_next by (by apply called_request). cbv beta.
  erewrite bind_next by reflexivity. cbv beta.
  pose proof (ca_request_ptr _ _ _ Hc) as Hp. pose proof (ca_request _ _ _ Hc) as Hd.
  assert (exists q a rest post, msg_request m ++ [NUL] = terminated (strings_of q ++ [a]) ++ post /\
    text_key_value_parse (sys_realloc (w_sys w)) (msg_request m) =
      Some ((Some <$> offsets 0 (strings_of q ++ [a])) ++ Some None :: rest) /\
    Forall (eq None) rest /\ Forall (fun s => (NUL ∉ s) /\ s <> chars "value") (map fst q ++ [a]))
    as (q & a & rest & post & Htext & -> & Hrest & Hs).
  { destruct Hm as [->|(l1 & k & k2 & v2 & l2 & Hi & Ht)].
    - exists [], [], (replicate 126 None), []. split; [done|]. split; [vm_compute; reflexivity|].
      split; [by apply Forall_replicate|]. constructor; [|constructor].
      split; [apply not_elem_of_nil|discriminate].
    - destruct (incomplete_parsed _ _ _ _ _ _ _ Ha Hi Ht) as (q & a & rest & -> & He & Hrest & Hs).
      by exists q, a, rest, [NUL]. }
  cbn [copt]. erewrite bind_next by reflexivity. cbv beta.
  rewrite Htext in Hd. erewrite bind_undef; [done|].
  exact (find_value_odd _ w _ [] q a rest post Hp Hd Hs Hrest).
Qed.
End properties.

(** ** Examples *)

Definition example_message (async : bool) (request : bytes) : message :=
  mk_message async (chars "/p/c/get") (chars "/p/c/get") [] request 5000 0 (replicate 16 NUL)
    example_pid.

Lemma example_valid async request : valid_message (example_message async request).
Proof.
  split; cbn [example_message msg_name msg_pattern msg_timeout msg_priority msg_trans_id msg_source].
  1, 2: refine (bool_decide_unpack _ _); vm_compute; exact Logic.I.
  1, 2: vm_compute; discriminate.
  1, 2: lia.
  - reflexivity.
  - exists 1%nat. split; [reflexivity|vm_compute; discriminate].
Qed.

(** An instance with one subscription, and the requests of a run. *)
Definition example_service {U} (u : U) (ms : list message) : world unit U :=
  mk_world (set_lookup {[chars "/p/c/get" := queue_new (callback_user tt)]} (example_instance unit 1))
    (mk_sys (concat (map (frame 1) (map message_out ms ++ [terminate_out])))
       (replicate 1000 (rd_some 3)) [] (replicate 1000 (wr_some 2))
       (replicate (S (length ms)) pl_ready) [] (fun _ => true)) u.

(** Up to three requests of up to 300 bytes. *)
Definition example_fits (ms : list message) : bool :=
  Nat.leb (length ms) 3 &&
  forallb (fun m => (Z.of_nat (length (message_out m)) <=? 300) &&
                    bool_decide (msg_pattern m = chars "/p/c/get")) ms.

Lemma example_fits_spec ms :
  example_fits ms = true -> (length ms <= 3)%nat /\
  Forall (fun m => Z.of_nat (length (message_out m)) <= 300) ms /\
  Forall (fun m => msg_pattern m = chars "/p/c/get") ms.
Proof.
  unfold example_fits. intros [H1%Nat.leb_le H2]%andb_prop.
  split; [exact H1|]. rewrite <- Forall_and. clear H1.
  induction ms as [|m ms IH]; [constructor|]. cbn [forallb] in H2.
  apply andb_prop in H2 as [[H3%Z.leb_le H4%bool_decide_eq_true]%andb_prop H2].
  constructor; auto.
Qed.

Lemma example_starting {U} (u : U) ms l :
  example_fits ms = true -> Forall valid_message ms -> Forall valid_answer l ->
  Forall2 (fun m a => room m a <= 300) ms l ->
  starting 300 600 ms l [] [] (example_service u ms).
Proof.
  intros (Hn & Hlen & Hp)%example_fits_spec Hms Hl Hroom.
  assert (sizes 300 600 ms l) as Hsz.
  { split; [lia|]. split; [lia|]. split; [lia|]. split; [done|].
    eapply Forall2_impl; [exact Hroom|]. intros m a H. cbv beta in H. unfold INT_MAX. lia. }
  assert (foldr Nat.add 8 (map (fun m => 4 + length (message_out m)) ms) <= 1000)%nat as Hr.
  { enough (foldr Nat.add 8 (map (fun m => 4 + length (message_out m)) ms)
      <= 8 + 304 * length ms)%nat by lia. clear -Hlen.
    induction Hlen as [|m ms Hm _ IH]; cbn [map foldr length]; lia. }
  assert (foldr Z.add 0 (zip_with room ms l) <= 900) as Hw.
  { enough (foldr Z.add 0 (zip_with room ms l) <= 300 * Z.of_nat (length ms)) by lia. clear -Hroom.
    induction Hroom as [|m a ms l Hm _ IH]; cbn [zip_with foldr length]; lia. }
  assert (wf (construct (T := byte) 1 256 65536)) as Hwf
    by (split; [reflexivity|split; reflexivity]).
  split; [exact Hsz| |exact Hms|exact Hl|reflexivity|apply good_writes_replicate; lia].
  split.
  - discriminate.
  - reflexivity.
  - symmetry. apply app_nil_r.
  - symmetry. apply app_nil_r.
  - by apply good_reads_replicate.
  - apply good_writes_replicate. lia.
  - reflexivity.
  - exact Hwf.
  - vm_compute. discriminate.
  - vm_compute. discriminate.
  - exact Hwf.
  - vm_compute. discriminate.
  - split; [exact Hwf|vm_compute; discriminate].
  - eapply Forall2_impl; [exact Hroom|]. intros m a H. cbv beta in H.
    change (room m a + 128 <= 65536). lia.
  - apply map_Forall_singleton. split; [reflexivity|discriminate].
Qed.

Definition example_run : list message :=
  [example_message true []; example_message false (chars "any")].

Lemma example_run_valid : Forall valid_message example_run.
Proof. repeat constructor; apply example_valid. Qed.

Lemma example_run_starting {U} (u : U) l :
  Forall valid_answer l -> Forall2 (fun m a => room m a <= 300) example_run l ->
  starting 300 600 example_run l [] [] (example_service u example_run).
Proof. apply example_starting; [vm_compute; reflexivity|exact example_run_valid]. Qed.

(** Its subscription. *)
Lemma example_subscribed {U} (u : U) ms :
  example_fits ms = true ->
  Forall (fun m => subscriptions (example_service u ms) (msg_pattern m) = [callback_user tt]) ms.
Proof.
  intros (_ & _ & Hp)%example_fits_spec. eapply Forall_impl; [exact Hp|].
  intros m Hm. cbv beta in Hm. rewrite Hm. reflexivity.
Qed.

(** Half a second for the same requests, which take 300 milliseconds each. *)
Definition example_limited {U} (u : U) : world unit U :=
  let w := example_service u example_run in
  mk_world (w_inst w) (set_elapsed [300; 300] (w_sys w)) (w_user w).

Lemma example_limited_starting {U} (u : U) l :
  Forall valid_answer l -> Forall2 (fun m a => room m a <= 300) example_run l ->
  starting 300 600 example_run l [] [] (example_limited u).
Proof. intros Hv Hr. by destruct (example_run_starting u l Hv Hr) as [? [] ? ? ? ?]. Qed.

Lemma example_limited_subscribed {U} (u : U) :
  Forall (fun m => subscriptions (example_limited u) (msg_pattern m) = [callback_user tt]) example_run.
Proof.
  assert (subscriptions (example_limited u) = subscriptions (example_service u example_run)) as ->
    by (unfold subscriptions, example_limited; reflexivity).
  apply (example_subscribed u example_run). vm_compute. reflexivity.
Qed.

Lemma example_limited_over k : time_over 500 [300; 300] k -> (k <= 2)%nat -> k = 2%nat.
Proof.
  intros [? [?|[_ Ho]]] Hk; [discriminate|].
  assert (k = 1 \/ k = 2)%nat as [-> | ->] by lia; [|reflexivity]. cbn in Ho. lia.
Qed.

(** The time is over after the second request, before the message that ends
    the service. *)
Lemma service_refines_witness :
  exists w', cloudi_poll Null.request 500 (example_limited tt) = (Return (cloudi_timeout : Z), w') /\
    interrupted (fun _ _ => True) (fun _ => Null.spec) 300 600 example_run
      [Unanswered; Unanswered] tt [] [] 2 (example_limited tt) w'.
Proof.
  destruct (service_refines Null.request (fun _ _ => True) (fun _ => Null.spec) 500 300 600
    example_run [Unanswered; Unanswered] tt [] [] (example_limited tt))
    as (k & w' & Hk & Hearly & [(Hn & -> & _)|(Ho & He & Hi)]).
  - vm_compute. reflexivity.
  - apply example_limited_starting; repeat constructor; discriminate.
  - apply (all_accepted_alone _ _ _ tt); [|repeat constructor].
    apply example_limited_subscribed.
  - intros _. vm_compute. lia.
  - exfalso. apply Hn. split; [vm_compute; lia|]. right. vm_compute. intuition discriminate.
  - rewrite (example_limited_over k Ho Hk) in Hi. exact (ex_intro _ w' (conj He Hi)).
Defined.

(** A query of an Erlang service: [[{"value", <<"42">>}]]. *)
Definition example_query : list (bytes * bytes) := [(chars "value", chars "42")].
Definition example_queries : list message :=
  [example_message false (chars "value" ++ NUL :: chars "42" ++ [NUL])].

Lemma http_service_witness :
  exists w', cloudi_poll HttpReq.request (-1) (example_service tt example_queries) =
      (Return (cloudi_success : Z), w') /\
    served example_queries
      [Responded [] (chars "<http_test><value>42</value></http_test>")] tt []
      (example_service tt example_queries) w'.
Proof.
  apply (http_service 300 600 example_queries [example_query] [] []
    (example_service tt example_queries)).
  - constructor; [|constructor]. split; [|reflexivity].
    assert (forall s : bytes, bool_decide (NUL ∈ s) = false -> NUL ∉ s) as Hnul
      by (intros s; apply bool_decide_eq_false).
    split; [discriminate|..|reflexivity|]; (constructor; [|constructor]).
    + split; [discriminate|apply Hnul; reflexivity].
    + split; [discriminate|apply Hnul; reflexivity].
    + intros _. exists 42. reflexivity.
  - apply example_subscribed. vm_compute. reflexivity.
  - apply example_starting; [vm_compute; reflexivity|..].
    + constructor; [apply example_valid|constructor].
    + repeat constructor.
    + repeat constructor; vm_compute; discriminate.
Defined.

(** A call with the query of [[{"k", <<>>}, {"value", <<"7">>}]], in
    [buffer_call]. *)
Definition example_incomplete : bytes :=
  chars "k" ++ NUL :: NUL :: chars "value" ++ NUL :: chars "7" ++ [NUL].
Definition example_incomplete_buffer : buffer_t :=
  set_cells (construct 1 256 65536)
    (store (replicate 256 None) 0 (message_out (example_message true example_incomplete))).

Lemma http_undefined_witness :
  exists rq w,
    called (U := unit) (F := unit) (example_message true example_incomplete) rq w /\
    HttpReq.request tt rq w = (Undef, w).
Proof.
  set (m := example_message true example_incomplete).
  set (rq := send_request CLOUDI_ASYNC (msg_name m) (msg_pattern m) [] example_incomplete 5000 0
    example_pid example_incomplete_buffer).
  set (w := upd_inst (set_buffer_call example_incomplete_buffer) (example_world unit 1 [] [])).
  assert (called m rq w) as Hc.
  { apply (send_request_called m example_incomplete_buffer w); [apply example_valid| |reflexivity].
    split; [split; [|split]|split; [lia|split]]; vm_compute; reflexivity. }
  exists rq, w. split; [exact Hc|]. apply (http_undefined m rq w Hc).
  - reflexivity.
  - right. exists [], (chars "k"), (chars "value"), (chars "7"), []. split; [|reflexivity].
    split; [refine (bool_decide_unpack _ _); vm_compute; exact Logic.I..|reflexivity].
Defined.
