(* ===== verification/Program.v ===== *)
(** * Whole programs

    A service from its [main] to its end: the environment of the process, the
    first message of the VM, the subscription, the requests, and the message
    that ends it.  The program is [main] and [process_requests] of Services
    with one callback function, as in count/c and null/c of src/tests. *)

From S2P Require Import Prelude Text CMonad Status Sys ReallocPtr Framing Lookup Ei Instance Requests Poll Calls Messages Callback Serve Start Services.

Section program.
Context {U : Type} {E : Ei} {laws : EiLaws E}.
Context (run : unit -> request -> C (world unit U) unit unit).
Implicit Types (w : world unit U).

(** What it does: it ends after the message that says so, having closed its
    descriptor and written a message for each step. *)
Definition completed (pattern : bytes) (ms : list message) (l : list answer) (u : U)
    (rest : bytes) w w' : Prop :=
  w_user w' = u /\ sys_in (w_sys w') = rest /\
  exists ib sb pb outs, term_bytes init_terms = Some ib /\
    term_bytes (subscribe_terms pattern) = Some sb /\ term_bytes polling_terms = Some pb /\
    replies_out ms l = Some outs /\
    sys_out (w_sys w') = sys_out (w_sys w) ++ concat (map (frame 1) (ib :: sb :: pb :: outs)).

Lemma program_completes accepts spec `{!forall ep f, Implements run ep f accepts spec} getenv c pattern
    N B ms l u rest ps w :
  environment 1 getenv -> incoming c (Z.to_nat (strlen pattern + 180)) N B ms l rest ps w ->
  strlen pattern <= 65535 -> Forall (fun m => msg_pattern m = cf_prefix c ++ pattern) ms ->
  replies spec (w_user w) ms = (l, u) -> Forall accepts ms ->
  exists w', main getenv (fun i => process_requests run getenv i (cret tt) pattern) w =
      (Next [3], w') /\ completed pattern ms l u rest w w'.
Proof.
  intros Henv Hic Hpattern Hms Hspec Hacc.
  destruct (incoming_initializes run 1 getenv 0 c _ N B ms l rest ps w Henv ltac:(lia) Hic)
    as (ib & w1 & Hib & Hi & Hs1 & Hl1 & Hu1 & _ & Ho1).
  destruct Hic.
  destruct (subscribe_ok _ _ _ _ _ _ _ pattern tt w1 Hs1 (vc_prefix _ ic_configuration) Hpattern)
    as (sb & w2 & Hsb & Hs & Hs2 & Hl2 & Hu2 & _ & Ho2).
  rewrite Hl1 in Hl2.
  destruct (lookup_insert_refines (cf_prefix c ++ pattern) (callback_user tt) ∅) as [Hwf Habs];
    [by apply map_Forall_empty|].
  assert (starting N B ms l rest ps w2) as Hst.
  { apply (open_starting c 3); try done; [by rewrite Hl2|by destruct ic_buffer]. }
  destruct (polls_alone run accepts spec N B ms l u rest ps w2)
    as (w' & Hp & Ht & Hend & Hu & Hin & pb & outs & Hpb & Houts & Ho); try done.
  { by rewrite Hu2, Hu1. }
  { eapply Forall_impl; [exact Hms|]. intros m ->. unfold subscriptions.
    rewrite Hl2, Habs. unfold upd. by rewrite decide_True. }
  destruct Hs2. rewrite sd_endpoint in Hend. injection sd_endpoint as Hh _ _ _.
  injection Hend as _ Hfi Hfo _.
  exists w'. split.
  - unfold main, cloudi_initialize_thread_count. rewrite (en_thread_count _ _ Henv).
    change (atoi (decimal 1)) with 1. cbn [Z.ltb Z.compare Z.eqb status_value assert_or_abort].
    erewrite bind_next by reflexivity. cbv beta. erewrite bind_next by reflexivity. cbv beta.
    erewrite bind_next by reflexivity. cbv beta. unfold process_requests.
    erewrite bind_next by (apply call_return; exact Hi). cbv beta.
    erewrite bind_next by reflexivity. cbv beta. erewrite bind_next by reflexivity. cbv beta.
    erewrite bind_next by (apply call_return; exact Hs). cbv beta.
    erewrite bind_next by reflexivity. cbv beta.
    erewrite bind_next by (apply call_return; exact Hp). cbv beta.
    unfold creads, cloudi_destroy. by rewrite Hfi, Hfo.
  - split; [done|]. split; [done|]. exists ib, sb, pb, outs.
    split_and!; try done. rewrite Ho, Ho2, Ho1, Hh. cbn [map concat]. by rewrite <- !app_assoc.
Qed.
End program.

(** ** Properties *)

Section properties.
Context {E : Ei} {laws : EiLaws E}.

(** C2. The program count/c, from [main] to its end.  In the environment of
    a process of one thread, with the first message of the VM, requests to
    "c/get" and the message that ends a service to come, it initialises,
    subscribes, and answers the requests with 1, 2, 3 and so on, each as text,
    whatever the requests hold and whether they are synchronous or not; after
    4294967295 it goes on with 0.  What it prints of a count of 2147483648 or
    more is the negative [int] with its bits.  What it writes is one message
    for each step and no other; at its end the descriptor is closed. *)
Theorem count_program getenv c N B ms rest ps (w : world unit Z)
    (Henv : environment 1 getenv)
    (Hin : incoming c (Z.to_nat (strlen (chars "c/get") + 180)) N B ms
             (count_answers 1 (length ms)) rest ps w)
    (Hms : Forall (fun m => msg_pattern m = cf_prefix c ++ chars "c/get") ms) :
  exists w', Count.program getenv w = (Next [3], w') /\
    completed (chars "c/get") ms (count_answers 1 (length ms))
      (Z.of_nat (length ms) mod 2 ^ 32) rest w w'.
Proof.
  assert (incoming c (Z.to_nat (strlen (chars "c/get") + 180)) N B ms
    (count_answers 1 (length ms)) rest ps (with_user 0 w)) as Hin' by (destruct Hin; by split).
  destruct (program_completes Count.request (fun _ => True) Count.spec getenv c (chars "c/get")
    N B ms _ _ rest ps _ Henv Hin' ltac:(by vm_compute) Hms (count_replies 0 ms))
    as (w' & He & Hc); [by apply Forall_true|].
  exists w'. split; [|exact Hc].
  unfold Count.program, set_user. by erewrite bind_next by reflexivity.
Qed.
End properties.

(** ** Examples *)

Definition example_process : world unit Z :=
  mk_world (example_instance unit 1)
    (mk_sys (concat (map (frame 1) (configuration_out example_configuration ::
         map message_out example_run ++ [terminate_out])))
       (replicate 1000 (rd_some 3)) [] (replicate 1000 (wr_some 2))
       (replicate 4 pl_ready) [] (fun _ => true)) 7.

Lemma count_program_witness :
  exists w', Count.program (example_getenv 1) example_process = (Next [3], w') /\
    completed (chars "c/get") example_run [Responded [] (chars "1"); Responded [] (chars "2")] 2 []
      example_process w'.
Proof.
  apply (count_program (example_getenv 1) example_configuration 300 32768 example_run [] []
    example_process (example_environment 1)); [|repeat constructor].
  split.
  - split; [|cbn; lia|refine (bool_decide_unpack _ _); vm_compute; exact Logic.I].
    repeat constructor; discriminate.
  - split; [lia|]. split; [lia|]. split; [lia|].
    split; repeat constructor; vm_compute; discriminate.
  - split; vm_compute; discriminate.
  - vm_compute. discriminate.
  - exact example_run_valid.
  - repeat constructor.
  - symmetry. apply app_nil_r.
  - reflexivity.
  - apply good_reads_replicate. vm_compute. lia.
  - apply good_writes_replicate. vm_compute. lia.
  - reflexivity.
Defined.
