(* ===== verification/Invariant.v ===== *)
(** * The invariant of an instance

    Every operation of the API, however it ends and whatever the environment
    answers, leaves the buffers as large as they say, the subscriptions
    consistent, and has not run out of the fuel of a loop.  The loops are
    bounded by a budget: the answers of [poll] and the bytes of the stream
    still to come, which no operation increases. *)

From S2P Require Import Prelude CMonad Status Sys ReallocPtr Framing Lookup Ei Instance Requests Poll Calls.

Section invariant.
Context {F U : Type} {E : Ei}.
Abbreviation M := (C (world F U)).
Implicit Types (w : world F U) (n : nat).

(** What is kept of the subscriptions: any property that the turns of
    [find] do not change. *)
Context (L : lookup_t F -> Prop).
Context (L_find : forall k l f l', L l -> lookup_find k l = Some (f, l') -> L l').

(** What the environment can still answer: bounds every loop. *)
Definition budget (s : sys) : nat := length (sys_polls s) + length (sys_in s).

(** And of what the callback functions read and write: any property. *)
Context (J : U -> Prop).

Record inst_ok (p : cloudi_instance_t F) (u : U) : Prop := {
  wf_send : wf (p_buffer_send p);
  wf_recv : wf (p_buffer_recv p);
  wf_call : wf (p_buffer_call p);
  wf_lookup : L (p_lookup p);
  wf_user : J u
}.

(** With a bound on the budget and, between a message's arrival and its end,
    on its length. *)
Definition inv n (m : option Z) w : Prop :=
  inst_ok (w_inst w) (w_user w) /\ (budget (w_sys w) <= n)%nat /\
  match m with
  | Some k => 0 <= p_buffer_recv_index (w_inst w) <= k
  | None => True
  end.

Lemma inv_weaken n m w : inv n m w -> inv n None w.
Proof. by intros (H1 & H2 & _). Qed.

(** A setter of a field the invariant does not mention. *)
Definition neutral (f : cloudi_instance_t F -> cloudi_instance_t F) : Prop :=
  forall n m w, inv n m w -> inv n m (upd_inst f w).

Lemma neutral_intro f :
  (forall p, p_buffer_send (f p) = p_buffer_send p /\
    p_buffer_recv (f p) = p_buffer_recv p /\ p_buffer_call (f p) = p_buffer_call p /\
    p_lookup (f p) = p_lookup p /\ p_buffer_recv_index (f p) = p_buffer_recv_index p) ->
  neutral f.
Proof.
  intros H n m w ([H1 H2 H3 H4 H5] & Hb & Hm).
  destruct (H (w_inst w)) as (E1 & E2 & E3 & E4 & E5).
  split; [|split]; [constructor| |]; cbn; by rewrite ?E1, ?E2, ?E3, ?E4, ?E5.
Qed.

Section fixed.
Context (n : nat) (m : option Z) {R : Type} (ρ : R -> Prop).
Abbreviation keeps := (yields (inv n m)).

Lemma keeps_field {A} (φ : A -> Prop) f :
  (forall w, inv n m w -> φ (f (w_inst w))) -> keeps φ ρ (field f).
Proof. intros H. by apply yields_reads. Qed.

Lemma keeps_assign f : neutral f -> keeps any ρ (assign f).
Proof. intros H. apply yields_modify; [|done]. intros s. apply H. Qed.

Lemma keeps_set_send b : wf b -> keeps any ρ (assign (set_buffer_send b)).
Proof.
  intros Hb. apply yields_modify; [|done]. intros w ([] & ? & ?).
  split; [|done]. by constructor.
Qed.
Lemma keeps_set_call b : wf b -> keeps any ρ (assign (set_buffer_call b)).
Proof.
  intros Hb. apply yields_modify; [|done]. intros w ([] & ? & ?).
  split; [|done]. by constructor.
Qed.
Lemma keeps_set_lookup l : L l -> keeps any ρ (assign (set_lookup l)).
Proof.
  intros Hb. apply yields_modify; [|done]. intros w ([] & ? & ?).
  split; [|done]. by constructor.
Qed.

Lemma keeps_send_field : keeps (fun b => wf b) ρ (field p_buffer_send).
Proof. apply keeps_field. intros w (H & _). apply H. Qed.
Lemma keeps_recv_field : keeps (fun b => wf b) ρ (field p_buffer_recv).
Proof. apply keeps_field. intros w (H & _). apply H. Qed.
Lemma keeps_call_field : keeps (fun b => wf b) ρ (field p_buffer_call).
Proof. apply keeps_field. intros w (H & _). apply H. Qed.
Lemma keeps_lookup_field : keeps L ρ (field p_lookup).
Proof. apply keeps_field. intros w (H & _). apply H. Qed.

(** A function of the socket that leaves the budget. *)
Lemma keeps_on_sys {A} (φ : A -> Prop) (c : C sys R A) :
  (forall s, let '(o, s') := c s in
     (budget s' <= budget s)%nat /\
     match o with
     | Next a => φ a | Return r => ρ r | NoFuel => False | _ => True
     end) -> keeps φ ρ (on_sys c).
Proof.
  intros H w (Hwf & Hb & Hm). unfold on_sys. specialize (H (w_sys w)).
  destruct (c (w_sys w)) as [o s']. destruct H as [H1 H2]. cbn.
  split; [split; [done|]; split; [cbn; lia|done]|]. by destruct o.
Qed.

Lemma keeps_reserve_send size : keeps any ρ (reserve_send size).
Proof.
  unfold reserve_send.
  apply yields_bind with (fun w => wf (p_buffer_send (w_inst w))).
  { apply yields_get. intros w ([] & _). done. }
  intros w Hw. apply yields_bind with (fun '(ok, b) => wf b).
  { apply yields_opt. intros [ok b] Hr. by eapply reserve_wf. }
  intros [ok b] Hb. apply yields_bind with any; [by apply keeps_set_send|].
  intros. by apply yields_ret.
Qed.
End fixed.

#[local] Hint Resolve keeps_send_field keeps_recv_field keeps_call_field
  keeps_lookup_field keeps_set_send keeps_set_call keeps_set_lookup
  keeps_reserve_send set_cells_wf length_store yields_call : yields.

(** A setter of a plain field. *)
Ltac neutral := intros; apply neutral_intro; intros; by repeat split.

Section requests.
Context (n : nat) (m : option Z).
Abbreviation keeps := (yields (inv n m)).

Lemma keeps_append index bs : keeps any any (append index bs).
Proof.
  unfold append. yields.
Qed.

Lemma keeps_encode index t : keeps any any (encode index t).
Proof. destruct t; [apply keeps_append|by apply yields_return]. Qed.

Lemma keeps_encode_all index ts : keeps any any (encode_all index ts).
Proof.
  revert index. induction ts as [|t ts IH]; intros index; cbn.
  - by apply yields_ret.
  - eapply yields_bind; [apply keeps_encode|]. intros. apply IH.
Qed.

Lemma keeps_start_index {R} (ρ : R -> Prop) : keeps any ρ start_index.
Proof. unfold start_index. by apply yields_reads. Qed.
#[local] Hint Resolve keeps_append keeps_encode keeps_encode_all keeps_start_index
  : yields.

Lemma keeps_encode_request pre room post :
  keeps any any (encode_request pre room post).
Proof. unfold encode_request, reserve_or_overflow. yields. Qed.

Lemma keeps_send_buffer index : keeps any any (send_buffer index).
Proof.
  unfold send_buffer. eapply yields_bind; [by apply keeps_field with (φ := any)|].
  intros uh _. eapply yields_bind; [apply keeps_send_field|]. intros b Hb.
  apply yields_bind with (fun '(st, mb) => length mb = length (m_p b)).
  { apply yields_call, keeps_on_sys. intros s.
    pose proof (write_exact_keeps uh (m_p b) index s) as H.
    destruct (write_exact _ _ _ s) as [o s']. destruct H as [(out & ws & ->) H].
    split; [done|]. destruct o as [[]|[]| | | |]; done. }
  intros [st mb] Hl. yields.
Qed.
#[local] Hint Resolve keeps_encode_request keeps_send_buffer : yields.

Lemma keeps_send_result index : keeps any any (send_result index).
Proof. unfold send_result. yields. Qed.
#[local] Hint Resolve keeps_send_result : yields.

Lemma keeps_any_field {A R} (f : cloudi_instance_t F -> A) (ρ : R -> Prop) :
  keeps any ρ (field f).
Proof. by apply keeps_field. Qed.
#[local] Hint Resolve keeps_any_field : yields.

Lemma keeps_prefix_string {R} (ρ : R -> Prop) : keeps any ρ prefix_string.
Proof. unfold prefix_string. yields. Qed.
#[local] Hint Resolve keeps_prefix_string : yields.

Lemma keeps_cloudi_subscribe_ pattern f :
  (forall k l, L l -> L (lookup_insert k f l)) ->
  keeps any any (cloudi_subscribe_ pattern f).
Proof.
  intros Hi. unfold cloudi_subscribe_. eapply yields_bind; [apply keeps_prefix_string|].
  intros prefix _. eapply yields_bind; [apply keeps_lookup_field|].
  intros l Hl. eapply yields_bind.
  { apply keeps_set_lookup. by apply Hi. }
  intros. yields.
Qed.

Lemma keeps_cloudi_subscribe pattern f :
  (forall k l, L l -> L (lookup_insert k (callback_user f) l)) ->
  keeps any any (cloudi_subscribe pattern f).
Proof.
  intros Hi. unfold cloudi_subscribe. eapply yields_bind; [|intros; by apply yields_return].
  by apply yields_call, keeps_cloudi_subscribe_.
Qed.

Lemma keeps_cloudi_unsubscribe pattern :
  (forall k l w, L l ->
     exists b l', lookup_remove (R := Z) k l w = (Next (b, l'), w) /\ L l') ->
  keeps any any (cloudi_unsubscribe pattern).
Proof.
  intros Hr. unfold cloudi_unsubscribe. eapply yields_bind; [apply keeps_prefix_string|].
  intros prefix _. eapply yields_bind; [apply keeps_lookup_field|].
  intros l Hl. apply yields_bind with (fun '(_, l') => L l').
  { intros w Hw. by destruct (Hr (prefix ++ pattern) l w Hl) as (b & l' & -> & Hl'). }
  intros [b l'] Hl'. eapply yields_bind; [by apply keeps_set_lookup|].
  intros. yields.
Qed.

Lemma keeps_append_pid_and_write index pid :
  keeps any any (append_pid_and_write index pid).
Proof. unfold append_pid_and_write. yields. Qed.
#[local] Hint Resolve keeps_append_pid_and_write : yields.

Lemma keeps_cloudi_forward_ c name info req timeout priority trans_id pid :
  keeps any any (cloudi_forward_ c name info req timeout priority trans_id pid).
Proof. unfold cloudi_forward_. yields. Qed.
Lemma keeps_cloudi_return_ c name pattern info resp timeout trans_id pid :
  keeps any any (cloudi_return_ c name pattern info resp timeout trans_id pid).
Proof. unfold cloudi_return_. yields. Qed.
#[local] Hint Resolve keeps_cloudi_forward_ keeps_cloudi_return_ : yields.

Lemma keeps_throw_on_success result e : keeps any any (throw_on_success result e).
Proof. unfold throw_on_success. yields. Qed.
#[local] Hint Resolve keeps_throw_on_success : yields.

Lemma keeps_cloudi_forward t name info req timeout priority trans_id pid :
  keeps any any (cloudi_forward t name info req timeout priority trans_id pid).
Proof. unfold cloudi_forward. yields. Qed.
Lemma keeps_cloudi_return t name pattern info resp timeout trans_id pid :
  keeps any any (cloudi_return t name pattern info resp timeout trans_id pid).
Proof. unfold cloudi_return. yields. Qed.
#[local] Hint Resolve keeps_cloudi_forward keeps_cloudi_return : yields.

Lemma keeps_cloudi_shutdown reason : keeps any any (cloudi_shutdown reason).
Proof. unfold cloudi_shutdown. yields. Qed.
Lemma keeps_polling : keeps any any polling.
Proof. unfold polling. yields. Qed.
Lemma keeps_keepalive : keeps any any keepalive.
Proof. unfold keepalive. yields. Qed.
End requests.

#[local] Hint Resolve keeps_cloudi_return keeps_keepalive keeps_polling
  keeps_any_field keeps_start_index keeps_encode_all keeps_encode_request
  keeps_send_buffer : yields.

Section poll.
(** Callback functions keep the invariant, as the operations of the API
    do. *)
Context (run : F -> request -> C (world F U) unit unit).
Context (Hrun : forall n f rq, yields (inv n None) any any (run f rq)).
Context (n : nat).

Section incoming.
Context (m : option Z) {R : Type} (ρ : R -> Prop).
Abbreviation keeps := (yields (inv n m)).

Lemma keeps_address b index : keeps any ρ (address b index).
Proof. unfold address. yields. Qed.

Lemma keeps_uint32 b index :
  keeps (fun '(v, i) => i = wrap32 (index + 4)) ρ (store_incoming_uint32 b index).
Proof.
  unfold store_incoming_uint32. yields.
Qed.

Lemma keeps_int8 b index :
  keeps (fun '(v, i) => i = wrap32 (index + 1)) ρ (store_incoming_int8 b index).
Proof.
  unfold store_incoming_int8. yields.
Qed.

Lemma keeps_binary b index : keeps (fun '(_, i) => 0 <= i) ρ (store_incoming_binary b index).
Proof.
  unfold store_incoming_binary. eapply yields_bind; [apply keeps_uint32|].
  intros [v i] _. yields. apply yields_ret. apply wrap32_range.
Qed.

Lemma keeps_incoming_uint32 set index :
  (forall v, neutral (set v)) ->
  keeps (fun i => i = wrap32 (index + 4)) ρ (incoming_uint32 set index).
Proof.
  intros Hn. unfold incoming_uint32.
  eapply yields_bind; [apply keeps_recv_field|]. intros b Hb.
  eapply yields_bind; [apply keeps_uint32|]. intros [v i] ->.
  apply yields_bind with any; [by apply keeps_assign|]. intros. by apply yields_ret.
Qed.

Lemma keeps_incoming_int8 set index :
  (forall v, neutral (set v)) ->
  keeps (fun i => i = wrap32 (index + 1)) ρ (incoming_int8 set index).
Proof.
  intros Hn. unfold incoming_int8.
  eapply yields_bind; [apply keeps_recv_field|]. intros b Hb.
  eapply yields_bind; [apply keeps_int8|]. intros [v i] ->.
  apply yields_bind with any; [by apply keeps_assign|]. intros. by apply yields_ret.
Qed.

Lemma keeps_incoming_pointer set index :
  (forall v, neutral (set v)) -> keeps any ρ (incoming_pointer set index).
Proof.
  intros Hn. unfold incoming_pointer.
  eapply yields_bind; [apply keeps_recv_field|]. intros b Hb.
  apply yields_bind with any; [apply keeps_address|]. intros. by apply keeps_assign.
Qed.

Lemma keeps_store_reinit index :
  keeps (fun i => i = wrap32 (wrap32 (wrap32 (wrap32 (index + 4) + 4) + 4) + 1)) ρ
    (store_reinit index).
Proof.
  unfold store_reinit.
  eapply yields_bind; [apply keeps_incoming_uint32; neutral|]. intros ? ->.
  eapply yields_bind; [apply keeps_incoming_uint32; neutral|]. intros ? ->.
  eapply yields_bind; [apply keeps_incoming_uint32; neutral|]. intros ? ->.
  apply keeps_incoming_int8; neutral.
Qed.
End incoming.

(** A long loop of events ends at the end of the message. *)
Lemma keeps_handle_events_loop k fuel external index command :
  0 <= index <= k + 4 -> k < 2 ^ 31 -> k + 4 - index < Z.of_nat fuel ->
  yields (inv n (Some k)) any any (handle_events_loop fuel external index command).
Proof.
  intros Hi Hk. revert index command Hi.
  induction fuel as [|fuel IH]; intros index command Hi Hf; [lia|].
  cbn [handle_events_loop].
  apply yields_bind with (fun i => index <= i <= index + 13).
  { destruct (command =? MESSAGE_TERM).
    { apply yields_bind with any; [apply keeps_assign; neutral|]. intros. yields. }
    destruct (command =? MESSAGE_REINIT).
    { eapply yields_weaken; [apply keeps_store_reinit|]. intros i ->.
      unwrap. lia. }
    destruct (command =? MESSAGE_KEEPALIVE); [|by apply yields_return].
    eapply yields_bind; [apply yields_call, keeps_keepalive|]. intros. yields.
    apply yields_ret. lia. }
  intros i Hi'. apply yields_bind with (fun r => 0 <= r <= k).
  { apply keeps_field. by intros w (_ & _ & Hm). }
  intros r Hr. destruct (Z.ltb_spec r i); [by apply yields_return|].
  destruct (Z.eqb_spec i r); [by apply yields_return|].
  apply yields_bind with any; [by apply keeps_any_field|]. intros b _.
  eapply yields_bind; [apply keeps_uint32|]. intros [c j] ->.
  rewrite wrap32_small by lia. apply IH; lia.
Qed.

Lemma keeps_handle_events k external index command :
  0 <= index -> command = 0 \/ command = MESSAGE_TERM -> 0 <= k < 2 ^ 31 ->
  yields (inv n (Some k)) any any (handle_events external index command).
Proof.
  intros Hi Hc Hk. apply yields_at. intros w (Hwf & Hb & Hm).
  set (r := p_buffer_recv_index (w_inst w)) in *.
  exists (inv n (Some r)).
  exists (if command =? 0 then
            if r <? index then creturn (false, cloudi_error_read_underflow : Z)
            else
              let* b := field p_buffer_recv in
              let* (command, index) := store_incoming_uint32 b index in
              handle_events_loop (S (Z.to_nat r)) external index command
          else handle_events_loop (S (Z.to_nat r)) external index command).
  split; [done|]. split; [split; [done|]; split; [done|]; cbn; lia|]. split.
  { intros w' (H1 & H2 & H3). split; [done|]. split; [done|]. lia. }
  destruct Hc as [-> | ->]; cbn [Z.eqb MESSAGE_TERM].
  - destruct (Z.ltb_spec r index); [by apply yields_return|].
    apply yields_bind with any; [by apply keeps_any_field|]. intros b _.
    eapply yields_bind; [apply keeps_uint32|]. intros [c j] ->.
    rewrite wrap32_small by lia. apply keeps_handle_events_loop; lia.
  - cbn [handle_events_loop Z.eqb MESSAGE_TERM Pos.eqb].
    apply yields_bind with (fun _ => False); [|done].
    apply yields_bind with any; [apply keeps_assign; neutral|]. intros.
    destruct (negb _); by apply yields_return.
Qed.

Lemma keeps_trailing_events k allowed external index :
  0 <= index -> 0 <= k < 2 ^ 31 ->
  yields (inv n (Some k)) any any (trailing_events allowed external index).
Proof.
  intros Hi Hk. unfold trailing_events. yields.
  apply yields_call, keeps_handle_events; by auto.
Qed.

Lemma keeps_set_recv_index m {R} (ρ : R -> Prop) :
  yields (inv n m) any ρ (assign (set_buffer_recv_index 0)).
Proof.
  apply yields_modify; [|done]. intros w ([] & ? & ?).
  split; [by constructor|]. split; [done|]. destruct m; cbn in *; lia || done.
Qed.

Section arms.
Context (k external : Z) (Hk : 0 <= k < 2 ^ 31).
Abbreviation keeps := (yields (inv n (Some k))).

Lemma keeps_finish {A} (φ : A -> Prop) index : 0 <= index -> keeps φ any (finish external index).
Proof.
  intros Hi. unfold finish.
  eapply yields_bind; [by apply keeps_trailing_events|]. intros _ _.
  eapply yields_bind; [apply keeps_set_recv_index|]. intros _ _.
  by apply yields_return.
Qed.

(** The next field of a message, whatever it holds. *)
Ltac incoming :=
  first [ eapply yields_bind; [apply keeps_incoming_uint32; neutral|]
        | eapply yields_bind; [apply keeps_incoming_int8; neutral|] ]; intros ? ->.

Lemma keeps_message_init {A} (φ : A -> Prop) index : keeps φ any (message_init external index).
Proof.
  unfold message_init. do 4 incoming.
  eapply yields_bind; [apply keeps_recv_field|]. intros b Hb.
  eapply yields_bind; [apply keeps_binary|]. intros [prefix i] Hi.
  eapply yields_bind; [apply keeps_assign; neutral|]. intros _ _.
  do 5 incoming. apply keeps_finish, wrap32_range.
Qed.

Lemma keeps_message_return_sync {A} (φ : A -> Prop) index :
  keeps φ any (message_return_sync external index).
Proof.
  unfold message_return_sync. incoming.
  eapply yields_bind; [apply keeps_incoming_pointer; neutral|]. intros _ _.
  eapply yields_bind; [by apply keeps_any_field|]. intros s1 _. cbv zeta. incoming.
  eapply yields_bind; [apply keeps_incoming_pointer; neutral|]. intros _ _.
  eapply yields_bind; [by apply keeps_any_field|]. intros s2 _. cbv zeta.
  eapply yields_bind; [apply keeps_assign; neutral|]. intros _ _.
  eapply yields_bind; [apply keeps_incoming_pointer; neutral|]. intros _ _.
  apply keeps_finish, wrap32_range.
Qed.

Lemma keeps_message_return_async {A} (φ : A -> Prop) index :
  keeps φ any (message_return_async external index).
Proof.
  unfold message_return_async.
  eapply yields_bind; [apply keeps_assign; neutral|]. intros _ _.
  eapply yields_bind; [apply keeps_incoming_pointer; neutral|]. intros _ _.
  apply keeps_finish, wrap32_range.
Qed.

Lemma keeps_message_returns_async {A} (φ : A -> Prop) index :
  keeps φ any (message_returns_async external index).
Proof.
  unfold message_returns_async. incoming.
  eapply yields_bind; [apply keeps_incoming_pointer; neutral|]. intros _ _.
  eapply yields_bind; [by apply keeps_any_field|]. intros c _.
  apply keeps_finish, wrap32_range.
Qed.

Lemma keeps_message_subscribe_count {A} (φ : A -> Prop) index :
  keeps φ any (message_subscribe_count external index).
Proof. unfold message_subscribe_count. incoming. apply keeps_finish, wrap32_range. Qed.

(** Where a round of [poll_loop] that does not wait goes on. *)
Definition forth (index : Z) (a : action) : Prop :=
  match a with Break => True | Continue i => index <= i < k end.

Lemma keeps_next_command index i :
  index <= i -> keeps (forth index) any (next_command i).
Proof.
  intros Hi. unfold next_command.
  apply yields_bind with (fun r => 0 <= r <= k).
  { apply keeps_field. by intros w (_ & _ & Hm). }
  intros r Hr. destruct (i =? r).
  - eapply yields_bind; [apply keeps_set_recv_index|]. intros. by apply yields_ret.
  - destruct (Z.ltb_spec i r); [|by apply yields_return].
    apply yields_ret. cbn. lia.
Qed.
End arms.

Section callback.
Context (m : option Z).
Abbreviation keeps := (yields (inv n m)).

Lemma keeps_copy_call : keeps any any copy_call.
Proof.
  unfold copy_call. apply yields_bind with (fun w => wf (p_buffer_call (w_inst w))).
  { apply yields_get. by intros w ([] & _). }
  intros w Hw. apply yields_bind with (fun '(_, b) => wf b).
  { apply yields_opt. intros [b p'] He. by eapply copy_range_wf. }
  intros [b p'] Hp. by apply keeps_set_call.
Qed.

Lemma keeps_parse_send {R} (ρ : R -> Prop) b t index :
  keeps (fun '(_, i) => 0 <= i) ρ (parse_send b t index).
Proof.
  unfold parse_send.
  repeat first
    [ eapply yields_bind; [apply keeps_uint32|]; intros [? ?] _
    | eapply yields_bind; [apply keeps_int8|]; intros [? ?] _
    | eapply yields_bind; [apply keeps_address|]; intros ? _
    | progress cbv zeta ].
  apply yields_ret, wrap32_range.
Qed.

Lemma keeps_return_null t rq : keeps any any (return_null t rq).
Proof. unfold return_null, call_cstr, call_bytes. yields. Qed.
End callback.

Lemma keeps_invoke {R} (ρ : R -> Prop) f rq :
  yields (inv n None) any ρ (invoke run f rq).
Proof.
  destruct f; cbn; [|by apply yields_ret]. apply yields_call. apply Hrun.
Qed.

Lemma keeps_callback_arm t f rq l1 l2 e :
  yields (inv n None) any any (callback_arm run t f rq l1 l2 e).
Proof.
  unfold callback_arm. eapply yields_bind.
  { apply yields_try with (φ := any); [apply keeps_invoke|].
    intros x k. repeat case_decide; intros [= <-]; yields. }
  intros _ _. eapply yields_bind.
  { apply yields_try with (φ := any).
    - eapply yields_bind; [apply yields_call, keeps_return_null|]. intros. yields.
    - intros x k. case_decide; intros [= <-]. yields. }
  intros _ _. yields.
Qed.

Lemma keeps_callback command rq :
  yields (inv n None) any any (callback run command rq).
Proof.
  unfold callback. eapply yields_bind.
  { unfold call_cstr. yields. }
  intros pattern _. eapply yields_bind; [apply keeps_lookup_field|]. intros l Hl.
  apply yields_bind with (fun '(_, l') => L l').
  { apply yields_opt. intros [f l'] He. by eapply L_find. }
  intros [f l'] Hl'. eapply yields_bind; [by apply keeps_set_lookup|]. intros _ _.
  repeat case_match; try apply keeps_callback_arm. yields.
Qed.

(** One round: where it goes on, and what holds there. *)
Definition onward (k index : Z) (a : action) w : Prop :=
  match a with
  | Break => inv n None w
  | Continue i => index <= i < k /\ inv n (Some k) w
  end.

Lemma hoare_message_send k command external index :
  0 <= k < 2 ^ 31 ->
  hoare (inv n None) (fun _ => inv n None) (inv n (Some k)) (fun _ => inv n None)
    (message_send run command external index).
Proof.
  intros Hk. unfold message_send.
  assert (forall k w, inv n (Some k) w -> inv n None w) as HX
    by (intros; by eapply inv_weaken).
  apply hoare_bind with (fun _ => inv n (Some k)).
  { by eapply hoare_yields; [apply keeps_copy_call|..]; eauto. }
  intros _. apply hoare_bind with (fun _ => inv n (Some k)).
  { by eapply hoare_yields; [apply (keeps_any_field n (Some k) _ any)|..]; eauto. }
  intros b. apply hoare_bind with (fun '(_, i) w => 0 <= i /\ inv n (Some k) w).
  { eapply hoare_yields; [apply (keeps_parse_send (Some k) any)|..]; [|by eauto..].
    by intros [rq i] w. }
  intros [rq i]. apply hoare_bind with (fun _ => inv n (Some k)).
  { intros w [Hi Hw]. revert w Hw.
    by eapply hoare_yields; [apply keeps_trailing_events|..]; eauto. }
  intros _. apply hoare_bind with (fun _ => inv n (Some k)).
  { by eapply hoare_yields; [apply keeps_set_recv_index with (ρ := any)|..]; eauto. }
  intros _. eapply hoare_pre; [|by apply HX].
  by eapply hoare_yields with (π := any); [apply yields_call, keeps_callback|..].
Qed.

Lemma hoare_dispatch k external command index :
  0 <= k < 2 ^ 31 -> 0 <= index < k + 4 ->
  hoare (inv n None) (fun _ => inv n None) (inv n (Some k)) (onward k index)
    (dispatch run external command index).
Proof.
  intros Hk Hi. unfold dispatch.
  assert (forall w, inv n (Some k) w -> inv n None w) as HX
    by (intros; by eapply inv_weaken).
  assert (forall c : M Z action, yields (inv n (Some k)) (forth k index) any c ->
    hoare (inv n None) (fun _ => inv n None) (inv n (Some k)) (onward k index) c) as Harm.
  { intros c Hc. eapply hoare_yields; [exact Hc| |by eauto..].
    intros [|i] w Ha Hw; cbn in *; eauto. }
  destruct (command =? MESSAGE_INIT); [by apply Harm, keeps_message_init|].
  destruct (_ || _).
  { eapply hoare_bind; [by apply hoare_message_send|].
    intros a w Hw. exact Hw. }
  destruct (_ || _); [by apply Harm, keeps_message_return_sync|].
  destruct (command =? MESSAGE_RETURN_ASYNC);
    [by apply Harm, keeps_message_return_async|].
  destruct (command =? MESSAGE_RETURNS_ASYNC);
    [by apply Harm, keeps_message_returns_async|].
  destruct (command =? MESSAGE_SUBSCRIBE_COUNT);
    [by apply Harm, keeps_message_subscribe_count|].
  destruct (Z.eqb_spec command MESSAGE_TERM) as [->|].
  { apply Harm. eapply yields_bind.
    { apply yields_call, keeps_handle_events; [lia|by right|done]. }
    intros [ok result] _. yields. }
  destruct (command =? MESSAGE_REINIT).
  { apply Harm. eapply yields_bind; [apply keeps_store_reinit|]. intros i ->.
    apply keeps_next_command. unwrap. lia. }
  destruct (command =? MESSAGE_KEEPALIVE); [|by apply Harm, yields_return].
  apply Harm. eapply yields_bind; [apply yields_call, keeps_keepalive|].
  intros r _. yields. by apply keeps_next_command.
Qed.
End poll.

Lemma inv_le n n' m w : (n <= n')%nat -> inv n m w -> inv n' m w.
Proof. intros H (H1 & H2 & H3). split; [done|]. split; [lia|done]. Qed.

Section loop.
Context (run : F -> request -> C (world F U) unit unit).
Context (Hrun : forall n f rq, yields (inv n None) any any (run f rq)).

(** What [poll] and [read_all] leave after a message of [k] bytes. *)
Definition received n (_ : unit) w : Prop :=
  exists n' k, inv n' (Some k) w /\ 0 < k /\ Z.of_nat n' + k + 1 <= Z.of_nat n.

Lemma hoare_receive n timeout :
  hoare (inv n None) (fun _ w => exists n', (n' + 1 <= n)%nat /\ inv n' None w)
    (inv n None) (received n) (receive timeout).
Proof.
  unfold receive.
  (* the answer of [poll] *)
  apply hoare_bind with (fun c w => exists n', (n' + 1 <= n)%nat /\ inv n' None w).
  { intros w (Hwf & Hb & _). unfold on_sys, sys_poll.
    destruct (sys_polls (w_sys w)) as [|a ps] eqn:Hp; [by split_and!|].
    assert (inv (n - 1) None (mk_world (w_inst w) (set_polls ps (w_sys w)) (w_user w))) as Hw'.
    { split; [done|]. split; [|done]. unfold budget in *. rewrite Hp in Hb.
      cbn in *. lia. }
    assert (n - 1 + 1 <= n)%nat by (unfold budget in Hb; rewrite Hp in Hb; cbn in Hb; lia).
    destruct a; [by eexists|destruct (timeout <? 0)|by eexists]; [|by eexists].
    by split_and!. }
  intros c.
  intros w (n' & Hn & Hw). destruct c as [e|count].
  { by exists n'. }
  destruct (count =? 0); [by exists n'|].
  (* the message *)
  cbn [creturn_if]. unfold cbind at 1, cret. unfold field, creads.
  unfold cbind at 1. unfold cbind at 1, call, on_sys. cbn [id].
  destruct Hw as (Hwf & Hb & _).
  pose proof (read_all_keeps (p_use_header (w_inst w)) (p_buffer_recv (w_inst w))
    (p_buffer_size (w_inst w)) (w_sys w) (wf_recv _ _ Hwf)) as H.
  destruct (read_all _ _ _ (w_sys w)) as [o s']. destruct H as [Hs H].
  assert (budget s' <= n')%nat as Hb' by (unfold shrinks, budget in *; lia).
  destruct o as [?|[[st b] total]|e| | |]; try done;
    try (by split; [|split; [cbn; lia|]]).
  destruct H as [Hwb Ht]. unfold assign, cmodify. unfold cbind at 1.
  assert (inst_ok (set_buffer_recv_index total (set_buffer_recv b (w_inst w))) (w_user w)) as Hwf'.
  { destruct Hwf. by constructor. }
  unfold cbind. destruct (Z.eqb_spec st 0) as [->|]; cbn [negb creturn_if creturn cret].
  2:{ exists n'. split; [done|]. split; [done|]. split; [cbn; lia|done]. }
  specialize (Ht eq_refl). unfold taken, budget in *.
  destruct (Z.eqb_spec total 0); cbn [creturn_if creturn cret].
  { exists n'. split; [done|]. split; [done|]. split; [cbn; unfold budget; lia|done]. }
  exists (length (sys_polls s') + length (sys_in s'))%nat, total.
  split; [split; [done|]; split; [done|]; cbn; lia|]. split; [lia|].
  destruct Hs as (Hs1 & Hs2 & _). lia.
Qed.

Lemma hoare_poll_loop N fuel n k timeout external index :
  (n <= N)%nat -> 0 <= index < k -> k < 2 ^ 31 -> Z.of_nat N < 2 ^ 31 ->
  Z.of_nat n + (k - index) < Z.of_nat fuel ->
  hoare (inv N None) (fun _ => inv N None) (inv n (Some k)) (fun _ _ => False)
    (poll_loop run fuel timeout external index).
Proof.
  intros Hn Hi Hk HN. revert n k timeout index Hn Hi Hk.
  induction fuel as [|fuel IH]; intros n k timeout index Hn Hi Hk Hf; [lia|].
  assert (forall n m w, (n <= N)%nat -> inv n m w -> inv N None w) as HX.
  { intros n' m w Hle Hw. eapply inv_weaken, inv_le; eauto. }
  cbn [poll_loop].
  apply hoare_bind with (fun _ => inv n (Some k)).
  { by eapply hoare_yields; [apply keeps_recv_field with (ρ := any)|..]; eauto. }
  intros b.
  apply hoare_bind with (fun '(_, i) w => i = index + 4 /\ inv n (Some k) w).
  { eapply hoare_yields; [apply keeps_uint32 with (ρ := any)| |by eauto..].
    intros [c i] w -> Hw. by unwrap. }
  intros [command i]. apply hoare_bind with (onward n k (index + 4)).
  { intros w [-> Hw]. revert w Hw.
    eapply hoare_weaken; [apply hoare_dispatch; [done|lia..]|
      intros; by apply (HX n None)..|done]. }
  intros [|j].
  - apply hoare_bind with (fun _ => inv n None).
    { unfold remaining_timeout. destruct (0 <? timeout).
      - apply hoare_yields with (I := inv n None) (φ := any) (π := any); [|done|by eauto..].
        eapply yields_bind; [|intros; by apply yields_ret].
        apply keeps_on_sys with (φ := any). intros s. unfold sys_elapsed_ms.
        by destruct (sys_elapsed s).
      - by eapply hoare_yields; [apply yields_ret with (φ := any) (ρ := any)|..]; eauto. }
    intros t. apply hoare_bind with (fun _ => inv n None).
    { by eapply hoare_yields; [apply yields_return_if with (φ := any) (ρ := any)|..]; eauto. }
    intros _. apply hoare_bind with (received n).
    { eapply hoare_weaken; [apply hoare_receive|by eauto| |done].
      intros r w (n' & Hle & Hw). apply (HX n' None); [lia|done]. }
    intros _ w (n' & k' & Hw & Hk' & Hle). revert w Hw. apply IH; lia.
  - intros w [Hj Hw]. revert w Hw. apply IH; lia.
Qed.

(** [poll_request] ends; when it waited, the environment has less left to
    answer. *)
Lemma hoare_poll_request n timeout external :
  Z.of_nat n < 2 ^ 31 ->
  hoare (inv n None)
    (fun r w => inv n None w /\
       (external = 0 -> r = (cloudi_timeout : Z) -> exists n', (n' + 1 <= n)%nat /\ inv n' None w))
    (inv n None) (fun _ _ => False) (poll_request run timeout external).
Proof.
  intros Hn. unfold poll_request.
  apply hoare_bind with (fun _ => inv n None).
  { by intros w Hw. }
  intros p. destruct (negb (p_terminate p =? 0)).
  { intros w Hw. split; [done|]. intros _ [=]. }
  apply hoare_bind with (fun _ => inv n None).
  { destruct (Z.eqb_spec external 0) as [->|He]; cbn [negb andb cwhen].
    - by intros w Hw.
    - destruct (p_initialization_complete p =? 0); cbn [cwhen]; [|by intros w Hw].
      eapply hoare_yields with (I := inv n None) (φ := any) (π := any); try done.
      eapply yields_bind; [apply yields_call, keeps_polling|]. intros r _. yields.
      apply keeps_assign; neutral. }
  intros _. apply hoare_bind with
    (fun fuel w => exists n', (n' <= n)%nat /\ fuel = S n' /\ inv n' None w).
  { intros w (Hwf & Hb & _). exists (budget (w_sys w)). by split_and!. }
  intros fuel w (n' & Hle & -> & Hw).
  assert (forall n1, (n1 + 1 <= n')%nat -> (n1 + 1 <= n)%nat) as Hlt by lia.
  revert w Hw. apply hoare_bind with (received n').
  { eapply hoare_weaken; [apply hoare_receive|..]; try done.
    - intros w Hw. by eapply inv_le.
    - intros r w (n1 & H1 & Hw). split; [eapply inv_le; [|exact Hw]; lia|].
      intros _ _. exists n1. split; [lia|done]. }
  intros _ w (n1 & k & Hw & Hk & Hle'). revert w Hw.
  eapply hoare_weaken; [apply (hoare_poll_loop n1)|..]; try lia; try done.
  - intros w Hw. eapply inv_le; [|exact Hw]. lia.
  - intros r w Hw. split; [eapply inv_le; [|exact Hw]; lia|].
    intros _ _. exists n1. split; [lia|done].
Qed.

Section waiting.
Context (n : nat) (Hn : Z.of_nat n < 2 ^ 31).
Abbreviation keeps := (yields (inv n None)).

Lemma keeps_poll_request timeout external :
  keeps any any (poll_request run timeout external).
Proof.
  apply yields_hoare.
  eapply hoare_weaken; [by apply hoare_poll_request|..]; try done.
  by intros r w [Hw _].
Qed.

#[local] Hint Resolve keeps_poll_request : yields.

Lemma keeps_send_and_wait index : keeps any any (send_and_wait run index).
Proof. unfold send_and_wait. yields. Qed.
#[local] Hint Resolve keeps_send_and_wait : yields.

Lemma keeps_cloudi_subscribe_count pattern :
  keeps any any (cloudi_subscribe_count run pattern).
Proof. unfold cloudi_subscribe_count. yields. Qed.

Lemma keeps_cloudi_send_ c name info req timeout priority :
  keeps any any (cloudi_send_ run c name info req timeout priority).
Proof. unfold cloudi_send_. yields. Qed.

Lemma keeps_default_timeout timeout get :
  keeps any any (default_timeout (F := F) timeout get).
Proof. unfold default_timeout. yields. Qed.
#[local] Hint Resolve keeps_cloudi_send_ keeps_default_timeout : yields.

Lemma keeps_cloudi_send_async name req : keeps any any (cloudi_send_async run name req).
Proof. unfold cloudi_send_async. yields. Qed.
Lemma keeps_cloudi_send_async_ name info req timeout priority :
  keeps any any (cloudi_send_async_ run name info req timeout priority).
Proof. unfold cloudi_send_async_. yields. Qed.
Lemma keeps_cloudi_send_sync name req : keeps any any (cloudi_send_sync run name req).
Proof. unfold cloudi_send_sync. yields. Qed.
Lemma keeps_cloudi_send_sync_ name info req timeout priority :
  keeps any any (cloudi_send_sync_ run name info req timeout priority).
Proof. unfold cloudi_send_sync_. yields. Qed.
Lemma keeps_cloudi_mcast_async name req : keeps any any (cloudi_mcast_async run name req).
Proof. unfold cloudi_mcast_async. yields. Qed.
Lemma keeps_cloudi_mcast_async_ name info req timeout priority :
  keeps any any (cloudi_mcast_async_ run name info req timeout priority).
Proof. unfold cloudi_mcast_async_. yields. Qed.

Lemma keeps_cloudi_recv_async timeout trans_id consume :
  keeps any any (cloudi_recv_async run timeout trans_id consume).
Proof. unfold cloudi_recv_async. yields. Qed.

Lemma keeps_cloudi_poll timeout : keeps any any (cloudi_poll run timeout).
Proof. unfold cloudi_poll. yields. Qed.
End waiting.

Lemma hoare_await_init n fuel :
  Z.of_nat n < 2 ^ 31 -> (n < fuel)%nat ->
  hoare (inv n None) (fun _ => inv n None) (inv n None) (fun _ _ => False)
    (await_init run fuel).
Proof.
  revert n. induction fuel as [|fuel IH]; intros n Hn Hf; [lia|]. cbn [await_init].
  apply hoare_bind with (fun r w => inv n None w /\
    (r = (cloudi_timeout : Z) -> exists n', (n' + 1 <= n)%nat /\ inv n' None w)).
  { intros w Hw. pose proof (hoare_poll_request n 1000 0 Hn w Hw) as H.
    unfold call. destruct (poll_request run 1000 0 w) as [[] w']; try done.
    destruct H as [H1 H2]. split; [done|]. intros. by apply H2. }
  intros r w [Hw Ht]. destruct (Z.eqb_spec r (cloudi_timeout : Z)) as [Hr|]; [|done].
  destruct (Ht Hr) as (n' & Hn' & Hw'). revert w Hw' Hw Ht.
  intros w Hw' _ _. revert w Hw'.
  eapply hoare_weaken; [apply (IH n'); lia|..]; try done;
    intros; (apply (inv_le n'); [lia|done]).
Qed.

Lemma new_buffer_ok : buffer_ok new_buffer.
Proof.
  assert (m_size new_buffer = 32768) as Hs by done.
  split; [split|]; rewrite ?Hs; [|lia..].
  unfold new_buffer, construct. cbn [m_p]. rewrite length_replicate. by vm_compute.
Qed.

(** Before there is an instance. *)
Definition before n w : Prop := (budget (w_sys w) <= n)%nat /\ J (w_user w).

(** [cloudi_initialize] ends; unless it rejects its input it leaves an
    instance in order. *)
Lemma hoare_cloudi_initialize n null getenv thread_index state :
  Z.of_nat n < 2 ^ 31 -> L ∅ ->
  hoare (before n)
    (fun r w => r = (cloudi_invalid_input : Z) \/ r = (cloudi_out_of_memory : Z) \/
                inv n None w)
    (before n) (fun _ _ => False)
    (cloudi_initialize run null getenv thread_index state).
Proof.
  intros Hn H0. unfold cloudi_initialize.
  destruct null; [intros w Hw; right; by left|].
  destruct (getenv _) as [protocol|]; [|intros w Hw; by left].
  destruct (getenv _) as [size|]; [|intros w Hw; by left].
  apply hoare_bind with (fun _ => before n); [by intros w Hw|].
  intros _. cbv zeta. destruct (protocol_of _ _) as [[fd uh]|]; [|intros w Hw; by left].
  apply hoare_bind with (fun _ => inv n None).
  { intros w [Hw HJ]. cbn. split; [|done].
    pose proof (proj1 new_buffer_ok). by constructor. }
  intros _.
  assert (forall w, inv n None w -> before n w) as HX
    by (by intros w ([] & Hb & _)).
  apply hoare_bind with (fun _ => inv n None).
  { eapply hoare_yields with (φ := any) (π := any); [apply keeps_start_index|..]; auto. }
  intros index. apply hoare_bind with (fun _ => inv n None).
  { eapply hoare_yields with (φ := any) (π := any); [apply keeps_encode_all|..]; auto. }
  intros index'. apply hoare_bind with (fun _ => inv n None).
  { eapply hoare_yields with (φ := any) (π := any); [apply keeps_send_buffer|..]; auto. }
  intros r. apply hoare_bind with (fun _ => inv n None).
  { eapply hoare_yields with (φ := any) (π := any); [by apply yields_return_if|..]; auto. }
  intros _. apply hoare_bind with
    (fun fuel w => exists n', (n' <= n)%nat /\ fuel = S n' /\ inv n' None w).
  { intros w (Hwf & Hb & _). exists (budget (w_sys w)). by split_and!. }
  intros fuel w (n' & Hle & -> & Hw). revert w Hw.
  eapply hoare_weaken; [apply (hoare_await_init n'); lia|..]; try done.
  - intros w ([] & Hb & _). split; [lia|done].
  - intros r' w Hw. right; right. by eapply inv_le.
Qed.
End loop.
End invariant.

(** ** The operations *)

Section operations.
Context {F U : Type} {E : Ei}.
Implicit Types w : world F U.

(** The operations on an instance that cloudi.h declares and that leave its
    subscriptions as they are. *)
Inductive api_call (run : F -> request -> C (world F U) unit unit) : C (world F U) Z Z -> Prop :=
| api_subscribe_count pattern : api_call run (cloudi_subscribe_count run pattern)
| api_send_async name req : api_call run (cloudi_send_async run name req)
| api_send_async_ name info req timeout priority :
    api_call run (cloudi_send_async_ run name info req timeout priority)
| api_send_sync name req : api_call run (cloudi_send_sync run name req)
| api_send_sync_ name info req timeout priority :
    api_call run (cloudi_send_sync_ run name info req timeout priority)
| api_mcast_async name req : api_call run (cloudi_mcast_async run name req)
| api_mcast_async_ name info req timeout priority :
    api_call run (cloudi_mcast_async_ run name info req timeout priority)
| api_forward t name info req timeout priority trans_id pid :
    api_call run (cloudi_forward t name info req timeout priority trans_id pid)
| api_forward_async name info req timeout priority trans_id pid :
    api_call run (cloudi_forward_async name info req timeout priority trans_id pid)
| api_forward_sync name info req timeout priority trans_id pid :
    api_call run (cloudi_forward_sync name info req timeout priority trans_id pid)
| api_return t name pattern info resp timeout trans_id pid :
    api_call run (cloudi_return t name pattern info resp timeout trans_id pid)
| api_return_async name pattern info resp timeout trans_id pid :
    api_call run (cloudi_return_async name pattern info resp timeout trans_id pid)
| api_return_sync name pattern info resp timeout trans_id pid :
    api_call run (cloudi_return_sync name pattern info resp timeout trans_id pid)
| api_recv_async timeout trans_id consume :
    api_call run (cloudi_recv_async run timeout trans_id consume)
| api_poll timeout : api_call run (cloudi_poll run timeout)
| api_shutdown reason : api_call run (cloudi_shutdown reason).

(** All of them. *)
Inductive api (run : F -> request -> C (world F U) unit unit) : C (world F U) Z Z -> Prop :=
| api_subscribe pattern f : api run (cloudi_subscribe pattern f)
| api_unsubscribe pattern : api run (cloudi_unsubscribe pattern)
| api_uses c (Hc : api_call run c) : api run c.

(** With callback functions that keep what is kept of the subscriptions, so
    does every operation that leaves them. *)
Lemma keeps_api_call (L : lookup_t F -> Prop) (J : U -> Prop) run n c :
  (forall k l f l', L l -> lookup_find k l = Some (f, l') -> L l') ->
  (forall n f rq, yields (inv L J n None) any any (run f rq)) ->
  Z.of_nat n < 2 ^ 31 -> api_call run c -> yields (inv L J n None) any any c.
Proof.
  intros HL Hrun Hn [].
  all: first
    [ simple apply keeps_cloudi_forward | simple apply keeps_cloudi_return
    | simple apply keeps_cloudi_shutdown
    | by simple apply keeps_cloudi_send_async
    | by simple apply keeps_cloudi_send_async_
    | by simple apply keeps_cloudi_send_sync
    | by simple apply keeps_cloudi_send_sync_
    | by simple apply keeps_cloudi_mcast_async
    | by simple apply keeps_cloudi_mcast_async_
    | by simple apply keeps_cloudi_subscribe_count
    | by simple apply keeps_cloudi_recv_async | by simple apply keeps_cloudi_poll
    | eapply yields_bind;
        [apply yields_call; (simple apply keeps_cloudi_forward_
                             || simple apply keeps_cloudi_return_)
        |intros; apply keeps_throw_on_success] ].
Qed.
End operations.

(** ** Properties *)

(** Buffers as large as they say, queues that count their callbacks. *)
Record inst_wf {F} (p : cloudi_instance_t F) : Prop := {
  wfi_send : wf (p_buffer_send p);
  wfi_recv : wf (p_buffer_recv p);
  wfi_call : wf (p_buffer_call p);
  wfi_lookup : lookup_wf (p_lookup p)
}.

Lemma inv_wf {F U} n m (w : world F U) : inv lookup_wf any n m w -> inst_wf (w_inst w).
Proof. intros ([] & _). by constructor. Qed.

Lemma wf_inv {F U} (w : world F U) :
  inst_wf (w_inst w) -> inv lookup_wf any (budget (w_sys w)) None w.
Proof. intros []. split; [by constructor|done]. Qed.

Section properties.
Context {F U : Type} {E : Ei}.
Implicit Types w : world F U.

Lemma lookup_wf_find (k : bytes) (l : lookup_t F) f l' :
  lookup_wf l -> lookup_find k l = Some (f, l') -> lookup_wf l'.
Proof.
  intros Hl He. destruct (lookup_find_refines k l Hl) as (l2 & He2 & H & _).
  rewrite He2 in He. by injection He as <- <-.
Qed.

(** A callback function that keeps the invariant, as every program that
    only uses the operations of the API does. *)
Definition well_behaved (run : F -> request -> C (world F U) unit unit) : Prop :=
  forall n f rq, yields (inv lookup_wf any n None) any any (run f rq).

(** C12. Receiving has no endless loop.  For every peer, every answer of the
    system calls and every message, also a malformed one, and with callback
    functions that are well behaved (they have no endless loop and keep the
    instance in order, as those that only use the operations of the API do),
    none of the loops of [poll_request] (the messages of a poll, the commands of
    a message, the events after it, the reads) runs for ever: it gives a result,
    throws, waits for the environment, or comes to something undefined, which
    some malformed messages lead to.  In each of these the instance is in order
    afterwards. *)
Theorem poll_request_ends run timeout external w (Hrun : well_behaved run)
    (Hwf : inst_wf (w_inst w)) (Hn : Z.of_nat (budget (w_sys w)) < 2 ^ 31) :
  exists o w', poll_request run timeout external w = (o, w') /\
    match o with Next _ | NoFuel => False | _ => True end /\
    inst_wf (w_inst w') /\ (budget (w_sys w') <= budget (w_sys w))%nat.
Proof.
  pose proof (wf_inv w Hwf) as Hw.
  pose proof (hoare_poll_request lookup_wf lookup_wf_find any run Hrun _ timeout external Hn w Hw) as H.
  destruct (poll_request run timeout external w) as [o w']. exists o, w'.
  split; [done|].
  assert (inv lookup_wf any (budget (w_sys w)) None w' -> inst_wf (w_inst w') /\
    (budget (w_sys w') <= budget (w_sys w))%nat) as Hend.
  { intros Hw'. split; [by eapply inv_wf|]. by destruct Hw' as (_ & Hb & _). }
  destruct o; try done; [destruct H as [H _]|..]; (split; [done|]); by apply Hend.
Qed.

(** Starting ends.  [cloudi_initialize] gives a result, throws or waits
    for the environment, and unless it rejects the pointer, the protocol or
    the environment variables it leaves an instance in order. *)
Theorem cloudi_initialize_ends run null getenv thread_index state w
    (Hrun : well_behaved run) (Hn : Z.of_nat (budget (w_sys w)) < 2 ^ 31) :
  exists o w', cloudi_initialize run null getenv thread_index state w = (o, w') /\
    match o with
    | Return r => r = cloudi_invalid_input \/ r = cloudi_out_of_memory \/
                  inst_wf (w_inst w')
    | Next _ | NoFuel => False
    | _ => True
    end.
Proof.
  pose proof (hoare_cloudi_initialize lookup_wf lookup_wf_find any run Hrun _ null getenv
    thread_index state Hn (map_Forall_empty _) w
    (conj (Nat.le_refl _) I)) as H.
  destruct (cloudi_initialize _ _ _ _ _ w) as [o w']. exists o, w'.
  split; [done|]. destruct o; try done. destruct H as [H|[H|H]]; [by left|by right; left|].
  right; right. by eapply inv_wf.
Qed.

Lemma keeps_api n run c :
  well_behaved run -> Z.of_nat n < 2 ^ 31 -> api run c ->
  yields (inv lookup_wf any n None) any any c.
Proof.
  intros Hrun Hn [].
  - apply keeps_cloudi_subscribe. intros. by apply lookup_insert_refines.
  - apply keeps_cloudi_unsubscribe. intros k l w Hl.
    destruct (lookup_remove_refines (R := Z) k l w Hl) as (l' & He & Hl' & _). eauto.
  - apply (keeps_api_call _ _ run); [apply lookup_wf_find|done|done|done].
Qed.

(** A program uses an instance: an operation that returned or threw. *)
Inductive uses (run : F -> request -> C (world F U) unit unit) w : world F U -> Prop :=
| uses_op c o w' : api run c -> c w = (o, w') ->
    (exists r, o = Return r) \/ (exists e, o = Throw e) -> uses run w w'.

(** C13. In every state a program reaches by operations on an instance, in
    any order and whatever they return or throw, and with callback functions
    that are well behaved, each buffer is as large as it says, each queue of
    callbacks counts its elements and none is empty; and no further operation
    has a loop that runs for ever. *)
Theorem api_invariant run w w' (Hrun : well_behaved run)
    (Hwf : inst_wf (w_inst w)) (Hn : Z.of_nat (budget (w_sys w)) < 2 ^ 31)
    (Hr : rtc (uses run) w w') :
  inst_wf (w_inst w') /\
  forall c, api run c -> match fst (c w') with NoFuel => False | _ => True end.
Proof.
  pose proof (wf_inv w Hwf) as Hw.
  assert (inv lookup_wf any (budget (w_sys w)) None w') as Hw'.
  { set (n := budget (w_sys w)) in *. clearbody n. clear Hwf.
    induction Hr as [|w w1 w' [c o w1' Hc He _] _ IH]; [done|]. apply IH; try done.
    destruct (keeps_api n run c Hrun Hn Hc w Hw) as [H _]. by rewrite He in H. }
  split; [by eapply inv_wf|]. intros c Hc.
  destruct (keeps_api _ run c Hrun Hn Hc w' Hw') as [_ H]. by destruct (fst (c w')).
Qed.
End properties.

Lemma example_wf F uh : inst_wf (example_instance F uh).
Proof.
  assert (wf (construct (T := byte) 1 256 65536)) as H by (vm_compute; done).
  by constructor.
Qed.

(** A callback function that returns a response. *)
Definition example_run `{E : Ei} (_ : unit) (rq : request) : C (world unit unit) unit unit :=
  let* _ := call (cloudi_return (rq_type rq) (chars "/p/a") (chars "/p/a") []
                    (chars "ok") (rq_timeout rq) (replicate 16 NUL)
                    (byte.of_Z 131 :: chars "pid")) in
  creturn tt.

Lemma example_run_well_behaved `{E : Ei} : well_behaved example_run.
Proof.
  intros n f rq. unfold example_run. eapply yields_bind.
  - apply yields_call, keeps_cloudi_return.
  - intros. by apply yields_return.
Qed.

Lemma poll_request_ends_witness :
  let w := example_world unit 1 (frame 1 (u32 11)) [pl_ready] in
  exists o w', poll_request example_run 1000 1 w = (o, w') /\
    match o with Next _ | NoFuel => False | _ => True end /\
    inst_wf (w_inst w') /\ (budget (w_sys w') <= budget (w_sys w))%nat.
Proof.
  exact (poll_request_ends example_run 1000 1
    (example_world unit 1 (frame 1 (u32 11)) [pl_ready])
    example_run_well_behaved (example_wf _ _) ltac:(vm_compute; done)).
Defined.

Lemma cloudi_initialize_ends_witness :
  let w := example_world unit 1 [] [pl_timeout; pl_err EINTR] in
  let env := fun k => if decide (k = chars "CLOUDI_API_INIT_PROTOCOL")
                      then Some (chars "tcp") else Some (chars "65536") in
  exists o w', cloudi_initialize example_run false env 0 0 w = (o, w') /\
    match o with
    | Return r => r = cloudi_invalid_input \/ r = cloudi_out_of_memory \/
                  inst_wf (w_inst w')
    | Next _ | NoFuel => False
    | _ => True
    end.
Proof.
  exact (cloudi_initialize_ends example_run false
    (fun k => if decide (k = chars "CLOUDI_API_INIT_PROTOCOL")
              then Some (chars "tcp") else Some (chars "65536")) 0 0
    (example_world unit 1 [] [pl_timeout; pl_err EINTR])
    example_run_well_behaved ltac:(vm_compute; done)).
Defined.

Lemma api_invariant_witness :
  let w := example_world unit 1 [] [] in
  let w' := snd (cloudi_subscribe (chars "a") tt w) in
  rtc (uses example_run) w w' /\ inst_wf (w_inst w') /\
  forall c, api example_run c -> match fst (c w') with NoFuel => False | _ => True end.
Proof.
  cbv zeta.
  assert (rtc (uses example_run) (example_world unit 1 [] [])
            (snd (cloudi_subscribe (chars "a") tt (example_world unit 1 [] [])))) as Hr.
  { apply rtc_once. eapply uses_op; [apply api_subscribe|apply surjective_pairing|].
    left. exists 0. vm_compute. reflexivity. }
  split; [exact Hr|].
  exact (api_invariant example_run (example_world unit 1 [] []) _
    example_run_well_behaved (example_wf _ _) ltac:(vm_compute; done) Hr).
Defined.
