(* ===== verification/ExitStatus.v ===== *)
(** * Exit statuses  (port.hpp, port.cpp and cloudi_os_spawn.cpp)

    The statuses cloudi_os_spawn and the processes it spawns exit with: those
    of the generic port ([GEPD]) and those of [spawn] ([spawn_status]), their
    translation from the [errno] of a failed system call, and the names they
    are logged with. *)

From S2P Require Import Prelude Status.

(** ** namespace GEPD::ExitStatus *)
Module GEPD.
Inductive exit_status : Type :=
| success | ready | timeout | erlang_exit | read_EAGAIN | read_EBADF
| read_EFAULT | read_EINTR | read_EINVAL | read_EIO | read_EISDIR
| read_null | read_overflow | read_unknown | write_EAGAIN | write_EBADF
| write_EFAULT | write_EFBIG | write_EINTR | write_EINVAL | write_EIO
| write_ENOSPC | write_EPIPE | write_null | write_overflow | write_unknown
| ei_encode_error | poll_EBADF | poll_EFAULT | poll_EINTR | poll_EINVAL
| poll_ENOMEM | poll_ERR | poll_HUP | poll_NVAL | poll_unknown
| pipe_EFAULT | pipe_EINVAL | pipe_EMFILE | pipe_ENFILE | pipe_unknown
| dup_EBADF | dup_EBUSY | dup_EINTR | dup_EINVAL | dup_EMFILE | dup_unknown
| close_EBADF | close_EINTR | close_EIO | close_unknown.

Definition value (s : exit_status) : Z :=
  match s with
  | success => 0 | ready => 78 | timeout => 79 | erlang_exit => 80
  | read_EAGAIN => 81 | read_EBADF => 82 | read_EFAULT => 83
  | read_EINTR => 84 | read_EINVAL => 85 | read_EIO => 86
  | read_EISDIR => 87 | read_null => 88 | read_overflow => 89
  | read_unknown => 90 | write_EAGAIN => 91 | write_EBADF => 92
  | write_EFAULT => 93 | write_EFBIG => 94 | write_EINTR => 95
  | write_EINVAL => 96 | write_EIO => 97 | write_ENOSPC => 98
  | write_EPIPE => 99 | write_null => 100 | write_overflow => 101
  | write_unknown => 102 | ei_encode_error => 103 | poll_EBADF => 104
  | poll_EFAULT => 105 | poll_EINTR => 106 | poll_EINVAL => 107
  | poll_ENOMEM => 108 | poll_ERR => 109 | poll_HUP => 110
  | poll_NVAL => 111 | poll_unknown => 112 | pipe_EFAULT => 113
  | pipe_EINVAL => 114 | pipe_EMFILE => 115 | pipe_ENFILE => 116
  | pipe_unknown => 117 | dup_EBADF => 118 | dup_EBUSY => 119
  | dup_EINTR => 120 | dup_EINVAL => 121 | dup_EMFILE => 122
  | dup_unknown => 123 | close_EBADF => 124 | close_EINTR => 125
  | close_EIO => 126 | close_unknown => 127
  end.
#[local] Coercion value : exit_status >-> Z.

Definition min : Z := ready.
Definition errors_min : Z := erlang_exit.
Definition errors_max : Z := errors_min + 48.
Definition error_HUP : Z := poll_HUP.

Definition all : list exit_status :=
  [ success; ready; timeout; erlang_exit; read_EAGAIN; read_EBADF;
    read_EFAULT; read_EINTR; read_EINVAL; read_EIO; read_EISDIR; read_null;
    read_overflow; read_unknown; write_EAGAIN; write_EBADF; write_EFAULT;
    write_EFBIG; write_EINTR; write_EINVAL; write_EIO; write_ENOSPC;
    write_EPIPE; write_null; write_overflow; write_unknown;
    ei_encode_error; poll_EBADF; poll_EFAULT; poll_EINTR; poll_EINVAL;
    poll_ENOMEM; poll_ERR; poll_HUP; poll_NVAL; poll_unknown; pipe_EFAULT;
    pipe_EINVAL; pipe_EMFILE; pipe_ENFILE; pipe_unknown; dup_EBADF;
    dup_EBUSY; dup_EINTR; dup_EINVAL; dup_EMFILE; dup_unknown; close_EBADF;
    close_EINTR; close_EIO; close_unknown ].

Definition errno_read (e : errno) : exit_status :=
  match e with
  | EAGAIN => read_EAGAIN | EBADF => read_EBADF | EFAULT => read_EFAULT
  | EINTR => read_EINTR | EINVAL => read_EINVAL | EIO => read_EIO
  | EISDIR => read_EISDIR | _ => read_unknown
  end.

Definition errno_write (e : errno) : exit_status :=
  match e with
  | EAGAIN => write_EAGAIN | EBADF => write_EBADF | EFAULT => write_EFAULT
  | EFBIG => write_EFBIG | EINTR => write_EINTR | EINVAL => write_EINVAL
  | EIO => write_EIO | ENOSPC => write_ENOSPC | EPIPE => write_EPIPE
  | _ => write_unknown
  end.

Definition errno_poll (e : errno) : exit_status :=
  match e with
  | EBADF => poll_EBADF | EFAULT => poll_EFAULT | EINTR => poll_EINTR
  | EINVAL => poll_EINVAL | ENOMEM => poll_ENOMEM | _ => poll_unknown
  end.

Definition errno_pipe (e : errno) : exit_status :=
  match e with
  | EFAULT => pipe_EFAULT | EINVAL => pipe_EINVAL | EMFILE => pipe_EMFILE
  | ENFILE => pipe_ENFILE | _ => pipe_unknown
  end.

Definition errno_dup (e : errno) : exit_status :=
  match e with
  | EBADF => dup_EBADF | EBUSY => dup_EBUSY | EINTR => dup_EINTR
  | EINVAL => dup_EINVAL | EMFILE => dup_EMFILE | _ => dup_unknown
  end.

Definition errno_close (e : errno) : exit_status :=
  match e with
  | EBADF => close_EBADF | EINTR => close_EINTR | EIO => close_EIO
  | _ => close_unknown
  end.
End GEPD.
Coercion GEPD.value : GEPD.exit_status >-> Z.

(** ** namespace spawn_status *)
Module spawn_status.
Inductive status : Type :=
| success | invalid_input | out_of_memory | pipe_EFAULT | pipe_EINVAL
| pipe_EMFILE | pipe_ENFILE | pipe_unknown | fork_EAGAIN | fork_ENOMEM
| fork_unknown | socket_EACCES | socket_EAFNOSUPPORT | socket_EINVAL
| socket_EMFILE | socket_ENFILE | socket_ENOBUFS | socket_ENOMEM
| socket_EPROTONOSUPPORT | socket_unknown | dup_EBADF | dup_EBUSY
| dup_EINTR | dup_EINVAL | dup_EMFILE | dup_unknown | close_EBADF
| close_EINTR | close_EIO | close_unknown | waitpid_ECHILD | waitpid_EINTR
| waitpid_EINVAL | waitpid_unknown | connect_EACCES | connect_EPERM
| connect_EADDRINUSE | connect_EAFNOSUPPORT | connect_EAGAIN
| connect_EALREADY | connect_EBADF | connect_ECONNREFUSED | connect_EFAULT
| connect_EINPROGRESS | connect_EINTR | connect_EISCONN
| connect_ENETUNREACH | connect_ENOTSOCK | connect_ETIMEDOUT
| connect_unknown | exec_E2BIG | exec_EACCES | exec_EFAULT | exec_EINVAL
| exec_EIO | exec_EISDIR | exec_ELIBBAD | exec_ELOOP | exec_EMFILE
| exec_ENAMETOOLONG | exec_ENFILE | exec_ENOENT | exec_ENOEXEC
| exec_ENOMEM | exec_ENOTDIR | exec_EPERM | exec_ETXTBSY | exec_unknown.

(** The values the enum gives: 0, then 11 and on. *)
Definition value (s : status) : Z :=
  match s with
  | success => 0 | invalid_input => 11 | out_of_memory => 12
  | pipe_EFAULT => 13 | pipe_EINVAL => 14 | pipe_EMFILE => 15
  | pipe_ENFILE => 16 | pipe_unknown => 17 | fork_EAGAIN => 18
  | fork_ENOMEM => 19 | fork_unknown => 20 | socket_EACCES => 21
  | socket_EAFNOSUPPORT => 22 | socket_EINVAL => 23 | socket_EMFILE => 24
  | socket_ENFILE => 25 | socket_ENOBUFS => 26 | socket_ENOMEM => 27
  | socket_EPROTONOSUPPORT => 28 | socket_unknown => 29 | dup_EBADF => 30
  | dup_EBUSY => 31 | dup_EINTR => 32 | dup_EINVAL => 33 | dup_EMFILE => 34
  | dup_unknown => 35 | close_EBADF => 36 | close_EINTR => 37
  | close_EIO => 38 | close_unknown => 39 | waitpid_ECHILD => 40
  | waitpid_EINTR => 41 | waitpid_EINVAL => 42 | waitpid_unknown => 43
  | connect_EACCES => 44 | connect_EPERM => 45 | connect_EADDRINUSE => 46
  | connect_EAFNOSUPPORT => 47 | connect_EAGAIN => 48
  | connect_EALREADY => 49 | connect_EBADF => 50
  | connect_ECONNREFUSED => 51 | connect_EFAULT => 52
  | connect_EINPROGRESS => 53 | connect_EINTR => 54 | connect_EISCONN => 55
  | connect_ENETUNREACH => 56 | connect_ENOTSOCK => 57
  | connect_ETIMEDOUT => 58 | connect_unknown => 59 | exec_E2BIG => 60
  | exec_EACCES => 61 | exec_EFAULT => 62 | exec_EINVAL => 63
  | exec_EIO => 64 | exec_EISDIR => 65 | exec_ELIBBAD => 66
  | exec_ELOOP => 67 | exec_EMFILE => 68 | exec_ENAMETOOLONG => 69
  | exec_ENFILE => 70 | exec_ENOENT => 71 | exec_ENOEXEC => 72
  | exec_ENOMEM => 73 | exec_ENOTDIR => 74 | exec_EPERM => 75
  | exec_ETXTBSY => 76 | exec_unknown => 77
  end.
#[local] Coercion value : status >-> Z.

Definition last_value : Z := exec_unknown + 1.

Definition all : list status :=
  [ success; invalid_input; out_of_memory; pipe_EFAULT; pipe_EINVAL;
    pipe_EMFILE; pipe_ENFILE; pipe_unknown; fork_EAGAIN; fork_ENOMEM;
    fork_unknown; socket_EACCES; socket_EAFNOSUPPORT; socket_EINVAL;
    socket_EMFILE; socket_ENFILE; socket_ENOBUFS; socket_ENOMEM;
    socket_EPROTONOSUPPORT; socket_unknown; dup_EBADF; dup_EBUSY;
    dup_EINTR; dup_EINVAL; dup_EMFILE; dup_unknown; close_EBADF;
    close_EINTR; close_EIO; close_unknown; waitpid_ECHILD; waitpid_EINTR;
    waitpid_EINVAL; waitpid_unknown; connect_EACCES; connect_EPERM;
    connect_EADDRINUSE; connect_EAFNOSUPPORT; connect_EAGAIN;
    connect_EALREADY; connect_EBADF; connect_ECONNREFUSED; connect_EFAULT;
    connect_EINPROGRESS; connect_EINTR; connect_EISCONN;
    connect_ENETUNREACH; connect_ENOTSOCK; connect_ETIMEDOUT;
    connect_unknown; exec_E2BIG; exec_EACCES; exec_EFAULT; exec_EINVAL;
    exec_EIO; exec_EISDIR; exec_ELIBBAD; exec_ELOOP; exec_EMFILE;
    exec_ENAMETOOLONG; exec_ENFILE; exec_ENOENT; exec_ENOEXEC; exec_ENOMEM;
    exec_ENOTDIR; exec_EPERM; exec_ETXTBSY; exec_unknown ].

Definition errno_pipe (e : errno) : status :=
  match e with
  | EFAULT => pipe_EFAULT | EINVAL => pipe_EINVAL | EMFILE => pipe_EMFILE
  | ENFILE => pipe_ENFILE | _ => pipe_unknown
  end.

Definition errno_fork (e : errno) : status :=
  match e with
  | EAGAIN => fork_EAGAIN | ENOMEM => fork_ENOMEM | _ => fork_unknown
  end.

Definition errno_socket (e : errno) : status :=
  match e with
  | EACCES => socket_EACCES | EAFNOSUPPORT => socket_EAFNOSUPPORT
  | EINVAL => socket_EINVAL | EMFILE => socket_EMFILE
  | ENFILE => socket_ENFILE | ENOBUFS => socket_ENOBUFS
  | ENOMEM => socket_ENOMEM | EPROTONOSUPPORT => socket_EPROTONOSUPPORT
  | _ => socket_unknown
  end.

Definition errno_dup (e : errno) : status :=
  match e with
  | EBADF => dup_EBADF | EBUSY => dup_EBUSY | EINTR => dup_EINTR
  | EINVAL => dup_EINVAL | EMFILE => dup_EMFILE | _ => dup_unknown
  end.

Definition errno_close (e : errno) : status :=
  match e with
  | EBADF => close_EBADF | EINTR => close_EINTR | EIO => close_EIO
  | _ => close_unknown
  end.

Definition errno_connect (e : errno) : status :=
  match e with
  | EACCES => connect_EACCES | EPERM => connect_EPERM
  | EADDRINUSE => connect_EADDRINUSE | EAFNOSUPPORT => connect_EAFNOSUPPORT
  | EAGAIN => connect_EAGAIN | EALREADY => connect_EALREADY
  | EBADF => connect_EBADF | ECONNREFUSED => connect_ECONNREFUSED
  | EFAULT => connect_EFAULT | EINPROGRESS => connect_EINPROGRESS
  | EINTR => connect_EINTR | EISCONN => connect_EISCONN
  | ENETUNREACH => connect_ENETUNREACH | ENOTSOCK => connect_ENOTSOCK
  | ETIMEDOUT => connect_ETIMEDOUT | _ => connect_unknown
  end.

Definition errno_exec (e : errno) : status :=
  match e with
  | E2BIG => exec_E2BIG | EACCES => exec_EACCES | EFAULT => exec_EFAULT
  | EINVAL => exec_EINVAL | EIO => exec_EIO | EISDIR => exec_EISDIR
  | ELIBBAD => exec_ELIBBAD | ELOOP => exec_ELOOP | EMFILE => exec_EMFILE
  | ENAMETOOLONG => exec_ENAMETOOLONG | ENFILE => exec_ENFILE
  | ENOENT => exec_ENOENT | ENOEXEC => exec_ENOEXEC | ENOMEM => exec_ENOMEM
  | ENOTDIR => exec_ENOTDIR | EPERM => exec_EPERM | ETXTBSY => exec_ETXTBSY
  | _ => exec_unknown
  end.

Definition errno_write (e : errno) : GEPD.exit_status :=
  match e with
  | EAGAIN => GEPD.write_EAGAIN | EBADF => GEPD.write_EBADF
  | EFAULT => GEPD.write_EFAULT | EFBIG => GEPD.write_EFBIG
  | EINTR => GEPD.write_EINTR | EINVAL => GEPD.write_EINVAL
  | EIO => GEPD.write_EIO | ENOSPC => GEPD.write_ENOSPC
  | EPIPE => GEPD.write_EPIPE | _ => GEPD.write_unknown
  end.

(** The cases of [string]'s switch, in its three groups: the values of the
    enum, those of GEPD::ExitStatus, and 128 plus a signal. *)
Definition internal_cases : list (Z * string) :=
  [ (invalid_input : Z, "invalid_input");
    (out_of_memory : Z, "out_of_memory"); (pipe_EFAULT : Z, "pipe_EFAULT");
    (pipe_EINVAL : Z, "pipe_EINVAL"); (pipe_EMFILE : Z, "pipe_EMFILE");
    (pipe_ENFILE : Z, "pipe_ENFILE"); (pipe_unknown : Z, "pipe_unknown");
    (fork_EAGAIN : Z, "fork_EAGAIN"); (fork_ENOMEM : Z, "fork_ENOMEM");
    (fork_unknown : Z, "fork_unknown");
    (socket_EACCES : Z, "socket_EACCES");
    (socket_EAFNOSUPPORT : Z, "socket_EAFNOSUPPORT");
    (socket_EINVAL : Z, "socket_EINVAL");
    (socket_EMFILE : Z, "socket_EMFILE");
    (socket_ENFILE : Z, "socket_ENFILE");
    (socket_ENOBUFS : Z, "socket_ENOBUFS");
    (socket_ENOMEM : Z, "socket_ENOMEM");
    (socket_EPROTONOSUPPORT : Z, "socket_EPROTONOSUPPORT");
    (socket_unknown : Z, "socket_unknown"); (dup_EBADF : Z, "dup_EBADF");
    (dup_EBUSY : Z, "dup_EBUSY"); (dup_EINTR : Z, "dup_EINTR");
    (dup_EINVAL : Z, "dup_EINVAL"); (dup_EMFILE : Z, "dup_EMFILE");
    (dup_unknown : Z, "dup_unknown"); (close_EBADF : Z, "close_EBADF");
    (close_EINTR : Z, "close_EINTR"); (close_EIO : Z, "close_EIO");
    (close_unknown : Z, "close_unknown");
    (waitpid_ECHILD : Z, "waitpid_ECHILD");
    (waitpid_EINTR : Z, "waitpid_EINTR");
    (waitpid_EINVAL : Z, "waitpid_EINVAL");
    (waitpid_unknown : Z, "waitpid_unknown");
    (connect_EACCES : Z, "connect_EACCES");
    (connect_EPERM : Z, "connect_EPERM");
    (connect_EADDRINUSE : Z, "connect_EADDRINUSE");
    (connect_EAFNOSUPPORT : Z, "connect_EAFNOSUPPORT");
    (connect_EAGAIN : Z, "connect_EAGAIN");
    (connect_EALREADY : Z, "connect_EALREADY");
    (connect_EBADF : Z, "connect_EBADF");
    (connect_ECONNREFUSED : Z, "connect_ECONNREFUSED");
    (connect_EFAULT : Z, "connect_EFAULT");
    (connect_EINPROGRESS : Z, "connect_EINPROGRESS");
    (connect_EINTR : Z, "connect_EINTR");
    (connect_EISCONN : Z, "connect_EISCONN");
    (connect_ENETUNREACH : Z, "connect_ENETUNREACH");
    (connect_ENOTSOCK : Z, "connect_ENOTSOCK");
    (connect_ETIMEDOUT : Z, "connect_ETIMEDOUT");
    (connect_unknown : Z, "connect_unknown");
    (exec_E2BIG : Z, "exec_E2BIG"); (exec_EACCES : Z, "exec_EACCES");
    (exec_EFAULT : Z, "exec_EFAULT"); (exec_EINVAL : Z, "exec_EINVAL");
    (exec_EIO : Z, "exec_EIO"); (exec_EISDIR : Z, "exec_EISDIR");
    (exec_ELIBBAD : Z, "exec_ELIBBAD"); (exec_ELOOP : Z, "exec_ELOOP");
    (exec_EMFILE : Z, "exec_EMFILE");
    (exec_ENAMETOOLONG : Z, "exec_ENAMETOOLONG");
    (exec_ENFILE : Z, "exec_ENFILE"); (exec_ENOENT : Z, "exec_ENOENT");
    (exec_ENOEXEC : Z, "exec_ENOEXEC"); (exec_ENOMEM : Z, "exec_ENOMEM");
    (exec_ENOTDIR : Z, "exec_ENOTDIR"); (exec_EPERM : Z, "exec_EPERM");
    (exec_ETXTBSY : Z, "exec_ETXTBSY");
    (exec_unknown : Z, "exec_unknown") ]%string.

Definition gepd_cases : list (Z * string) :=
  [ (GEPD.read_EAGAIN : Z, "read_EAGAIN");
    (GEPD.read_EBADF : Z, "read_EBADF");
    (GEPD.read_EFAULT : Z, "read_EFAULT");
    (GEPD.read_EINTR : Z, "read_EINTR");
    (GEPD.read_EINVAL : Z, "read_EINVAL"); (GEPD.read_EIO : Z, "read_EIO");
    (GEPD.read_EISDIR : Z, "read_EISDIR");
    (GEPD.read_null : Z, "read_null");
    (GEPD.read_overflow : Z, "read_overflow");
    (GEPD.read_unknown : Z, "read_unknown");
    (GEPD.write_EAGAIN : Z, "write_EAGAIN");
    (GEPD.write_EBADF : Z, "write_EBADF");
    (GEPD.write_EFAULT : Z, "write_EFAULT");
    (GEPD.write_EFBIG : Z, "write_EFBIG");
    (GEPD.write_EINTR : Z, "write_EINTR");
    (GEPD.write_EINVAL : Z, "write_EINVAL");
    (GEPD.write_EIO : Z, "write_EIO");
    (GEPD.write_ENOSPC : Z, "write_ENOSPC");
    (GEPD.write_EPIPE : Z, "write_EPIPE");
    (GEPD.write_null : Z, "write_null");
    (GEPD.write_overflow : Z, "write_overflow");
    (GEPD.write_unknown : Z, "write_unknown");
    (GEPD.ei_encode_error : Z, "ei_encode_error");
    (GEPD.poll_EBADF : Z, "poll_EBADF");
    (GEPD.poll_EFAULT : Z, "poll_EFAULT");
    (GEPD.poll_EINTR : Z, "poll_EINTR");
    (GEPD.poll_EINVAL : Z, "poll_EINVAL");
    (GEPD.poll_ENOMEM : Z, "poll_ENOMEM"); (GEPD.poll_ERR : Z, "poll_ERR");
    (GEPD.poll_HUP : Z, "poll_HUP"); (GEPD.poll_NVAL : Z, "poll_NVAL");
    (GEPD.poll_unknown : Z, "poll_unknown");
    (GEPD.pipe_EFAULT : Z, "pipe_EFAULT");
    (GEPD.pipe_EINVAL : Z, "pipe_EINVAL");
    (GEPD.pipe_EMFILE : Z, "pipe_EMFILE");
    (GEPD.pipe_ENFILE : Z, "pipe_ENFILE");
    (GEPD.pipe_unknown : Z, "pipe_unknown");
    (GEPD.dup_EBADF : Z, "dup_EBADF"); (GEPD.dup_EBUSY : Z, "dup_EBUSY");
    (GEPD.dup_EINTR : Z, "dup_EINTR"); (GEPD.dup_EINVAL : Z, "dup_EINVAL");
    (GEPD.dup_EMFILE : Z, "dup_EMFILE");
    (GEPD.dup_unknown : Z, "dup_unknown");
    (GEPD.close_EBADF : Z, "close_EBADF");
    (GEPD.close_EINTR : Z, "close_EINTR");
    (GEPD.close_EIO : Z, "close_EIO");
    (GEPD.close_unknown : Z, "close_unknown") ]%string.

Definition signal_cases : list (Z * string) :=
  [ (129, "SIGHUP"); (130, "SIGINT"); (131, "SIGQUIT"); (132, "SIGILL");
    (133, "SIGTRAP"); (134, "SIGABRT"); (135, "SIGBUS/SIGEMT");
    (136, "SIGFPE"); (137, "SIGKILL"); (138, "SIGUSR1/SIGBUS");
    (139, "SIGSEGV"); (140, "SIGUSR2/SIGSYS"); (141, "SIGPIPE");
    (142, "SIGALRM"); (143, "SIGTERM"); (144, "SIGUSR1/SIGURG");
    (145, "SIGUSR2/SIGCHLD/SIGSTOP"); (146, "SIGCHLD/SIGCONT/SIGTSTP");
    (147, "SIGCONT/SIGSTOP/SIGPWR"); (148, "SIGCHLD/SIGTSTP/SIGWINCH");
    (149, "SIGTTIN/SIGURG"); (150, "SIGTTOU/SIGIO");
    (151, "SIGSTOP/SIGURG/SIGIO"); (152, "SIGTSTP/SIGXCPU");
    (153, "SIGCONT/SIGXFSZ"); (154, "SIGTTIN/SIGVTALRM");
    (155, "SIGTTOU/SIGPROF"); (156, "SIGVTALRM/SIGWINCH");
    (157, "SIGPROF/SIGIO/SIGPWR"); (158, "SIGUSR1/SIGXCPU/SIGPWR");
    (159, "SIGUSR2/SIGXFSZ/SIGSYS") ]%string.

(** [switch (status) { case k: return s; ... default: return 0; }] *)
Fixpoint switch (cases : list (Z * string)) (status : Z) : option string :=
  match cases with
  | [] => None
  | (k, s) :: cases => if status =? k then Some s else switch cases status
  end.

Definition string (status : Z) : option String.string :=
  switch (internal_cases ++ gepd_cases ++ signal_cases) status.
End spawn_status.
Coercion spawn_status.value : spawn_status.status >-> Z.

#[export] Instance gepd_status_eq_dec : EqDecision GEPD.exit_status.
Proof. solve_decision. Defined.
#[export] Instance spawn_status_eq_dec : EqDecision spawn_status.status.
Proof. solve_decision. Defined.

(** ** Specification *)

Definition errno_name (e : errno) : String.string :=
  match e with
  | EAGAIN => "EAGAIN" | EBADF => "EBADF" | EFAULT => "EFAULT" | EINTR => "EINTR"
  | EINVAL => "EINVAL" | EIO => "EIO" | EISDIR => "EISDIR" | EFBIG => "EFBIG"
  | ENOSPC => "ENOSPC" | EPIPE => "EPIPE" | ENOMEM => "ENOMEM" | EMFILE => "EMFILE"
  | ENFILE => "ENFILE" | EBUSY => "EBUSY" | EACCES => "EACCES"
  | EAFNOSUPPORT => "EAFNOSUPPORT" | ENOBUFS => "ENOBUFS"
  | EPROTONOSUPPORT => "EPROTONOSUPPORT" | EPERM => "EPERM"
  | EADDRINUSE => "EADDRINUSE" | EALREADY => "EALREADY"
  | ECONNREFUSED => "ECONNREFUSED" | EINPROGRESS => "EINPROGRESS"
  | EISCONN => "EISCONN" | ENETUNREACH => "ENETUNREACH" | ENOTSOCK => "ENOTSOCK"
  | ETIMEDOUT => "ETIMEDOUT" | E2BIG => "E2BIG" | ELIBBAD => "ELIBBAD"
  | ELOOP => "ELOOP" | ENAMETOOLONG => "ENAMETOOLONG" | ENOENT => "ENOENT"
  | ENOEXEC => "ENOEXEC" | ENOTDIR => "ENOTDIR" | ETXTBSY => "ETXTBSY"
  | ECHILD => "ECHILD" | errno_other => "unknown"
  end%string.

(** The system calls whose failures have a status: the function that gives
    the status, and the prefix of its name. *)
Definition failures : list ((errno -> Z) * String.string) :=
  [ ((fun e => GEPD.errno_read e : Z), "read_"); ((fun e => GEPD.errno_write e : Z), "write_");
    ((fun e => GEPD.errno_poll e : Z), "poll_"); ((fun e => GEPD.errno_pipe e : Z), "pipe_");
    ((fun e => GEPD.errno_dup e : Z), "dup_"); ((fun e => GEPD.errno_close e : Z), "close_");
    ((fun e => spawn_status.errno_pipe e : Z), "pipe_");
    ((fun e => spawn_status.errno_fork e : Z), "fork_");
    ((fun e => spawn_status.errno_socket e : Z), "socket_");
    ((fun e => spawn_status.errno_dup e : Z), "dup_");
    ((fun e => spawn_status.errno_close e : Z), "close_");
    ((fun e => spawn_status.errno_connect e : Z), "connect_");
    ((fun e => spawn_status.errno_exec e : Z), "exec_");
    ((fun e => spawn_status.errno_write e : Z), "write_") ]%string.

(** Every status of [spawn] and of the port, in one list. *)
Definition all_statuses : list Z :=
  (spawn_status.value <$> spawn_status.all) ++ (GEPD.value <$> drop 1 GEPD.all).

(** ** Properties *)

(** The name [string] gives the status of a failed system call says which
    call failed and, when the translation keeps it, with which [errno]: it is
    the call's prefix and either the [errno]'s own name or "unknown". *)
Theorem string_names_failure :
  Forall (fun '(status, prefix) => forall e,
      spawn_status.string (status e) = Some (prefix +:+ errno_name e) \/
      spawn_status.string (status e) = Some (prefix +:+ "unknown") /\
      status e = status errno_other)
    failures.
Proof.
  unfold failures.
  repeat (apply Forall_cons; split;
    [intros e; destruct e; first [left; reflexivity | right; split; reflexivity]|]).
  by apply Forall_nil.
Qed.

(** No status stands for two failures: the values of [spawn_status] and of
    GEPD::ExitStatus are all different, those of [spawn_status] below and the
    others between [GEPD::ExitStatus::min] and [errors_max] (what [main]
    asserts of [last_value]), none is the status of a process killed by a
    signal, and every one of them but success and the two that [wait] returns
    for its caller has a name. *)
Theorem exit_statuses_distinct :
  NoDup all_statuses /\
  (forall s : spawn_status.status, 0 <= s < spawn_status.last_value) /\
  spawn_status.last_value = GEPD.min /\
  (forall s : GEPD.exit_status, s <> GEPD.success -> GEPD.min <= s < GEPD.errors_max) /\
  (forall s signal, s ∈ all_statuses -> 1 <= signal -> s <> signal + 128) /\
  (forall s, s ∈ all_statuses ->
     spawn_status.string s = None <->
     s ∈ [spawn_status.success : Z; GEPD.ready : Z; GEPD.timeout : Z; GEPD.erlang_exit : Z]).
Proof.
  split; [apply (bool_decide_unpack _); vm_compute; exact Logic.I|].
  split; [intros []; cbn; unfold spawn_status.last_value; cbn; lia|].
  split; [reflexivity|].
  split; [intros [] H; try done; vm_compute; intuition congruence|].
  assert (Forall (fun s => s < 128 /\
    bool_decide (spawn_status.string s = None <->
     s ∈ [spawn_status.success : Z; GEPD.ready : Z; GEPD.timeout : Z; GEPD.erlang_exit : Z]) = true)
    all_statuses) as Hall.
  { apply (bool_decide_unpack _). vm_compute. exact Logic.I. }
  rewrite Forall_forall in Hall. split.
  - intros s signal Hs Hsig. destruct (Hall s Hs). lia.
  - intros s Hs. destruct (Hall s Hs) as [_ H]. by apply bool_decide_eq_true in H.
Qed.

(** The C API's statuses are the port's: a program that exits with what an
    operation of the C API returned is logged under the name of that status,
    and [errno] is translated alike on both sides. *)
Theorem api_statuses_agree e :
  (errno_read e : Z) = GEPD.errno_read e /\
  (errno_write e : Z) = GEPD.errno_write e /\
  (errno_poll e : Z) = GEPD.errno_poll e /\
  (cloudi_invalid_input : Z) = spawn_status.invalid_input /\
  (cloudi_out_of_memory : Z) = spawn_status.out_of_memory /\
  (cloudi_error_read_null : Z) = GEPD.read_null /\
  (cloudi_error_read_overflow : Z) = GEPD.read_overflow /\
  (cloudi_error_write_null : Z) = GEPD.write_null /\
  (cloudi_error_write_overflow : Z) = GEPD.write_overflow /\
  (cloudi_error_ei_encode : Z) = GEPD.ei_encode_error /\
  (cloudi_terminate : Z) = GEPD.error_HUP.
Proof. by destruct e. Qed.
