(* ===== verification/Marshal.v ===== *)
(** * Calls of a generic port  (port.cpp, cloudi_os_spawn_hrl.h)

    The bindings the preprocessor generates for the functions of a port: how
    the arguments of a call are found in the buffer the call was read into,
    how the returned value is encoded, and the Erlang code, generated from the
    same table, that encodes the call. *)

From S2P Require Import Prelude CMonad Status Sys ReallocPtr Framing Ei ExitStatus.

(** The state of a port: descriptors 3 and 4, [buffer], and the state [X] of
    the functions it calls. *)
Record port (X : Type) : Type := mk_port {
  pt_erlang : sys;
  pt_buffer : buffer_t;
  pt_user : X
}.
#[global] Arguments mk_port {X}.
#[global] Arguments pt_erlang {X}.
#[global] Arguments pt_buffer {X}.
#[global] Arguments pt_user {X}.

(** An argument of a called function: an integer, or a pointer to an index of
    [buffer]. *)
Inductive arg_value : Type := AInt (z : Z) | APtr (off : Z).

(** What a called function returns: nothing, an integer, a [pchar_len_t] or a
    C string. *)
Inductive ret_value : Type := RVoid | RInt (z : Z) | RBytes (bs : bytes) | RString (s : bytes).

(** The value of an [n]-byte two's complement integer. *)
Definition sint (n : nat) (z : Z) : Z :=
  (z + 2 ^ (8 * Z.of_nat n - 1)) mod 2 ^ (8 * Z.of_nat n) - 2 ^ (8 * Z.of_nat n - 1).

Section marshal.
Context {X : Type} {E : Ei}.
Abbreviation M := (C (port X) Z).

Definition with_buffer (b : buffer_t) (p : port X) : port X :=
  mk_port (pt_erlang p) b (pt_user p).
Definition with_erlang (s : sys) (p : port X) : port X :=
  mk_port s (pt_buffer p) (pt_user p).

(** ** Arguments *)

(** The pointer [&(buffer[off])], after [operator []]'s assertion. *)
Definition pointer (off : Z) : M Z :=
  let* b := creads pt_buffer in
  cassert (off <? m_size b);;;
  cret off.

(** The [n] bytes of the integer there. *)
Definition bytes_at (n : nat) (off : Z) : M bytes :=
  let* off := pointer off in
  let* b := creads pt_buffer in
  copt (load (m_p b) (Z.to_nat off) n).
Definition unsigned_at (n : nat) (off : Z) : M Z :=
  let* bs := bytes_at n off in cret (le_combine bs).
Definition signed_at (n : nat) (off : Z) : M Z :=
  let* bs := bytes_at n off in cret (sint n (le_combine bs)).

(** GET_TYPE_SIZE_FROM_TYPE_t and GET_FUNCTION_ARGUMENT_FROM_TYPE_t of an
    argument type: its size at an offset, and the arguments it stands for. *)
Record arg_type : Type := mk_arg {
  arg_size : Z -> M Z;
  arg_get : Z -> M (list arg_value)
}.

Definition unsigned_arg (n : nat) : arg_type :=
  mk_arg (fun _ => cret (Z.of_nat n))
    (fun off => let* z := unsigned_at n off in cret [AInt z]).
Definition signed_arg (n : nat) : arg_type :=
  mk_arg (fun _ => cret (Z.of_nat n))
    (fun off => let* z := signed_at n off in cret [AInt z]).

Definition arg_char : arg_type := signed_arg 1.
Definition arg_uchar : arg_type := unsigned_arg 1.
Definition arg_bool : arg_type := unsigned_arg 1.
Definition arg_int8_t : arg_type := signed_arg 1.
Definition arg_uint8_t : arg_type := unsigned_arg 1.
Definition arg_int16_t : arg_type := signed_arg 2.
Definition arg_uint16_t : arg_type := unsigned_arg 2.
Definition arg_int32_t : arg_type := signed_arg 4.
Definition arg_uint32_t : arg_type := unsigned_arg 4.
Definition arg_int64_t : arg_type := signed_arg 8.
Definition arg_uint64_t : arg_type := unsigned_arg 8.
Definition arg_time_t : arg_type := unsigned_arg 8.

Definition arg_pchar_len : arg_type :=
  mk_arg (fun off => let* n := unsigned_at 4 off in cret (4 + n))
    (fun off =>
       let* p := pointer (off + 4) in
       let* n := unsigned_at 4 off in
       cret [APtr p; AInt n]).

Definition arg_puint32_len : arg_type :=
  mk_arg (fun off => let* n := unsigned_at 4 off in cret (4 + n * 4))
    (fun off =>
       let* p := pointer (off + 4) in
       let* n := unsigned_at 4 off in
       cret [APtr p; AInt n]).

(** The type names of a function table, and their macros (BOOST_PP_CAT). *)
Inductive type_name : Type :=
| t_char | t_uchar | t_bool | t_int8_t | t_uint8_t | t_int16_t | t_uint16_t
| t_int32_t | t_uint32_t | t_int64_t | t_uint64_t | t_time_t | t_pchar_len
| t_puint32_len.

Definition arg_of (t : type_name) : arg_type :=
  match t with
  | t_char => arg_char | t_uchar => arg_uchar | t_bool => arg_bool
  | t_int8_t => arg_int8_t | t_uint8_t => arg_uint8_t
  | t_int16_t => arg_int16_t | t_uint16_t => arg_uint16_t
  | t_int32_t => arg_int32_t | t_uint32_t => arg_uint32_t
  | t_int64_t => arg_int64_t | t_uint64_t => arg_uint64_t
  | t_time_t => arg_time_t
  | t_pchar_len => arg_pchar_len | t_puint32_len => arg_puint32_len
  end.

(** STORE_FUNCTION_ARGUMENTS: [offset_arg0] is [off], [offset_arg(N+1)] is
    [offset_argN + GET_TYPE_SIZE(...)], a [size_t]; the size of the last
    argument is not looked at. *)
Fixpoint offset_args (ts : list type_name) (off : Z) : M (list Z) :=
  match ts with
  | [] => cret []
  | [_] => cret [off]
  | t :: ts =>
      let* n := arg_size (arg_of t) off in
      let* offs := offset_args ts (wrap64 (off + n)) in
      cret (off :: offs)
  end.

(** CREATE_FUNCTION_ARGUMENTS *)
Fixpoint get_args (ts : list type_name) (offs : list Z) : M (list arg_value) :=
  match ts, offs with
  | t :: ts, off :: offs =>
      let* v := arg_get (arg_of t) off in
      let* vs := get_args ts offs in
      cret (v ++ vs)
  | _, _ => cret []
  end.

(** ** The returned value *)

(** Bytes written at [index] of [buffer], without a bounds check. *)
Definition put (index : Z) (bs : bytes) : M Z :=
  let* b := creads pt_buffer in
  let index' := index + Z.of_nat (length bs) in
  if decide (Z.to_nat index + length bs <= length (m_p b))%nat then
    if index' <=? INT_MAX then
      cmodify (with_buffer (set_cells b (store (m_p b) (Z.to_nat index) bs)));;;
      cret index'
    else cundef
  else cundef.

(** [if (ei_encode_*(buffer.get<char>(), &index, ...))
       return GEPD::ExitStatus::ei_encode_error;] for each term. *)
Fixpoint ei_encode (index : Z) (terms : list (option bytes)) : M Z :=
  match terms with
  | [] => cret index
  | None :: _ => creturn (GEPD.ei_encode_error : Z)
  | Some bs :: terms => let* index := put index bs in ei_encode index terms
  end.

(** [if (buffer.reserve(size) == false)
       return GEPD::ExitStatus::write_overflow;] *)
Definition reserve_buffer (size : Z) : M unit :=
  let* p := cget in
  let* (ok, b) := copt (reserve 1 (sys_realloc (pt_erlang p)) size (pt_buffer p)) in
  cmodify (with_buffer b);;;
  creturn_if (negb ok) (GEPD.write_overflow : Z).

(** CREATE_FUNCTION_RETURN_VALUE_STORE_TYPE_t and STORE_RETURN_VALUE_TYPE_t:
    the encoding of a value of type t at [index]. *)
Definition ret_type : Type := Z -> Z -> ret_value -> M Z.

(** The start of every reply, and the integer after it. *)
Definition reply_start (cmd : Z) : list (option bytes) :=
  [ei_encode_version; ei_encode_tuple_header 2; ei_encode_ulong cmd].

Definition integer_ret (enc : Z -> option bytes) : ret_type := fun cmd index v =>
  match v with
  | RInt z => ei_encode index (reply_start cmd ++ [enc z])
  | _ => cundef
  end.

Definition ret_void : ret_type := fun cmd index v =>
  ei_encode index (reply_start cmd ++ [ei_encode_atom (chars "ok")]).
Definition ret_char : ret_type := integer_ret ei_encode_long.
Definition ret_uchar : ret_type := integer_ret ei_encode_char.
Definition ret_bool : ret_type := integer_ret ei_encode_boolean.
Definition ret_int8_t : ret_type := integer_ret ei_encode_long.
Definition ret_uint8_t : ret_type := integer_ret ei_encode_ulong.
Definition ret_int16_t : ret_type := integer_ret ei_encode_long.
Definition ret_uint16_t : ret_type := integer_ret ei_encode_ulong.
Definition ret_int32_t : ret_type := integer_ret ei_encode_long.
Definition ret_uint32_t : ret_type := integer_ret ei_encode_ulong.
Definition ret_int64_t : ret_type := integer_ret ei_encode_longlong.
Definition ret_uint64_t : ret_type := integer_ret ei_encode_ulonglong.
Definition ret_time_t : ret_type := integer_ret ei_encode_ulonglong.

(** [pchar_len_t] (with or without the [free] after it) *)
Definition ret_pchar_len_t : ret_type := fun cmd index v =>
  match v with
  | RBytes bs =>
      let* index := ei_encode index (reply_start cmd) in
      reserve_buffer (index + Z.of_nat (length bs));;;
      ei_encode index [ei_encode_binary bs]
  | _ => cundef
  end.

(** [pchar] (with or without the [free] after it) *)
Definition ret_pchar : ret_type := fun cmd index v =>
  match v with
  | RString s =>
      let* index := ei_encode index (reply_start cmd) in
      reserve_buffer (index + Z.of_nat (length s) + 1);;;
      ei_encode index [ei_encode_string s]
  | _ => cundef
  end.

(** An entry of PORT_FUNCTIONS: ARGV, RETURN, and the function. *)
Record port_function : Type := mk_function {
  fn_argv : list type_name;
  fn_return : ret_type;
  fn_body : list arg_value -> C (port X) ret_value ret_value
}.
End marshal.
#[global] Arguments port_function : clear implicits.
#[global] Arguments arg_type : clear implicits.

(** ** The Erlang side  (cloudi_os_spawn_hrl.h)

    The Erlang terms passed to a generated function, and its
    ENCODE_ARGUMENT_AS_BINARY_FROM_TYPE_t macros. *)

Inductive erl_term : Type :=
| EInt (z : Z)
| EBinary (bs : bytes)
| EList (zs : list Z).

Definition encode_uint8 (v : erl_term) : option bytes :=
  match v with
  | EBinary bs => Some (u32 (Z.of_nat (length bs)) ++ bs)
  | EList zs => Some (u32 (Z.of_nat (length zs)) ++ (byte.of_Z <$> zs))
  | EInt _ => None
  end.

Definition encode_uint32 (v : erl_term) : option bytes :=
  match v with
  | EList zs =>
      let data := concat (u32 <$> zs) in
      Some (u32 (Z.of_nat (length data) / 4) ++ data)
  | _ => None
  end.

(** [Arg:n/integer-native], of either sign *)
Definition encode_integer (n : nat) (v : erl_term) : option bytes :=
  match v with EInt z => Some (le_split n z) | _ => None end.

Definition encode_argument (t : type_name) : erl_term -> option bytes :=
  match t with
  | t_char | t_uchar | t_bool | t_int8_t | t_uint8_t => encode_integer 1
  | t_int16_t | t_uint16_t => encode_integer 2
  | t_int32_t | t_uint32_t => encode_integer 4
  | t_int64_t | t_uint64_t | t_time_t => encode_integer 8
  | t_pchar_len => encode_uint8
  | t_puint32_len => encode_uint32
  end.

Fixpoint encode_arguments (ts : list type_name) (vs : list erl_term) : option bytes :=
  match ts, vs with
  | [], [] => Some []
  | t :: ts, v :: vs =>
      a ← encode_argument t v; rest ← encode_arguments ts vs; Some (a ++ rest)
  | _, _ => None
  end.

(** The iolist a generated function sends for function number [i]. *)
Definition encode_call (i : Z) (ts : list type_name) (vs : list erl_term) : option bytes :=
  args ← encode_arguments ts vs; Some (le_split 2 i ++ args).

(** ** Specification of a call

    How the arguments a function is called with stand for the Erlang terms. *)

(** Sign and size of an integer type. *)
Definition integer_type (t : type_name) : option (bool * nat) :=
  match t with
  | t_char | t_int8_t => Some (true, 1%nat)
  | t_uchar | t_bool | t_uint8_t => Some (false, 1%nat)
  | t_int16_t => Some (true, 2%nat)
  | t_uint16_t => Some (false, 2%nat)
  | t_int32_t => Some (true, 4%nat)
  | t_uint32_t => Some (false, 4%nat)
  | t_int64_t => Some (true, 8%nat)
  | t_uint64_t | t_time_t => Some (false, 8%nat)
  | t_pchar_len | t_puint32_len => None
  end.

Definition in_range (signed : bool) (n : nat) (z : Z) : Prop :=
  let w := 8 * Z.of_nat n in
  if signed then - 2 ^ (w - 1) <= z < 2 ^ (w - 1) else 0 <= z < 2 ^ w.

(** The terms a type can represent. *)
Definition term_ok (t : type_name) (v : erl_term) : Prop :=
  match integer_type t, v with
  | Some (signed, n), EInt z => in_range signed n z
  | Some _, _ => False
  | None, _ => True
  end.

(** The arguments [vals] read as [v] from the cells [m] of [buffer]. *)
Definition arg_denotes (m : cells) (t : type_name) (v : erl_term)
    (vals : list arg_value) : Prop :=
  match t, v with
  | t_pchar_len, EBinary bs =>
      exists off, 0 <= off /\ vals = [APtr off; AInt (Z.of_nat (length bs))] /\ holds m (Z.to_nat off) bs
  | t_pchar_len, EList zs =>
      exists off, 0 <= off /\ vals = [APtr off; AInt (Z.of_nat (length zs))] /\
        holds m (Z.to_nat off) (byte.of_Z <$> zs)
  | t_puint32_len, EList zs =>
      exists off, 0 <= off /\ vals = [APtr off; AInt (Z.of_nat (length zs))] /\
        holds m (Z.to_nat off) (concat (u32 <$> zs))
  | _, EInt z => vals = [AInt z]
  | _, _ => False
  end.

(** The arguments of a whole call. *)
Definition call_denotes (m : cells) (ts : list type_name) (vs : list erl_term)
    (vals : list arg_value) : Prop :=
  exists vss, Forall3 (arg_denotes m) ts vs vss /\ vals = concat vss.

(** ** Lemmas *)

Lemma le_combine_le_split n z : le_combine (le_split n z) = z mod 2 ^ (8 * Z.of_nat n).
Proof. rewrite le_combine_split. f_equal. f_equal. lia. Qed.

Lemma sint_mod n z :
  (0 < n)%nat -> in_range true n z -> sint n (z mod 2 ^ (8 * Z.of_nat n)) = z.
Proof.
  unfold in_range, sint. intros Hn Hz. cbv zeta in Hz.
  set (w := 8 * Z.of_nat n) in *.
  assert (2 ^ w = 2 * 2 ^ (w - 1)) as Hw
    by (rewrite <- Z.pow_succ_r by lia; f_equal; lia).
  rewrite Zplus_mod_idemp_l, Z.mod_small by lia. lia.
Qed.

Lemma length_concat_u32 zs : length (concat (u32 <$> zs)) = (4 * length zs)%nat.
Proof.
  induction zs as [|z zs IH]; [done|]. cbn [fmap list_fmap concat].
  rewrite length_app, length_u32, IH. cbn [length]. lia.
Qed.

Section facts.
Context {X : Type}.
Implicit Types (p : port X) (off : Z) (bs : bytes).

Lemma pointer_ok off p :
  off < m_size (pt_buffer p) -> pointer off p = (Next off, p).
Proof.
  intros H. unfold pointer. crun. by rewrite (proj2 (Z.ltb_lt _ _)) by done.
Qed.

Lemma bytes_at_ok bs off p :
  off < m_size (pt_buffer p) -> holds (m_p (pt_buffer p)) (Z.to_nat off) bs ->
  bytes_at (length bs) off p = (Next bs, p).
Proof.
  intros H Hh. unfold bytes_at. erewrite bind_next by (by apply pointer_ok). cbv beta.
  crun. by rewrite load_holds.
Qed.

Lemma unsigned_at_ok n z off p :
  off < m_size (pt_buffer p) ->
  holds (m_p (pt_buffer p)) (Z.to_nat off) (le_split n z) ->
  unsigned_at n off p = (Next (z mod 2 ^ (8 * Z.of_nat n)), p).
Proof.
  intros H Hh. unfold unsigned_at. pose proof (bytes_at_ok _ _ _ H Hh) as Hb.
  rewrite length_le_split in Hb. erewrite bind_next by exact Hb. cbv beta.
  by rewrite le_combine_le_split.
Qed.

Lemma signed_at_ok n z off p :
  (0 < n)%nat -> in_range true n z -> off < m_size (pt_buffer p) ->
  holds (m_p (pt_buffer p)) (Z.to_nat off) (le_split n z) ->
  signed_at n off p = (Next z, p).
Proof.
  intros Hn Hz H Hh. unfold signed_at. pose proof (bytes_at_ok _ _ _ H Hh) as Hb.
  rewrite length_le_split in Hb. erewrite bind_next by exact Hb. cbv beta.
  by rewrite le_combine_le_split, sint_mod.
Qed.

(** A length and the data after it. *)
Lemma sized_ok n (data : bytes) off p :
  0 <= n < 2 ^ 32 -> 0 <= off ->
  off + 4 + Z.of_nat (length data) < m_size (pt_buffer p) ->
  holds (m_p (pt_buffer p)) (Z.to_nat off) (u32 n ++ data) ->
  unsigned_at 4 off p = (Next n, p) /\ pointer (off + 4) p = (Next (off + 4), p) /\
  holds (m_p (pt_buffer p)) (Z.to_nat (off + 4)) data.
Proof.
  intros Hn H0 Hs Hh. apply holds_app in Hh as [Hh1 Hh2]. rewrite length_u32 in Hh2.
  split; [|split].
  - rewrite (unsigned_at_ok 4 n) by (try done; lia). by rewrite Z.mod_small by (cbn; lia).
  - apply pointer_ok. lia.
  - by replace (Z.to_nat (off + 4)) with (Z.to_nat off + 4)%nat by lia.
Qed.
(** One argument: its size is that of its encoding, and it is found. *)
Lemma integer_arg_ok t sgn n z off p :
  integer_type t = Some (sgn, n) -> in_range sgn n z -> off < m_size (pt_buffer p) ->
  holds (m_p (pt_buffer p)) (Z.to_nat off) (le_split n z) ->
  arg_size (arg_of t) off p = (Next (Z.of_nat n), p) /\
  arg_get (arg_of t) off p = (Next [AInt z], p).
Proof.
  intros Ht Hz Hoff Hh. destruct sgn.
  - assert (0 < n)%nat as Hn by (destruct t; try discriminate; injection Ht as <-; lia).
    assert (arg_of (X := X) t = signed_arg n) as ->
      by (destruct t; try discriminate; by injection Ht as <-).
    split; [done|]. cbn. by erewrite bind_next by (by apply signed_at_ok).
  - assert (arg_of (X := X) t = unsigned_arg n) as ->
      by (destruct t; try discriminate; by injection Ht as <-).
    split; [done|]. cbn. erewrite bind_next by (by apply unsigned_at_ok). cbv beta.
    unfold in_range in Hz. cbv zeta in Hz. by rewrite Z.mod_small by done.
Qed.

Lemma arg_ok t v a off p :
  encode_argument t v = Some a -> term_ok t v -> 0 <= off ->
  off + Z.of_nat (length a) < m_size (pt_buffer p) -> Z.of_nat (length a) < 2 ^ 32 ->
  holds (m_p (pt_buffer p)) (Z.to_nat off) a ->
  arg_size (arg_of t) off p = (Next (Z.of_nat (length a)), p) /\
  exists vals, arg_get (arg_of t) off p = (Next vals, p) /\
    arg_denotes (m_p (pt_buffer p)) t v vals.
Proof.
  intros He Hok H0 Hs Hlt Hh. destruct (integer_type t) as [[sgn n]|] eqn:Ht.
  - unfold term_ok in Hok. rewrite Ht in Hok. destruct v as [z| |]; try done.
    assert (encode_argument t (EInt z) = Some (le_split n z)) as He'
      by (destruct t; try discriminate; by injection Ht as _ <-).
    rewrite He' in He. injection He as <-. rewrite length_le_split in Hs |- *.
    destruct (integer_arg_ok t sgn n z off p) as [H1 H2]; try done; [lia|].
    split; [done|]. eexists. split; [exact H2|].
    by destruct t; try discriminate.
  - destruct t; try discriminate; destruct v as [z|bs|zs]; try discriminate;
      cbn [encode_argument encode_uint8 encode_uint32] in He; cbv zeta in He;
      apply (inj Some) in He; subst a;
      rewrite ?length_app, ?length_u32, ?length_fmap, ?length_concat_u32 in Hs, Hlt.
    + destruct (sized_ok (Z.of_nat (length bs)) bs off p) as (H1 & H2 & H3); try done; [lia..|].
      cbn. rewrite (bind_next _ _ _ _ _ H1), length_app, length_u32.
      split; [unfold cret; do 2 f_equal; lia|].
      rewrite (bind_next _ _ _ _ _ H2), (bind_next _ _ _ _ _ H1).
      eexists. split; [done|]. exists (off + 4). split; [lia|done].
    + destruct (sized_ok (Z.of_nat (length zs)) (byte.of_Z <$> zs) off p) as (H1 & H2 & H3);
        try done; rewrite ?length_fmap; [lia..|].
      cbn. rewrite (bind_next _ _ _ _ _ H1), length_app, length_u32, length_fmap.
      split; [unfold cret; do 2 f_equal; lia|].
      rewrite (bind_next _ _ _ _ _ H2), (bind_next _ _ _ _ _ H1).
      eexists. split; [done|]. exists (off + 4). split; [lia|done].
    + assert (Z.of_nat (length (concat (u32 <$> zs))) / 4 = Z.of_nat (length zs)) as Hd.
      { rewrite length_concat_u32, Nat2Z.inj_mul, Z.mul_comm. by apply Z.div_mul. }
      rewrite Hd in Hh |- *.
      destruct (sized_ok (Z.of_nat (length zs)) (concat (u32 <$> zs)) off p)
        as (H1 & H2 & H3); try done; rewrite ?length_concat_u32; [lia..|].
      cbn. rewrite (bind_next _ _ _ _ _ H1), length_app, length_u32, length_concat_u32.
      split; [unfold cret; do 2 f_equal; lia|].
      rewrite (bind_next _ _ _ _ _ H2), (bind_next _ _ _ _ _ H1).
      eexists. split; [done|]. exists (off + 4). split; [lia|done].
Qed.

(** All arguments, wherever they start. *)
Lemma args_ok ts vs bs off p :
  encode_arguments ts vs = Some bs -> Forall2 term_ok ts vs -> 0 <= off ->
  off + Z.of_nat (length bs) < m_size (pt_buffer p) ->
  off + Z.of_nat (length bs) < 2 ^ 32 ->
  holds (m_p (pt_buffer p)) (Z.to_nat off) bs ->
  exists offs vals, offset_args ts off p = (Next offs, p) /\
    get_args ts offs p = (Next vals, p) /\ call_denotes (m_p (pt_buffer p)) ts vs vals.
Proof.
  revert vs bs off. induction ts as [|t ts IH]; intros [|v vs] bs off He Hok H0 Hs Hlt Hh;
    try discriminate.
  - exists [], []. split; [done|]. split; [done|]. exists []. by split; [constructor|].
  - cbn in He. destruct (encode_argument t v) as [a|] eqn:Ea; [|done]. cbn in He.
    destruct (encode_arguments ts vs) as [bs2|] eqn:Eb; [|done].
    injection He as <-. apply Forall2_cons in Hok as [Hv Hok].
    rewrite length_app in Hs, Hlt. apply holds_app in Hh as [Hh1 Hh2].
    destruct (arg_ok t v a off p Ea Hv H0 ltac:(lia) ltac:(lia) Hh1)
      as (Hsize & vals & Hget & Hden).
    destruct (IH vs bs2 (off + Z.of_nat (length a))) as (offs & vals2 & Ho & Hg & vss & Hd & ->);
      try done; [lia..| |].
    { by replace (Z.to_nat (off + Z.of_nat (length a))) with (Z.to_nat off + length a)%nat by lia. }
    exists (off :: offs), (vals ++ concat vss). split; [|split].
    + destruct ts as [|t2 ts]; [by injection Ho as <-|].
      cbn [offset_args]. erewrite bind_next by exact Hsize. cbv beta.
      rewrite wrap64_small by lia. erewrite bind_next by exact Ho. done.
    + cbn [get_args]. erewrite bind_next by exact Hget. cbv beta.
      by erewrite bind_next by exact Hg.
    + exists (vals :: vss). split; [by constructor|done].
Qed.
End facts.
