(* ===== verification/Port.v ===== *)
(** * The generic port  (port.cpp)

    The commands an Erlang port reads from descriptor 3 and the replies it
    writes to descriptor 4, each with a 4-byte big-endian length ({packet, 4}
    of open_port), and the dispatch of a command to its function. *)

From S2P Require Import Prelude CMonad Status Sys ReallocPtr Framing Ei ExitStatus Marshal.

Definition POLLIN : Z := 1.
Definition POLLPRI : Z := 2.
Definition POLLERR : Z := 8.
Definition POLLHUP : Z := 16.
Definition POLLNVAL : Z := 32.

(** [while (total < length) { ... }] of [read_exact]. *)
Fixpoint read_exact_loop (fuel : nat) (total : Z) (m : cells) (length : Z) :
  C sys (Z * cells) (Z * cells) :=
  if total <? length then
    match fuel with
    | O => cnofuel
    | S fuel =>
        let* i := sys_read (length - total) in
        match i with
        | inl e => creturn (GEPD.errno_read e : Z, m)
        | inr [] => creturn (GEPD.read_null : Z, m)
        | inr bs =>
            if decide (Z.to_nat total + List.length bs <= List.length m)%nat then
              read_exact_loop fuel (wrap32 (total + Z.of_nat (List.length bs)))
                (store m (Z.to_nat total) bs) length
            else cundef
        end
    end
  else cret (total, m).

Definition read_exact (m : cells) (length : Z) : C sys (Z * cells) (Z * cells) :=
  let* fuel := creads (fun s => S (List.length (sys_reads s))) in
  let* (total, m) := read_exact_loop fuel 0 m length in
  if length <? total then creturn (GEPD.read_overflow : Z, m)
  else creturn (GEPD.success : Z, m).

(** [while (total < length) { ... }] of [write_exact]. *)
Fixpoint write_exact_loop (fuel : nat) (total : Z) (m : cells) (length : Z) :
  C sys Z Z :=
  if total <? length then
    match fuel with
    | O => cnofuel
    | S fuel =>
        let* data := copt (load m (Z.to_nat total) (Z.to_nat (length - total))) in
        let* i := sys_write data in
        match i with
        | inl e => creturn (GEPD.errno_write e : Z)
        | inr i =>
            if i <=? 0 then creturn (GEPD.write_null : Z)
            else write_exact_loop fuel (wrap32 (total + i)) m length
        end
    end
  else cret total.

Definition write_exact (m : cells) (length : Z) : C sys Z Z :=
  let* fuel := creads (fun s => S (List.length (sys_writes s))) in
  let* total := write_exact_loop fuel 0 m length in
  if length <? total then creturn (GEPD.write_overflow : Z)
  else creturn (GEPD.success : Z).

Section port.
Context {X : Type} {E : Ei}.
Abbreviation M := (C (port X) Z).

(** A function of descriptors 3 and 4. *)
Definition on_erlang {R A} (c : C sys R A) : C (port X) R A := fun p =>
  let '(o, s) := c (pt_erlang p) in (o, with_erlang s p).

(** The length is that of the command; [reserve]'s result is not looked at. *)
Definition read_cmd : M Z :=
  let* (status, lengthData) := call (on_erlang (read_exact (replicate 4 None) 4)) in
  creturn_if (negb (status =? 0)) status;;;
  let* lengthData := copt (mapM id lengthData) in
  let* length := copt (header_length lengthData) in
  let* p := cget in
  let* (_, b) := copt (reserve 1 (sys_realloc (pt_erlang p)) length (pt_buffer p)) in
  cmodify (with_buffer b);;;
  let* (status, m) := call (on_erlang (read_exact (m_p b) length)) in
  cmodify (with_buffer (set_cells b m));;;
  creturn status.

(** The four bytes at the start of [buffer], and everything written. *)
Definition write_cmd (length : Z) : M Z :=
  let* b := creads pt_buffer in
  cassert (3 <? m_size b);;;
  let b := set_cells b (store (m_p b) 0 (header_bytes length)) in
  cmodify (with_buffer b);;;
  let* status := call (on_erlang (write_exact (m_p b) (wrap32 (length + 4)))) in
  creturn status.

(** The status, and [index] by reference. *)
Definition reply_error_string (index cmd : Z) (str : bytes) : C (port X) Z Z :=
  let* index := ei_encode index
    [ ei_encode_version; ei_encode_tuple_header 3;
      ei_encode_atom (chars "error"); ei_encode_ulong cmd ] in
  reserve_buffer (index + Z.of_nat (length str) + 1);;;
  ei_encode index [ei_encode_string str].

Definition invalid_function : bytes := chars "Invalid function call".

(** The reply at index 4 of [buffer] is complete: write it. *)
Definition write_reply (index : Z) : M Z :=
  let* status := call (write_cmd (wrap32 (index - 4))) in
  creturn_if (negb (status =? 0)) status;;;
  creturn (GEPD.success : Z).

(** CREATE_FUNCTION: the [case] of function number [cmd]. *)
Definition create_function (f : port_function X) (cmd : Z) : M Z :=
  let* offs := offset_args (fn_argv f) 2 in
  let* args := get_args (fn_argv f) offs in
  let* returnValue := call (fn_body f args) in
  let* index := fn_return f cmd 4 returnValue in
  write_reply index.

(** The functions are numbered from 1 (BOOST_PP_DEC of a repetition that
    starts at 2). *)
Definition function_number (functions : list (port_function X)) (cmd : Z) :
  option (port_function X) :=
  if 1 <=? cmd then functions !! Z.to_nat (cmd - 1) else None.

(** Whether [revents] has a flag. *)
Definition has (revents flag : Z) : bool := negb (Z.land revents flag =? 0).

(** The status; [revents] is 0 afterwards unless it has an error. *)
Definition consume_erlang (functions : list (port_function X)) (revents : Z) : M Z :=
  if has revents POLLERR then creturn (GEPD.poll_ERR : Z)
  else if has revents POLLHUP then creturn (GEPD.erlang_exit : Z)
  else if has revents POLLNVAL then creturn (GEPD.poll_NVAL : Z)
  else
    let* status := call read_cmd in
    creturn_if (negb (status =? 0)) status;;;
    let* b := creads pt_buffer in
    let* bs := copt (load (m_p b) 0 2) in
    let cmd := le_combine bs in
    match function_number functions cmd with
    | Some f => create_function f cmd
    | None =>
        let* index := reply_error_string 4 cmd invalid_function in
        write_reply index
    end.
End port.

(** ** The two sides of a socket agree

    [read_exact] and [write_exact] of port.cpp are those of cloudi.cpp, with
    the same values for their statuses. *)

Lemma read_exact_loop_eq fuel total m len s :
  read_exact_loop fuel total m len s = Framing.read_exact_loop fuel total m len s.
Proof.
  revert total m s. induction fuel as [|fuel IH]; intros total m s; cbn; [done|].
  destruct (total <? len); [|done]. unfold cbind.
  destruct (sys_read (len - total) s) as [[[e|[|b bs]]| | | | |] s']; try done.
  all: first [by destruct e | case_decide; [apply IH|done]].
Qed.

Lemma read_exact_eq m len s : read_exact m len s = Framing.read_exact m len s.
Proof.
  unfold read_exact, Framing.read_exact, creads. unfold cbind. by rewrite read_exact_loop_eq.
Qed.

Lemma write_exact_loop_eq fuel total m len s :
  match write_exact_loop fuel total m len s, Framing.write_exact_loop fuel total m len s with
  | (Return st, s1), (Return (st', _), s2) => st = st' /\ s1 = s2
  | (Next t, s1), (Next t', s2) => t = t' /\ s1 = s2
  | (Throw _, _), (Throw _, _) => True
  | (Undef, s1), (Undef, s2) | (Blocked, s1), (Blocked, s2) | (NoFuel, s1), (NoFuel, s2) =>
      s1 = s2
  | _, _ => False
  end.
Proof.
  revert total s. induction fuel as [|fuel IH]; intros total s; cbn;
    (destruct (total <? len); [|done]); [done|]. unfold cbind.
  destruct (load m (Z.to_nat total) (Z.to_nat (len - total))) as [data|]; cbn; [|done].
  unfold sys_write. destruct (sys_writes s) as [|[k|e] ws]; cbn; [done| |by destruct e].
  destruct (_ <=? 0); [done|apply IH].
Qed.

Lemma write_exact_ok m len s s' m' :
  Framing.write_exact 0 m len s = (Return (cloudi_success : Z, m'), s') ->
  write_exact m len s = (Return (GEPD.success : Z), s').
Proof.
  unfold Framing.write_exact, write_exact, creads. unfold cbind. cbn [negb Z.eqb cret].
  pose proof (write_exact_loop_eq (S (length (sys_writes s))) 0 m len s) as H. revert H.
  destruct (write_exact_loop _ _ _ _ _) as [[] s1];
    destruct (Framing.write_exact_loop _ _ _ _ _) as [[t2|[st2 m2]|e2| | |] s2]; try done.
  - intros [-> ->]. destruct (len <? t2); intros H2; by inversion H2.
  - intros [-> ->] H2. by inversion H2.
Qed.

Section facts.
Context {X : Type} {E : Ei}.
Implicit Types (p : port X) (body bs : bytes).

Lemma put_ok index bs p :
  0 <= index -> (Z.to_nat index + length bs <= length (m_p (pt_buffer p)))%nat ->
  index + Z.of_nat (length bs) <= INT_MAX ->
  put index bs p =
    (Next (index + Z.of_nat (length bs)),
     with_buffer (set_cells (pt_buffer p) (store (m_p (pt_buffer p)) (Z.to_nat index) bs)) p).
Proof.
  intros H0 Hl Hi. unfold put. crun.
  rewrite decide_True by done. rewrite (proj2 (Z.leb_le _ _)) by done. crun. done.
Qed.

Lemma ei_encode_ok index terms bs p :
  term_bytes terms = Some bs -> 0 <= index ->
  (Z.to_nat index + length bs <= length (m_p (pt_buffer p)))%nat ->
  index + Z.of_nat (length bs) <= INT_MAX ->
  ei_encode index terms p =
    (Next (index + Z.of_nat (length bs)),
     with_buffer (set_cells (pt_buffer p) (store (m_p (pt_buffer p)) (Z.to_nat index) bs)) p).
Proof.
  unfold term_bytes. destruct (mapM id terms) as [bss|] eqn:Hm; [|done].
  intros [= <-]. apply mapM_id_Some in Hm as ->. revert index p.
  induction bss as [|b1 bss IH]; intros index p H0 Hl Hi; cbn [concat fmap list_fmap ei_encode].
  - rewrite store_nil, Z.add_0_r. unfold cret, with_buffer. f_equal. by destruct p as [? [] ?].
  - cbn [concat] in Hl, Hi. rewrite length_app in Hl, Hi.
    erewrite bind_next by (apply put_ok; lia). cbv beta.
    rewrite IH; [|lia|..]; cycle 1.
    { cbn. rewrite length_store by lia. lia. }
    { lia. }
    cbn [with_buffer pt_buffer pt_erlang pt_user set_cells m_p]. f_equal.
    + f_equal. rewrite length_app. lia.
    + unfold with_buffer, set_cells. cbn. by rewrite Z2Nat.inj_add, Nat2Z.id, store_store by lia.
Qed.

(** A command arrives whole, at the start of a buffer larger than it. *)
Lemma read_cmd_ok body rest p :
  sys_in (pt_erlang p) = frame 1 body ++ rest ->
  good_reads (4 + length body) (sys_reads (pt_erlang p)) ->
  (forall n, sys_realloc (pt_erlang p) n = true) -> wf (pt_buffer p) ->
  Z.of_nat (length body) <= m_maxSize (pt_buffer p) -> Z.of_nat (length body) < 2 ^ 32 ->
  exists b j, (j <= 4 + length body)%nat /\
    read_cmd p = (Return (GEPD.success : Z),
      mk_port (set_read rest (drop j (sys_reads (pt_erlang p))) (pt_erlang p)) b (pt_user p)) /\
    holds (m_p b) 0 body /\ wf b /\ Z.of_nat (length body) < m_size b /\
    m_size (pt_buffer p) <= m_size b.
Proof.
  intros Hin Hg Halloc Hwf Hmax Hlt. destruct p as [s B x]. cbn in *.
  set (n := Z.of_nat (length body)) in *.
  destruct (read_exact_good (replicate 4 None) s (header_bytes n) (body ++ rest))
    as (j1 & Hj1 & He1).
  { by rewrite Hin. }
  { cbn. lia. }
  { eapply good_reads_le; [|exact Hg]. cbn. lia. }
  { cbn. lia. }
  change (Z.of_nat (length (header_bytes n))) with 4 in He1.
  set (s1 := set_read (body ++ rest) (drop j1 (sys_reads s)) s) in *.
  assert (good_reads (length body) (sys_reads s1)) as Hg2.
  { apply (good_reads_drop 4 _ j1); [by cbn in Hj1|exact Hg]. }
  destruct (reserve_succeeds 1 (sys_realloc s) n B) as (b1 & Hr & Hext & Hsz);
    try done; [lia|].
  pose proof Hext as (Hwf1 & Hge & _ & _ & _). destruct Hwf1 as [Hl1 Hz1].
  destruct (read_exact_good (m_p b1) s1 body rest) as (j2 & Hj2 & He2); try done; [lia|].
  exists (set_cells b1 (store (m_p b1) 0 body)), (j1 + j2)%nat.
  split; [cbn in Hj1; lia|]. split; [|split; [|split; [split|]]].
  - unfold read_cmd. erewrite bind_next.
    2:{ apply call_return. unfold on_erlang. cbn [pt_erlang]. rewrite read_exact_eq, He1. done. }
    cbv beta iota. erewrite bind_next by reflexivity. cbv beta.
    erewrite bind_next with (a := header_bytes n) by reflexivity. cbv beta.
    rewrite header_roundtrip by lia. cbn [copt].
    erewrite bind_next by reflexivity.
    cbv beta. crun. cbn [with_erlang pt_erlang pt_buffer].
    change (sys_realloc s1) with (sys_realloc s). rewrite Hr. cbn [copt]. erewrite bind_next by reflexivity. cbv beta iota. crun.
    erewrite bind_next.
    2:{ apply call_return. unfold on_erlang. cbn [pt_erlang with_buffer with_erlang].
        rewrite read_exact_eq. unfold n. rewrite He2. done. }
    cbv beta iota. crun. unfold creturn. cbn. unfold s1. cbn. do 2 f_equal.
    unfold set_read. cbn. by rewrite drop_drop.
  - apply holds_store_eq. lia.
  - cbn. rewrite length_store by lia. lia.
  - cbn. lia.
  - cbn. lia.
Qed.
(** A reply at index 4 is written with its length. *)
Lemma write_cmd_ok term p :
  wf (pt_buffer p) -> holds (m_p (pt_buffer p)) 4 term ->
  4 + Z.of_nat (length term) <= m_size (pt_buffer p) ->
  4 + Z.of_nat (length term) < 2 ^ 32 ->
  good_writes (4 + length term) (sys_writes (pt_erlang p)) ->
  exists b j, (j <= 4 + length term)%nat /\ wf b /\
    write_cmd (Z.of_nat (length term)) p =
      (Return (GEPD.success : Z),
       mk_port (set_write (sys_out (pt_erlang p) ++ frame 1 term)
                  (drop j (sys_writes (pt_erlang p))) (pt_erlang p)) b (pt_user p)).
Proof.
  intros [Hl Hz] Hh Hs Hlt Hg. destruct p as [s B x]. cbn [pt_erlang pt_buffer pt_user] in *.
  set (n := Z.of_nat (length term)) in *.
  set (b := set_cells B (store (m_p B) 0 (header_bytes n))).
  assert (length (m_p b) = length (m_p B)) as Hlb
    by (apply length_store; cbn; lia).
  assert (holds (m_p b) 0 (frame 1 term)) as Hf.
  { change (frame 1 term) with (header_bytes n ++ term). apply holds_app. split.
    - apply holds_store_eq. lia.
    - apply holds_store_above; try done; cbn; lia. }
  assert (length (frame 1 term) = 4 + length term)%nat as Hlf by done.
  destruct (write_exact_sends 0 (m_p b) s (frame 1 term)) as (j & m' & Hj & Hm & He);
    change (body_index 0) with 0 in *; change (frame 0 (frame 1 term)) with (frame 1 term) in *;
    rewrite ?Hlf in *; try done; [lia..|].
  exists b, j. split; [done|]. split; [split; [cbn; rewrite length_store; cbn; lia|done]|].
  unfold write_cmd. crun. cbn [pt_buffer]. rewrite (proj2 (Z.ltb_lt _ _)) by lia.
  erewrite bind_next by reflexivity. cbv beta zeta. crun. fold n b.
  erewrite bind_next.
  2:{ apply call_return. unfold on_erlang. cbn [pt_erlang with_buffer].
      rewrite wrap32_small by lia.
      replace (n + 4) with (0 + Z.of_nat (4 + length term)) by lia.
      rewrite (write_exact_ok _ _ _ _ _ He). done. }
  done.
Qed.

Lemma write_reply_ok term p :
  wf (pt_buffer p) -> holds (m_p (pt_buffer p)) 4 term ->
  4 + Z.of_nat (length term) <= m_size (pt_buffer p) ->
  4 + Z.of_nat (length term) < 2 ^ 32 ->
  good_writes (4 + length term) (sys_writes (pt_erlang p)) ->
  exists b j, (j <= 4 + length term)%nat /\ wf b /\
    write_reply (4 + Z.of_nat (length term)) p =
      (Return (GEPD.success : Z),
       mk_port (set_write (sys_out (pt_erlang p) ++ frame 1 term)
                  (drop j (sys_writes (pt_erlang p))) (pt_erlang p)) b (pt_user p)).
Proof.
  intros Hwf Hh Hs Hlt Hg.
  destruct (write_cmd_ok term p) as (b & j & Hj & Hb & He); try done.
  exists b, j. split; [done|]. split; [done|]. unfold write_reply.
  rewrite Z.add_simpl_l, wrap32_small by lia.
  by erewrite bind_next by (apply call_return; exact He).
Qed.
End facts.

Section properties.
Context {X : Type} {E : Ei} {laws : EiLaws E}.
Implicit Types (p : port X) (body : bytes).

(** The terms before the value of a reply take 10 bytes at most. *)
Lemma reply_start_bytes i :
  0 <= i < 2 ^ 16 -> exists bs, term_bytes (reply_start i) = Some bs /\
    Z.of_nat (length bs) <= 10.
Proof.
  intros Hi. destruct (within_all [1; 2; 7] (reply_start i)) as (bss & Hb & Hl).
  { repeat constructor.
    - apply version_within.
    - apply tuple_header_within. lia.
    - apply ulong_within. lia. }
  exists (concat bss). split; [by apply term_bytes_Some|]. cbn in Hl. lia.
Qed.

Lemma function_number_range (functions : list (port_function X)) i f :
  function_number functions i = Some f -> 1 <= i <= Z.of_nat (length functions).
Proof.
  unfold function_number. destruct (Z.leb_spec 1 i); [|done].
  intros Hl%lookup_lt_Some. lia.
Qed.

(** A call reaches the function of its number: it is called in a state with
    the command in [buffer], its arguments stand for the terms, and what it
    returns is encoded and written. *)
Lemma call_reaches (functions : list (port_function X)) f i vs body rest p :
  function_number functions i = Some f -> Z.of_nat (length functions) < 2 ^ 15 ->
  encode_call i (fn_argv f) vs = Some body -> Forall2 term_ok (fn_argv f) vs ->
  sys_in (pt_erlang p) = frame 1 body ++ rest ->
  good_reads (4 + length body) (sys_reads (pt_erlang p)) ->
  (forall n, sys_realloc (pt_erlang p) n = true) -> wf (pt_buffer p) ->
  Z.of_nat (length body) <= m_maxSize (pt_buffer p) ->
  2 + Z.of_nat (length body) < 2 ^ 32 ->
  exists args b j,
    wf b /\ m_size (pt_buffer p) <= m_size b /\ call_denotes (m_p b) (fn_argv f) vs args /\
    consume_erlang functions POLLIN p =
      (let* v := call (fn_body f args) in
       let* index := fn_return f i 4 v in
       write_reply index)
      (mk_port (set_read rest (drop j (sys_reads (pt_erlang p))) (pt_erlang p)) b (pt_user p)).
Proof.
  intros Hf Hi Hbody Hvs Hin Hreads Halloc Hwf Hmax Hlt.
  pose proof (function_number_range _ _ _ Hf) as Hir.
  destruct (read_cmd_ok body rest p) as (b & j & Hj & Hread & Hb & Hwfb & Hszb & Hge);
    try done; [lia|].
  unfold encode_call in Hbody.
  destruct (encode_arguments (fn_argv f) vs) as [abs|] eqn:Ha; [|done].
  cbn [mbind option_bind] in Hbody. apply (inj Some) in Hbody. subst body.
  rewrite length_app, length_le_split in Hlt, Hszb.
  apply holds_app in Hb as [Hcmd Hargs]. rewrite length_le_split in Hargs.
  set (p1 := mk_port _ b (pt_user p)) in Hread.
  destruct (args_ok (fn_argv f) vs abs 2 p1) as (offs & args & Ho & Hg & Hden);
    try done; [cbn; lia|lia|].
  exists args, b, j. split; [done|]. split; [done|]. split; [done|].
  unfold consume_erlang. cbn [has POLLIN POLLERR POLLHUP POLLNVAL Z.land Pos.land Z.eqb negb].
  change (has POLLIN POLLERR) with false. change (has POLLIN POLLHUP) with false.
  change (has POLLIN POLLNVAL) with false. cbv iota.
  erewrite bind_next by (apply call_return; exact Hread). cbv beta.
  erewrite bind_next by reflexivity. cbv beta. crun. cbn [p1 pt_buffer].
  erewrite bind_next with (a := le_split 2 i).
  2:{ rewrite <- (length_le_split 2 i) at 1. by rewrite (load_holds _ _ _ Hcmd). }
  cbv beta zeta. rewrite le_combine_le_split, Z.mod_small by (cbn; lia). rewrite Hf.
  unfold create_function. erewrite bind_next by exact Ho. cbv beta.
  by erewrite bind_next by exact Hg.
Qed.

(** An integer is encoded after the number of its command, and written. *)
Lemma reply_integer enc i z bs p :
  0 <= i < 2 ^ 16 -> enc z = Some bs -> (length bs <= 11)%nat -> wf (pt_buffer p) ->
  32 <= m_size (pt_buffer p) -> good_writes 25 (sys_writes (pt_erlang p)) ->
  exists reply b j, term_bytes (reply_start i ++ [enc z]) = Some reply /\ wf b /\
    (let* index := integer_ret enc i 4 (RInt z) in write_reply index) p =
      (Return (GEPD.success : Z),
       mk_port (set_write (sys_out (pt_erlang p) ++ frame 1 reply)
         (drop j (sys_writes (pt_erlang p))) (pt_erlang p)) b (pt_user p)).
Proof.
  intros Hi Henc Hbs Hwf Hsize Hwrites.
  destruct (reply_start_bytes i Hi) as (hd & Hhd & Hhl).
  assert (term_bytes (reply_start i ++ [enc z]) = Some (hd ++ bs)) as Hterm.
  { apply term_bytes_app; [done|]. rewrite Henc. cbn. by rewrite app_nil_r. }
  assert (length (hd ++ bs) <= 21)%nat as Hrl by (rewrite length_app; lia).
  pose proof Hwf as [Hl Hz]. destruct p as [s b x]. cbn [pt_erlang pt_buffer pt_user] in *.
  set (p3 := with_buffer (set_cells b (store (m_p b) 4 (hd ++ bs))) (mk_port s b x)).
  destruct (write_reply_ok (hd ++ bs) p3) as (b4 & j4 & _ & Hwf4 & Hwr).
  { split; cbn; rewrite ?length_store; lia. }
  { apply holds_store_eq. lia. }
  { cbn. lia. }
  { lia. }
  { cbn. eapply good_writes_le; [|exact Hwrites]. lia. }
  exists (hd ++ bs), b4, j4. split; [exact Hterm|]. split; [exact Hwf4|].
  unfold integer_ret.
  erewrite bind_next by (apply ei_encode_ok; [exact Hterm|lia|cbn; lia|unfold INT_MAX; lia]).
  cbv beta. exact Hwr.
Qed.

(** ** Properties *)

(** C39. A remote call.  When the Erlang side sends the call it generates for
    function number [i] with terms its types can represent, the port calls
    that function with arguments that read, in the port's memory, as these
    terms, and answers with one frame that holds the command number and the
    encoding of the integer the function returned; it takes no byte of the
    commands after it, and never reads outside the command. *)
Theorem consume_erlang_call functions f i vs body rest enc z bs x' p
    (Hf : function_number functions i = Some f) (Hi : Z.of_nat (length functions) < 2 ^ 15)
    (Hbody : encode_call i (fn_argv f) vs = Some body)
    (Hvs : Forall2 term_ok (fn_argv f) vs)
    (Hin : sys_in (pt_erlang p) = frame 1 body ++ rest)
    (Hreads : good_reads (4 + length body) (sys_reads (pt_erlang p)))
    (Halloc : forall n, sys_realloc (pt_erlang p) n = true)
    (Hwf : wf (pt_buffer p)) (Hsize : 32 <= m_size (pt_buffer p))
    (Hmax : Z.of_nat (length body) <= m_maxSize (pt_buffer p))
    (Hlt : 2 + Z.of_nat (length body) < 2 ^ 32)
    (Hret : fn_return f = integer_ret enc) (Henc : enc z = Some bs)
    (Hbs : (length bs <= 11)%nat)
    (Hwrites : good_writes 25 (sys_writes (pt_erlang p)))
    (Hrun : forall args p1,
       call_denotes (m_p (pt_buffer p1)) (fn_argv f) vs args -> pt_user p1 = pt_user p ->
       fn_body f args p1 = (Return (RInt z), mk_port (pt_erlang p1) (pt_buffer p1) x')) :
  exists reply p', term_bytes (reply_start i ++ [enc z]) = Some reply /\
    consume_erlang functions POLLIN p = (Return (GEPD.success : Z), p') /\
    sys_in (pt_erlang p') = rest /\
    sys_out (pt_erlang p') = sys_out (pt_erlang p) ++ frame 1 reply /\
    pt_user p' = x' /\ wf (pt_buffer p').
Proof.
  pose proof (function_number_range _ _ _ Hf) as Hir.
  destruct (call_reaches functions f i vs body rest p)
    as (args & b & j & Hb & Hge & Hden & He); try done.
  rewrite He, Hret. clear He.
  erewrite bind_next by (apply call_return, Hrun; done). cbv beta.
  edestruct (reply_integer enc i z bs) as (reply & b' & j' & Hr & Hwf' & ->);
    [lia|exact Henc|done| | | |]; cycle 3.
  { exists reply. eexists. split; [exact Hr|]. split; [reflexivity|]. by cbn. }
  all: cbn; try done; lia.
Qed.

(** The terms before the text of an error reply. *)
Definition error_start (cmd : Z) : list (option bytes) :=
  [ ei_encode_version; ei_encode_tuple_header 3;
    ei_encode_atom (chars "error"); ei_encode_ulong cmd ].

Lemma error_start_bytes cmd :
  0 <= cmd < 2 ^ 16 -> exists bs, term_bytes (error_start cmd) = Some bs /\
    Z.of_nat (length bs) <= 18.
Proof.
  intros Hi. destruct (within_all [1; 2; 8; 7] (error_start cmd)) as (bss & Hb & Hl).
  { repeat constructor.
    - apply version_within.
    - apply tuple_header_within. lia.
    - apply (atom_within (chars "error")). cbn. lia.
    - apply ulong_within. lia. }
  exists (concat bss). split; [by apply term_bytes_Some|]. cbn in Hl. lia.
Qed.

(** A command that is not one of the port's functions is answered with
    one error frame, and no function is called. *)
Theorem consume_erlang_unknown functions cmd extra rest p
    (Hf : function_number functions cmd = None) (Hcmd : 0 <= cmd < 2 ^ 16)
    (Hin : sys_in (pt_erlang p) = frame 1 (le_split 2 cmd ++ extra) ++ rest)
    (Hreads : good_reads (6 + length extra) (sys_reads (pt_erlang p)))
    (Halloc : forall n, sys_realloc (pt_erlang p) n = true)
    (Hwf : wf (pt_buffer p)) (Hsize : 64 <= m_size (pt_buffer p))
    (Hmax : 2 + Z.of_nat (length extra) <= m_maxSize (pt_buffer p))
    (Hlt : 2 + Z.of_nat (length extra) < 2 ^ 32)
    (Hwrites : good_writes 64 (sys_writes (pt_erlang p))) :
  exists reply p',
    term_bytes (error_start cmd ++ [ei_encode_string invalid_function]) = Some reply /\
    consume_erlang functions POLLIN p = (Return (GEPD.success : Z), p') /\
    sys_in (pt_erlang p') = rest /\
    sys_out (pt_erlang p') = sys_out (pt_erlang p) ++ frame 1 reply /\
    pt_user p' = pt_user p.
Proof.
  destruct (read_cmd_ok (le_split 2 cmd ++ extra) rest p)
    as (b & j & Hj & Hread & Hb & Hwfb & Hszb & Hge);
    rewrite ?length_app, ?length_le_split in *; try done; [lia..|].
  apply holds_app in Hb as [Hb _]. pose proof Hwfb as [Hlb Hzb].
  destruct (error_start_bytes cmd Hcmd) as (hd & Hhd & Hhl).
  destruct (string_within invalid_function) as (str & Hstr & Hsl); [vm_compute; done|].
  change (Z.of_nat (length invalid_function) + 3) with 24 in Hsl.
  set (p1 := mk_port _ b (pt_user p)) in Hread.
  set (b1 := set_cells b (store (m_p b) 4 hd)).
  set (b2 := set_cells b1 (store (m_p b1) (4 + length hd) str)).
  assert (length (m_p b1) = length (m_p b)) as Hl1 by (apply length_store; lia).
  assert (length (m_p b2) = length (m_p b)) as Hl2
    by (unfold b2; cbn; rewrite length_store; cbn in *; lia).
  destruct (write_reply_ok (hd ++ str) (with_buffer b2 p1)) as (b4 & j4 & _ & Hwf4 & Hwr);
    cbn [with_buffer pt_buffer pt_erlang p1]; rewrite ?length_app; try lia.
  { split; [|done]. change (m_size b2) with (m_size b). lia. }
  { apply holds_app. split; [apply holds_store_below; try lia|apply holds_store_eq; lia].
    apply holds_store_eq. lia. }
  { change (m_size b2) with (m_size b). lia. }
  { eapply good_writes_le; [|exact Hwrites]. lia. }
  exists (hd ++ str). eexists. split; [|split].
  - apply term_bytes_app; [done|]. rewrite Hstr. cbn. by rewrite app_nil_r.
  - unfold consume_erlang. change (has POLLIN POLLERR) with false.
    change (has POLLIN POLLHUP) with false. change (has POLLIN POLLNVAL) with false.
    cbv iota. erewrite bind_next by (apply call_return; exact Hread). cbv beta.
    erewrite bind_next by reflexivity. cbv beta. crun. cbn [p1 pt_buffer].
    erewrite bind_next with (a := le_split 2 cmd).
    2:{ rewrite <- (length_le_split 2 cmd) at 1. by rewrite (load_holds _ _ _ Hb). }
    cbv beta zeta. rewrite le_combine_le_split, Z.mod_small by (cbn; lia). rewrite Hf.
    unfold reply_error_string. fold (error_start cmd). rewrite bind_assoc.
    erewrite bind_next by (apply ei_encode_ok; [exact Hhd|lia|cbn; lia|unfold INT_MAX; lia]).
    cbv beta. fold p1. change (with_buffer _ p1) with (with_buffer b1 p1).
    rewrite bind_assoc. erewrite bind_next with (a := tt) (s' := with_buffer b1 p1).
    2:{ unfold reserve_buffer. crun. unfold reserve. cbn [with_buffer pt_buffer].
        change (m_size b1) with (m_size b).
        change (Z.of_nat (length invalid_function)) with 21.
        rewrite (proj2 (Z.ltb_lt _ _)) by lia. cbn [copt].
        erewrite bind_next by reflexivity. cbv beta iota. by crun. }
    cbv beta. erewrite bind_next.
    2:{ apply ei_encode_ok with (bs := str);
          [rewrite Hstr; cbn; by rewrite app_nil_r|lia|cbn [with_buffer pt_buffer]; lia|unfold INT_MAX; lia]. }
    cbv beta. cbn [with_buffer pt_buffer pt_erlang pt_user].
    replace (Z.to_nat (4 + Z.of_nat (length hd))) with (4 + length hd)%nat by lia.
    fold b2. change (mk_port (pt_erlang p1) b2 (pt_user p1)) with (with_buffer b2 p1).
    replace (4 + Z.of_nat (length hd) + Z.of_nat (length str))
      with (4 + Z.of_nat (length (hd ++ str))) by (rewrite length_app; lia).
    exact Hwr.
  - by cbn.
Qed.
(** Reading more than an allocation holds. *)
Lemma read_exact_loop_overflow fuel total (m : cells) len s bs rest :
  sys_in s = bs ++ rest -> 0 <= total <= Z.of_nat (length m) ->
  total + Z.of_nat (length bs) = len -> len < 2 ^ 32 ->
  good_reads (length bs) (sys_reads s) -> (length bs <= fuel)%nat ->
  Z.of_nat (length m) < len ->
  exists s', read_exact_loop fuel total m len s = (Undef, s').
Proof.
  revert total m s bs. induction fuel as [|fuel IH];
    intros total m s bs Hin [H0 H1] Hlen Hlt Hgood Hfuel Hm; cbn [read_exact_loop];
    (destruct bs as [|b bs]; [cbn in Hlen; lia|]); [cbn in Hfuel; lia|].
  set (w := b :: bs) in *. assert (length w = S (length bs)) as Hw by done.
  rewrite (proj2 (Z.ltb_lt _ _)) by lia. rewrite Hw in Hgood.
  destruct (good_reads_cons _ _ Hgood) as (k & rs & Hrs & Hgood').
  unfold sys_read at 1. unfold cbind at 1. rewrite Hrs, Hin.
  replace (Z.to_nat (len - total)) with (length w) by lia.
  set (n := Nat.min (S k) (length w)). rewrite take_app_le, drop_app_le by lia.
  assert (length (take n w) = n) as Hn by (rewrite length_take; lia).
  destruct (take n w) as [|a l] eqn:Ha; [cbn in Hn; lia|]. rewrite <- Ha in *. rewrite Hn.
  case_decide as Hd; [|by eexists]. rewrite wrap32_small by lia.
  apply (IH _ _ _ (drop n w)); cbn [set_read sys_in sys_reads];
    rewrite ?length_store, ?length_drop by lia; try lia; try done.
  apply (good_reads_le _ (length bs)); [lia|done].
Qed.

(** A command longer than the buffer's maximum is read past the end of
    the buffer: [read_cmd] does not look at [reserve]'s result. *)
Theorem read_cmd_overflows body rest p
    (Hin : sys_in (pt_erlang p) = frame 1 body ++ rest)
    (Hreads : good_reads (4 + length body) (sys_reads (pt_erlang p)))
    (Hwf : wf (pt_buffer p)) (Hsize : m_size (pt_buffer p) <= m_maxSize (pt_buffer p))
    (Hmax : m_maxSize (pt_buffer p) < Z.of_nat (length body) < 2 ^ 32) :
  exists p', read_cmd p = (Undef, p').
Proof.
  destruct p as [s B x]. cbn [pt_erlang pt_buffer] in *. destruct Hwf as [Hl Hz].
  set (n := Z.of_nat (length body)) in *.
  destruct (read_exact_good (replicate 4 None) s (header_bytes n) (body ++ rest))
    as (j1 & Hj1 & He1); [by rewrite Hin|cbn; lia| |cbn; lia|].
  { eapply good_reads_le; [|exact Hreads]. cbn. lia. }
  change (Z.of_nat (length (header_bytes n))) with 4 in He1.
  set (s1 := set_read (body ++ rest) (drop j1 (sys_reads s)) s) in *.
  assert (good_reads (length body) (sys_reads s1)) as Hg2
    by (apply (good_reads_drop 4 _ j1); [by cbn in Hj1|exact Hreads]).
  destruct (read_exact_loop_overflow (S (length (sys_reads s1))) 0 (m_p B) n s1 body rest)
    as [s2 He2]; try done; [lia..| |lia|].
  { destruct Hg2. lia. }
  eexists. unfold read_cmd. erewrite bind_next.
  2:{ apply call_return. unfold on_erlang. cbn [pt_erlang]. rewrite read_exact_eq, He1. done. }
  cbv beta iota. erewrite bind_next by reflexivity. cbv beta.
  erewrite bind_next with (a := header_bytes n) by reflexivity. cbv beta.
  rewrite header_roundtrip by lia. cbn [copt]. erewrite bind_next by reflexivity.
  cbv beta. crun. cbn [with_erlang pt_erlang pt_buffer].
  assert (reserve 1 (sys_realloc s1) n B = Some (false, B)) as ->.
  { unfold reserve. rewrite (proj2 (Z.ltb_ge _ _)), (proj2 (Z.ltb_lt _ _)) by lia. done. }
  cbn [copt]. erewrite bind_next by reflexivity. cbv beta iota. crun.
  erewrite bind_undef; [reflexivity|]. unfold call, on_erlang.
  cbn [with_buffer with_erlang pt_erlang].
  unfold read_exact. erewrite bind_next by reflexivity. cbv beta.
  unfold cbind. rewrite He2. reflexivity.
Qed.
End properties.

(** ** Examples *)

(** A port with one function, of an [int32_t] and a [pchar_len]. *)
Definition example_function : port_function unit :=
  mk_function [t_int32_t; t_pchar_len] ret_int32_t (fun args =>
    match args with
    | [AInt z; APtr _; AInt n] => creturn (RInt (z + n))
    | _ => cundef
    end).

Definition example_port (i : bytes) : port unit :=
  mk_port (example_sys i) (construct 1 256 4096) tt.

Definition example_terms : list erl_term := [EInt (-5); EBinary (chars "filename")].

Definition example_call : bytes :=
  le_split 2 1 ++ le_split 4 (-5) ++ u32 8 ++ chars "filename".

Lemma example_function_runs args p1 :
  call_denotes (m_p (pt_buffer p1)) [t_int32_t; t_pchar_len] example_terms args ->
  fn_body example_function args p1 = (Return (RInt 3), mk_port (pt_erlang p1) (pt_buffer p1) tt).
Proof.
  intros (vss & H & ->). unfold example_terms in H.
  apply Forall3_cons_inv_l in H as (? & ? & v1 & vss1 & [= <- <-] & -> & H1 & H).
  apply Forall3_cons_inv_l in H as (? & ? & v2 & vss2 & [= <- <-] & -> & H2 & H).
  inversion H; subst vss2.
  cbn in H1, H2. subst v1. destruct H2 as (off & _ & -> & _). cbn. by destruct p1 as [? ? []].
Qed.

Lemma consume_erlang_call_witness :
  exists p', consume_erlang [example_function] POLLIN
      (example_port (frame 1 example_call ++ chars "next")) = (Return (GEPD.success : Z), p') /\
    sys_in (pt_erlang p') = chars "next" /\
    sys_out (pt_erlang p') =
      frame 1 (map byte.of_Z [131; 104; 2; 97; 1; 97; 3]).
Proof.
  destruct (consume_erlang_call [example_function] example_function 1 example_terms
    example_call (chars "next") ei_encode_long 3 (map byte.of_Z [97; 3]) tt
    (example_port (frame 1 example_call ++ chars "next")))
    as (reply & p' & Hr & He & Hin & Hout & _).
  - reflexivity.
  - vm_compute. reflexivity.
  - vm_compute. reflexivity.
  - repeat constructor; vm_compute; congruence.
  - reflexivity.
  - apply good_reads_replicate. vm_compute. lia.
  - done.
  - vm_compute. done.
  - vm_compute. done.
  - vm_compute. done.
  - vm_compute. done.
  - reflexivity.
  - vm_compute. reflexivity.
  - vm_compute. lia.
  - apply good_writes_replicate. vm_compute. lia.
  - intros args p1 Ha _. exact (example_function_runs args p1 Ha).
  - exists p'. split; [exact He|]. split; [exact Hin|]. rewrite Hout.
    vm_compute in Hr. injection Hr as <-. vm_compute. reflexivity.
Defined.

Lemma consume_erlang_unknown_witness :
  exists reply p', consume_erlang [example_function] POLLIN
      (example_port (frame 1 (le_split 2 9) ++ chars "next")) = (Return (GEPD.success : Z), p') /\
    sys_out (pt_erlang p') = frame 1 reply.
Proof.
  destruct (consume_erlang_unknown [example_function] 9 [] (chars "next")
    (example_port (frame 1 (le_split 2 9) ++ chars "next")))
    as (reply & p' & _ & He & _ & Hout & _).
  - reflexivity.
  - lia.
  - reflexivity.
  - apply good_reads_replicate. vm_compute. lia.
  - done.
  - vm_compute. done.
  - vm_compute. done.
  - vm_compute. done.
  - vm_compute. done.
  - apply good_writes_replicate. vm_compute. lia.
  - exists reply, p'. split; [exact He|exact Hout].
Defined.

Lemma read_cmd_overflows_witness :
  exists p', read_cmd
      (mk_port (example_sys (frame 1 (chars "longer than the buffer is"))) (construct 1 8 16) tt)
    = (Undef, p').
Proof.
  apply (read_cmd_overflows (chars "longer than the buffer is") []).
  - reflexivity.
  - apply good_reads_replicate. vm_compute. lia.
  - vm_compute. done.
  - vm_compute. done.
  - vm_compute. done.
Defined.
