(* ===== verification/Stream.v ===== *)
(** * Output of processes  (port.cpp)

    [consume_stream] and [flush_stream]: what a process writes to its
    standard output and error is collected in a buffer that grows up to a
    maximum, and passed on to Erlang up to the last newline. *)

From S2P Require Import Prelude CMonad Status Sys ReallocPtr Framing Ei ExitStatus Marshal Port.

(** One pipe: its descriptor and [revents], [stream], and the index [i] of
    the next byte to read. *)
Record stream : Type := mk_stream {
  st_sys : sys;
  st_revents : Z;
  st_buffer : buffer_t;
  st_i : Z
}.

Record port_stream (X : Type) : Type := mk_port_stream {
  ps_port : port X;
  ps_stream : stream
}.
#[global] Arguments mk_port_stream {X}.
#[global] Arguments ps_port {X}.
#[global] Arguments ps_stream {X}.

Definition newline : byte := byte.of_Z 10.

(** [data_ready(fd, ready)]: the status, and [ready], which a failure leaves
    alone. *)
Definition data_ready (ready : bool) : C sys (Z * bool) (Z * bool) :=
  let* count := sys_poll 0 in
  match count with
  | inl e => creturn (GEPD.errno_poll e : Z, ready)
  | inr count => creturn (GEPD.success : Z, bool_decide (count = 1))
  end.

Section stream.
Context {X : Type} {E : Ei}.
Abbreviation M := (C (port_stream X) Z).

(** A function of the port, and of the pipe's descriptor. *)
Definition on_port {R A} (c : C (port X) R A) : C (port_stream X) R A := fun s =>
  let '(o, p) := c (ps_port s) in (o, mk_port_stream p (ps_stream s)).
Definition on_fd {R A} (c : C sys R A) : C (port_stream X) R A := fun s =>
  let st := ps_stream s in
  let '(o, f) := c (st_sys st) in
  (o, mk_port_stream (ps_port s) (mk_stream f (st_revents st) (st_buffer st) (st_i st))).

Definition set_st_revents (r : Z) (s : port_stream X) : port_stream X :=
  let st := ps_stream s in
  mk_port_stream (ps_port s) (mk_stream (st_sys st) r (st_buffer st) (st_i st)).
Definition set_st_buffer (b : buffer_t) (s : port_stream X) : port_stream X :=
  let st := ps_stream s in
  mk_port_stream (ps_port s) (mk_stream (st_sys st) (st_revents st) b (st_i st)).
Definition set_st_i (i : Z) (s : port_stream X) : port_stream X :=
  let st := ps_stream s in
  mk_port_stream (ps_port s) (mk_stream (st_sys st) (st_revents st) (st_buffer st) i).

(** [read(fd, &stream[i], left)] *)
Definition read_stream (left : Z) : M (errno + Z) :=
  let* st := creads ps_stream in
  let b := st_buffer st in
  cassert (st_i st <? m_size b);;;
  let* r := on_fd (sys_read left) in
  match r with
  | inl e => cret (inl e)
  | inr bs =>
      if decide (Z.to_nat (st_i st) + length bs <= length (m_p b))%nat then
        cmodify (set_st_buffer (set_cells b (store (m_p b) (Z.to_nat (st_i st)) bs)));;;
        cret (inr (Z.of_nat (length bs)))
      else cundef
  end.

(** [stream.grow()] *)
Definition grow_stream : M bool :=
  let* s := cget in
  let (ok, b) := grow 1 (sys_realloc (pt_erlang (ps_port s))) (st_buffer (ps_stream s)) in
  cmodify (set_st_buffer b);;;
  cret ok.

(** [while ((readBytes = read(fd, &stream[i], left)) == left && stream.grow())
    { ... }]: [readBytes] after it.  Every round takes an answer of [read]. *)
Fixpoint fill_loop (fuel : nat) : M (errno + Z) :=
  match fuel with
  | O => cnofuel
  | S fuel =>
      let* st := creads ps_stream in
      let left := m_size (st_buffer st) - st_i st in
      let* readBytes := read_stream left in
      if decide (readBytes = inr left) then
        let* grown := grow_stream in
        if grown then
          cmodify (set_st_i (st_i st + left));;;
          let* (_, ready) := call (on_fd (data_ready true)) in
          if ready : bool then fill_loop fuel else cret readBytes
        else cret readBytes
      else cret readBytes
  end.

Definition fill : M (errno + Z) :=
  let* fuel := creads (fun s => S (length (sys_reads (st_sys (ps_stream s))))) in
  fill_loop fuel.

(** [for (ssize_t j = i - 1; ! foundNewline && j >= 0; --j) { ... }] from
    [j - 1] down: [iNewline] if one is found. *)
Fixpoint last_newline (j : nat) : M (option Z) :=
  match j with
  | O => cret None
  | S j =>
      let* b := creads (fun s => st_buffer (ps_stream s)) in
      cassert (Z.of_nat j <? m_size b);;;
      let* c := copt (load (m_p b) j 1) in
      if decide (c = [newline]) then cret (Some (Z.of_nat j)) else last_newline j
  end.

(** The term [{name, pid, String}] of the first [n] bytes of the stream, in
    [send_buffer], and [write_cmd]. *)
Definition send_stream (name : bytes) (pid n : Z) : M unit :=
  let* index := on_port (ei_encode 4
    [ ei_encode_version; ei_encode_tuple_header 3;
      ei_encode_atom name; ei_encode_ulong pid ]) in
  on_port (reserve_buffer (wrap64 (wrap64 (index + n) + 1)));;;
  let* data :=
    (if n <=? INT_MAX then
       let* b := creads (fun s => st_buffer (ps_stream s)) in
       copt (load (m_p b) 0 (Z.to_nat n))
     else cundef) in
  let* index := on_port (ei_encode index [ei_encode_string data]) in
  let* status := call (on_port (write_cmd (wrap32 (index - 4)))) in
  creturn_if (negb (status =? 0)) status.

(** The rest of [consume_stream] once the stream holds [i] bytes. *)
Definition send_lines (name : bytes) (pid i : Z) : M Z :=
  let* found := last_newline (Z.to_nat i) in
  match found with
  | None => creturn (GEPD.success : Z)
  | Some iNewline =>
      send_stream name pid (iNewline + 1);;;
      (if iNewline =? i - 1 then cmodify (set_st_i 0)
       else
         let remainingBytes := i - iNewline - 1 in
         let* s := cget in
         let* (_, b) := copt (move 1 (sys_realloc (pt_erlang (ps_port s)))
           (iNewline + 1) remainingBytes 0 (st_buffer (ps_stream s))) in
         cmodify (set_st_buffer b);;;
         cmodify (set_st_i remainingBytes));;;
      creturn (GEPD.success : Z)
  end.

Definition consume_stream (name : bytes) (pid : Z) : M Z :=
  let* revents := creads (fun s => st_revents (ps_stream s)) in
  if has revents POLLERR then creturn (GEPD.poll_ERR : Z)
  else if has revents POLLHUP then creturn (GEPD.poll_HUP : Z)
  else if has revents POLLNVAL then creturn (GEPD.poll_NVAL : Z)
  else
    cmodify (set_st_revents 0);;;
    let* readBytes := fill in
    let* i := creads (fun s => st_i (ps_stream s)) in
    match readBytes with
    | inl e => creturn (GEPD.errno_read e : Z)
    | inr readBytes =>
        creturn_if ((readBytes =? 0) && (i =? 0)) (GEPD.success : Z);;;
        let i := i + readBytes in
        cmodify (set_st_i i);;;
        send_lines name pid i
    end.

Definition flush_stream (name : bytes) (pid : Z) : M Z :=
  let* revents := creads (fun s => st_revents (ps_stream s)) in
  creturn_if (negb (has revents POLLIN)) (GEPD.success : Z);;;
  let* readBytes := fill in
  let* i := creads (fun s => st_i (ps_stream s)) in
  creturn_if (bool_decide (readBytes = inr 0) && (i =? 0)) (GEPD.success : Z);;;
  let i := match readBytes with inl _ => i | inr n => i + n end in
  let total := wrap64 (i - 1) in
  cmodify (set_st_i 0);;;
  send_stream name pid total;;;
  creturn (GEPD.success : Z).
End stream.

(** ** Specification *)

(** Up to and with the last newline, and what follows it. *)
Fixpoint last_line (data : bytes) : option (bytes * bytes) :=
  match data with
  | [] => None
  | c :: data =>
      match last_line data with
      | Some (line, rest) => Some (c :: line, rest)
      | None => if decide (c = newline) then Some ([c], data) else None
      end
  end.

Lemma last_line_None data : last_line data = None -> newline ∉ data.
Proof.
  induction data as [|c data IH]; cbn; [intros _ H; by apply elem_of_nil in H|].
  destruct (last_line data) as [[]|]; [done|]. case_decide; [done|].
  intros _ [?|?]%elem_of_cons; [done|by apply IH].
Qed.

Lemma last_line_Some data line rest :
  last_line data = Some (line, rest) ->
  exists l, line = l ++ [newline] /\ data = l ++ [newline] ++ rest /\ newline ∉ rest.
Proof.
  revert line. induction data as [|c data IH]; intros line; cbn; [done|].
  destruct (last_line data) as [[l1 r1]|] eqn:El.
  - intros [= <- <-]. destruct (IH l1 eq_refl) as (l & -> & -> & Hn). by exists (c :: l).
  - case_decide as Hc; [|done]. intros [= <- <-]. exists []. subst c.
    split; [done|]. split; [done|]. by apply last_line_None.
Qed.

Section facts.
Context {X : Type} {E : Ei}.
Implicit Types (s : port_stream X) (data : bytes).
Abbreviation buf s := (st_buffer (ps_stream s)).

Lemma last_newline_step data j s :
  holds (m_p (buf s)) 0 data -> Z.of_nat (length data) <= m_size (buf s) ->
  (j < length data)%nat ->
  last_newline (S j) s =
    if decide (data !! j = Some newline) then (Next (Some (Z.of_nat j)), s)
    else last_newline j s.
Proof.
  intros Hh Hs Hj. cbn [last_newline]. crun. rewrite (proj2 (Z.ltb_lt _ _)) by lia.
  erewrite bind_next by reflexivity. cbv beta.
  destruct (lookup_lt_is_Some_2 data j Hj) as [c Hc].
  assert (load (m_p (buf s)) j 1 = Some [c]) as ->.
  { apply take_drop_middle in Hc. rewrite <- Hc in Hh.
    apply holds_app in Hh as [_ Hh]. rewrite length_take_le in Hh by lia.
    change (c :: drop (S j) data) with ([c] ++ drop (S j) data) in Hh.
    apply holds_app in Hh as [Hh _]. exact (load_holds _ _ _ Hh). }
  cbn [copt]. erewrite bind_next by reflexivity. cbv beta. rewrite Hc.
  destruct (decide (c = newline)) as [->|Hne].
  - by rewrite !decide_True.
  - rewrite decide_False by congruence. by rewrite decide_False by congruence.
Qed.

Lemma last_newline_ok data s :
  holds (m_p (buf s)) 0 data -> Z.of_nat (length data) <= m_size (buf s) ->
  last_newline (length data) s =
    (Next (match last_line data with
           | Some (line, _) => Some (Z.of_nat (length line) - 1)
           | None => None
           end), s).
Proof.
  intros Hh Hs. destruct (last_line data) as [[line rest]|] eqn:El.
  - apply last_line_Some in El as (l & -> & Hd & Hn).
    assert (forall n, (n <= length rest)%nat ->
      last_newline (length l + 1 + n) s = (Next (Some (Z.of_nat (length l))), s)) as H.
    { induction n as [|n IH]; intros Hn'.
      - rewrite Nat.add_0_r, Nat.add_1_r, (last_newline_step data)
          by (try done; rewrite Hd, length_app; cbn; lia).
        rewrite decide_True; [done|]. rewrite Hd. by apply list_lookup_middle.
      - rewrite <- plus_n_Sm, (last_newline_step data)
          by (try done; rewrite Hd, !length_app; cbn; lia).
        rewrite decide_False; [apply IH; lia|]. intros Hx. apply Hn.
        apply (list_elem_of_lookup_2 _ n). rewrite Hd, app_assoc, lookup_app_r in Hx
          by (rewrite length_app; cbn; lia).
        rewrite length_app in Hx. cbn in Hx.
        by replace (length l + 1 + n - (length l + 1))%nat with n in Hx by lia. }
    rewrite Hd, !length_app. cbn [length]. rewrite Nat.add_assoc, (H (length rest)) by done.
    do 3 f_equal. lia.
  - apply last_line_None in El.
    assert (forall n, (n <= length data)%nat -> last_newline n s = (Next None, s)) as H.
    { induction n as [|n IH]; intros Hn'; [done|].
      rewrite (last_newline_step data) by done.
      rewrite decide_False; [apply IH; lia|]. intros Hx. apply El.
      by apply (list_elem_of_lookup_2 _ n). }
    by apply H.
Qed.
(** The term sent for [data]. *)
Definition stream_term (name : bytes) (pid : Z) (data : bytes) : list (option bytes) :=
  [ ei_encode_version; ei_encode_tuple_header 3; ei_encode_atom name; ei_encode_ulong pid ]
  ++ [ei_encode_string data].

Context {laws : EiLaws E}.

(** [send_buffer] is large enough not to grow, and the peer takes the frame. *)
Record sendable (n : Z) (p : port X) : Prop := {
  sendable_wf : wf (pt_buffer p);
  sendable_size : n + 64 <= m_size (pt_buffer p) < 2 ^ 31;
  sendable_writes : good_writes (Z.to_nat (n + 64)) (sys_writes (pt_erlang p))
}.

Lemma send_stream_ok name pid data s :
  Z.of_nat (length name) <= 30 -> 0 <= pid < 2 ^ 32 -> Z.of_nat (length data) <= 65535 ->
  holds (m_p (buf s)) 0 data -> sendable (Z.of_nat (length data)) (ps_port s) ->
  exists term b j, term_bytes (stream_term name pid data) = Some term /\ wf b /\
    send_stream name pid (Z.of_nat (length data)) s =
      (Next tt,
       mk_port_stream
         (mk_port (set_write (sys_out (pt_erlang (ps_port s)) ++ frame 1 term)
                     (drop j (sys_writes (pt_erlang (ps_port s)))) (pt_erlang (ps_port s)))
            b (pt_user (ps_port s)))
         (ps_stream s)).
Proof.
  intros Hname Hpid Hdata Hh [Hwf Hsz Hw]. destruct s as [p st]. cbn [ps_port ps_stream] in *.
  set (n := Z.of_nat (length data)) in *. pose proof Hwf as [Hl Hz].
  destruct (within_all [1; 2; Z.of_nat (length name) + 3; 7]
    [ei_encode_version; ei_encode_tuple_header 3; ei_encode_atom name; ei_encode_ulong pid])
    as (bss & Hb & Hhl).
  { repeat constructor; [apply version_within|apply tuple_header_within; lia
      |apply atom_within; lia|by apply ulong_within]. }
  cbn [foldr] in Hhl. set (hd := concat bss) in *.
  destruct (string_within data) as (str & Hstr & Hsl); [done|]. fold n in Hsl.
  set (b1 := set_cells (pt_buffer p) (store (m_p (pt_buffer p)) 4 hd)).
  set (b2 := set_cells b1 (store (m_p b1) (4 + length hd) str)).
  assert (length (m_p b1) = length (m_p (pt_buffer p))) as Hl1 by (apply length_store; lia).
  assert (length (m_p b2) = length (m_p b1)) as Hl2 by (apply length_store; lia).
  set (term := hd ++ str).
  assert (length term = length hd + length str)%nat as Hlt by apply length_app.
  destruct (write_cmd_ok term (with_buffer b2 p)) as (b3 & j & _ & Hwf3 & Hwr);
    cbn [with_buffer pt_buffer pt_erlang]; try lia.
  { split; [|done]. change (m_size b2) with (m_size (pt_buffer p)). lia. }
  { apply holds_app. split; [apply holds_store_below; try lia|apply holds_store_eq; lia].
    apply holds_store_eq. lia. }
  { change (m_size b2) with (m_size (pt_buffer p)). lia. }
  { eapply good_writes_le; [|exact Hw]. lia. }
  exists term, b3, j. split; [|split; [done|]].
  { unfold stream_term. apply term_bytes_app; [by apply term_bytes_Some|].
    rewrite Hstr. cbn. by rewrite app_nil_r. }
  unfold send_stream. erewrite bind_next with (s' := mk_port_stream (with_buffer b1 p) st).
  2:{ unfold on_port. cbn [ps_port ps_stream].
      rewrite (ei_encode_ok 4 _ hd) by first [by apply term_bytes_Some | unfold INT_MAX; lia].
      reflexivity. }
  cbv beta. erewrite bind_next with (a := tt) (s' := mk_port_stream (with_buffer b1 p) st).
  2:{ unfold on_port. cbn [ps_port ps_stream].
      assert (reserve_buffer (wrap64 (wrap64 (4 + Z.of_nat (length hd) + n) + 1))
                (with_buffer b1 p) = (Next tt, with_buffer b1 p)) as ->; [|done].
      rewrite (wrap64_small (4 + _ + n)), wrap64_small by lia.
      unfold reserve_buffer. crun. unfold reserve. cbn [with_buffer pt_buffer].
      change (m_size b1) with (m_size (pt_buffer p)).
      rewrite (proj2 (Z.ltb_lt _ _)) by lia. cbn [copt].
      erewrite bind_next by reflexivity. cbv beta iota. by crun. }
  cbv beta. rewrite (proj2 (Z.leb_le n INT_MAX)) by (unfold INT_MAX; lia).
  rewrite bind_assoc. erewrite bind_next by reflexivity. cbv beta. cbn [ps_stream].
  unfold n at 1. rewrite Nat2Z.id, (load_holds _ _ _ Hh). cbn [copt].
  erewrite bind_next by reflexivity. cbv beta.
  erewrite bind_next with (s' := mk_port_stream (with_buffer b2 p) st).
  2:{ unfold on_port. cbn [ps_port ps_stream].
      erewrite (ei_encode_ok _ _ str);
        [|rewrite Hstr; cbn; by rewrite app_nil_r|lia|cbn [with_buffer pt_buffer]; lia
         |unfold INT_MAX; lia].
      replace (Z.to_nat (4 + Z.of_nat (length hd))) with (4 + length hd)%nat by lia.
      reflexivity. }
  cbv beta. replace (4 + Z.of_nat (length hd) + Z.of_nat (length str))
    with (4 + Z.of_nat (length term)) by lia.
  rewrite Z.add_simpl_l, wrap32_small by lia.
  erewrite bind_next.
  2:{ apply call_return. unfold on_port. cbn [ps_port ps_stream]. rewrite Hwr. reflexivity. }
  done.
Qed.
End facts.

Section properties.
Context {X : Type} {E : Ei} {laws : EiLaws E}.
Implicit Types (s : port_stream X) (old new : bytes).

(** The answers of [read] and [poll] by which [new] arrives in a buffer of
    [size] elements that holds [old]: every read but the last fills the buffer,
    which is doubled, and more is ready (a [poll] that fails counts as such);
    the last one leaves room in a buffer of [size'] elements. *)
Inductive feeds (max : Z) (rest : bytes) (rs : list rd) (ps : list pl) :
    bytes -> bytes -> Z -> list rd -> list pl -> Z -> Prop :=
| feeds_last old new size k :
    Z.of_nat (length old) + Z.of_nat (length new) < size ->
    length new = k \/ rest = [] /\ (length new <= k)%nat ->
    feeds max rest rs ps old new size (rd_some k :: rs) ps size
| feeds_grow old chunk new size k rds a pls size' :
    Z.of_nat (length old) < size -> Z.of_nat (length old) + Z.of_nat (length chunk) = size ->
    (length chunk <= k)%nat -> 2 * size <= max -> a <> pl_timeout ->
    feeds max rest rs ps (old ++ chunk) new (2 * size) rds pls size' ->
    feeds max rest rs ps old (chunk ++ new) size (rd_some k :: rds) (a :: pls) size'.

Lemma feeds_size max rest rs ps old new size rds pls size' :
  feeds max rest rs ps old new size rds pls size' -> 0 < size ->
  size <= size' /\ Z.of_nat (length (old ++ new)) < size'.
Proof.
  induction 1 as [|? ? ? ? ? ? ? ? ? ? ? ? ? ? ? IH]; intros Hs.
  - rewrite length_app. lia.
  - rewrite app_assoc. lia.
Qed.

(** The stream holds [old], and [new] arrives in it. *)
Record arrives (old new rest : bytes) (rs : list rd) (ps : list pl) (size : Z) (st : stream) :
    Prop := {
  arr_wf : wf (st_buffer st);
  arr_i : st_i st = Z.of_nat (length old);
  arr_old : holds (m_p (st_buffer st)) 0 old;
  arr_in : sys_in (st_sys st) = new ++ rest;
  arr_feeds : feeds (m_maxSize (st_buffer st)) rest rs ps old new (m_size (st_buffer st))
    (sys_reads (st_sys st)) (sys_polls (st_sys st)) size
}.

(** The stream after that read. *)
Definition arrived (old new rest : bytes) (rs : list rd) (r : Z) (st : stream) : stream :=
  mk_stream (set_read rest rs (st_sys st)) r
    (set_cells (st_buffer st) (store (m_p (st_buffer st)) (length old) new))
    (Z.of_nat (length old)).

(** What one [read] of all the room that is left stores. *)
Lemma read_stream_ok old new rest rs k p st :
  wf (st_buffer st) -> st_i st = Z.of_nat (length old) ->
  Z.of_nat (length old) < m_size (st_buffer st) ->
  Z.of_nat (length old) + Z.of_nat (length new) <= m_size (st_buffer st) ->
  sys_in (st_sys st) = new ++ rest -> sys_reads (st_sys st) = rd_some k :: rs ->
  Nat.min k (Z.to_nat (m_size (st_buffer st) - Z.of_nat (length old))) = length new \/
    rest = [] /\ (length new <= k)%nat ->
  read_stream (m_size (st_buffer st) - st_i st) (mk_port_stream p st) =
    (Next (inr (Z.of_nat (length new))),
     mk_port_stream (X := X) p (arrived old new rest rs (st_revents st) st)).
Proof.
  intros [Hl Hz] Hi Hroom Hfit Hin Hr Hk. destruct st as [f r b i]. cbn in *. subst i.
  assert (take (Nat.min k (Z.to_nat (m_size b - Z.of_nat (length old)))) (sys_in f) = new /\
    drop (Nat.min k (Z.to_nat (m_size b - Z.of_nat (length old)))) (sys_in f) = rest) as [Ht Hd].
  { rewrite Hin. destruct Hk as [-> |[-> Hk]].
    - by rewrite take_app_length, drop_app_length.
    - rewrite app_nil_r, take_ge, drop_ge by lia. done. }
  unfold read_stream. crun. cbn [ps_stream st_buffer st_i].
  rewrite (proj2 (Z.ltb_lt _ _)) by lia. erewrite bind_next by reflexivity. cbv beta.
  erewrite bind_next.
  2:{ unfold on_fd, sys_read. cbn [ps_stream st_sys]. rewrite Hr, Ht, Hd. reflexivity. }
  cbv beta iota. rewrite decide_True by lia. crun.
  unfold cret, set_st_buffer, arrived. cbn. by rewrite Nat2Z.id.
Qed.

Lemma arrived_holds old new rest rs r st :
  wf (st_buffer st) -> holds (m_p (st_buffer st)) 0 old ->
  Z.of_nat (length old) + Z.of_nat (length new) <= m_size (st_buffer st) ->
  holds (m_p (st_buffer (arrived old new rest rs r st))) 0 (old ++ new) /\
  length (m_p (st_buffer (arrived old new rest rs r st))) = length (m_p (st_buffer st)).
Proof.
  intros [Hl Hz] Ho Hroom. cbn. split; [|apply length_store; lia].
  apply holds_app. split; [apply holds_store_below; try done; lia|]. apply holds_store_eq. lia.
Qed.

(** The buffer, doubled. *)
Definition doubled (b : buffer_t) : buffer_t :=
  mk_realloc_ptr (m_initialSize b) (2 * m_size b) (m_maxSize b)
    (m_p b ++ replicate (length (m_p b)) None) (S (m_gen b)).

Lemma doubled_wf b : wf b -> 2 * m_size b < 2 ^ 64 -> wf (doubled b).
Proof. intros [Hl Hz] ?. split; cbn; [rewrite length_app, length_replicate|]; lia. Qed.

Lemma grow_stream_ok p st :
  wf (st_buffer st) -> 2 * m_size (st_buffer st) <= m_maxSize (st_buffer st) ->
  2 * m_size (st_buffer st) < 2 ^ 64 -> (forall n, sys_realloc (pt_erlang p) n = true) ->
  grow_stream (mk_port_stream p st) =
    (Next true, mk_port_stream (X := X) p
       (mk_stream (st_sys st) (st_revents st) (doubled (st_buffer st)) (st_i st))).
Proof.
  intros [Hl Hz] Hmax Hlt Halloc. unfold grow_stream. crun. cbn [ps_port ps_stream].
  assert (grow 1 (sys_realloc (pt_erlang p)) (st_buffer st) = (true, doubled (st_buffer st))) as ->.
  { unfold grow. rewrite Z.shiftl_mul_pow2, wrap64_small by lia.
    rewrite (proj2 (Z.ltb_ge _ _)) by lia. unfold reallocate. rewrite Halloc. unfold doubled.
    do 2 f_equal; [cbn; lia|]. rewrite take_ge by lia. f_equal. f_equal. lia. }
  by crun.
Qed.

(** Whether there is more: an answer other than that there is not. *)
Lemma data_ready_more p st a pls :
  sys_polls (st_sys st) = a :: pls -> a <> pl_timeout ->
  exists status, call (R := Z) (on_fd (data_ready true)) (mk_port_stream (X := X) p st) =
    (Next (status, true), mk_port_stream p
       (mk_stream (set_polls pls (st_sys st)) (st_revents st) (st_buffer st) (st_i st))).
Proof.
  intros Hp Ha. destruct a as [| |e]; [|done|].
  - exists (GEPD.success : Z). apply call_return. unfold on_fd, data_ready, sys_poll, cbind. cbn.
    by rewrite Hp.
  - exists (GEPD.errno_poll e : Z). apply call_return. unfold on_fd, data_ready, sys_poll, cbind. cbn.
    by rewrite Hp.
Qed.

(** What the loop leaves when [data] is in the stream, with the [n] bytes of the
    last read. *)
Record filled (data rest : bytes) (size n : Z) (st st' : stream) : Prop := {
  fd_wf : wf (st_buffer st');
  fd_size : m_size (st_buffer st') = size;
  fd_count : 0 <= n /\ 0 <= st_i st' /\ st_i st' + n = Z.of_nat (length data);
  fd_data : holds (m_p (st_buffer st')) 0 data;
  fd_in : sys_in (st_sys st') = rest;
  fd_revents : st_revents st' = st_revents st
}.

Lemma fill_loop_ok old new rest rs ps size fuel p st :
  arrives old new rest rs ps size st -> size < 2 ^ 64 ->
  (forall n, sys_realloc (pt_erlang p) n = true) ->
  (length (sys_reads (st_sys st)) <= fuel)%nat ->
  exists n st', fill_loop fuel (mk_port_stream (X := X) p st) =
      (Next (inr n), mk_port_stream p st') /\
    filled (old ++ new) rest size n st st'.
Proof.
  intros [Hwf Hi Ho Hin Hf] Hlt Halloc. revert fuel.
  remember (m_maxSize (st_buffer st)) as max eqn:Hmax.
  remember (m_size (st_buffer st)) as m eqn:Hm. remember (sys_reads (st_sys st)) as rds eqn:Hr.
  remember (sys_polls (st_sys st)) as pls eqn:Hpl.
  revert st Hwf Hi Ho Hin Hmax Hm Hr Hpl.
  induction Hf as [old new m k Hroom Hk|old chunk new m k rds a pls size Hroom Hall Hk Hmx Ha Hf IH];
    intros st Hwf Hi Ho Hin Hmax Hm Hr Hpl [|fuel] Hfuel; try (cbn in Hfuel; lia);
    cbn [fill_loop]; (erewrite bind_next by reflexivity); cbv beta zeta; cbn [ps_stream].
  - pose proof (read_stream_ok old new rest rs k p st Hwf Hi) as Hread.
    erewrite bind_next by (apply Hread; try done; try lia; destruct Hk as [|[]]; [left|right]; by lia || split).
    cbv beta. rewrite decide_False by (intros [= H]; lia).
    eexists _, _. split; [reflexivity|].
    destruct (arrived_holds old new rest rs (st_revents st) st Hwf Ho) as [Hh Hl]; [lia|].
    destruct Hwf as [Hwl Hwz]. split; try done; [split; [cbn in *; lia|done]|].
    cbn. rewrite length_app. lia.
  - pose proof (read_stream_ok old chunk (new ++ rest) rds k p st Hwf Hi) as Hread.
    rewrite <- app_assoc in Hin.
    erewrite bind_next by (apply Hread; try done; try lia; left; lia).
    cbv beta. rewrite decide_True by (f_equal; lia).
    destruct (arrived_holds old chunk (new ++ rest) rds (st_revents st) st Hwf Ho) as [Hh Hl]; [lia|].
    set (st1 := arrived _ _ _ _ _ _) in *.
    assert (wf (st_buffer st1)) as Hwf1.
    { destruct Hwf as [Hwl Hwz]. split; [|done]. rewrite Hl. exact Hwl. }
    change (m_size (st_buffer st1)) with (m_size (st_buffer st)) in *.
    pose proof Hwf as [Hwl Hwz].
    pose proof (feeds_size _ _ _ _ _ _ _ _ _ _ Hf ltac:(lia)) as [Hle _].
    erewrite bind_next.
    2:{ apply grow_stream_ok; [exact Hwf1|..]; try done; cbn; lia. }
    cbv beta iota. erewrite bind_next by reflexivity. cbv beta.
    set (st2 := mk_stream (st_sys st1) (st_revents st) (doubled (st_buffer st1)) m).
    assert (set_st_i (st_i st + (m_size (st_buffer st) - st_i st)) (mk_port_stream p
      (mk_stream (st_sys st1) (st_revents st1) (doubled (st_buffer st1)) (st_i st1))) =
      mk_port_stream (X := X) p st2) as ->.
    { unfold set_st_i, st2. cbn. do 2 f_equal. lia. }
    destruct (data_ready_more p st2 a pls) as [status Hd]; [cbn; by rewrite <- Hpl|done|].
    erewrite bind_next by exact Hd. cbv beta iota.
    destruct (IH Hlt (mk_stream (set_polls pls (st_sys st2)) (st_revents st2) (st_buffer st2) (st_i st2)))
      with (fuel := fuel) as (n & st' & He & [? ? ? ? ? Hrev]); try done.
    + apply doubled_wf; [exact Hwf1|]. cbn. lia.
    + cbn. rewrite length_app. lia.
    + cbn [st_buffer doubled m_p st2]. apply holds_extend. exact Hh.
    + cbn. lia.
    + cbn in Hfuel. lia.
    + exists n, st'. split; [exact He|]. rewrite app_assoc. by split.
Qed.

Lemma fill_ok old new rest rs ps size p st :
  arrives old new rest rs ps size st -> size < 2 ^ 64 ->
  (forall n, sys_realloc (pt_erlang p) n = true) ->
  exists n st', fill (mk_port_stream (X := X) p st) = (Next (inr n), mk_port_stream p st') /\
    filled (old ++ new) rest size n st st'.
Proof.
  intros Harr Hlt Halloc.
  destruct (fill_loop_ok old new rest rs ps size (S (length (sys_reads (st_sys st)))) p st)
    as (n & st' & He & Hf); [done..|lia|].
  exists n, st'. split; [|done]. unfold fill. by erewrite bind_next by reflexivity.
Qed.

(** [send_lines] with [data] in the stream. *)
Lemma send_lines_ok name pid data p st :
  wf (st_buffer st) -> holds (m_p (st_buffer st)) 0 data ->
  Z.of_nat (length data) <= m_size (st_buffer st) <= 65535 ->
  st_i st = Z.of_nat (length data) ->
  Z.of_nat (length name) <= 30 -> 0 <= pid < 2 ^ 32 ->
  sendable (Z.of_nat (length data)) p ->
  exists out kept s',
    send_lines name pid (Z.of_nat (length data)) (mk_port_stream p st) =
      (Return (GEPD.success : Z), s') /\
    match last_line data with
    | None => out = [] /\ kept = data
    | Some (line, after) => exists term,
        term_bytes (stream_term name pid line) = Some term /\ out = frame 1 term /\ kept = after
    end /\
    sys_out (pt_erlang (ps_port s')) = sys_out (pt_erlang p) ++ out /\
    pt_user (ps_port s') = pt_user (X := X) p /\
    holds (m_p (st_buffer (ps_stream s'))) 0 kept /\
    st_i (ps_stream s') = Z.of_nat (length kept) /\
    wf (st_buffer (ps_stream s')) /\ m_size (st_buffer (ps_stream s')) = m_size (st_buffer st) /\
    st_sys (ps_stream s') = st_sys st.
Proof.
  intros Hwf Hh [Hsz Hmax] Hi Hname Hpid Hsend. unfold send_lines. rewrite Nat2Z.id.
  rewrite (bind_next _ _ _ _ _ (last_newline_ok data (mk_port_stream p st) Hh Hsz)).
  destruct (last_line data) as [[line after]|] eqn:El.
  2:{ exists [], data. eexists. split; [reflexivity|]. cbn. rewrite app_nil_r.
      split; [done|]. split; [done|]. split; [done|]. split; [done|]. split; [done|].
      split; [done|]. by split. }
  pose proof (last_line_Some _ _ _ El) as (l & -> & Hd & _).
  assert (Z.of_nat (length (l ++ [newline])) + Z.of_nat (length after) = Z.of_nat (length data))
    as Hlen by (rewrite Hd, !length_app; cbn; lia).
  set (line := l ++ [newline]) in *. rewrite app_assoc in Hd. fold line in Hd.
  set (n := Z.of_nat (length line)) in *.
  assert (holds (m_p (st_buffer st)) 0 line /\ holds (m_p (st_buffer st)) (length line) after)
    as [Hh1 Hh2] by (rewrite Hd in Hh; by apply holds_app in Hh).
  destruct Hsend as [Hs1 Hs2 Hs3].
  destruct (send_stream_ok name pid line (mk_port_stream p st)) as (term & b & j & Ht & Hb & He);
    try done; [fold n; lia| |].
  { split; cbn [ps_port]; [done|fold n; lia|]. eapply good_writes_le; [|exact Hs3]. fold n. lia. }
  fold n in He. replace (n - 1 + 1) with n by lia.
  rewrite (bind_next _ _ _ _ _ He). cbn [ps_port ps_stream]. destruct Hwf as [Hwl Hwz].
  destruct (Z.eqb_spec (n - 1) (Z.of_nat (length data) - 1)) as [Heq|Hne].
  - assert (after = []) as -> by (destruct after; [done|cbn in Hlen; lia]).
    exists (frame 1 term), []. eexists. split; [reflexivity|].
    split; [by exists term|]. repeat split; try done; cbn; lia.
  - replace (Z.of_nat (length data) - (n - 1) - 1) with (Z.of_nat (length after)) by lia.
    assert (exists m, move 1 (sys_realloc (pt_erlang p)) n (Z.of_nat (length after)) 0
              (st_buffer st) = Some (true, set_cells (st_buffer st) m) /\
              length m = length (m_p (st_buffer st)) /\ holds m 0 after) as (m & Hm & Hlm & Hhm).
    { assert (length line + length after <= length (m_p (st_buffer st)))%nat
        by (unfold n in Hlen; lia).
      assert (1 <= n) by (unfold n, line; rewrite length_app; cbn; lia).
      unfold move. rewrite wrap64_small by lia. unfold reserve.
      rewrite (proj2 (Z.ltb_lt _ _)) by lia.
      assert (get_cells (m_p (st_buffer st)) n (Z.of_nat (length after)) = Some (Some <$> after))
        as ->.
      { unfold get_cells. rewrite decide_True by lia. f_equal. unfold n. rewrite !Nat2Z.id.
        exact Hh2. }
      cbn [mbind option_bind]. unfold put_cells.
      rewrite decide_True by (rewrite length_fmap; lia).
      cbn [mbind option_bind]. eexists. split; [reflexivity|].
      change (Z.to_nat 0) with 0%nat. rewrite length_fmap. cbn [take app Nat.add]. split.
      - rewrite !length_app, length_take, length_fmap, length_drop. lia.
      - unfold holds. rewrite drop_0. change (take 0 _) with (@nil (option byte)). cbn [app]. by rewrite take_app_length' by (by rewrite length_fmap). }
    exists (frame 1 term), after. eexists. split.
    { rewrite bind_assoc. erewrite bind_next by reflexivity. cbv beta. cbn [ps_port ps_stream pt_erlang].
      rewrite bind_assoc. erewrite bind_next.
      2:{ cbn [set_write sys_realloc]. rewrite Hm. reflexivity. }
      reflexivity. }
    split; [by exists term|]. repeat split; try done; cbn in *; lia.
Qed.

Lemma consume_stream_begins name pid p st :
  st_revents st = POLLIN ->
  consume_stream name pid (mk_port_stream (X := X) p st) =
    (let* readBytes := fill in
     let* i := creads (fun s => st_i (ps_stream s)) in
     match readBytes with
     | inl e => creturn (GEPD.errno_read e : Z)
     | inr readBytes =>
         creturn_if ((readBytes =? 0) && (i =? 0)) (GEPD.success : Z);;;
         cmodify (set_st_i (i + readBytes));;;
         send_lines name pid (i + readBytes)
     end) (mk_port_stream p (mk_stream (st_sys st) 0 (st_buffer st) (st_i st))).
Proof.
  intros Hrev. unfold consume_stream. erewrite bind_next by reflexivity. cbv beta.
  cbn [ps_stream]. rewrite Hrev. change (has POLLIN POLLERR) with false.
  change (has POLLIN POLLHUP) with false. change (has POLLIN POLLNVAL) with false. cbv iota.
  by erewrite bind_next by reflexivity.
Qed.

(** ** Properties *)

(** C40. What is sent is the process's output up to its last newline, as one
    frame [{name, pid, String}]; what follows the newline is kept, at the
    start of the buffer, for the next time, and without a newline nothing is
    sent.  The output is what was kept from the time before and all that the
    reads give: each but the last fills the buffer, which is doubled for the
    next, up to its maximum, and the last leaves room.  (When the last read
    fills the buffer the bytes are counted twice, see
    [consume_stream_exact_fill]; or it is the largest, see
    [consume_stream_long_line].) *)
Theorem consume_stream_lines name pid old new rest rs ps size p st
    (Harr : arrives old new rest rs ps size st) (Hrev : st_revents st = POLLIN)
    (Halloc : forall n, sys_realloc (pt_erlang p) n = true)
    (Hname : Z.of_nat (length name) <= 30) (Hpid : 0 <= pid < 2 ^ 32)
    (Hsize : size <= 65535)
    (Hsend : sendable (Z.of_nat (length (old ++ new))) p) :
  exists out kept s',
    consume_stream name pid (mk_port_stream p st) = (Return (GEPD.success : Z), s') /\
    match last_line (old ++ new) with
    | None => out = [] /\ kept = old ++ new
    | Some (line, after) => exists term,
        term_bytes (stream_term name pid line) = Some term /\ out = frame 1 term /\ kept = after
    end /\
    sys_out (pt_erlang (ps_port s')) = sys_out (pt_erlang p) ++ out /\
    pt_user (ps_port s') = pt_user (X := X) p /\
    holds (m_p (st_buffer (ps_stream s'))) 0 kept /\
    st_i (ps_stream s') = Z.of_nat (length kept) /\
    wf (st_buffer (ps_stream s')) /\ m_size (st_buffer (ps_stream s')) = size /\
    sys_in (st_sys (ps_stream s')) = rest.
Proof.
  rewrite consume_stream_begins by done.
  pose proof (feeds_size _ _ _ _ _ _ _ _ _ _ (arr_feeds _ _ _ _ _ _ _ Harr)
    ltac:(apply (arr_wf _ _ _ _ _ _ _ Harr))) as [_ Hroom].
  destruct (fill_ok old new rest rs ps size p (mk_stream (st_sys st) 0 (st_buffer st) (st_i st)))
    as (n & st1 & Hf & [Hwf Hsz (Hn & Hi0 & Hi) Hh Hin Hr]);
    [by destruct Harr; split|lia|done|].
  set (st2 := mk_stream (st_sys st1) (st_revents st1) (st_buffer st1)
    (Z.of_nat (length (old ++ new)))).
  destruct (send_lines_ok name pid (old ++ new) p st2)
    as (out & kept & s' & He & H1 & H2 & H3 & H4 & H5 & H6 & H7 & H8); try done; [cbn; lia|].
  exists out, kept. erewrite bind_next by exact Hf. cbv beta. erewrite bind_next by reflexivity.
  cbv beta. cbn [ps_stream].
  destruct ((n =? 0) && (st_i st1 =? 0)) eqn:E0.
  - apply andb_true_iff in E0 as [E1%Z.eqb_eq E2%Z.eqb_eq].
    destruct (old ++ new) as [|c data] eqn:Hd; [|cbn in Hi; lia].
    exists (mk_port_stream p st1). split; [reflexivity|]. cbn in H1. destruct H1 as [-> ->].
    cbn [ps_port ps_stream]. rewrite app_nil_r. by split_and!.
  - exists s'. cbn [creturn_if cret]. erewrite bind_next by reflexivity. cbv beta zeta.
    erewrite bind_next by reflexivity. cbv beta. rewrite Hi. split; [exact He|].
    split_and!; try done; [by rewrite H7|by rewrite H8].
Qed.

(** A [read] that fills the buffer. *)
Record fills (old new rest : bytes) (rs : list rd) (st : stream) : Prop := {
  fill_wf : wf (st_buffer st);
  fill_i : st_i st = Z.of_nat (length old);
  fill_old : holds (m_p (st_buffer st)) 0 old;
  fill_all : Z.of_nat (length old) + Z.of_nat (length new) = m_size (st_buffer st);
  fill_some : new <> [];
  fill_in : sys_in (st_sys st) = new ++ rest;
  fill_read : exists k, sys_reads (st_sys st) = rd_some k :: rs /\ (length new <= k)%nat
}.

Lemma read_stream_fills old new rest rs p st :
  fills old new rest rs st ->
  read_stream (m_size (st_buffer st) - st_i st) (mk_port_stream p st) =
    (Next (inr (Z.of_nat (length new))),
     mk_port_stream (X := X) p (arrived old new rest rs (st_revents st) st)).
Proof.
  intros [Hwf Hi Ho Hall Hne Hin (k & Hr & Hk)].
  assert (0 < length new)%nat by (destruct new; [done|cbn; lia]).
  apply (read_stream_ok old new rest rs k); try done; [lia|lia|left; lia].
Qed.

(** When a read fills the buffer exactly and nothing more is ready, the
    bytes read are counted twice: [i] was already advanced by the loop that
    grew the buffer.  The search for the newline then reads memory that was
    never written. *)
Theorem consume_stream_exact_fill name pid old new rest rs ps p st
    (Hfill : fills old new rest rs st) (Hrev : st_revents st = POLLIN)
    (Hpoll : sys_polls (st_sys st) = pl_timeout :: ps)
    (Halloc : forall n, sys_realloc (pt_erlang p) n = true)
    (Hmax : 2 * m_size (st_buffer st) <= m_maxSize (st_buffer st))
    (Hsize : m_size (st_buffer st) < 2 ^ 31) :
  exists s', consume_stream name pid (mk_port_stream (X := X) p st) = (Undef, s').
Proof.
  rewrite consume_stream_begins by done.
  set (st0 := mk_stream (st_sys st) 0 (st_buffer st) (st_i st)).
  assert (fills old new rest rs st0) as Hfill0 by (by destruct Hfill; split).
  pose proof (read_stream_fills old new rest rs p st0 Hfill0) as Hread.
  destruct Hfill as [[Hl Hz] Hi Ho Hall Hne Hin Hr]. set (b := st_buffer st) in *.
  assert (0 < length new)%nat by (destruct new; [done|cbn; lia]).
  set (b1 := set_cells b (store (m_p b) (length old) new)).
  assert (length (m_p b1) = length (m_p b)) as Hl1 by (apply length_store; lia).
  set (b2 := mk_realloc_ptr (m_initialSize b) (2 * m_size b) (m_maxSize b)
    (m_p b1 ++ replicate (length (m_p b)) None) (S (m_gen b))).
  assert (grow 1 (sys_realloc (pt_erlang p)) b1 = (true, b2)) as Hgrow.
  { unfold grow. change (m_size b1) with (m_size b). rewrite Z.shiftl_mul_pow2 by lia.
    rewrite wrap64_small by lia. change (m_maxSize b1) with (m_maxSize b).
    rewrite (proj2 (Z.ltb_ge _ _)) by lia. unfold reallocate. rewrite Halloc. unfold b2.
    do 2 f_equal; [cbn; lia|]. rewrite take_ge by lia. f_equal. f_equal. lia. }
  set (st2 := mk_stream (set_polls ps (set_read rest rs (st_sys st))) 0 b2 (m_size b)).
  assert (fill (mk_port_stream p st0) = (Next (inr (Z.of_nat (length new))), mk_port_stream p st2))
    as Hf.
  { unfold fill. crun. cbn [fill_loop]. crun. cbn [ps_stream].
    erewrite bind_next by exact Hread. cbv beta.
    rewrite decide_True by (f_equal; cbn; lia).
    erewrite bind_next.
    2:{ unfold grow_stream. crun. cbn [ps_port ps_stream arrived st_buffer]. fold b b1.
        change (st_buffer st0) with b. fold b1. rewrite Hgrow. crun. reflexivity. }
    cbv beta iota. crun. erewrite bind_next.
    2:{ apply call_return. unfold on_fd, data_ready. cbn. unfold sys_poll, cbind.
        cbn. rewrite Hpoll. cbn. reflexivity. }
    cbv beta iota. unfold cret, set_st_i, set_st_buffer, st2. cbn. do 3 f_equal.
    rewrite Hi. lia. }
  erewrite bind_next by exact Hf. cbv beta. erewrite bind_next by reflexivity. cbv beta.
  cbn [ps_stream st_i st2]. rewrite (proj2 (Z.eqb_neq (Z.of_nat (length new)) 0)) by lia.
  cbn [andb creturn_if]. erewrite bind_next by reflexivity. cbv beta.
  erewrite bind_next by reflexivity. cbv beta. eexists. unfold send_lines.
  erewrite bind_undef; [reflexivity|].
  replace (Z.to_nat (m_size b + Z.of_nat (length new)))
    with (S (length (m_p b) + length new - 1)) by lia.
  cbn [last_newline]. crun. cbn [ps_stream set_st_i st_buffer st2 ps_port].
  rewrite (proj2 (Z.ltb_lt _ _)) by (cbn; lia). erewrite bind_next by reflexivity. cbv beta.
  assert (load (m_p b2) (length (m_p b) + length new - 1) 1 = None) as ->; [|reflexivity].
  unfold load, b2. cbn [m_p]. rewrite drop_app, drop_ge, Hl1 by lia. cbn [app].
  rewrite drop_replicate. case_decide as Hd; [|done].
  destruct (length (m_p b) - _)%nat as [|n] eqn:En; [lia|done].
Qed.

(** A line as long as the largest buffer: it is kept, nothing is sent,
    and the next output of the process is a failed assertion of [operator []],
    which nothing catches. *)
Theorem consume_stream_long_line name pid old new rest rs p st
    (Hfill : fills old new rest rs st) (Hrev : st_revents st = POLLIN)
    (Hmax : m_maxSize (st_buffer st) < 2 * m_size (st_buffer st) < 2 ^ 64)
    (Hline : newline ∉ old ++ new) :
  exists s1, consume_stream name pid (mk_port_stream (X := X) p st) =
      (Return (GEPD.success : Z), s1) /\ ps_port s1 = p /\
    exists s2, consume_stream name pid (set_st_revents POLLIN s1) =
      (Throw assert_exception, s2).
Proof.
  rewrite consume_stream_begins by done.
  set (st0 := mk_stream (st_sys st) 0 (st_buffer st) (st_i st)).
  assert (fills old new rest rs st0) as Hfill0 by (by destruct Hfill; split).
  pose proof (read_stream_fills old new rest rs p st0 Hfill0) as Hread.
  destruct Hfill as [[Hl Hz] Hi Ho Hall Hne Hin Hr]. set (b := st_buffer st) in *.
  assert (0 < length new)%nat by (destruct new; [done|cbn; lia]).
  set (b1 := set_cells b (store (m_p b) (length old) new)).
  assert (length (m_p b1) = length (m_p b)) as Hl1 by (apply length_store; lia).
  set (st1 := arrived old new rest rs 0 st0) in *.
  assert (fill (mk_port_stream p st0) = (Next (inr (Z.of_nat (length new))), mk_port_stream p st1))
    as Hf.
  { unfold fill. crun. cbn [fill_loop]. crun. cbn [ps_stream].
    erewrite bind_next by exact Hread. cbv beta.
    rewrite decide_True by (f_equal; cbn; lia).
    erewrite bind_next with (a := false) (s' := mk_port_stream p st1); [done|].
    unfold grow_stream. crun. cbn [ps_port ps_stream].
    assert (grow 1 (sys_realloc (pt_erlang p)) (st_buffer st1) = (false, st_buffer st1)) as Hg.
    { unfold grow. cbn [st1 arrived st_buffer set_cells m_size m_maxSize st0].
      rewrite Z.shiftl_mul_pow2, wrap64_small by lia.
      by rewrite (proj2 (Z.ltb_lt _ _)) by lia. }
    change (arrived old new rest rs (st_revents st0) st0) with st1. rewrite Hg. by crun. }
  set (st2 := mk_stream (st_sys st1) 0 (st_buffer st1) (m_size b)).
  assert (holds (m_p (st_buffer st1)) 0 (old ++ new)) as Hh.
  { apply holds_app. cbn. split; [apply holds_store_below; try done; lia|].
    apply holds_store_eq. lia. }
  exists (mk_port_stream p st2). split; [|split; [done|]].
  - erewrite bind_next by exact Hf. cbv beta. erewrite bind_next by reflexivity. cbv beta.
    rewrite (proj2 (Z.eqb_neq (Z.of_nat (length new)) 0)) by lia.
    cbn [andb creturn_if]. erewrite bind_next by reflexivity. cbv beta.
    erewrite bind_next by reflexivity. cbv beta.
    cbn [set_st_i ps_stream ps_port st_sys st_revents st_buffer st_i st1 arrived].
    replace (Z.of_nat (length old) + Z.of_nat (length new)) with (m_size b) by lia.
    unfold send_lines. replace (Z.to_nat (m_size b)) with (length (old ++ new))
      by (rewrite length_app; lia).
    erewrite bind_next by (apply last_newline_ok; [exact Hh|rewrite length_app; cbn; lia]).
    cbv beta. destruct (last_line (old ++ new)) as [[line after]|] eqn:El; [|done].
    apply last_line_Some in El as (l & _ & Hd & _). exfalso. apply Hline. rewrite Hd.
    rewrite !elem_of_app. right. left. by apply list_elem_of_singleton.
  - eexists.
    change (set_st_revents POLLIN (mk_port_stream p st2)) with
      (mk_port_stream p (mk_stream (st_sys st2) POLLIN (st_buffer st2) (st_i st2))).
    rewrite consume_stream_begins by done. cbn [st_sys st_buffer st_i].
    erewrite bind_throw; [reflexivity|]. unfold fill. crun. cbn [fill_loop]. crun.
    cbn [ps_stream]. erewrite bind_throw; [reflexivity|]. unfold read_stream. crun.
    cbn [ps_stream st_i st_buffer st2 st1 arrived set_cells m_size st0].
    rewrite Z.ltb_irrefl. by erewrite bind_throw by reflexivity.
Qed.

(** When the pipe of a process that ended is flushed, the last byte of
    what was collected is not sent. *)
Theorem flush_stream_drops_byte name pid old new data c rest rs ps size p st
    (Harr : arrives old new rest rs ps size st) (Hrev : st_revents st = POLLIN)
    (Halloc : forall n, sys_realloc (pt_erlang p) n = true)
    (Hdata : old ++ new = data ++ [c])
    (Hname : Z.of_nat (length name) <= 30) (Hpid : 0 <= pid < 2 ^ 32)
    (Hsize : size <= 65535)
    (Hsend : sendable (Z.of_nat (length data)) p) :
  exists term s', term_bytes (stream_term name pid data) = Some term /\
    flush_stream name pid (mk_port_stream (X := X) p st) = (Return (GEPD.success : Z), s') /\
    sys_out (pt_erlang (ps_port s')) = sys_out (pt_erlang p) ++ frame 1 term /\
    st_i (ps_stream s') = 0.
Proof.
  pose proof (feeds_size _ _ _ _ _ _ _ _ _ _ (arr_feeds _ _ _ _ _ _ _ Harr)
    ltac:(apply (arr_wf _ _ _ _ _ _ _ Harr))) as [_ Hroom].
  destruct (fill_ok old new rest rs ps size p st Harr ltac:(lia) Halloc)
    as (n & st1 & Hf & [Hwf Hsz (Hn & Hi0 & Hi) Hh _ _]).
  rewrite Hdata, length_app in Hi, Hroom. cbn [length] in Hi, Hroom.
  rewrite Hdata in Hh. apply holds_app in Hh as [Hh _].
  destruct (send_stream_ok name pid data (mk_port_stream p (mk_stream (st_sys st1) (st_revents st1)
    (st_buffer st1) 0))) as (term & b & j & Ht & _ & He); try done; [lia|].
  exists term. eexists. split; [done|]. split; [|split; [|]].
  - unfold flush_stream. erewrite bind_next by reflexivity. cbv beta. cbn [ps_stream].
    rewrite Hrev. change (negb (has POLLIN POLLIN)) with false. cbn [creturn_if].
    erewrite bind_next by reflexivity. cbv beta. erewrite bind_next by exact Hf. cbv beta.
    erewrite bind_next by reflexivity. cbv beta. cbn [ps_stream].
    assert (bool_decide (@inr errno Z n = inr 0) && (st_i st1 =? 0) = false) as ->.
    { apply andb_false_iff. destruct (decide (n = 0)).
      - right. apply Z.eqb_neq. lia.
      - left. apply bool_decide_eq_false. intros [= H]. lia. }
    cbn [creturn_if]. erewrite bind_next by reflexivity. cbv beta zeta.
    replace (st_i st1 + n - 1) with (Z.of_nat (length data)) by lia. rewrite wrap64_small by lia.
    erewrite bind_next by reflexivity. cbv beta. cbn [set_st_i ps_stream ps_port].
    erewrite bind_next by exact He. reflexivity.
  - reflexivity.
  - reflexivity.
Qed.
End properties.

(** ** Examples *)

(** A pipe with what the process wrote, read in pieces of at most 64 bytes
    into the buffer [b]. *)
Definition example_stream (b : realloc_ptr byte) (i : bytes) : stream :=
  mk_stream (mk_sys i [rd_some 64; rd_some 64] [] [] [pl_timeout] [] (fun _ => true)) POLLIN b 0.

Definition example_send_port : port unit :=
  mk_port (example_sys []) (construct 1 256 4096) tt.

Definition buffer_of (size : Z) : realloc_ptr byte := construct 1 size 64.

Lemma example_arrives b i :
  wf b -> Z.of_nat (length i) < m_size b -> (length i <= 64)%nat ->
  arrives [] i [] [rd_some 64] [pl_timeout] (m_size b) (example_stream b i).
Proof.
  intros Hwf Hm Hl. split; unfold example_stream.
  - exact Hwf.
  - done.
  - apply holds_nil.
  - cbn. by rewrite app_nil_r.
  - apply feeds_last; [exact Hm|]. right. by split.
Qed.

(** Five bytes for a new buffer, of one element: the reads take one, another,
    two and one. *)
Definition example_output : bytes := chars "ab" ++ [newline] ++ chars "cd".
Definition example_pipe : stream :=
  mk_stream (mk_sys example_output (replicate 4 (rd_some 64)) [] [] (replicate 3 pl_ready) []
    (fun _ => true)) POLLIN (construct 1 1 16384) 0.

Lemma example_pipe_arrives : arrives [] example_output [] [] [] 8 example_pipe.
Proof.
  split; [vm_compute; done|done|apply holds_nil|done|].
  change (feeds 16384 [] [] [] [] (chars "a" ++ chars "b" ++ ([newline] ++ chars "c") ++ chars "d") 1
    (replicate 4 (rd_some 64)) (replicate 3 pl_ready) 8).
  do 3 (apply feeds_grow; [vm_compute; reflexivity|vm_compute; reflexivity|vm_compute; lia|lia
    |discriminate|]).
  apply feeds_last; [vm_compute; reflexivity|]. right. split; [done|vm_compute; lia].
Qed.

Lemma example_sendable n : 0 <= n <= 100 -> sendable n example_send_port.
Proof.
  intros H. split.
  - vm_compute. done.
  - change (m_size (pt_buffer example_send_port)) with 256. lia.
  - apply good_writes_replicate. lia.
Qed.

Lemma consume_stream_lines_witness :
  exists term kept s',
    consume_stream (chars "stdout") 77 (mk_port_stream example_send_port example_pipe)
      = (Return (GEPD.success : Z), s') /\
    term_bytes (stream_term (chars "stdout") 77 (chars "ab" ++ [newline])) = Some term /\
    sys_out (pt_erlang (ps_port s')) = frame 1 term /\
    kept = chars "cd" /\ holds (m_p (st_buffer (ps_stream s'))) 0 kept /\
    st_i (ps_stream s') = 2.
Proof.
  destruct (consume_stream_lines (chars "stdout") 77 [] example_output
    [] [] [] 8 example_send_port example_pipe)
    as (out & kept & s' & He & Hl & Ho & _ & Hh & Hi & _).
  - exact example_pipe_arrives.
  - reflexivity.
  - reflexivity.
  - vm_compute. done.
  - lia.
  - lia.
  - apply example_sendable. vm_compute. done.
  - assert (last_line ([] ++ example_output) = Some (chars "ab" ++ [newline], chars "cd")) as Hk
      by (vm_compute; reflexivity).
    rewrite Hk in Hl. destruct Hl as (term & Ht & -> & ->).
    exists term, (chars "cd"), s'. split; [exact He|]. split; [exact Ht|]. split; [exact Ho|].
    split; [reflexivity|]. split; [exact Hh|]. rewrite Hi. reflexivity.
Defined.

Lemma example_fills b i :
  wf b -> Z.of_nat (length i) = m_size b -> i <> [] -> (length i <= 64)%nat ->
  fills [] i [] [rd_some 64] (example_stream b i).
Proof.
  intros Hwf Hm Hi Hl. split; unfold example_stream.
  - exact Hwf.
  - done.
  - apply holds_nil.
  - exact Hm.
  - done.
  - cbn. by rewrite app_nil_r.
  - by exists 64%nat.
Qed.

Lemma consume_stream_exact_fill_witness :
  exists s', consume_stream (chars "stdout") 77
    (mk_port_stream example_send_port (example_stream (buffer_of 4) (chars "abc" ++ [newline]))) = (Undef, s').
Proof.
  apply (consume_stream_exact_fill _ _ [] (chars "abc" ++ [newline]) [] [rd_some 64] []).
  - apply example_fills; [by vm_compute|by vm_compute|done|vm_compute; lia].
  - reflexivity.
  - reflexivity.
  - done.
  - vm_compute. done.
  - vm_compute. done.
Defined.

Lemma consume_stream_long_line_witness :
  exists s1, consume_stream (chars "stdout") 77
      (mk_port_stream example_send_port (example_stream (buffer_of 64) (replicate 64 NUL))) =
      (Return (GEPD.success : Z), s1) /\
    exists s2, consume_stream (chars "stdout") 77 (set_st_revents POLLIN s1) =
      (Throw assert_exception, s2).
Proof.
  destruct (consume_stream_long_line (chars "stdout") 77 [] (replicate 64 NUL) [] [rd_some 64]
    example_send_port (example_stream (buffer_of 64) (replicate 64 NUL))) as (s1 & He & _ & H2).
  - apply example_fills; [by vm_compute|by vm_compute|done|vm_compute; lia].
  - reflexivity.
  - vm_compute. done.
  - refine (bool_decide_unpack _ _). vm_compute. exact Logic.I.
  - exists s1. split; [exact He|exact H2].
Defined.

Lemma flush_stream_drops_byte_witness :
  exists term s', flush_stream (chars "stderr") 77
      (mk_port_stream example_send_port (example_stream (buffer_of 32) (chars "last words"))) =
      (Return (GEPD.success : Z), s') /\
    sys_out (pt_erlang (ps_port s')) = frame 1 term /\
    term_bytes (stream_term (chars "stderr") 77 (chars "last word")) = Some term.
Proof.
  destruct (flush_stream_drops_byte (chars "stderr") 77 [] (chars "last words")
    (chars "last word") (byte.of_Z 115) [] [rd_some 64] [pl_timeout] 32 example_send_port
    (example_stream (buffer_of 32) (chars "last words"))) as (term & s' & Ht & He & Ho & _).
  - apply (example_arrives (buffer_of 32)); [by vm_compute|by vm_compute|vm_compute; lia].
  - reflexivity.
  - reflexivity.
  - reflexivity.
  - vm_compute. done.
  - lia.
  - vm_compute. done.
  - apply example_sendable. vm_compute. done.
  - exists term, s'. split; [exact He|]. split; [exact Ho|exact Ht].
Defined.
