(* ===== verification/Posix.v ===== *)
(** * The process that spawns, and its system calls

    The state behind cloudi_os_spawn.cpp: the poll set and the processes of
    the port, and the operating system.  A system call is an event of a trace,
    with its answer; the operating system is any function from the events so
    far and a call to an answer, so that a theorem about every [gp_os] is one
    about every order of failures, every descriptor and process number. *)

From S2P Require Import Prelude CMonad Status Sys ReallocPtr Framing Instance Ei ExitStatus Marshal.

(** The calls, with what the kernel sees of their arguments. *)
Inductive syscall : Type :=
| Pipe
| Fork
| Close (fd : Z)
| Dup2 (oldfd newfd : Z)
| Getpid
| Socket (domain type : Z)
| Set_nodelay (fd : Z)                       (* TCP_NODELAY, 1 *)
| Connect_in (fd sin_port s_addr : Z)
| Connect_un (fd : Z) (sun_path : bytes)
| Write (fd : Z) (data : bytes)
| Getpwnam (name : bytes)
| Getgrnam (name : bytes)
| Chroot (path : bytes)
| Chdir (path : bytes)
| Getrlimit (resource : Z)
| Setrlimit (resource rlim_cur rlim_max : Z)
| Nice (inc : Z)
| Setgid (gid : Z)
| Setuid (uid : Z)
| Execve (filename : bytes) (argv env : list bytes)
| Kill (pid signal : Z)
| Waitpid (pid : Z).

#[export] Instance syscall_eq_dec : EqDecision syscall.
Proof. solve_decision. Defined.

(** -1 (or a null pointer) with an [errno], or success with up to two
    results: the descriptors of [pipe], [pw_uid] and [pw_gid], [rlim_cur] and
    [rlim_max], the status [waitpid] stores and its process. *)
Inductive answer : Type := Failed (e : errno) | Ok (a b : Z).

Definition event : Type := syscall * answer.

(** [struct pollfd] *)
Record pollfd : Type := mk_pollfd { pf_fd : Z; pf_events : Z; pf_revents : Z }.

(** The members of [class process_data]. *)
Record process_data : Type := mk_process_data {
  m_pid : Z;
  m_index_stdout : Z;
  m_index_stderr : Z;
  m_index_stream1 : Z;
  m_index_stream2 : Z;
  m_stream1 : buffer_t;
  m_stream2 : buffer_t
}.

(** What [std::cerr] is told of a process that ended: its status, by name or
    by number. *)
Definition report : Type := Z * (string + Z).

Record gepd : Type := mk_gepd {
  gp_os : list event -> syscall -> answer;
  gp_trace : list event;                 (* oldest first *)
  gp_realloc : Z -> bool;
  gp_polls : list (errno + list Z);      (* answers of [poll]: the revents *)
  gp_pipe : Z -> sys;                    (* what can be read from a descriptor *)
  gp_fds : realloc_ptr pollfd;           (* GEPD::fds *)
  gp_nfds : Z;                           (* GEPD::nfds *)
  gp_processes : list process_data;      (* processes *)
  gp_cerr : list report
}.

Definition set_trace (t : list event) (g : gepd) : gepd :=
  mk_gepd (gp_os g) t (gp_realloc g) (gp_polls g) (gp_pipe g) (gp_fds g) (gp_nfds g)
    (gp_processes g) (gp_cerr g).
Definition set_gp_polls (l : list (errno + list Z)) (g : gepd) : gepd :=
  mk_gepd (gp_os g) (gp_trace g) (gp_realloc g) l (gp_pipe g) (gp_fds g) (gp_nfds g)
    (gp_processes g) (gp_cerr g).
Definition set_pipe (fd : Z) (s : sys) (g : gepd) : gepd :=
  mk_gepd (gp_os g) (gp_trace g) (gp_realloc g) (gp_polls g)
    (fun n => if n =? fd then s else gp_pipe g n) (gp_fds g) (gp_nfds g)
    (gp_processes g) (gp_cerr g).
Definition set_fds (f : realloc_ptr pollfd) (g : gepd) : gepd :=
  mk_gepd (gp_os g) (gp_trace g) (gp_realloc g) (gp_polls g) (gp_pipe g) f (gp_nfds g)
    (gp_processes g) (gp_cerr g).
Definition set_nfds (n : Z) (g : gepd) : gepd :=
  mk_gepd (gp_os g) (gp_trace g) (gp_realloc g) (gp_polls g) (gp_pipe g) (gp_fds g) n
    (gp_processes g) (gp_cerr g).
Definition set_processes (l : list process_data) (g : gepd) : gepd :=
  mk_gepd (gp_os g) (gp_trace g) (gp_realloc g) (gp_polls g) (gp_pipe g) (gp_fds g)
    (gp_nfds g) l (gp_cerr g).
Definition set_cerr (l : list report) (g : gepd) : gepd :=
  mk_gepd (gp_os g) (gp_trace g) (gp_realloc g) (gp_polls g) (gp_pipe g) (gp_fds g)
    (gp_nfds g) (gp_processes g) l.

(** ** Statements over the state of the port *)

Section statements.
Context {R : Type}.
Abbreviation M := (C (port gepd) R).

(** A member of the global state. *)
Definition global {A} (f : gepd -> A) : M A := creads (fun p => f (pt_user p)).

Definition with_user (g : gepd) (p : port gepd) : port gepd :=
  mk_port (pt_erlang p) (pt_buffer p) g.

Definition update (f : gepd -> gepd) : M unit :=
  cmodify (fun p => with_user (f (pt_user p)) p).

(** A system call. *)
Definition os (c : syscall) : M answer := fun p =>
  let g := pt_user p in
  let a := gp_os g (gp_trace g) c in
  (Next a, with_user (set_trace (gp_trace g ++ [(c, a)]) g) p).

(** The C string at index [off] of [buffer]: the characters up to the null. *)
Definition cstr_at (off : Z) : M bytes :=
  let* b := creads pt_buffer in
  copt (cstr_of (drop (Z.to_nat off) (m_p b))).

(** [p[i]] of a pointer [p] into [buffer], and an array of [n] characters. *)
Definition char_at (off i : Z) : M byte :=
  let* b := creads pt_buffer in
  copt (m_p b !! Z.to_nat (off + i) ≫= id).

Definition chars_at (off n : Z) : M bytes :=
  let* b := creads pt_buffer in
  copt (load (m_p b) (Z.to_nat off) (Z.to_nat n)).

(** [p[i]] of a [uint32_t *]. *)
Definition uint32_at (off i : Z) : M Z :=
  let* bs := chars_at (off + 4 * i) 4 in cret (le_combine bs).
End statements.

(** ** What an operation may do to the state

    [trace_of c l]: [c] appends the events [l]; the buffers and the poll set
    stay as they are. *)

Definition traced (l : list event) (p : port gepd) : port gepd :=
  with_user (set_trace (gp_trace (pt_user p) ++ l) (pt_user p)) p.

Lemma traced_nil p : traced [] p = p.
Proof. destruct p as [? ? []]. unfold traced, with_user, set_trace. cbn. by rewrite app_nil_r. Qed.

Lemma traced_traced l l' p : traced l' (traced l p) = traced (l ++ l') p.
Proof. unfold traced, with_user, set_trace. cbn. by rewrite app_assoc. Qed.

(** [c], in a state whose [buffer] has the cells [m], only calls the operating
    system: it ends, and each of its ends comes with the events it made, of
    which [Q] holds. *)
Definition calls (m : cells) {R A} (Q : outcome R A -> list event -> Prop)
    (c : C (port gepd) R A) : Prop :=
  forall p, m_p (pt_buffer p) = m -> exists l, snd (c p) = traced l p /\ Q (fst (c p)) l.

(** What is true of an outcome that is not [Next]. *)
Definition ends {R A B} (Q : outcome R B -> list event -> Prop) (o : outcome R A)
    (l : list event) : Prop :=
  match o with
  | Next _ => True
  | Return r => Q (Return r) l
  | Throw e => Q (Throw e) l
  | Undef => Q Undef l
  | Blocked => Q Blocked l
  | NoFuel => Q NoFuel l
  end.

Section calls.
Context (m : cells) {R : Type}.

Lemma calls_weaken {A} (Q Q' : outcome R A -> list event -> Prop) c :
  calls m Q c -> (forall o l, Q o l -> Q' o l) -> calls m Q' c.
Proof. intros H HQ p Hp. destruct (H p Hp) as (l & ? & ?). eauto. Qed.

Lemma calls_bind {A B} (Q : outcome R A -> list event -> Prop)
    (Q' : outcome R B -> list event -> Prop) (c : C (port gepd) R A) k :
  calls m Q c -> (forall o l, Q o l -> ends Q' o l) ->
  (forall a l, Q (Next a) l -> calls m (fun o l' => Q' o (l ++ l')) (k a)) ->
  calls m Q' (cbind c k).
Proof.
  intros Hc He Hk p Hp. destruct (Hc p Hp) as (l & Hs & HQ). unfold cbind.
  specialize (He _ _ HQ). destruct (c p) as [[a|r|e| | |] p']; cbn in *; eauto.
  subst p'. destruct (Hk a l HQ (traced l p) Hp) as (l' & Hs' & HQ').
  exists (l ++ l'). by rewrite <- traced_traced.
Qed.

Lemma calls_pure {A} (Q : outcome R A -> list event -> Prop) (c : C (port gepd) R A) :
  (forall p, snd (c p) = p) -> (forall p, m_p (pt_buffer p) = m -> Q (fst (c p)) []) ->
  calls m Q c.
Proof. intros H HQ p Hp. exists []. rewrite traced_nil, H. auto. Qed.

Lemma calls_os (Q : outcome R answer -> list event -> Prop) s :
  (forall a, Q (Next a) [(s, a)]) -> calls m Q (os s).
Proof. intros H p _. eexists. split; [reflexivity|]. apply H. Qed.

Lemma calls_call {A} (Q : outcome A A -> list event -> Prop)
    (Q' : outcome R A -> list event -> Prop) (f : C (port gepd) A A) :
  calls m Q f ->
  (forall o l, Q o l -> match o with
     | Next a | Return a => Q' (Next a) l
     | Throw e => Q' (Throw e) l
     | Undef => Q' Undef l
     | Blocked => Q' Blocked l
     | NoFuel => Q' NoFuel l
     end) ->
  calls m Q' (call f).
Proof.
  intros H HQ p Hp. destruct (H p Hp) as (l & Hs & HQl). exists l. unfold call.
  specialize (HQ _ _ HQl). by destruct (f p) as [[] ?].
Qed.
End calls.

(** ** Reading the arguments

    [arg off bs p]: [buffer] holds the bytes [bs] from index [off] on.  No
    system call changes it. *)

Definition arg (off : Z) (bs : bytes) (p : port gepd) : Prop :=
  0 <= off /\ holds (m_p (pt_buffer p)) (Z.to_nat off) bs.

Lemma arg_app off bs bs' p :
  arg off (bs ++ bs') p <-> arg off bs p /\ arg (off + Z.of_nat (length bs)) bs' p.
Proof.
  unfold arg. split.
  - intros [Ho [H1 H2]%holds_app]. repeat split; [done..|lia|].
    by rewrite Z2Nat.inj_add, Nat2Z.id by lia.
  - intros [[Ho H1] [_ H2]]. split; [done|]. apply holds_app. split; [done|].
    by rewrite Z2Nat.inj_add, Nat2Z.id in H2 by lia.
Qed.

Lemma arg_cons off b bs p :
  arg off (b :: bs) p <-> arg off [b] p /\ arg (off + 1) bs p.
Proof. apply (arg_app off [b]). Qed.

Lemma arg_at off off' bs p : arg off bs p -> off = off' -> arg off' bs p.
Proof. by intros ? <-. Qed.

Lemma arg_traced off bs l p : arg off bs (traced l p) <-> arg off bs p.
Proof. done. Qed.

(** An argument that is known at another form of its index. *)
Ltac arg_found := solve [eapply arg_at; [eassumption|lia]].

Section reading.
Context {R : Type}.

Lemma chars_at_ok bs off p :
  arg off bs p -> chars_at (R := R) off (Z.of_nat (length bs)) p = (Next bs, p).
Proof.
  intros [_ H]. unfold chars_at. crun. rewrite Nat2Z.id. by rewrite (load_holds _ _ _ H).
Qed.

Lemma char_at_ok b bs i off p :
  arg off bs p -> 0 <= i -> bs !! Z.to_nat i = Some b ->
  char_at (R := R) off i p = (Next b, p).
Proof.
  intros [Ho H] Hi Hb. unfold char_at. crun.
  assert (m_p (pt_buffer p) !! Z.to_nat (off + i) = Some (Some b)) as ->; [|done].
  apply (f_equal (fun l => l !! Z.to_nat i)) in H.
  rewrite list_lookup_fmap, Hb in H. cbn [fmap option_fmap option_map] in H.
  rewrite lookup_take_lt in H by (by eapply lookup_lt_Some).
  by rewrite lookup_drop, <- Z2Nat.inj_add in H by lia.
Qed.

Lemma char_at_here b off i p :
  arg (off + i) [b] p -> char_at (R := R) off i p = (Next b, p).
Proof.
  intros H. apply (char_at_ok b [b] 0) in H; [|done..].
  unfold char_at in *. by rewrite Z.add_0_r in H.
Qed.

Lemma cstr_of_holds bs m off :
  NUL ∉ bs -> holds m off (bs ++ [NUL]) -> cstr_of (drop off m) = Some bs.
Proof.
  intros Hn H. unfold holds in H. rewrite <- (take_drop (length (bs ++ [NUL])) (drop off m)), H.
  rewrite fmap_app, <- app_assoc. by apply cstr_of_app.
Qed.

Lemma cstr_at_ok bs off p :
  NUL ∉ bs -> arg off (bs ++ [NUL]) p -> cstr_at (R := R) off p = (Next bs, p).
Proof.
  intros Hn [_ H]. unfold cstr_at. crun. by rewrite (cstr_of_holds _ _ _ Hn H).
Qed.

Lemma uint32_at_ok z i off p :
  0 <= z < 2 ^ 32 -> arg (off + 4 * i) (u32 z) p -> uint32_at (R := R) off i p = (Next z, p).
Proof.
  intros Hz H. unfold uint32_at. pose proof (chars_at_ok _ _ _ H) as Hc.
  rewrite length_u32 in Hc. erewrite bind_next by exact Hc. by rewrite le_combine_u32.
Qed.

Lemma os_next c p :
  os (R := R) c p =
    (Next (gp_os (pt_user p) (gp_trace (pt_user p)) c),
     traced [(c, gp_os (pt_user p) (gp_trace (pt_user p)) c)] p).
Proof. done. Qed.
End reading.
