(* ===== verification/Owner.v ===== *)
(** * The owner of a spawned process  (cloudi_os_owner.cpp)

    [owner_get] looks up names, [owner_set] drops the privileges: the group
    before the user, since a process that is no longer root may not change
    its group. *)

From S2P Require Import Prelude CMonad Status Sys ReallocPtr Framing Instance Ei ExitStatus Marshal Posix.

(** [static_cast<uid_t>], and [gid_t]: unsigned, 32 bits *)
Definition uid_t (z : Z) : Z := z mod 2 ^ 32.

Section owner.
Abbreviation M := (C (port gepd) (Z * Z * Z)).

(** The result with [user_i] and [group_i], which are references.  The names
    are pointers into [buffer]. *)
Definition owner_get (user_i user_str user_str_len group_i group_str group_str_len : Z) :
    M (Z * Z * Z) :=
  let uid := uid_t user_i in
  let gid := uid_t group_i in
  let* (uid, gid) :=
    (if (uid =? 0) && (1 <? user_str_len) then
       let* name := cstr_at user_str in
       let* a := os (Getpwnam name) in
       match a with
       | Failed _ => creturn (-1, user_i, group_i)
       | Ok pw_uid pw_gid =>
           let uid := uid_t pw_uid in
           if (gid =? 0) && (group_str_len =? 1) then cret (uid, uid_t pw_gid)
           else cret (uid, gid)
       end
     else cret (uid, gid)) in
  let* gid :=
    (if (gid =? 0) && (1 <? group_str_len) then
       let* name := cstr_at group_str in
       let* a := os (Getgrnam name) in
       match a with
       | Failed _ => creturn (-1, user_i, group_i)
       | Ok gr_gid _ => cret (uid_t gr_gid)
       end
     else cret gid) in
  creturn (0, uid, gid).

Definition owner_set (user_i group_i : Z) : C (port gepd) Z Z :=
  let uid := uid_t user_i in
  let gid := uid_t group_i in
  (if 0 <? gid then
     let* a := os (Setgid gid) in
     match a with Failed _ => creturn (-1) | Ok _ _ => cret tt end
   else cret tt);;;
  (if 0 <? uid then
     let* a := os (Setuid uid) in
     match a with Failed _ => creturn (-1) | Ok _ _ => cret tt end
   else cret tt);;;
  creturn 0.
End owner.
