(* ===== verification/Rlimit.v ===== *)
(** * Resource limits of a spawned process  (cloudi_os_rlimit.cpp)

    The limits arrive as a binary of entries, a type, which of the two limits
    it has, and the limits; the Erlang side (cloudi_core_i_os_process.erl)
    encodes it. *)

From S2P Require Import Prelude CMonad Status Sys ReallocPtr Framing Instance Ei ExitStatus Marshal Posix.

(** ** Constants  (both sides define the same) *)

Inductive limit_type : Type :=
| CLOUDI_RLIMIT_AS | CLOUDI_RLIMIT_CORE | CLOUDI_RLIMIT_CPU | CLOUDI_RLIMIT_DATA
| CLOUDI_RLIMIT_FSIZE | CLOUDI_RLIMIT_MEMLOCK | CLOUDI_RLIMIT_MSGQUEUE
| CLOUDI_RLIMIT_NICE | CLOUDI_RLIMIT_NOFILE | CLOUDI_RLIMIT_NPROC | CLOUDI_RLIMIT_RSS
| CLOUDI_RLIMIT_RTPRIO | CLOUDI_RLIMIT_RTTIME | CLOUDI_RLIMIT_SIGPENDING
| CLOUDI_RLIMIT_STACK | CLOUDI_RLIMIT_VMEM.

#[export] Instance limit_type_eq_dec : EqDecision limit_type.
Proof. solve_decision. Defined.

Definition limit_types : list limit_type :=
  [ CLOUDI_RLIMIT_AS; CLOUDI_RLIMIT_CORE; CLOUDI_RLIMIT_CPU; CLOUDI_RLIMIT_DATA;
    CLOUDI_RLIMIT_FSIZE; CLOUDI_RLIMIT_MEMLOCK; CLOUDI_RLIMIT_MSGQUEUE;
    CLOUDI_RLIMIT_NICE; CLOUDI_RLIMIT_NOFILE; CLOUDI_RLIMIT_NPROC; CLOUDI_RLIMIT_RSS;
    CLOUDI_RLIMIT_RTPRIO; CLOUDI_RLIMIT_RTTIME; CLOUDI_RLIMIT_SIGPENDING;
    CLOUDI_RLIMIT_STACK; CLOUDI_RLIMIT_VMEM ].

Definition limit_number (t : limit_type) : Z :=
  match t with
  | CLOUDI_RLIMIT_AS => 1 | CLOUDI_RLIMIT_CORE => 2 | CLOUDI_RLIMIT_CPU => 3
  | CLOUDI_RLIMIT_DATA => 4 | CLOUDI_RLIMIT_FSIZE => 5 | CLOUDI_RLIMIT_MEMLOCK => 6
  | CLOUDI_RLIMIT_MSGQUEUE => 7 | CLOUDI_RLIMIT_NICE => 8 | CLOUDI_RLIMIT_NOFILE => 9
  | CLOUDI_RLIMIT_NPROC => 10 | CLOUDI_RLIMIT_RSS => 11 | CLOUDI_RLIMIT_RTPRIO => 12
  | CLOUDI_RLIMIT_RTTIME => 13 | CLOUDI_RLIMIT_SIGPENDING => 14
  | CLOUDI_RLIMIT_STACK => 15 | CLOUDI_RLIMIT_VMEM => 16
  end.

Definition CLOUDI_RLIMITS_CURRENT_ONLY : Z := 1.
Definition CLOUDI_RLIMITS_MAXIMUM_ONLY : Z := 2.
Definition CLOUDI_RLIMITS_CURRENT_MAXIMUM : Z := 3.
Definition CLOUDI_RLIMITS_VALUE_INFINITY : Z := 0xffffffffffffffff.

(** <sys/resource.h>: the resources the platform defines, and its infinity. *)
Class Resources : Type := {
  RLIMIT : limit_type -> option Z;
  RLIM_INFINITY : Z;
  RLIMIT_nonneg : forall t r, RLIMIT t = Some r -> 0 <= r
}.

Section rlimit.
Context {P : Resources}.

(** [switch (value)], with a case for each type the platform defines. *)
Definition type_value (value : Z) : C (port gepd) Z Z :=
  match find (fun t => limit_number t =? value) limit_types ≫= RLIMIT with
  | Some r => creturn r
  | None => cassert false;;; creturn (-1)
  end.

Definition rlimit_value (value : Z) : Z :=
  if value =? CLOUDI_RLIMITS_VALUE_INFINITY then RLIM_INFINITY else value.

(** [rlimit_current_get] and [rlimit_maximum_get]: the result, and the member
    of [output] that is set when it is 0. *)
Definition rlimit_current_get {R} (type : Z) : C (port gepd) R (Z * option Z) :=
  let* value := os (Getrlimit type) in
  match value with Ok rlim_cur _ => cret (0, Some rlim_cur) | Failed _ => cret (-1, None) end.
Definition rlimit_maximum_get {R} (type : Z) : C (port gepd) R (Z * option Z) :=
  let* value := os (Getrlimit type) in
  match value with Ok _ rlim_max => cret (0, Some rlim_max) | Failed _ => cret (-1, None) end.

(** [*reinterpret_cast<uint64_t *>(&rlimits[i])] *)
Definition uint64_at {R} (off i : Z) : C (port gepd) R Z :=
  let* bs := chars_at (off + i) 8 in cret (le_combine bs).

(** One round of the loop; it yields the next [i]. *)
Definition rlimit_element (rlimits i : Z) : C (port gepd) Z Z :=
  let* type := char_at rlimits i in
  let i := i + 1 in
  let* format := char_at rlimits i in
  let i := i + 1 in
  let* resource_type := call (type_value (byte.unsigned type)) in
  creturn_if (resource_type =? -1) (-1);;;
  let* (result, rlim_cur, rlim_max, i) :=
    (if byte.unsigned format =? CLOUDI_RLIMITS_CURRENT_ONLY then
       let* v := uint64_at rlimits i in
       let* (result, rlim_max) := rlimit_maximum_get resource_type in
       cret (result, Some (rlimit_value v), rlim_max, i + 8)
     else if byte.unsigned format =? CLOUDI_RLIMITS_MAXIMUM_ONLY then
       let* v := uint64_at rlimits i in
       let* (result, rlim_cur) := rlimit_current_get resource_type in
       cret (result, rlim_cur, Some (rlimit_value v), i + 8)
     else if byte.unsigned format =? CLOUDI_RLIMITS_CURRENT_MAXIMUM then
       let* v := uint64_at rlimits i in
       let* v' := uint64_at rlimits (i + 8) in
       cret (0, Some (rlimit_value v), Some (rlimit_value v'), i + 8 + 8)
     else cassert false;;; creturn (-1)) in
  creturn_if (negb (result =? 0)) result;;;
  let* rlim_cur := copt rlim_cur in
  let* rlim_max := copt rlim_max in
  let* a := os (Setrlimit resource_type rlim_cur rlim_max) in
  match a with
  | Failed _ => creturn (-1)
  | Ok _ _ => cret i
  end.

(** [for (size_t i = 0; i < rlimits_len; )].  A round advances [i] by 10 at
    least. *)
Fixpoint rlimit_loop (fuel : nat) (rlimits rlimits_len i : Z) : C (port gepd) Z Z :=
  if i <? rlimits_len then
    match fuel with
    | O => cnofuel
    | S fuel =>
        let* i := rlimit_element rlimits i in
        rlimit_loop fuel rlimits rlimits_len i
    end
  else creturn 0.

Definition rlimit (rlimits rlimits_len : Z) : C (port gepd) Z Z :=
  rlimit_loop (Z.to_nat rlimits_len) rlimits rlimits_len 0.
End rlimit.

(** ** The Erlang side  (cloudi_core_i_os_process.erl) *)

Inductive limit_value : Type := infinity | Limit (n : Z).

(** What [cloudi_proplists:take_values] finds: [{current, V}], [{maximum, V}]
    or both. *)
Inductive limits : Type :=
| Current (v : limit_value)
| Maximum (v : limit_value)
| Both (current maximum : limit_value).

Definition limit_format_list_value (v : limit_value) : Z :=
  match v with infinity => CLOUDI_RLIMITS_VALUE_INFINITY | Limit n => n end.

Definition u64 (n : Z) : bytes := le_split 8 n.

Definition limit_format_list_type (e : limit_type * limits) : bytes :=
  byte.of_Z (limit_number e.1) ::
  match e.2 with
  | Current v => byte.of_Z CLOUDI_RLIMITS_CURRENT_ONLY :: u64 (limit_format_list_value v)
  | Maximum v => byte.of_Z CLOUDI_RLIMITS_MAXIMUM_ONLY :: u64 (limit_format_list_value v)
  | Both v v' =>
      byte.of_Z CLOUDI_RLIMITS_CURRENT_MAXIMUM ::
      u64 (limit_format_list_value v) ++ u64 (limit_format_list_value v')
  end.

Definition limit_format (l : list (limit_type * limits)) : bytes :=
  concat (limit_format_list_type <$> l).

(** ** Specification

    What the entries mean: each sets one or both limits of a resource and
    keeps the other. *)

Section specification.
Context {P : Resources}.

Definition limit_denotes (v : limit_value) : Z :=
  match v with infinity => RLIM_INFINITY | Limit n => n end.

(** The limits an entry sets, of the ones that are set now; -1 ends all. *)
Definition new_limits (r : Z) (v : limits) : C (port gepd) Z (Z * Z) :=
  match v with
  | Both c m => cret (limit_denotes c, limit_denotes m)
  | Current c =>
      let* a := os (Getrlimit r) in
      match a with Ok _ m => cret (limit_denotes c, m) | Failed _ => creturn (-1) end
  | Maximum m =>
      let* a := os (Getrlimit r) in
      match a with Ok c _ => cret (c, limit_denotes m) | Failed _ => creturn (-1) end
  end.

Definition set_limit (t : limit_type) (v : limits) : C (port gepd) Z unit :=
  match RLIMIT t with
  | None => cthrow assert_exception        (* not a limit of this platform *)
  | Some r =>
      let* (rlim_cur, rlim_max) := new_limits r v in
      let* a := os (Setrlimit r rlim_cur rlim_max) in
      match a with Failed _ => creturn (-1) | Ok _ _ => cret tt end
  end.

Fixpoint set_limits (l : list (limit_type * limits)) : C (port gepd) Z Z :=
  match l with
  | [] => creturn 0
  | (t, v) :: l => set_limit t v;;; set_limits l
  end.

(** A limit that fits, and is not mistaken for infinity. *)
Definition limit_value_ok (v : limit_value) : Prop :=
  match v with infinity => True | Limit n => 0 <= n < CLOUDI_RLIMITS_VALUE_INFINITY end.
Definition limits_ok (v : limits) : Prop :=
  match v with
  | Current v | Maximum v => limit_value_ok v
  | Both v v' => limit_value_ok v /\ limit_value_ok v'
  end.

(** ** Lemmas *)

Lemma type_value_ok t p :
  type_value (limit_number t) p =
    (match RLIMIT t with Some r => Return r | None => Throw assert_exception end, p).
Proof.
  unfold type_value.
  assert (find (fun t' => limit_number t' =? limit_number t) limit_types = Some t) as ->
    by (by destruct t).
  cbn [mbind option_bind]. by destruct (RLIMIT t).
Qed.

Lemma length_u64 n : length (u64 n) = 8%nat.
Proof. apply length_le_split. Qed.

Lemma uint64_at_ok {R} v off i p :
  limit_value_ok v -> arg (off + i) (u64 (limit_format_list_value v)) p ->
  exists z, uint64_at (R := R) off i p = (Next z, p) /\ rlimit_value z = limit_denotes v.
Proof.
  intros Hv H. exists (limit_format_list_value v). unfold uint64_at. split.
  - pose proof (chars_at_ok (R := R) _ _ _ H) as Hc. rewrite length_u64 in Hc.
    change (Z.of_nat 8) with 8 in Hc. erewrite bind_next by exact Hc. unfold u64.
    rewrite le_combine_split, Z.mod_small; [done|].
    destruct v; cbn in *; unfold CLOUDI_RLIMITS_VALUE_INFINITY in *; lia.
  - unfold rlimit_value. destruct v as [|n]; cbn in *; [done|].
    by rewrite (proj2 (Z.eqb_neq _ _)) by lia.
Qed.

Lemma limit_number_byte t : byte.unsigned (byte.of_Z (limit_number t)) = limit_number t.
Proof. by destruct t. Qed.

Lemma length_element t v :
  Z.of_nat (length (limit_format_list_type (t, v))) =
    match v with Both _ _ => 18 | _ => 10 end.
Proof. destruct v; cbn [limit_format_list_type fst snd length]; rewrite ?length_app, ?length_u64; lia. Qed.

(** Run the next statement on both sides, which is a system call, and its
    answers. *)
Ltac run_os :=
  rewrite ?bind_assoc; erewrite !(bind_next (os _)) by apply os_next; cbv beta iota;
  match goal with
  | |- context [match gp_os ?f ?l ?c with _ => _ end] => destruct (gp_os f l c)
  end.

Lemma set_limits_end r c m i j p :
  i = j ->
  (let* rlim_cur := copt (Some c) in
   let* rlim_max := copt (Some m) in
   let* a := os (Setrlimit r rlim_cur rlim_max) in
   match a with Failed _ => creturn (-1) | Ok _ _ => cret (R := Z) i end) p =
  cbind (B := Z) (let* a := os (Setrlimit r c m) in
    match a with Failed _ => creturn (-1) | Ok _ _ => cret tt end) (fun _ =>
   cret j) p.
Proof.
  intros ->. cbn [copt]. crun. rewrite bind_assoc. erewrite !(bind_next (os _)) by apply os_next.
  cbv beta. by destruct (gp_os _ _ _).
Qed.

Lemma rlimit_element_ok t v off i p :
  limits_ok v -> arg (off + i) (limit_format_list_type (t, v)) p ->
  rlimit_element off i p =
    (set_limit t v;;; cret (i + Z.of_nat (length (limit_format_list_type (t, v))))) p.
Proof.
  intros Hv Ha. rewrite length_element. unfold limit_format_list_type in Ha. cbn [fst snd] in Ha.
  apply arg_cons in Ha as [Ht Ha]. rewrite <- Z.add_assoc in Ha.
  unfold rlimit_element, set_limit.
  erewrite bind_next by (by apply char_at_here). cbv beta zeta.
  assert (exists f vs, match v with
      | Current v => byte.of_Z CLOUDI_RLIMITS_CURRENT_ONLY :: u64 (limit_format_list_value v)
      | Maximum v => byte.of_Z CLOUDI_RLIMITS_MAXIMUM_ONLY :: u64 (limit_format_list_value v)
      | Both v v' => byte.of_Z CLOUDI_RLIMITS_CURRENT_MAXIMUM ::
          u64 (limit_format_list_value v) ++ u64 (limit_format_list_value v') end = f :: vs
      /\ byte.unsigned f = match v with Current _ => 1 | Maximum _ => 2 | Both _ _ => 3 end)
    as (f & vs & Hf & Hn) by (by destruct v; eexists _, _).
  rewrite Hf in Ha. apply arg_cons in Ha as [Hc Ha]. rewrite <- Z.add_assoc in Ha.
  erewrite bind_next by (by apply char_at_here). cbv beta zeta.
  rewrite limit_number_byte, Hn.
  destruct (RLIMIT t) as [r|] eqn:Hr; cycle 1.
  { erewrite bind_throw; [|by apply call_throw; rewrite type_value_ok, Hr].
    by erewrite bind_throw by reflexivity. }
  erewrite bind_next; [|by apply call_return; rewrite type_value_ok, Hr]. cbv beta.
  apply RLIMIT_nonneg in Hr. rewrite (proj2 (Z.eqb_neq r (-1))) by lia. cbn [creturn_if].
  erewrite bind_next by reflexivity. cbv beta.
  rewrite bind_assoc.
  destruct v as [v|v|v v']; injection Hf as <- <-; cbn [limits_ok] in Hv;
    cbv [CLOUDI_RLIMITS_CURRENT_ONLY CLOUDI_RLIMITS_MAXIMUM_ONLY CLOUDI_RLIMITS_CURRENT_MAXIMUM
         Z.eqb Pos.eqb new_limits].
  - destruct (uint64_at_ok (R := Z) v off (i + 1 + 1) p Hv Ha) as (z & Hz & <-).
    rewrite bind_assoc. erewrite bind_next by exact Hz. cbv beta. unfold rlimit_maximum_get.
    run_os; [done|]. crun. cbn [negb creturn_if]. crun. apply set_limits_end. lia.
  - destruct (uint64_at_ok (R := Z) v off (i + 1 + 1) p Hv Ha) as (z & Hz & <-).
    rewrite bind_assoc. erewrite bind_next by exact Hz. cbv beta. unfold rlimit_current_get.
    run_os; [done|]. crun. cbn [negb creturn_if]. crun. apply set_limits_end. lia.
  - destruct Hv as [Hv Hv'].
    apply (arg_app _ (u64 (limit_format_list_value v)) (u64 (limit_format_list_value v'))) in Ha as [Ha Ha']. rewrite length_u64 in Ha'.
    change (Z.of_nat 8) with 8 in Ha'. rewrite <- Z.add_assoc in Ha'.
    destruct (uint64_at_ok (R := Z) v off (i + 1 + 1) p Hv Ha) as (z & Hz & <-).
    destruct (uint64_at_ok (R := Z) v' off (i + 1 + 1 + 8) p Hv' Ha') as (z' & Hz' & <-).
    rewrite !bind_assoc. erewrite bind_next by exact Hz. cbv beta. rewrite bind_assoc.
    erewrite bind_next by exact Hz'. crun. cbn [negb creturn_if]. crun. apply set_limits_end. lia.
Qed.

Lemma set_limit_calls m t v : calls m (fun _ _ => True) (set_limit t v).
Proof.
  unfold set_limit. destruct (RLIMIT t) as [r|]; [|by apply calls_pure].
  assert (calls m (fun _ _ => True) (new_limits r v)) as H.
  { destruct v; cbn [new_limits]; [| |by apply calls_pure].
    all: apply (calls_bind m (fun _ _ => True)); [by apply calls_os|by intros []|].
    all: intros [] ? _; by apply calls_pure. }
  apply (calls_bind m (fun _ _ => True)); [done|by intros []|].
  intros [cur max] ? _. apply (calls_bind m (fun _ _ => True)); [by apply calls_os|by intros []|].
  intros [] ? _; by apply calls_pure.
Qed.

Lemma rlimit_loop_ok l fuel off len i p :
  Forall limits_ok l.*2 -> arg (off + i) (limit_format l) p ->
  len = i + Z.of_nat (length (limit_format l)) -> (length (limit_format l) <= fuel)%nat ->
  rlimit_loop fuel off len i p = set_limits l p.
Proof.
  revert fuel i p. induction l as [|[t v] l IH]; intros fuel i p Hl Ha Hlen Hf.
  - subst len. cbn [limit_format fmap list_fmap concat length]. rewrite Z.add_0_r.
    destruct fuel; cbn [rlimit_loop]; by rewrite Z.ltb_irrefl.
  - apply Forall_cons in Hl as [Hv Hl].
    change (limit_format ((t, v) :: l)) with (limit_format_list_type (t, v) ++ limit_format l) in *.
    apply arg_app in Ha as [He Ha]. rewrite length_app in Hf, Hlen.
    assert (10 <= Z.of_nat (length (limit_format_list_type (t, v)))) as Hten
      by (rewrite length_element; destruct v; lia).
    destruct fuel as [|fuel]; [lia|]. cbn [rlimit_loop set_limits].
    rewrite (proj2 (Z.ltb_lt _ _)) by lia. unfold cbind at 1.
    rewrite (rlimit_element_ok t v off i p Hv He). unfold cbind.
    destruct (set_limit_calls _ t v p eq_refl) as (evs & Hs & _).
    destruct (set_limit t v p) as [[a|r|e| | |] p']; cbn [cret]; try done.
    cbn in Hs. subst p'. apply IH; [done| |lia..].
    by rewrite <- Z.add_assoc in Ha.
Qed.
End specification.

(** ** Property *)

Section property.
Context {P : Resources}.

(** C30. [rlimit], on the binary the Erlang side encodes a list of limits as,
    sets these limits one after the other, as the specification
    [set_limits] does: every call to the operating system, every failure and
    the limits the platform does not have included. *)
Theorem rlimit_refines l off p
    (Hok : Forall limits_ok l.*2) (Harg : arg off (limit_format l) p) :
  rlimit off (Z.of_nat (length (limit_format l))) p = set_limits l p.
Proof.
  apply rlimit_loop_ok; [done|by rewrite Z.add_0_r|lia|lia].
Qed.
End property.

(** ** Example *)

(** Two resources of Linux. *)
Definition example_resources : Resources.
Proof.
  refine {| RLIMIT t := match t with
              | CLOUDI_RLIMIT_NOFILE => Some 7 | CLOUDI_RLIMIT_CORE => Some 4 | _ => None end;
            RLIM_INFINITY := 2 ^ 64 - 1 |}.
  intros [] r H; simplify_eq; lia.
Defined.

Definition example_limits : list (limit_type * limits) :=
  [ (CLOUDI_RLIMIT_CORE, Current (Limit 0));
    (CLOUDI_RLIMIT_NOFILE, Both (Limit 1024) infinity) ].

(** A system where every limit is (11, 22), and a buffer with [bs]. *)
Definition example_gepd : gepd :=
  mk_gepd (fun _ _ => Ok 11 22) [] (fun _ => true) [] (fun _ => mk_sys [] [] [] [] [] [] (fun _ => true))
    (construct 8 4 65536) 0 [] [].
Definition example_port_with (bs : bytes) : port gepd :=
  mk_port (mk_sys [] [] [] [] [] [] (fun _ => true))
    (mk_realloc_ptr 64 64 4096 (Some <$> bs) 0) example_gepd.

Lemma rlimit_refines_witness :
  let P := example_resources in
  let p := example_port_with (limit_format example_limits) in
  fst (rlimit (P := P) 0 28 p) = Return 0 /\
  gp_trace (pt_user (snd (rlimit (P := P) 0 28 p))) =
    [ (Getrlimit 4, Ok 11 22); (Setrlimit 4 0 22, Ok 11 22);
      (Setrlimit 7 1024 (2 ^ 64 - 1), Ok 11 22) ].
Proof.
  cbv zeta.
  pose proof (@rlimit_refines example_resources example_limits 0
    (example_port_with (limit_format example_limits))) as H.
  change (Z.of_nat (length (limit_format example_limits))) with 28 in H.
  rewrite H.
  - vm_compute. done.
  - repeat constructor; unfold CLOUDI_RLIMITS_VALUE_INFINITY; lia.
  - split; [done|]. vm_compute. done.
Defined.
