(* ===== verification/Spawn.v ===== *)
(** * Spawning a process  (cloudi_os_spawn.cpp, [spawn])

    The child side: it closes the descriptors of the port, makes the pipes its
    stdout and stderr, connects its sockets, takes the command line and the
    environment apart, and gives up its privileges before it executes the
    program.  The parent side: it registers the pipes in the poll set. *)

From S2P Require Import Prelude Text CMonad Status Sys ReallocPtr Framing Instance Ei ExitStatus Marshal Port Posix Owner Rlimit.

(** <sys/socket.h> and <sys/un.h> of Linux *)
Definition PF_LOCAL : Z := 1.
Definition PF_INET : Z := 2.
Definition SOCK_STREAM : Z := 1.
Definition SOCK_DGRAM : Z := 2.
Definition sizeof_sun_path : nat := 108.

(** How [spawn] ends: it returns in the parent; the process exits; or the
    child runs the program and the code after [execve] is not reached. *)
Inductive spawn_end : Type :=
| Returned (status : Z)
| Exited (status : Z)
| Executed.

(** The parameters; the pointers are indices of [buffer]. *)
Record spawn_args : Type := mk_spawn_args {
  a_protocol : Z;
  a_socket_path : Z; a_socket_path_len : Z;
  a_ports : Z; a_ports_len : Z;
  a_rlimits : Z; a_rlimits_len : Z;
  a_user_i : Z;
  a_user_str : Z; a_user_str_len : Z;
  a_group_i : Z;
  a_group_str : Z; a_group_str_len : Z;
  a_nice : Z;
  a_chroot_directory : Z; a_chroot_directory_len : Z;
  a_directory : Z; a_directory_len : Z;
  a_filename : Z; a_filename_len : Z;
  a_argv : Z; a_argv_len : Z;
  a_env : Z; a_env_len : Z
}.

(** An array of pointers on the stack: indeterminate, null, or a pointer. *)
Abbreviation pointers := (list (option (option Z))).

Definition htons (port : Z) : Z := le_combine (rev (le_split 2 port)).

Section spawn.
Context {P : Resources} {E : Ei}.
Abbreviation M := (C (port gepd) spawn_end).

(** [if (call(...) == -1) ::_exit(status());] *)
Definition os_or_exit (c : syscall) (status : errno -> Z) : M (Z * Z) :=
  let* a := os c in
  match a with Failed e => creturn (Exited (status e)) | Ok a b => cret (a, b) end.

(** The same with [return status();] *)
Definition os_or_return (c : syscall) (status : errno -> Z) : M (Z * Z) :=
  let* a := os c in
  match a with Failed e => creturn (Returned (status e)) | Ok a b => cret (a, b) end.

Definition invalid_input : Z := spawn_status.value spawn_status.invalid_input.
Definition errno_pipe (e : errno) : Z := spawn_status.value (spawn_status.errno_pipe e).
Definition errno_close (e : errno) : Z := spawn_status.value (spawn_status.errno_close e).
Definition errno_dup (e : errno) : Z := spawn_status.value (spawn_status.errno_dup e).
Definition errno_connect (e : errno) : Z := spawn_status.value (spawn_status.errno_connect e).

(** [domain], [type] and [use_header] of the protocol *)
Definition select_protocol (protocol : Z) : M (Z * Z * bool) :=
  if protocol =? 116 (* t *) then cret (PF_INET, SOCK_STREAM, true)
  else if protocol =? 117 (* u *) then cret (PF_INET, SOCK_DGRAM, false)
  else if protocol =? 108 (* l *) then cret (PF_LOCAL, SOCK_STREAM, true)
  else creturn (Returned invalid_input).

(** ** The child *)

(** [GEPD::fds[i].fd] *)
Definition fds_at {R} (i : Z) : C (port gepd) R pollfd :=
  let* fds := global gp_fds in
  cassert (i <? m_size fds);;;
  copt (m_p fds !! Z.to_nat i ≫= id).

(** [for (size_t i = 0; i < GEPD::nfds; ++i)], [n] rounds left *)
Fixpoint close_fds (n : nat) (i : Z) : M unit :=
  match n with
  | O => cret tt
  | S n =>
      let* f := fds_at i in
      os_or_exit (Close (pf_fd f)) errno_close;;;
      close_fds n (i + 1)
  end.

(** The pipe becomes descriptor [n]. *)
Definition replace_fd (fds : Z * Z) (n : Z) : M unit :=
  os_or_exit (Dup2 fds.2 n) errno_dup;;;
  os_or_exit (Close fds.1) errno_close;;;
  os_or_exit (Close fds.2) errno_close;;;
  cret tt.

(** [char pid_message[1024]]: the term [{pid, Pid}], after its length when
    the socket is a stream. *)
Definition pid_message (use_header : bool) : M bytes :=
  let* a := os Getpid in
  let* pid_child := copt (match a with Ok pid _ => Some pid | Failed _ => None end) in
  match term_bytes [ ei_encode_version; ei_encode_tuple_header 2;
                     ei_encode_atom (chars "pid"); ei_encode_ulong pid_child ] with
  | None => creturn (Exited GEPD.ei_encode_error)
  | Some term =>
      let message :=
        if use_header then header_bytes (Z.of_nat (length term)) ++ term else term in
      if (length message <=? 1024)%nat then cret message else cundef
  end.

(** [sun_path]: [memcpy] of the path, and of the 16 characters of [port_str]
    over its terminator. *)
Definition sun_path (path : bytes) (socket_path_len port : Z) : option bytes :=
  let port_str := decimal (int32 port) ++ [NUL] in
  let port_cells := (Some <$> port_str) ++ replicate (16 - length port_str) None in
  m ← put_cells (replicate sizeof_sun_path None) 0 (Some <$> path);
  m ← put_cells m (wrap32 (socket_path_len - 1)) port_cells;
  cstr_of m.

(** [socket], and [dup2] to descriptor [i + 3] unless it is that one. *)
Definition open_socket (domain type i : Z) : M Z :=
  let* (sockfd, _) :=
    os_or_exit (Socket domain type) (fun e => spawn_status.value (spawn_status.errno_socket e)) in
  (if (domain =? PF_INET) && (type =? SOCK_STREAM) then
     os_or_exit (Set_nodelay sockfd) (fun _ => spawn_status.value spawn_status.socket_unknown);;;
     cret tt
   else cret tt);;;
  if wrap64 sockfd =? i + 3 then cret sockfd
  else
    os_or_exit (Dup2 sockfd (i + 3)) errno_dup;;;
    os_or_exit (Close sockfd) errno_close;;;
    cret (i + 3).

Definition connect_socket (a : spawn_args) (domain sockfd i : Z) : M unit :=
  let* port := uint32_at (a_ports a) i in
  if domain =? PF_INET then
    os_or_exit (Connect_in sockfd (htons port) 0x0100007f) errno_connect;;;
    cret tt
  else if domain =? PF_LOCAL then
    cassert (a_socket_path_len a <=? 104 - 10);;;
    let* path := chars_at (a_socket_path a) (a_socket_path_len a) in
    let* sun_path := copt (sun_path path (a_socket_path_len a) port) in
    os_or_exit (Connect_un sockfd sun_path) errno_connect;;;
    cret tt
  else cassert false.

(** [for (size_t i = 0; i < ports_len; ++i)], [n] rounds left *)
Fixpoint connect_ports (n : nat) (i : Z) (a : spawn_args) (domain type : Z) (message : bytes) :
    M unit :=
  match n with
  | O => cret tt
  | S n =>
      let* sockfd := open_socket domain type i in
      connect_socket a domain sockfd i;;;
      (if i =? 0 then
         os_or_exit (Write sockfd message) (fun e => GEPD.value (spawn_status.errno_write e));;;
         cret tt
       else cret tt);;;
      connect_ports n (i + 1) a domain type message
  end.

(** [for (size_t i = ...) if (p[i] == '\0') ++count;], [n] rounds left *)
Fixpoint count_nulls (n : nat) (p i count : Z) : M Z :=
  match n with
  | O => cret count
  | S n =>
      let* c := char_at p i in
      count_nulls n p (i + 1) (if decide (c = NUL) then count + 1 else count)
  end.

(** [array[index++] = value;] *)
Definition push (value : option Z) (st : pointers * Z) : M (pointers * Z) :=
  let '(array, index) := st in
  if (Z.to_nat index <? length array)%nat then
    cret (<[Z.to_nat index := Some value]> array, index + 1)
  else cundef.

(** [if (p[i] == '\0') array[index++] = &(p[i + 1]);] for [n] rounds *)
Fixpoint push_strings (n : nat) (p i : Z) (st : pointers * Z) : M (pointers * Z) :=
  match n with
  | O => cret st
  | S n =>
      let* c := char_at p i in
      let* st := if decide (c = NUL) then push (Some (p + i + 1)) st else cret st in
      push_strings n p (i + 1) st
  end.

(** The strings before the null pointer, as the kernel reads the array. *)
Fixpoint strings_of (array : pointers) : M (list bytes) :=
  match array with
  | Some (Some p) :: array =>
      let* s := cstr_at p in
      let* l := strings_of array in
      cret (s :: l)
  | Some None :: _ => cret []
  | _ => cundef
  end.

Definition execve_argv (filename argv argv_len : Z) : M pointers :=
  let* c := char_at argv (wrap32 (argv_len - 1)) in
  cassert (bool_decide (c = NUL));;;
  let* argv_count := count_nulls (Z.to_nat (argv_len - 1)) argv 1 2 in
  let* st := push (Some filename) (replicate (Z.to_nat argv_count) None, 0) in
  if argv_count =? 2 then
    let* (array, index) := push None st in
    cret array
  else
    let* st := push (Some argv) st in
    let* st := push_strings (Z.to_nat (wrap32 (argv_len - 1))) argv 0 st in
    let* (array, index) := push None st in
    cassert (index =? argv_count);;;
    cret array.

Definition execve_env (env env_len : Z) : M pointers :=
  let* c := char_at env (wrap32 (env_len - 1)) in
  cassert (bool_decide (c = NUL));;;
  let* env_count := count_nulls (Z.to_nat (env_len - 1)) env 1 1 in
  if env_count =? 1 then
    let* (array, index) := push None ([None], 0) in
    cret array
  else
    let* st := push (Some env) (replicate (Z.to_nat env_count) None, 0) in
    let* st := push_strings (Z.to_nat (wrap32 (env_len - 1))) env 0 st in
    let* (array, index) := push None st in
    cassert (index =? env_count);;;
    cret array.

(** From [owner_get] to the last [chdir]: what the child may do afterwards. *)
Definition change_root (a : spawn_args) : M unit :=
  if 1 <? a_chroot_directory_len a then
    let* d := cstr_at (a_chroot_directory a) in
    os_or_exit (Chroot d) (fun _ => invalid_input);;;
    (if a_directory_len a =? 1 then
       os_or_exit (Chdir (chars "/")) (fun _ => invalid_input);;; cret tt
     else cret tt)
  else cret tt.

Definition change_nice (nice : Z) : M unit :=
  if negb (nice =? 0) then os_or_exit (Nice nice) (fun _ => invalid_input);;; cret tt
  else cret tt.

Definition change_directory (a : spawn_args) : M unit :=
  if 1 <? a_directory_len a then
    let* d := cstr_at (a_directory a) in
    os_or_exit (Chdir d) (fun _ => invalid_input);;; cret tt
  else cret tt.

Definition restrict (a : spawn_args) : M unit :=
  let* (result, user_i, group_i) :=
    call (owner_get (a_user_i a) (a_user_str a) (a_user_str_len a)
            (a_group_i a) (a_group_str a) (a_group_str_len a)) in
  creturn_if (negb (result =? 0)) (Exited invalid_input);;;
  change_root a;;;
  let* result := call (rlimit (a_rlimits a) (a_rlimits_len a)) in
  creturn_if (negb (result =? 0)) (Exited invalid_input);;;
  change_nice (a_nice a);;;
  let* result := call (owner_set user_i group_i) in
  creturn_if (negb (result =? 0)) (Exited invalid_input);;;
  change_directory a.

Definition execute (a : spawn_args) (argv env : pointers) : M Z :=
  let* filename := cstr_at (a_filename a) in
  let* argv := strings_of argv in
  let* env := strings_of env in
  let* r := os (Execve filename argv env) in
  match r with
  | Ok _ _ => creturn Executed
  | Failed e => creturn (Exited (spawn_status.value (spawn_status.errno_exec e)))
  end.

Definition child (a : spawn_args) (domain type : Z) (use_header : bool)
    (fds_stdout fds_stderr : Z * Z) : M Z :=
  let* nfds := global gp_nfds in
  close_fds (Z.to_nat nfds) 0;;;
  replace_fd fds_stdout 1;;;
  replace_fd fds_stderr 2;;;
  let* message := pid_message use_header in
  connect_ports (Z.to_nat (a_ports_len a)) 0 a domain type message;;;
  let* argv := execve_argv (a_filename a) (a_argv a) (a_argv_len a) in
  let* env := execve_env (a_env a) (a_env_len a) in
  restrict a;;;
  execute a argv env.

(** ** The parent *)

Definition sizeof_pollfd : Z := 8.

(** The three assignments to the members of [GEPD::fds[i]]. *)
Definition fds_set {R} (i : Z) (f : pollfd) : C (port gepd) R unit :=
  let* fds := global gp_fds in
  cassert (i <? m_size fds);;;
  if (Z.to_nat i <? length (m_p fds))%nat then
    update (set_fds (set_cells fds (<[Z.to_nat i := Some f]> (m_p fds))))
  else cundef.

Definition watch (fd : Z) : pollfd := mk_pollfd fd (Z.lor POLLIN POLLPRI) 0.

(** The constructor of [process_data] *)
Definition new_process_data (pid index_stdout index_stderr : Z) : process_data :=
  mk_process_data pid index_stdout index_stderr 0 0 (construct 1 1 16384) (construct 1 1 16384).

Definition parent (pid : Z) (fds_stdout fds_stderr : Z * Z) : M Z :=
  os_or_return (Close fds_stdout.2) errno_close;;;
  os_or_return (Close fds_stderr.2) errno_close;;;
  let* nfds := global gp_nfds in
  let* g := creads pt_user in
  let* (ok, fds) :=
    copt (reserve sizeof_pollfd (gp_realloc g) (wrap64 (nfds + 2)) (gp_fds g)) in
  update (set_fds fds);;;
  creturn_if (negb ok) (Exited (spawn_status.value spawn_status.out_of_memory));;;
  fds_set nfds (watch fds_stdout.1);;;
  fds_set (nfds + 1) (watch fds_stderr.1);;;
  update (set_nfds (nfds + 2));;;
  let* processes := global gp_processes in
  update (set_processes (processes ++ [new_process_data pid nfds (nfds + 1)]));;;
  creturn (Returned pid).

Definition spawn (a : spawn_args) : M Z :=
  let* (domain, type, use_header) := select_protocol (a_protocol a) in
  let* fds_stdout := os_or_return Pipe errno_pipe in
  let* fds_stderr := os_or_return Pipe errno_pipe in
  let* (pid, _) :=
    os_or_return Fork (fun e => spawn_status.value (spawn_status.errno_fork e)) in
  if pid =? 0 then child a domain type use_header fds_stdout fds_stderr
  else parent pid fds_stdout fds_stderr.
End spawn.
