(* ===== verification/Restrict.v ===== *)
(** * What a child did before it ran its program

    The trace of [Spawn.child], whatever the operating system answers: the
    program runs only after every restriction that was asked for succeeded, in
    the order that makes them effective, and a child that fails exits. *)

From S2P Require Import Prelude CMonad Status Sys ReallocPtr Framing Instance Ei ExitStatus Marshal Port Posix Owner Rlimit Spawn.

(** ** Traces *)

Definition no_program (e : event) : Prop :=
  match e with (Execve _ _ _, Ok _ _) => False | _ => True end.

(** [when b c l]: [l] is the one successful call [c] if [b], and empty
    otherwise. *)
Definition when (b : bool) (c : syscall) (l : list event) : Prop :=
  if b then exists x y, l = [(c, Ok x y)] else l = [].

(** The string an argument points to. *)
Definition points_to (m : cells) (off : Z) (s : bytes) : Prop :=
  cstr_of (drop (Z.to_nat off) m) = Some s.

(** [phase m ρ S c]: [c] does not run a program; what it yields, with its
    events, has [S], what it returns has [ρ], and it ends. *)
Definition phase (m : cells) {R A} (ρ : R -> list event -> Prop) (S : A -> list event -> Prop) :
    C (port gepd) R A -> Prop :=
  calls m (fun o l => Forall no_program l /\
    match o with Next a => S a l | Return r => ρ r l | NoFuel => False | _ => True end).

Section phase.
Context (m : cells) {R : Type}.

Lemma phase_bind {A B} (ρ ρ' : R -> list event -> Prop) (S : A -> list event -> Prop)
    (S' : B -> list event -> Prop) c k :
  phase m ρ S c -> (forall r l, ρ r l -> ρ' r l) ->
  (forall a l, S a l -> phase m (fun r l' => ρ' r (l ++ l')) (fun b l' => S' b (l ++ l')) (k a)) ->
  phase m ρ' S' (cbind c k).
Proof.
  intros Hc Hρ Hk.
  apply (calls_bind m (fun o l => Forall no_program l /\
    match o with Next a => S a l | Return r => ρ r l | NoFuel => False | _ => True end)).
  - exact Hc.
  - intros [] l [Hl H]; cbn; auto.
  - intros a l [Hl H]. eapply calls_weaken; [apply (Hk a l H)|].
    intros o l' [Hl' H']. split; [by apply Forall_app|done].
Qed.

Lemma phase_ret {A} (ρ : R -> list event -> Prop) (S : A -> list event -> Prop) a :
  S a [] -> phase m ρ S (cret a).
Proof. intros H. apply calls_pure; [done|]. cbn. by split. Qed.

Lemma phase_return {A} (ρ : R -> list event -> Prop) (S : A -> list event -> Prop) r :
  ρ r [] -> phase m ρ S (creturn r).
Proof. intros H. apply calls_pure; [done|]. cbn. by split. Qed.

Lemma phase_throw {A} (ρ : R -> list event -> Prop) (S : A -> list event -> Prop) e :
  phase m ρ S (cthrow e).
Proof. apply calls_pure; [done|]. cbn. by split. Qed.

Lemma phase_assert ρ (S : unit -> list event -> Prop) b :
  (b = true -> S tt []) -> phase m (R := R) ρ S (cassert b).
Proof. destruct b; intros; [apply phase_ret; auto|apply phase_throw]. Qed.

Lemma phase_opt {A} ρ (S : A -> list event -> Prop) o :
  (forall a, o = Some a -> S a []) -> phase m (R := R) ρ S (copt o).
Proof. intros H. apply calls_pure; [by destruct o|]. intros p _. destruct o; cbn; auto. Qed.

Lemma phase_pure {A} ρ (S : A -> list event -> Prop) (c : C (port gepd) R A) :
  (forall p, snd (c p) = p) ->
  (forall p, m_p (pt_buffer p) = m ->
     match fst (c p) with Next a => S a [] | Return r => ρ r [] | NoFuel => False | _ => True end) ->
  phase m ρ S c.
Proof. intros H HS. apply calls_pure; [done|]. intros p Hp. split; [done|]. by apply HS. Qed.

Lemma phase_os ρ (S : answer -> list event -> Prop) s :
  (forall a, no_program (s, a)) -> (forall a, S a [(s, a)]) -> phase m (R := R) ρ S (os s).
Proof. intros Hs H. apply calls_os. intros a. split; [by constructor|apply H]. Qed.

Lemma phase_weaken {A} (ρ ρ' : R -> list event -> Prop) (S S' : A -> list event -> Prop) c :
  phase m ρ S c -> (forall r l, ρ r l -> ρ' r l) -> (forall a l, S a l -> S' a l) ->
  phase m ρ' S' c.
Proof.
  intros H Hρ HS. eapply calls_weaken; [exact H|].
  intros [] l [Hl Ho]; split; auto.
Qed.

Lemma phase_call {A} (ρ : R -> list event -> Prop) (S : A -> list event -> Prop) f :
  phase m S S f -> phase m ρ S (call f).
Proof. intros H. eapply calls_call; [exact H|]. by intros []. Qed.

Lemma phase_return_if ρ (S : unit -> list event -> Prop) b (r : R) :
  (b = true -> ρ r []) -> (b = false -> S tt []) -> phase m ρ S (creturn_if b r).
Proof. destruct b; intros; [apply phase_return|apply phase_ret]; auto. Qed.

Lemma phase_cstr_at ρ (S : bytes -> list event -> Prop) off :
  (forall s, points_to m off s -> S s []) -> phase m (R := R) ρ S (cstr_at off).
Proof.
  intros H. apply phase_pure.
  - intros p. unfold cstr_at. unfold cbind, creads. by destruct (cstr_of _).
  - intros p Hp. unfold cstr_at, cbind, creads. rewrite Hp. cbn.
    destruct (cstr_of _) eqn:E; cbn; auto.
Qed.

Lemma phase_char_at ρ (S : byte -> list event -> Prop) off i :
  (forall c, S c []) -> phase m (R := R) ρ S (char_at off i).
Proof.
  intros H. apply phase_pure; intros p; unfold char_at, cbind, creads;
    destruct (_ ≫= _); cbn; auto.
Qed.

Lemma phase_chars_at ρ (S : bytes -> list event -> Prop) off n :
  (forall s, S s []) -> phase m (R := R) ρ S (chars_at off n).
Proof.
  intros H. apply phase_pure; intros p; unfold chars_at, cbind, creads;
    destruct (load _ _ _); cbn; auto.
Qed.
End phase.

(** Nothing is said of the events. *)
Definition anything {A} : A -> list event -> Prop := fun _ _ => True.

(** ** The child up to its restrictions *)

Definition exits (r : spawn_end) (_ : list event) : Prop := exists status, r = Exited status.

Create HintDb phase.

(** Not a program run. *)
Definition plain (c : syscall) : Prop := match c with Execve _ _ _ => False | _ => True end.

Section child.
Context {P : Resources} {E : Ei}.
Context (m : cells).

Lemma plain_no_program c a : plain c -> no_program (c, a).
Proof. by destruct c. Qed.

Lemma phase_then {A B} (c : C (port gepd) spawn_end A) (k : A -> C (port gepd) spawn_end B) :
  phase m exits anything c -> (forall a, phase m exits anything (k a)) ->
  phase m exits anything (cbind c k).
Proof. intros Hc Hk. eapply phase_bind; [exact Hc|done|]. intros. apply Hk. Qed.

Lemma phase_os_or_exit c st :
  plain c -> phase m exits (fun _ l => exists x y, l = [(c, Ok x y)]) (os_or_exit c st).
Proof.
  intros Hc. eapply (phase_bind m exits exits (fun a l => l = [(c, a)])); [|done|].
  - apply phase_os; [|done]. intros a. by apply plain_no_program.
  - intros [e|x y] l ->; [apply phase_return; by eexists|]. apply phase_ret. by eexists _, _.
Qed.

Lemma phase_os_any c st : plain c -> phase m exits anything (os_or_exit c st).
Proof. intros Hc. eapply phase_weaken; [by apply phase_os_or_exit|done|done]. Qed.

Lemma phase_ret_any {A} (a : A) : phase m exits anything (cret a).
Proof. by apply phase_ret. Qed.
Lemma phase_exit {A} st : phase (A := A) m exits anything (creturn (Exited st)).
Proof. apply phase_return. by eexists. Qed.
Lemma phase_undef_any {A} : phase (A := A) m exits anything cundef.
Proof. by apply phase_pure. Qed.
Lemma phase_assert_any b : phase m exits anything (cassert b).
Proof. by apply phase_assert. Qed.
Lemma phase_opt_any {A} (o : option A) : phase m exits anything (copt o).
Proof. by apply phase_opt. Qed.
Lemma phase_char_any off i : phase m exits anything (char_at off i).
Proof. by apply phase_char_at. Qed.
Lemma phase_chars_any off n : phase m exits anything (chars_at off n).
Proof. by apply phase_chars_at. Qed.
Lemma phase_global_any {A} (f : gepd -> A) : phase m exits anything (global f).
Proof. by apply phase_pure. Qed.
Lemma phase_os_plain c : plain c -> phase m exits anything (os c).
Proof. intros Hc. apply phase_os; [|done]. intros a. by apply plain_no_program. Qed.

#[local] Hint Resolve phase_then phase_os_any phase_ret_any phase_exit phase_undef_any
  phase_assert_any phase_opt_any phase_char_any phase_chars_any phase_global_any
  phase_os_plain : phase.
#[local] Hint Extern 2 (plain _) => exact Logic.I : phase.

(** Statements of which only the program they might run matters. *)
Ltac phases :=
  repeat first
    [ progress intros
    | match goal with
      | |- phase _ _ _ (cbind _ _) => apply phase_then
      | |- phase _ _ _ (match ?x with _ => _ end) => destruct x
      | |- phase _ _ _ (let '(_, _) := ?x in _) => destruct x
      end
    | solve [eauto 3 with phase] ].

Lemma phase_fds_at i : phase m exits anything (fds_at i).
Proof. unfold fds_at. phases. Qed.
#[local] Hint Resolve phase_fds_at : phase.

Lemma phase_close_fds n i : phase m exits anything (close_fds n i).
Proof. revert i. induction n as [|n IH]; intros i; cbn [close_fds]; phases. Qed.

Lemma phase_replace_fd fds n : phase m exits anything (replace_fd fds n).
Proof. unfold replace_fd. phases. Qed.

Lemma phase_pid_message h : phase m exits anything (pid_message h).
Proof. unfold pid_message. phases. Qed.

Lemma phase_open_socket domain type i : phase m exits anything (open_socket domain type i).
Proof. unfold open_socket. phases. Qed.

Lemma phase_connect_socket a domain fd i :
  phase m exits anything (connect_socket a domain fd i).
Proof. unfold connect_socket, uint32_at. phases. Qed.
#[local] Hint Resolve phase_close_fds phase_replace_fd phase_pid_message phase_open_socket
  phase_connect_socket : phase.

Lemma phase_connect_ports n i a domain type message :
  phase m exits anything (connect_ports n i a domain type message).
Proof. revert i. induction n as [|n IH]; intros i; cbn [connect_ports]; phases. Qed.

Lemma phase_count_nulls n p i c : phase m exits anything (count_nulls n p i c).
Proof. revert i c. induction n as [|n IH]; intros; cbn [count_nulls]; phases. Qed.

Lemma phase_push v st : phase m exits anything (push v st).
Proof. unfold push. phases. Qed.
#[local] Hint Resolve phase_connect_ports phase_count_nulls phase_push : phase.

Lemma phase_push_strings n p i st : phase m exits anything (push_strings n p i st).
Proof. revert i st. induction n as [|n IH]; intros; cbn [push_strings]; phases. Qed.
#[local] Hint Resolve phase_push_strings : phase.

Lemma phase_execve_argv f a n : phase m exits anything (execve_argv f a n).
Proof. unfold execve_argv. phases. Qed.

Lemma phase_execve_env a n : phase m exits anything (execve_env a n).
Proof. unfold execve_env. phases. Qed.
End child.
#[export] Hint Resolve phase_close_fds phase_replace_fd phase_pid_message
  phase_connect_ports phase_execve_argv phase_execve_env phase_global_any : phase.

(** ** The restrictions *)

Section restrictions.
Context {P : Resources} {E : Ei}.
Context (m : cells).

(** What [owner_get] looks up, and finds: the owner is the number given, or
    the one the name stands for; the user's own group if none is named. *)
Definition owner_looked_up (a : spawn_args) (uid gid : Z) (l : list event) : Prop :=
  exists gid0 lu lg, l = lu ++ lg /\
    (if (uid_t (a_user_i a) =? 0) && (1 <? a_user_str_len a) then
       exists name pw_uid pw_gid, points_to m (a_user_str a) name /\
         lu = [(Getpwnam name, Ok pw_uid pw_gid)] /\ uid = uid_t pw_uid /\
         gid0 = if (uid_t (a_group_i a) =? 0) && (a_group_str_len a =? 1)
                then uid_t pw_gid else uid_t (a_group_i a)
     else lu = [] /\ uid = uid_t (a_user_i a) /\ gid0 = uid_t (a_group_i a)) /\
    (if (gid0 =? 0) && (1 <? a_group_str_len a) then
       exists name gr_gid x, points_to m (a_group_str a) name /\
         lg = [(Getgrnam name, Ok gr_gid x)] /\ gid = uid_t gr_gid
     else lg = [] /\ gid = gid0).

Definition root_changed (a : spawn_args) (l : list event) : Prop :=
  if 1 <? a_chroot_directory_len a then
    exists d l' x y, points_to m (a_chroot_directory a) d /\ l = (Chroot d, Ok x y) :: l' /\
      when (a_directory_len a =? 1) (Chdir (chars "/")) l'
  else l = [].

(** A successful call that reads or sets a limit. *)
Definition limit_event (e : event) : Prop :=
  match e with
  | (Getrlimit _, Ok _ _) | (Setrlimit _ _ _, Ok _ _) => True
  | _ => False
  end.

(** The limits of the arguments are set: the calls are those [rlimit] makes of
    them when it succeeds ([Rlimit.rlimit_refines] says which these are), each
    one a success. *)
Definition limits_set (a : spawn_args) (l : list event) : Prop :=
  Forall limit_event l /\
  exists p, m_p (pt_buffer p) = m /\
    rlimit (a_rlimits a) (a_rlimits_len a) p = (Return 0, traced l p).

(** The group first: a process that gave up root may not change it. *)
Definition owner_changed (uid gid : Z) (l : list event) : Prop :=
  exists lg lu, l = lg ++ lu /\
    when (0 <? gid) (Setgid gid) lg /\ when (0 <? uid) (Setuid uid) lu.

Definition directory_changed (a : spawn_args) (l : list event) : Prop :=
  if 1 <? a_directory_len a then
    exists d, points_to m (a_directory a) d /\ when true (Chdir d) l
  else l = [].

(** All of them, in the order they take effect; [L] is what is known of the
    limits. *)
Definition restricted (L : list event -> Prop) (a : spawn_args) (l : list event) : Prop :=
  exists uid gid looked_up root limits nice owner directory,
    l = looked_up ++ root ++ limits ++ nice ++ owner ++ directory /\
    owner_looked_up a uid gid looked_up /\
    root_changed a root /\
    L limits /\
    when (negb (a_nice a =? 0)) (Nice (a_nice a)) nice /\
    owner_changed uid gid owner /\
    directory_changed a directory.

Lemma uid_t_idemp z : uid_t (uid_t z) = uid_t z.
Proof. unfold uid_t. by rewrite Z.mod_mod. Qed.

Definition owner_result (a : spawn_args) (r : Z * Z * Z) (l : list event) : Prop :=
  match r with (result, uid, gid) => result = 0 -> owner_looked_up a uid gid l end.

Lemma phase_owner_get a :
  phase m (owner_result a) (owner_result a)
    (owner_get (a_user_i a) (a_user_str a) (a_user_str_len a)
       (a_group_i a) (a_group_str a) (a_group_str_len a)).
Proof.
  unfold owner_get.
  eapply (phase_bind m (owner_result a) _ (fun '(uid, gid0) lu =>
    if (uid_t (a_user_i a) =? 0) && (1 <? a_user_str_len a) then
       exists name pw_uid pw_gid, points_to m (a_user_str a) name /\
         lu = [(Getpwnam name, Ok pw_uid pw_gid)] /\ uid = uid_t pw_uid /\
         gid0 = if (uid_t (a_group_i a) =? 0) && (a_group_str_len a =? 1)
                then uid_t pw_gid else uid_t (a_group_i a)
     else lu = [] /\ uid = uid_t (a_user_i a) /\ gid0 = uid_t (a_group_i a))); [|done|].
  - destruct (_ && (1 <? a_user_str_len a)); [|by apply phase_ret].
    eapply (phase_bind m (owner_result a) _ (fun name l => points_to m (a_user_str a) name /\ l = []));
      [by apply phase_cstr_at|done|].
    intros name ? [Hn ->]. eapply (phase_bind m (owner_result a) _ (fun r l => l = [(Getpwnam name, r)]));
      [by apply phase_os|done|].
    intros [e|x y] ? ->; [by apply phase_return|].
    destruct (_ && (a_group_str_len a =? 1)) eqn:Hg; apply phase_ret; exists name, x, y; done.
  - intros [uid gid0] lu Hu.
    eapply (phase_bind m (fun r l => owner_result a r (lu ++ l)) _ (fun gid lg =>
      if (gid0 =? 0) && (1 <? a_group_str_len a) then
       exists name gr_gid x, points_to m (a_group_str a) name /\
         lg = [(Getgrnam name, Ok gr_gid x)] /\ gid = uid_t gr_gid
      else lg = [] /\ gid = gid0)); [|done|].
    + destruct (_ && (1 <? a_group_str_len a)); [|by apply phase_ret].
      eapply (phase_bind m (fun r l => owner_result a r (lu ++ l)) _
        (fun name l => points_to m (a_group_str a) name /\ l = []));
        [by apply phase_cstr_at|done|].
      intros name ? [Hn ->].
      eapply (phase_bind m (fun r l => owner_result a r (lu ++ l)) _ (fun r l => l = [(Getgrnam name, r)]));
        [by apply phase_os|done|].
      intros [e|x y] ? ->; [by apply phase_return|]. apply phase_ret. by exists name, x, y.
    + intros gid lg Hg. apply phase_return. intros _. exists gid0, lu, lg.
      by rewrite app_nil_r.
Qed.

Lemma phase_change_root a : phase m exits (fun _ => root_changed a) (change_root a).
Proof.
  unfold change_root, root_changed. destruct (_ <? _); [|by apply phase_ret].
  eapply (phase_bind m exits exits (fun d l => points_to m (a_chroot_directory a) d /\ l = []));
    [by apply phase_cstr_at|done|]. intros d ? [Hd ->].
  eapply phase_bind; [by apply phase_os_or_exit|done|]. intros _ ? (x & y & ->).
  destruct (_ =? _).
  - eapply phase_bind; [by apply phase_os_or_exit|done|]. intros _ ? (x' & y' & ->).
    apply phase_ret. exists d, [(Chdir (chars "/"), Ok x' y')], x, y.
    split; [done|]. split; [done|]. by exists x', y'.
  - apply phase_ret. by exists d, [], x, y.
Qed.

Lemma phase_change_nice n :
  phase m exits (fun _ => when (negb (n =? 0)) (Nice n)) (change_nice n).
Proof.
  unfold change_nice, when. destruct (negb _); [|by apply phase_ret].
  eapply phase_bind; [by apply phase_os_or_exit|done|]. intros _ ? (x & y & ->).
  apply phase_ret. by exists x, y.
Qed.

Lemma phase_change_directory a :
  phase m exits (fun _ => directory_changed a) (change_directory a).
Proof.
  unfold change_directory, directory_changed. destruct (_ <? _); [|by apply phase_ret].
  eapply (phase_bind m exits exits (fun d l => points_to m (a_directory a) d /\ l = []));
    [by apply phase_cstr_at|done|]. intros d ? [Hd ->].
  eapply phase_bind; [by apply phase_os_or_exit|done|]. intros _ ? (x & y & ->).
  apply phase_ret. exists d. split; [done|]. by exists x, y.
Qed.

Definition owner_set_result (uid gid : Z) (result : Z) (l : list event) : Prop :=
  result = 0 -> owner_changed uid gid l.

Lemma phase_set_id {A} (ρ : Z -> list event -> Prop) (b : bool) c (k : unit -> C (port gepd) Z A) S :
  plain c -> (forall l, ρ (-1) l) ->
  (forall l, when b c l -> phase m (fun r l' => ρ r (l ++ l')) (fun a l' => S a (l ++ l')) (k tt)) ->
  phase m ρ S (cbind (if b then
     let* a := os c in
     match a with Failed _ => creturn (-1) | Ok _ _ => cret tt end
   else cret tt) k).
Proof.
  intros Hc Hρ Hk. eapply (phase_bind m ρ ρ (fun _ => when b c)); [|done|by intros []].
  destruct b; [|by apply phase_ret].
  eapply (phase_bind m ρ ρ (fun r l => l = [(c, r)])); [apply phase_os|done|].
  - intros a. by apply plain_no_program.
  - done.
  - intros [e|x y] ? ->; [by apply phase_return|]. apply phase_ret. by exists x, y.
Qed.

Lemma phase_owner_set uid gid :
  phase m (owner_set_result (uid_t uid) (uid_t gid)) (owner_set_result (uid_t uid) (uid_t gid))
    (owner_set uid gid).
Proof.
  unfold owner_set. apply phase_set_id; [done|done|]. intros lg Hg.
  apply (phase_set_id (fun r l' => owner_set_result (uid_t uid) (uid_t gid) r (lg ++ l')));
    [done|by intros ? [=]|]. intros lu Hu.
  apply phase_return. intros _. exists lg, lu. by rewrite app_nil_r.
Qed.

(** The limits: whatever the binary holds. *)
Definition limits_result (result : Z) (l : list event) : Prop :=
  result = 0 -> Forall limit_event l.

Lemma phase_type_value v :
  phase m (fun r l => l = []) (fun r l => l = []) (type_value v).
Proof.
  unfold type_value. destruct (_ ≫= _); [by apply phase_return|].
  by apply (phase_bind m (fun _ l => l = []) _ (fun _ _ => False)); [apply phase_assert| |].
Qed.

Lemma phase_uint64_at (ρ : Z -> list event -> Prop) off i :
  phase m ρ (fun (_ : Z) l => l = []) (uint64_at off i).
Proof.
  unfold uint64_at. eapply (phase_bind m ρ ρ (fun _ l => l = [])); [by apply phase_chars_at|done|].
  intros ? ? ->. by apply phase_ret.
Qed.

Lemma phase_maximum_get (ρ : Z -> list event -> Prop) r :
  phase m ρ (fun '(result, _) l => limits_result result l) (rlimit_maximum_get r).
Proof.
  eapply (phase_bind m ρ ρ (fun a l => l = [(Getrlimit r, a)])); [by apply phase_os|done|].
  intros [e|x y] ? ->; apply phase_ret; [by intros ?|by intros _; constructor].
Qed.

Lemma phase_current_get (ρ : Z -> list event -> Prop) r :
  phase m ρ (fun '(result, _) l => limits_result result l) (rlimit_current_get r).
Proof.
  eapply (phase_bind m ρ ρ (fun a l => l = [(Getrlimit r, a)])); [by apply phase_os|done|].
  intros [e|x y] ? ->; apply phase_ret; [by intros ?|by intros _; constructor].
Qed.

Lemma phase_rlimit_element off i :
  phase m limits_result (fun j l => i + 10 <= j /\ Forall limit_event l) (rlimit_element off i).
Proof.
  unfold rlimit_element.
  eapply (phase_bind m limits_result _ (fun _ l => l = [])); [by apply phase_char_at|done|].
  intros type ? ->.
  eapply (phase_bind m limits_result _ (fun _ l => l = [])); [by apply phase_char_at|done|].
  intros format ? ->.
  eapply (phase_bind m limits_result _ (fun _ l => l = []));
    [apply phase_call, phase_type_value|done|].
  intros r ? ->.
  eapply (phase_bind m limits_result _ (fun _ l => l = []));
    [by apply phase_return_if|done|]. intros _ ? ->. cbn [app].
  eapply (phase_bind m limits_result limits_result
    (fun '(result, _, _, j) l => i + 10 <= j /\ limits_result result l)); [|done|].
  - repeat case_match.
    + eapply (phase_bind m limits_result _ (fun _ l => l = [])); [apply phase_uint64_at|done|].
      intros v ? ->. eapply (phase_bind m limits_result _); [apply phase_maximum_get|done|].
      intros [result o] l Hl. apply phase_ret. rewrite app_nil_r. split; [lia|done].
    + eapply (phase_bind m limits_result _ (fun _ l => l = [])); [apply phase_uint64_at|done|].
      intros v ? ->. eapply (phase_bind m limits_result _); [apply phase_current_get|done|].
      intros [result o] l Hl. apply phase_ret. rewrite app_nil_r. split; [lia|done].
    + eapply (phase_bind m limits_result _ (fun _ l => l = [])); [apply phase_uint64_at|done|].
      intros v ? ->. eapply (phase_bind m limits_result _ (fun _ l => l = []));
        [apply phase_uint64_at|done|].
      intros v' ? ->. apply phase_ret. split; [lia|]. intros _. constructor.
    + eapply (phase_bind m limits_result _ (fun _ _ => False)); [by apply phase_assert|done|done].
  - intros [[[result c] x] j] l [Hj Hl].
    eapply (phase_bind m (fun r' l' => limits_result r' (l ++ l')) _
      (fun _ l' => result = 0 /\ l' = [])); [apply phase_return_if|done|].
    { intros Hr. rewrite app_nil_r. exact Hl. }
    { intros Hr. split; [|done]. by apply negb_false_iff, Z.eqb_eq in Hr. }
    intros _ ? [-> ->]. specialize (Hl eq_refl).
    eapply (phase_bind m (fun r' l' => limits_result r' (l ++ l')) _ (fun _ l' => l' = []));
      [by apply phase_opt|done|]. intros cur ? ->.
    eapply (phase_bind m (fun r' l' => limits_result r' (l ++ l')) _ (fun _ l' => l' = []));
      [by apply phase_opt|done|]. intros max ? ->.
    eapply (phase_bind m (fun r' l' => limits_result r' (l ++ l')) _
      (fun a l' => l' = [(Setrlimit r cur max, a)])); [by apply phase_os|done|].
    intros [e|y z] ? ->; [by apply phase_return|]. apply phase_ret. split; [lia|].
    apply Forall_app. split; [done|]. by constructor.
Qed.

Lemma phase_rlimit_loop fuel off len i :
  (Z.to_nat (len - i) <= fuel)%nat ->
  phase m limits_result (fun _ _ => False) (rlimit_loop fuel off len i).
Proof.
  revert i. induction fuel as [|fuel IH]; intros i Hf; cbn [rlimit_loop];
    destruct (Z.ltb_spec i len); try lia;
    try (apply phase_return; intros _; constructor).
  eapply phase_bind; [apply phase_rlimit_element|done|]. intros j l [Hj Hl].
  eapply phase_weaken; [apply IH; lia| |done]. intros r l' H' Hr. apply Forall_app.
  split; [done|by apply H'].
Qed.

Lemma phase_rlimit off len : phase m limits_result (fun _ _ => False) (rlimit off len).
Proof. apply phase_rlimit_loop. lia. Qed.

Lemma phase_limits a :
  phase m (fun r l => r = 0 -> limits_set a l) (fun r l => r = 0 -> limits_set a l)
    (rlimit (a_rlimits a) (a_rlimits_len a)).
Proof.
  intros p Hp. destruct (phase_rlimit (a_rlimits a) (a_rlimits_len a) p Hp) as (l & Hs & Hn & Ho).
  exists l. split; [done|]. split; [done|].
  destruct (rlimit (a_rlimits a) (a_rlimits_len a) p) as [[r|r|e| | |] p'] eqn:He;
    cbn [fst snd] in *; try done.
  intros ->. split; [by apply Ho|]. exists p. by rewrite <- Hs.
Qed.

(** ** The restrictions, in order *)

Lemma phase_exit_if (b : bool) st :
  phase m exits (fun (_ : unit) l => b = false /\ l = []) (creturn_if b (Exited st)).
Proof. apply phase_return_if; [by eexists|done]. Qed.

Lemma owner_looked_up_range a uid gid l :
  owner_looked_up a uid gid l -> uid_t uid = uid /\ uid_t gid = gid.
Proof.
  intros (gid0 & lu & lg & _ & Hu & Hg).
  assert (uid_t uid = uid /\ uid_t gid0 = gid0) as [Huid Hgid0].
  { destruct (_ && (1 <? a_user_str_len a)).
    - destruct Hu as (? & ? & ? & _ & _ & -> & ->). 
      destruct (_ && (a_group_str_len a =? 1)); by rewrite !uid_t_idemp.
    - destruct Hu as (_ & -> & ->). by rewrite !uid_t_idemp. }
  split; [done|]. destruct (_ && (1 <? a_group_str_len a)).
  - destruct Hg as (? & ? & ? & _ & _ & ->). apply uid_t_idemp.
  - by destruct Hg as [_ ->].
Qed.

Lemma phase_restrict L a :
  phase m (fun r l => r = 0 -> L l) (fun r l => r = 0 -> L l)
    (rlimit (a_rlimits a) (a_rlimits_len a)) ->
  phase m exits (fun _ => restricted L a) (restrict a).
Proof.
  intros HL. unfold restrict.
  eapply (phase_bind m exits); [apply phase_call, phase_owner_get|done|].
  intros [[result uid] gid] l1 H1.
  eapply (phase_bind m exits); [apply phase_exit_if|done|]. intros ? ? [Hr ->].
  apply negb_false_iff, Z.eqb_eq in Hr. specialize (H1 Hr).
  eapply (phase_bind m exits); [apply phase_change_root|done|]. intros ? l2 H2.
  eapply (phase_bind m exits); [apply phase_call, HL|done|]. intros result2 l3 H3.
  eapply (phase_bind m exits); [apply phase_exit_if|done|]. intros ? ? [Hr2 ->].
  apply negb_false_iff, Z.eqb_eq in Hr2. specialize (H3 Hr2).
  eapply (phase_bind m exits); [apply phase_change_nice|done|]. intros ? l4 H4.
  eapply (phase_bind m exits); [apply phase_call, phase_owner_set|done|]. intros result5 l5 H5.
  eapply (phase_bind m exits); [apply phase_exit_if|done|]. intros ? ? [Hr5 ->].
  apply negb_false_iff, Z.eqb_eq in Hr5. specialize (H5 Hr5).
  eapply phase_weaken; [apply phase_change_directory|done|]. intros ? l6 H6. cbn [app].
  destruct (owner_looked_up_range _ _ _ _ H1) as [Hu Hg]. rewrite Hu, Hg in H5.
  by exists uid, gid, l1, l2, l3, l4, l5, l6.
Qed.
End restrictions.

(** ** Property *)

Section property.
Context {P : Resources} {E : Ei}.

(** The arguments [execve] is called with are strings of the arguments. *)
Lemma phase_strings_of m array :
  phase m exits (fun _ l => l = []) (strings_of array).
Proof.
  apply (phase_weaken m exits exits (fun _ l => l = []) (fun _ l => l = [])); [|done|done].
  induction array as [|[[off|]|] array IH]; cbn [strings_of].
  - by apply phase_pure.
  - eapply (phase_bind m exits exits (fun _ l => l = [])); [by apply phase_cstr_at|done|].
    intros s ? ->. eapply (phase_bind m exits exits _); [exact IH|done|].
    intros ss ? ->. by apply phase_ret.
  - by apply phase_ret.
  - by apply phase_pure.
Qed.

(** What the trace of a child is, by the way it ended; [L] is what is known of
    the limits it set, [Q] of the program it ran. *)
Definition child_trace (L : list event -> Prop)
    (Q : bytes -> list bytes -> list bytes -> Prop) (m : cells)
    (a : spawn_args) (o : outcome spawn_end Z) (l : list event) : Prop :=
  match o with
  | Return Executed =>
      exists before restrictions filename argv env x y,
        l = before ++ restrictions ++ [(Execve filename argv env, Ok x y)] /\
        Forall no_program before /\
        restricted m L a restrictions /\
        Q filename argv env
  | Return (Returned _) | Next _ | NoFuel => False
  | _ => Forall no_program l
  end.

(** ... and of its last step. *)
Definition execution (Q : bytes -> list bytes -> list bytes -> Prop)
    (o : outcome spawn_end Z) (l : list event) : Prop :=
  match o with
  | Return Executed => exists filename argv env x y,
      l = [(Execve filename argv env, Ok x y)] /\ Q filename argv env
  | Return (Returned _) | Next _ | NoFuel => False
  | _ => Forall no_program l
  end.

Section end_of_child.
Context (L : list event -> Prop) (Q : bytes -> list bytes -> list bytes -> Prop).
Context (m : cells) (a : spawn_args).

Lemma execution_bind {A} (S : A -> Prop) (c : C (port gepd) spawn_end A) k :
  phase m exits (fun x l => S x /\ l = []) c ->
  (forall x, S x -> calls m (execution Q) (k x)) -> calls m (execution Q) (cbind c k).
Proof.
  intros Hc Hk. eapply calls_bind; [exact Hc| |].
  - intros [] l [Hl H]; cbn; try done. by destruct H as [st ->].
  - intros x l [_ [HS ->]]. by apply Hk.
Qed.

(** The strings of an array are those of [S]. *)
Definition strings_are (array : pointers) (S : list bytes -> Prop) : Prop :=
  forall p, m_p (pt_buffer p) = m ->
    match fst (strings_of array p) with Next l => S l | _ => True end.

Lemma phase_strings_are array S :
  strings_are array S -> phase m exits (fun x l => S x /\ l = []) (strings_of array).
Proof.
  intros H p Hp. destruct (phase_strings_of m array p Hp) as (l & Hs & Hn & Ho).
  exists l. split; [done|]. split; [done|]. specialize (H p Hp).
  by destruct (fst _); try split.
Qed.

Lemma calls_execute argv env (S S' : list bytes -> Prop) :
  strings_are argv S -> strings_are env S' ->
  (forall f av ev, points_to m (a_filename a) f -> S av -> S' ev -> Q f av ev) ->
  calls m (execution Q) (execute a argv env).
Proof.
  intros HS HS' HQ. unfold execute. apply (execution_bind (points_to m (a_filename a)));
    [by apply phase_cstr_at|]. intros s Hs.
  apply (execution_bind S); [by apply phase_strings_are|]. intros av Hav.
  apply (execution_bind S'); [by apply phase_strings_are|]. intros ev Hev.
  eapply (calls_bind m (fun o l => exists r, o = Next r /\ l = [(Execve s av ev, r)])).
  - apply calls_os. intros r. by exists r.
  - by intros o l (r & -> & ->).
  - intros [e|x y] l (r & [= <-] & ->); apply calls_pure; try done; intros p Hp; cbn.
    + by constructor.
    + exists s, av, ev, x, y. auto.
Qed.

Lemma child_trace_app o l l' :
  Forall no_program l -> child_trace L Q m a o l' -> child_trace L Q m a o (l ++ l').
Proof.
  intros Hl. destruct o as [z|[st|st|]|e| | |]; cbn; try done; try (by intros; apply Forall_app).
  intros (before & rs & f & av & ev & x & y & -> & Hb & Hr & Hf).
  exists (l ++ before), rs, f, av, ev, x, y. rewrite <- app_assoc. split; [done|].
  split; [by apply Forall_app|done].
Qed.

Lemma child_trace_bind {A} (S : A -> Prop) (c : C (port gepd) spawn_end A) k :
  phase m exits (fun x _ => S x) c -> (forall x, S x -> calls m (child_trace L Q m a) (k x)) ->
  calls m (child_trace L Q m a) (cbind c k).
Proof.
  intros Hc Hk. eapply calls_bind; [exact Hc| |].
  - intros [] l [Hl H]; cbn; try done. by destruct H as [st ->].
  - intros x l [Hl HS]. eapply calls_weaken; [by apply Hk|]. intros o l'. by apply child_trace_app.
Qed.

Lemma child_trace_then {A} (c : C (port gepd) spawn_end A) k :
  phase m exits anything c -> (forall x, calls m (child_trace L Q m a) (k x)) ->
  calls m (child_trace L Q m a) (cbind c k).
Proof.
  intros Hc Hk. apply (child_trace_bind any); [|auto]. eapply phase_weaken; [exact Hc|done|done].
Qed.

Lemma restrict_execute (c : C (port gepd) spawn_end Z) :
  phase m (fun r l => r = 0 -> L l) (fun r l => r = 0 -> L l)
    (rlimit (a_rlimits a) (a_rlimits_len a)) ->
  calls m (execution Q) c -> calls m (child_trace L Q m a) (restrict a;;; c).
Proof.
  intros HL Hc. eapply calls_bind; [by apply phase_restrict| |].
  - intros [] l [Hl H]; cbn; try done. by destruct H as [st ->].
  - intros x l [Hl Hr]. eapply calls_weaken; [exact Hc|]. intros o l' Ho.
    destruct o as [z|[st|st|]|e| | |]; cbn in *; try done; try (by apply Forall_app).
    destruct Ho as (f & av & ev & y & z & -> & Hf). by exists [], l, f, av, ev, y, z.
Qed.

(** The arrays of the command line and the environment are [S] and [S']. *)
Lemma calls_child_arrays (S S' : list bytes -> Prop) domain type h out err :
  phase m (fun r l => r = 0 -> L l) (fun r l => r = 0 -> L l)
    (rlimit (a_rlimits a) (a_rlimits_len a)) ->
  phase m exits (fun array _ => strings_are array S)
    (execve_argv (a_filename a) (a_argv a) (a_argv_len a)) ->
  phase m exits (fun array _ => strings_are array S') (execve_env (a_env a) (a_env_len a)) ->
  (forall f av ev, points_to m (a_filename a) f -> S av -> S' ev -> Q f av ev) ->
  calls m (child_trace L Q m a) (child a domain type h out err).
Proof.
  intros HL HS HS' HQ. unfold child.
  apply child_trace_then; [auto with phase|]. intros nfds.
  apply child_trace_then; [auto with phase|]. intros _.
  apply child_trace_then; [auto with phase|]. intros _.
  apply child_trace_then; [auto with phase|]. intros _.
  apply child_trace_then; [auto with phase|]. intros message.
  apply child_trace_then; [auto with phase|]. intros _.
  apply (child_trace_bind (fun array => strings_are array S)); [done|]. intros argv Hargv.
  apply (child_trace_bind (fun array => strings_are array S')); [done|]. intros env Henv.
  apply restrict_execute; [done|]. by apply (calls_execute _ _ S S').
Qed.
End end_of_child.

Lemma calls_child m a domain type h out err :
  calls m (child_trace (limits_set m a) (fun f _ _ => points_to m (a_filename a) f) m a)
    (child a domain type h out err).
Proof.
  assert (forall array, strings_are m array any) as Hany
    by (intros array p _; by destruct (fst _)).
  apply (calls_child_arrays _ _ _ _ any any); [apply phase_limits| | |done];
    (eapply phase_weaken; [auto with phase|done|by intros]).
Qed.

(** C19. Whatever the operating system answers, a child that runs its program
    has, after all else it did, looked up its owner, changed its root, set the
    limits it was given and its niceness, given up its group and then its user,
    and changed its directory, each exactly when asked and every call a success;
    then it ran the file it was given.  A child that does not run its program
    runs no other one: it exits, or it ends with an exception (a failed
    assertion), waits for ever or is undefined; it never returns into the port's
    loop. *)
Theorem child_restricted a domain type use_header fds_stdout fds_stderr p :
  exists l, snd (child a domain type use_header fds_stdout fds_stderr p) = traced l p /\
    match fst (child a domain type use_header fds_stdout fds_stderr p) with
    | Return Executed =>
        exists before restrictions filename argv env x y,
          l = before ++ restrictions ++ [(Execve filename argv env, Ok x y)] /\
          Forall no_program before /\
          restricted (m_p (pt_buffer p)) (limits_set (m_p (pt_buffer p)) a) a restrictions /\
          points_to (m_p (pt_buffer p)) (a_filename a) filename
    | Return (Returned _) | Next _ | NoFuel => False
    | _ => Forall no_program l
    end.
Proof. by apply calls_child. Qed.
End property.
