(* ===== verification/ChildSetup.v ===== *)
(** * Command line, environment and sockets of a child

    What the child makes of the strings and ports it is given: the arrays for
    [execve] against the Erlang code that joins the strings, and the address
    of a local socket. *)

From S2P Require Import Prelude Text CMonad Status Sys ReallocPtr Framing Instance Ei ExitStatus Marshal Port Posix Owner Rlimit Spawn.

(** ** The Erlang side  (cloudi_core_i_spawn.erl) *)

(** The arguments as [arguments_parse] leaves them: a null between two. *)
Fixpoint arguments_join (args : list bytes) : bytes :=
  match args with
  | [] => []
  | [a] => a
  | a :: args => a ++ NUL :: arguments_join args
  end.

Definition string_terminate (s : bytes) : bytes :=
  match s with [] => [NUL] | _ => s ++ [NUL] end.

(** [environment_format]: each [K=V] with its own null. *)
Definition environment_format (env : list bytes) : bytes :=
  concat ((fun s => s ++ [NUL]) <$> env).

(** ** Strings one after the other *)

Definition terminated : list bytes -> bytes := environment_format.

Lemma terminated_cons s l : terminated (s :: l) = s ++ NUL :: terminated l.
Proof. unfold terminated, environment_format. cbn. by rewrite <- app_assoc. Qed.

Lemma join_terminated args : args <> [] -> arguments_join args ++ [NUL] = terminated args.
Proof.
  induction args as [|a [|a' args] IH]; intros Hne; [done|by rewrite terminated_cons|].
  rewrite terminated_cons, <- IH by done. cbn [arguments_join]. by rewrite <- app_assoc.
Qed.

Lemma string_terminate_join args :
  args <> [] -> head args <> Some [] ->
  string_terminate (arguments_join args) = terminated args.
Proof.
  intros Hne Hh. rewrite <- join_terminated by done. unfold string_terminate.
  destruct (arguments_join args) eqn:E; [|done].
  destruct args as [|[|] [|]]; cbn in *; try done; by destruct (_ ++ _).
Qed.

(** Where each of them starts. *)
Fixpoint offsets (off : Z) (l : list bytes) : list Z :=
  match l with
  | [] => []
  | s :: l => off :: offsets (off + Z.of_nat (length s) + 1) l
  end.

Lemma length_string_offsets off l : length (offsets off l) = length l.
Proof. revert off. induction l as [|s l IH]; intros off; cbn; [done|by rewrite IH]. Qed.

Section strings.
Context {P : Resources} {E : Ei}.
Abbreviation M := (C (port gepd) spawn_end).

(** A step at a character that is, or is not, the null. *)
Lemma count_nulls_step n off i c b p :
  arg (off + i) [b] p ->
  count_nulls (S n) off i c p =
    count_nulls n off (i + 1) (if decide (b = NUL) then c + 1 else c) p.
Proof. intros H. cbn [count_nulls]. by erewrite bind_next by (by apply char_at_here). Qed.

Lemma push_strings_step n off i st b p :
  arg (off + i) [b] p ->
  push_strings (S n) off i st p =
    (let* st := if decide (b = NUL) then push (Some (off + i + 1)) st else cret st in
     push_strings n off (i + 1) st) p.
Proof. intros H. cbn [push_strings]. by erewrite bind_next by (by apply char_at_here). Qed.

Lemma count_nulls_string n s off i c p :
  NUL ∉ s -> arg (off + i) s p ->
  count_nulls (length s + n) off i c p = count_nulls n off (i + Z.of_nat (length s)) c p.
Proof.
  revert i. induction s as [|b s IH]; intros i Hn Ha.
  - cbn. by rewrite Z.add_0_r.
  - apply not_elem_of_cons in Hn as [Hb Hn]. apply arg_cons in Ha as [Hc Ha].
    rewrite <- Z.add_assoc in Ha. cbn [length Nat.add].
    rewrite (count_nulls_step _ _ _ _ b) by done. rewrite decide_False by done.
    rewrite IH by done. f_equal. lia.
Qed.

Lemma push_strings_string n s off i st p :
  NUL ∉ s -> arg (off + i) s p ->
  push_strings (length s + n) off i st p = push_strings n off (i + Z.of_nat (length s)) st p.
Proof.
  revert i. induction s as [|b s IH]; intros i Hn Ha.
  - cbn. by rewrite Z.add_0_r.
  - apply not_elem_of_cons in Hn as [Hb Hn]. apply arg_cons in Ha as [Hc Ha].
    rewrite <- Z.add_assoc in Ha. cbn [length Nat.add].
    rewrite (push_strings_step _ _ _ _ b) by done. rewrite decide_False by done. crun.
    rewrite IH by done. f_equal. lia.
Qed.

Definition no_null (l : list bytes) : Prop := Forall (fun s => NUL ∉ s) l.

Lemma count_nulls_terminated l off i c p :
  no_null l -> arg (off + i) (terminated l) p ->
  count_nulls (length (terminated l)) off i c p = (Next (c + Z.of_nat (length l)), p).
Proof.
  revert i c. induction l as [|s l IH]; intros i c Hn Ha.
  - cbn. by rewrite Z.add_0_r.
  - apply Forall_cons in Hn as [Hs Hn]. rewrite terminated_cons in Ha |- *.
    apply arg_app in Ha as [Ha Hr]. apply arg_cons in Hr as [Hz Hr].
    rewrite <- !Z.add_assoc in Hz, Hr.
    rewrite length_app. cbn [length]. rewrite count_nulls_string by done.
    rewrite (count_nulls_step _ _ _ _ NUL) by done. rewrite decide_True by done.
    rewrite IH by (done || arg_found). do 2 f_equal. cbn. lia.
Qed.

(** An array of pointers filled up to its last [k] elements. *)
Definition filled (l : list (option Z)) (k : nat) : pointers * Z :=
  ((Some <$> l) ++ replicate k None, Z.of_nat (length l)).

Lemma push_filled v l k p : push v (filled l (S k)) p = (Next (filled (l ++ [v]) k), p).
Proof.
  unfold push, filled. rewrite Nat2Z.id.
  rewrite (proj2 (Nat.ltb_lt _ _)) by (rewrite length_app, length_fmap, length_replicate; lia).
  unfold cret. do 2 f_equal. f_equal; [|rewrite length_app; cbn; lia].
  rewrite insert_app_r_alt by (by rewrite length_fmap).
  by rewrite length_fmap, Nat.sub_diag, fmap_app, <- app_assoc.
Qed.

Lemma push_full v l p : push v (filled l 0) p = (Undef, p).
Proof.
  unfold push, filled. rewrite Nat2Z.id.
  by rewrite (proj2 (Nat.ltb_ge _ _)) by (rewrite length_app, length_fmap, length_replicate; lia).
Qed.

(** Every string but the first is pushed. *)
Lemma push_strings_terminated s l off i ptrs k p :
  no_null (s :: l) -> arg (off + i) (terminated (s :: l)) p ->
  push_strings (length (terminated (s :: l)) - 1) off i (filled ptrs (length l + k)) p =
    (Next (filled (ptrs ++ (Some <$> tail (offsets (off + i) (s :: l)))) k), p).
Proof.
  revert s i ptrs. induction l as [|s' l IH]; intros s i ptrs Hn Ha;
    apply Forall_cons in Hn as [Hs Hn]; rewrite terminated_cons in Ha |- *;
    apply arg_app in Ha as [Ha Hr]; rewrite length_app.
  - cbn [length terminated environment_format fmap list_fmap concat offsets tail Nat.add].
    replace (length s + 1 - 1)%nat with (length s + 0)%nat by lia.
    rewrite push_strings_string by done. cbn. by rewrite app_nil_r.
  - apply arg_cons in Hr as [Hz Hr]. rewrite <- !Z.add_assoc in Hz, Hr.
    assert (0 < length (terminated (s' :: l)))%nat
      by (rewrite terminated_cons, length_app; cbn; lia).
    cbn [length]. replace (length s + S (length (terminated (s' :: l))) - 1)%nat
      with (length s + S (length (terminated (s' :: l)) - 1))%nat by lia.
    rewrite push_strings_string by done.
    rewrite (push_strings_step _ _ _ _ NUL) by done. rewrite decide_True by done.
    cbn [Nat.add]. erewrite bind_next by apply push_filled. cbv beta.
    rewrite IH by (done || arg_found). do 3 f_equal.
    rewrite <- app_assoc. f_equal. cbn [offsets tail fmap list_fmap app].
    f_equal; [f_equal; lia|]. do 3 f_equal; lia.
Qed.

Lemma strings_of_offsets l off rest ss p :
  no_null l -> arg off (terminated l) p ->
  strings_of rest p = (Next ss, p) ->
  strings_of ((Some <$> (Some <$> offsets off l)) ++ rest) p = (Next (l ++ ss), p).
Proof.
  revert off. induction l as [|s l IH]; intros off Hn Ha Hr; [done|].
  apply Forall_cons in Hn as [Hs Hn]. rewrite terminated_cons in Ha.
  apply (arg_app off s (NUL :: terminated l)) in Ha as Ha'. destruct Ha' as [_ Ha'].
  apply arg_cons in Ha' as [_ Ha'].
  change (s ++ NUL :: terminated l) with (s ++ [NUL] ++ terminated l) in Ha.
  rewrite app_assoc in Ha. apply arg_app in Ha as [Ha _].
  cbn [offsets fmap list_fmap app strings_of].
  erewrite bind_next by (by apply cstr_at_ok). cbv beta.
  by erewrite bind_next by (by apply IH).
Qed.
End strings.

(** ** The arrays *)

Section arrays.
Context {P : Resources} {E : Ei}.

(** The last character, which both arrays assert to be the null. *)
Lemma last_null l off p :
  l <> [] -> Z.of_nat (length (terminated l)) < 2 ^ 32 -> arg off (terminated l) p ->
  char_at (R := spawn_end) off (wrap32 (Z.of_nat (length (terminated l)) - 1)) p = (Next NUL, p).
Proof.
  intros Hne Hlen Ha. rewrite <- join_terminated in Hlen, Ha |- * by done.
  rewrite length_app in Hlen |- *. cbn [length] in *.
  rewrite wrap32_small by lia. apply (char_at_ok _ (arguments_join l ++ [NUL])); [done|lia|].
  replace (Z.to_nat _) with (length (arguments_join l) + 0)%nat by lia.
  by rewrite lookup_app_r, Nat.add_0_r, Nat.sub_diag by lia.
Qed.

(** From the second character on, the nulls are those of as many strings, when
    the first one is not empty, and one less otherwise. *)
Lemma count_nulls_args l off c p :
  l <> [] -> no_null l -> arg off (terminated l) p ->
  count_nulls (length (terminated l) - 1) off 1 c p =
    (Next (c + Z.of_nat (length l) - if decide (head l = Some []) then 1 else 0), p).
Proof.
  intros Hne Hn Ha. destruct l as [|s l]; [done|].
  apply Forall_cons in Hn as [Hs Hn]. rewrite terminated_cons in Ha |- *.
  destruct s as [|b s].
  - rewrite decide_True by done. cbn [app length]. rewrite Nat.sub_succ, Nat.sub_0_r.
    apply arg_cons in Ha as [_ Ha]. rewrite count_nulls_terminated by done.
    do 2 f_equal. lia.
  - rewrite decide_False by done. change ((b :: s) ++ NUL :: terminated l) with
      (b :: (s ++ NUL :: terminated l)) in *. rewrite <- terminated_cons in *.
    apply arg_cons in Ha as [_ Ha]. cbn [length]. rewrite Nat.sub_succ, Nat.sub_0_r.
    apply not_elem_of_cons in Hs as [_ Hs].
    rewrite count_nulls_terminated by (done || by apply Forall_cons).
    do 2 f_equal. cbn [length]. lia.
Qed.

(** The array of the strings [l], after the pointers [ptrs]. *)
Definition array_of (ptrs : list Z) (off : Z) (l : list bytes) : pointers :=
  (Some <$> (Some <$> (ptrs ++ offsets off l))) ++ [Some None].

Lemma push_all ptrs s l off p :
  no_null (s :: l) -> Z.of_nat (length (terminated (s :: l))) < 2 ^ 32 ->
  arg off (terminated (s :: l)) p ->
  (let* st := push_strings
     (Z.to_nat (wrap32 (Z.of_nat (length (terminated (s :: l))) - 1))) off 0
     (filled ((Some <$> ptrs) ++ [Some off]) (length l + 1)) in
   let* (array, index) := push None st in
   cassert (index =? Z.of_nat (length ptrs + length l + 2));;;
   cret array) p = (Next (array_of ptrs off (s :: l)), p).
Proof.
  intros Hn Hlen Ha. assert (0 < length (terminated (s :: l)))%nat
    by (rewrite terminated_cons, length_app; cbn; lia).
  rewrite wrap32_small by lia.
  replace (Z.to_nat _) with (length (terminated (s :: l)) - 1)%nat by lia.
  erewrite bind_next by (apply push_strings_terminated; [done|by rewrite Z.add_0_r]). cbv beta.
  erewrite bind_next by apply push_filled. cbv beta. unfold filled. cbv beta iota.
  rewrite (proj2 (Z.eqb_eq _ _)); cycle 1.
  { cbn [offsets tail]. rewrite !length_app, !length_fmap, length_string_offsets. cbn. lia. }
  cbn [cassert]. erewrite bind_next by reflexivity. unfold cret. do 2 f_equal.
  unfold array_of. rewrite Z.add_0_r. cbn [replicate offsets tail].
  by rewrite !fmap_app, app_nil_r, <- !app_assoc.
Qed.
End arrays.

(** ** Properties *)

Section properties.
Context {P : Resources} {E : Ei}.

(** The command line: the array the child builds from the string the
    Erlang side joins is the file name and then the arguments, as the kernel
    reads it; without arguments it is the file name alone. *)
Theorem execve_argv_arguments args filename file argv p
    (Hn : no_null args) (Hh : head args <> Some [])
    (Hlen : Z.of_nat (length (string_terminate (arguments_join args))) < 2 ^ 32)
    (Hargv : arg argv (string_terminate (arguments_join args)) p)
    (Hfile : NUL ∉ file) (Hfilename : arg filename (file ++ [NUL]) p) :
  exists array,
    execve_argv filename argv (Z.of_nat (length (string_terminate (arguments_join args)))) p =
      (Next array, p) /\
    strings_of array p = (Next (file :: args), p).
Proof.
  assert (forall l ss, strings_of l p = (Next ss, p) ->
    strings_of (Some (Some filename) :: l) p = (Next (file :: ss), p)) as Hcons.
  { intros l ss Hl. cbn [strings_of]. erewrite bind_next by (by apply cstr_at_ok). cbv beta.
    by erewrite bind_next by exact Hl. }
  destruct (decide (args = [])) as [->|Hne].
  { exists [Some (Some filename); Some None]. split; [|by apply Hcons].
    unfold execve_argv. cbn in Hargv |- *.
    change (wrap32 0) with 0.
    by erewrite bind_next by (by apply (char_at_ok NUL [NUL] 0)). }
  rewrite string_terminate_join in Hlen, Hargv |- * by done.
  exists (array_of [filename] argv args). split; cycle 1.
  { cbn [array_of app fmap list_fmap]. apply Hcons.
    rewrite <- (app_nil_r args) at 2. by apply strings_of_offsets. }
  unfold execve_argv. erewrite bind_next by (by apply last_null). cbv beta.
  rewrite bool_decide_true by done. erewrite bind_next by reflexivity. cbv beta.
  replace (Z.to_nat (_ - 1)) with (length (terminated args) - 1)%nat by lia.
  erewrite bind_next by (by apply count_nulls_args). cbv beta.
  rewrite decide_False by done. rewrite Z.sub_0_r.
  destruct args as [|s l]; [done|]. cbn [length].
  replace (Z.to_nat (2 + _)) with (S (S (length l + 1))) by lia.
  erewrite bind_next by (apply (push_filled _ [])). cbv beta.
  rewrite (proj2 (Z.eqb_neq _ _)) by lia.
  erewrite bind_next by apply push_filled. cbv beta.
  replace (2 + Z.of_nat (S (length l))) with (Z.of_nat (length [filename] + length l + 2))
    by (cbn; lia).
  by apply (push_all [filename]).
Qed.

(** The same for the environment, when there is one. *)
Theorem execve_env_environment vars env p
    (Hne : vars <> []) (Hn : no_null vars) (Hh : head vars <> Some [])
    (Hlen : Z.of_nat (length (environment_format vars)) < 2 ^ 32)
    (Henv : arg env (environment_format vars) p) :
  exists array,
    execve_env env (Z.of_nat (length (environment_format vars))) p = (Next array, p) /\
    strings_of array p = (Next vars, p).
Proof.
  change environment_format with terminated in *.
  exists (array_of [] env vars). split; cycle 1.
  { rewrite <- (app_nil_r vars) at 2. by apply strings_of_offsets. }
  unfold execve_env. erewrite bind_next by (by apply last_null). cbv beta.
  rewrite bool_decide_true by done. erewrite bind_next by reflexivity. cbv beta.
  replace (Z.to_nat (_ - 1)) with (length (terminated vars) - 1)%nat by lia.
  erewrite bind_next by (by apply count_nulls_args). cbv beta.
  rewrite decide_False by done. rewrite Z.sub_0_r.
  destruct vars as [|s l]; [done|]. cbn [length].
  rewrite (proj2 (Z.eqb_neq _ _)) by lia.
  replace (Z.to_nat (1 + _)) with (S (length l + 1)) by lia.
  erewrite bind_next by (apply (push_filled _ [])). cbv beta.
  replace (1 + Z.of_nat (S (length l))) with (Z.of_nat (length (@nil Z) + length l + 2))
    by (cbn; lia).
  by apply (push_all []).
Qed.

(** An empty first argument, followed by others, is not counted but is
    stored: the null pointer at the end is written outside of the array. *)
Theorem execve_argv_empty_first args filename argv p
    (Hargs : args <> []) (Hn : no_null args)
    (Hlen : Z.of_nat (length (string_terminate (arguments_join ([] :: args)))) < 2 ^ 32)
    (Hargv : arg argv (string_terminate (arguments_join ([] :: args))) p) :
  execve_argv filename argv
    (Z.of_nat (length (string_terminate (arguments_join ([] :: args))))) p = (Undef, p).
Proof.
  assert (string_terminate (arguments_join ([] :: args)) = terminated ([] :: args)) as Ht.
  { rewrite <- join_terminated by done. by destruct args. }
  rewrite Ht in Hlen, Hargv |- *. clear Ht.
  assert (no_null ([] :: args)) as Hn' by (apply Forall_cons; split; [apply not_elem_of_nil|done]).
  unfold execve_argv. erewrite bind_next by (by apply last_null). cbv beta.
  rewrite bool_decide_true by done. erewrite bind_next by reflexivity. cbv beta.
  replace (Z.to_nat (_ - 1)) with (length (terminated ([] :: args)) - 1)%nat by lia.
  erewrite bind_next by (by apply count_nulls_args). cbv beta.
  rewrite decide_True by done.
  destruct args as [|s l]; [done|]. cbn [length].
  replace (Z.to_nat (2 + _ - 1)) with (S (S (length (s :: l) + 0))) by (cbn; lia).
  erewrite bind_next by (apply (push_filled _ [])). cbv beta.
  rewrite (proj2 (Z.eqb_neq _ _)) by lia.
  erewrite bind_next by apply push_filled. cbv beta.
  assert (0 < length (terminated ([] :: s :: l)))%nat
    by (rewrite terminated_cons, length_app; cbn; lia).
  rewrite wrap32_small by lia.
  replace (Z.to_nat _) with (length (terminated ([] :: s :: l)) - 1)%nat by lia.
  erewrite bind_next by (apply push_strings_terminated; [done|by rewrite Z.add_0_r]). cbv beta.
  erewrite bind_undef by apply push_full. done.
Qed.
End properties.

(** ** Local sockets *)

Section sockets.
Context {P : Resources} {E : Ei}.

(** The 16 characters of [port_str] are copied whole, whatever its length. *)
Lemma sun_path_ok s port :
  NUL ∉ s -> Z.of_nat (length s) + 1 <= 94 ->
  sun_path (s ++ [NUL]) (Z.of_nat (length s) + 1) port =
    if Z.of_nat (length s) + 1 =? 94 then None else Some (s ++ decimal (int32 port)).
Proof.
  intros Hs Hlen. unfold sun_path, put_cells.
  rewrite decide_True; cycle 1.
  { unfold sizeof_sun_path. rewrite length_fmap, length_replicate, length_app. cbn. lia. }
  cbn [mbind option_bind]. change (Z.to_nat 0) with 0%nat. rewrite !take_0. cbn [app Nat.add].
  pose proof (length_decimal (int32 port)) as Hd.
  set (d := decimal (int32 port)) in *.
  assert (length ((Some <$> d ++ [NUL]) ++ replicate (16 - length (d ++ [NUL])) None)
    = 16%nat) as H16.
  { rewrite length_app, length_fmap, length_replicate, length_app. cbn. lia. }
  rewrite Z.add_simpl_r, wrap32_small, Nat2Z.id by lia. rewrite H16.
  rewrite (length_app (Some <$> s ++ [NUL])), length_fmap, length_drop, length_replicate, length_app.
  cbn [length]. unfold sizeof_sun_path.
  destruct (Z.eqb_spec (Z.of_nat (length s) + 1) 94) as [H|H].
  { by rewrite decide_False by lia. }
  rewrite decide_True by lia. cbn [mbind option_bind].
  rewrite fmap_app, <- !app_assoc, take_app_length' by (by rewrite length_fmap).
  rewrite (fmap_app Some d). cbn [fmap list_fmap]. rewrite <- !app_assoc. cbn [app].
  rewrite (app_assoc (Some <$> s)), <- fmap_app. apply cstr_of_app.
  apply not_elem_of_app. split; [done|]. apply decimal_no_null.
Qed.

(** The address of a local socket is the path with the port's number at
    its end.  A path of 94 characters with its terminator passes the
    assertion that is to protect [sun_path], but the number is then written
    past its end. *)
Theorem connect_socket_local a sockfd i s port p
    (Hs : NUL ∉ s) (Hlen : a_socket_path_len a = Z.of_nat (length s) + 1)
    (Hpath : arg (a_socket_path a) (s ++ [NUL]) p)
    (Hport : 0 <= port < 2 ^ 32) (Hports : arg (a_ports a + 4 * i) (u32 port) p) :
  connect_socket a PF_LOCAL sockfd i p =
    if 94 <? a_socket_path_len a then (Throw assert_exception, p)
    else if a_socket_path_len a =? 94 then (Undef, p)
    else (os_or_exit (Connect_un sockfd (s ++ decimal (int32 port))) errno_connect;;; cret tt) p.
Proof.
  unfold connect_socket. erewrite bind_next by (by apply uint32_at_ok). cbv beta.
  change (PF_LOCAL =? PF_INET) with false. change (PF_LOCAL =? PF_LOCAL) with true. cbv iota.
  change (104 - 10) with 94.
  destruct (Z.ltb_spec 94 (a_socket_path_len a)) as [H|H].
  { rewrite (proj2 (Z.leb_gt _ _)) by lia. by erewrite bind_throw by reflexivity. }
  rewrite (proj2 (Z.leb_le _ _)) by lia. erewrite bind_next by reflexivity. cbv beta.
  rewrite Hlen in *. replace (Z.of_nat (length s) + 1) with (Z.of_nat (length (s ++ [NUL])))
    by (rewrite length_app; cbn; lia).
  erewrite bind_next by (by apply chars_at_ok). cbv beta.
  replace (Z.of_nat (length (s ++ [NUL]))) with (Z.of_nat (length s) + 1)
    by (rewrite length_app; cbn; lia).
  rewrite sun_path_ok by done. by destruct (_ =? 94).
Qed.
End sockets.

(** ** Examples *)

Definition example_arguments : bytes :=
  string_terminate (arguments_join [chars "-v"; []; chars "x"]) ++ chars "/bin/ls" ++ [NUL].

Lemma execve_argv_arguments_witness :
  let p := example_port_with example_arguments in
  exists array,
    execve_argv 6 0 6 p = (Next array, p) /\
    strings_of array p = (Next [chars "/bin/ls"; chars "-v"; []; chars "x"], p).
Proof.
  apply (execve_argv_arguments [chars "-v"; []; chars "x"] 6 (chars "/bin/ls") 0).
  - repeat constructor; apply (bool_decide_unpack _); vm_compute; exact Logic.I.
  - done.
  - vm_compute. done.
  - split; [done|]. vm_compute. done.
  - apply (bool_decide_unpack _). vm_compute. exact Logic.I.
  - split; [done|]. vm_compute. done.
Defined.

Lemma execve_env_environment_witness :
  let p := example_port_with (environment_format [chars "A=1"; chars "B=2"]) in
  exists array,
    execve_env 0 8 p = (Next array, p) /\
    strings_of array p = (Next [chars "A=1"; chars "B=2"], p).
Proof.
  apply (execve_env_environment [chars "A=1"; chars "B=2"] 0).
  - done.
  - repeat constructor; apply (bool_decide_unpack _); vm_compute; exact Logic.I.
  - done.
  - vm_compute. done.
  - split; [done|]. vm_compute. done.
Defined.

Lemma execve_argv_empty_first_witness :
  let p := example_port_with (string_terminate (arguments_join [[]; chars "x"])) in
  execve_argv 0 0 3 p = (Undef, p).
Proof.
  apply (execve_argv_empty_first [chars "x"] 0 0).
  - done.
  - repeat constructor; apply (bool_decide_unpack _); vm_compute; exact Logic.I.
  - vm_compute. done.
  - split; [done|]. vm_compute. done.
Defined.

(** A path of [n] characters at index 4, after the port 5001. *)
Definition example_local (n : nat) : spawn_args :=
  mk_spawn_args 108 4 (Z.of_nat n + 1) 0 1 0 0 0 0 1 0 0 1 0 0 1 0 1 0 1 0 1 0 1.
Definition example_path (n : nat) : port gepd :=
  example_port_with (u32 5001 ++ replicate n Init.Byte.x61 ++ [NUL]).

Lemma connect_socket_local_witness :
  fst (connect_socket (example_local 10) PF_LOCAL 3 0 (example_path 10)) = Next tt /\
  gp_trace (pt_user (snd (connect_socket (example_local 10) PF_LOCAL 3 0 (example_path 10)))) =
    [(Connect_un 3 (chars "aaaaaaaaaa5001"), Ok 11 22)] /\
  connect_socket (example_local 93) PF_LOCAL 3 0 (example_path 93) = (Undef, example_path 93).
Proof.
  assert (forall n, bool_decide (NUL ∉ replicate n Init.Byte.x61) = true ->
    connect_socket (example_local n) PF_LOCAL 3 0 (example_path n) =
    if 94 <? Z.of_nat n + 1 then (Throw assert_exception, example_path n)
    else if Z.of_nat n + 1 =? 94 then (Undef, example_path n)
    else (os_or_exit (Connect_un 3 (replicate n Init.Byte.x61 ++ decimal (int32 5001)))
            errno_connect;;; cret tt) (example_path n)) as H.
  { intros n Hn. apply bool_decide_eq_true_1 in Hn.
    apply (connect_socket_local (example_local n) 3 0 (replicate n Init.Byte.x61) 5001).
    - exact Hn.
    - cbn. by rewrite length_replicate.
    - split; [done|]. unfold example_path, example_port_with, holds. cbn [m_p pt_buffer].
      cbn [a_socket_path example_local]. rewrite fmap_app, drop_app_length' by done.
      apply take_ge. by rewrite length_fmap.
    - done.
    - split; [done|]. done. }
  rewrite !H by (vm_compute; done). vm_compute. done.
Defined.
