(* ===== verification/Process.v ===== *)
(** * The port's processes and its main loop  (cloudi_os_spawn.cpp, port.cpp)

    The poll set [GEPD::fds] and the vector of processes: the two pipes of the
    port itself and the pipe from Erlang come first, then two pipes for each
    process.  A process whose pipe hangs up is taken out of both. *)

From S2P Require Import Prelude CMonad Status Sys ReallocPtr Framing Instance Ei ExitStatus Marshal Port Stream Posix Owner Rlimit Spawn.

Definition INDEX_STDOUT : Z := 0.
Definition INDEX_STDERR : Z := 1.
Definition INDEX_ERLANG : Z := 2.
Definition PORT_READ_FILE_DESCRIPTOR : Z := 3.

(** <sys/wait.h> *)
Definition WIFEXITED (status : Z) : bool := Z.land status 0x7f =? 0.
Definition WEXITSTATUS (status : Z) : Z := Z.land (Z.shiftr status 8) 0xff.
Definition WTERMSIG (status : Z) : Z := Z.land status 0x7f.
Definition WIFSIGNALED (status : Z) : bool :=
  negb (WTERMSIG status =? 0) && negb (WTERMSIG status =? 0x7f).

Section process.
Context {P : Resources} {E : Ei}.
Abbreviation M := (C (port gepd)).

(** ** Streams of the poll set *)

(** A call of [consume_stream] or [flush_stream] for [fds[index]], with the
    buffer and the index of its stream; [keep] when [revents] is passed by
    reference. *)
Definition on_stream {R} (keep : bool) (index : Z) (b : buffer_t) (i : Z)
    (f : C (port_stream gepd) Z Z) : M R (Z * buffer_t * Z) :=
  let* fd := fds_at index in
  let* g := creads pt_user in
  let* st := (fun p =>
    let '(o, s) := call (R := R) f
      (mk_port_stream p (mk_stream (gp_pipe g (pf_fd fd)) (pf_revents fd) b i)) in
    (match o with
     | Next z => Next (z, ps_stream s)
     | Return r => Return r
     | Throw e => Throw e
     | Undef => Undef
     | Blocked => Blocked
     | NoFuel => NoFuel
     end, ps_port s)) in
  let '(status, st) := st in
  update (set_pipe (pf_fd fd) (st_sys st));;;
  (if keep then fds_set index (mk_pollfd (pf_fd fd) (pf_events fd) (st_revents st))
   else cret tt);;;
  cret (status, st_buffer st, st_i st).

(** ** class process_data *)

Definition set_stream1 (b : buffer_t) (i : Z) (d : process_data) : process_data :=
  mk_process_data (m_pid d) (m_index_stdout d) (m_index_stderr d) i (m_index_stream2 d)
    b (m_stream2 d).
Definition set_stream2 (b : buffer_t) (i : Z) (d : process_data) : process_data :=
  mk_process_data (m_pid d) (m_index_stdout d) (m_index_stderr d) (m_index_stream1 d) i
    (m_stream1 d) b.
Definition set_indices (out err : Z) (d : process_data) : process_data :=
  mk_process_data (m_pid d) out err (m_index_stream1 d) (m_index_stream2 d)
    (m_stream1 d) (m_stream2 d).

(** What a member function leaves behind: the status, [count] and the
    members. *)
Definition polled : Type := Z * Z * process_data.

(** [if (count > 0 && fds[...].revents != 0)] *)
Definition has_revents {R} (count index : Z) : M R bool :=
  if 0 <? count then
    let* f := fds_at index in cret (negb (pf_revents f =? 0))
  else cret false.

(** [check] with [consume_stream], [flush] with [flush_stream]. *)
Definition poll_streams (keep : bool)
    (f : bytes -> Z -> C (port_stream gepd) Z Z) (count : Z) (d : process_data) :
    M polled polled :=
  let* ready := has_revents count (m_index_stderr d) in
  let* (count, d) :=
    (if ready then
       let* (status, b, i) := on_stream keep (m_index_stderr d) (m_stream2 d)
         (m_index_stream2 d) (f (chars "stderr") (m_pid d)) in
       let d := set_stream2 b i d in
       creturn_if (negb (status =? 0)) (status, count, d);;;
       cret (count - 1, d)
     else cret (count, d)) in
  let* ready := has_revents count (m_index_stdout d) in
  let* (count, d) :=
    (if ready then
       let* (status, b, i) := on_stream keep (m_index_stdout d) (m_stream1 d)
         (m_index_stream1 d) (f (chars "stdout") (m_pid d)) in
       let d := set_stream1 b i d in
       creturn_if (negb (status =? 0)) (status, count, d);;;
       cret (count - 1, d)
     else cret (count, d)) in
  creturn (0, count, d).

Definition check : Z -> process_data -> M polled polled := poll_streams true consume_stream.
Definition flush : Z -> process_data -> M polled polled := poll_streams false flush_stream.

(** [close]: the results are ignored. *)
Definition close {R} (d : process_data) : M R unit :=
  let* f := fds_at (m_index_stdout d) in
  os (Close (pf_fd f));;;
  let* f := fds_at (m_index_stderr d) in
  os (Close (pf_fd f));;;
  cret tt.

Definition shift {R} (d : process_data) : M R process_data :=
  let old_index_stdout := m_index_stdout d in
  let old_index_stderr := m_index_stderr d in
  let d := set_indices (m_index_stdout d - 2) (m_index_stderr d - 2) d in
  let* f := fds_at old_index_stdout in
  fds_set (m_index_stdout d) f;;;
  let* f := fds_at old_index_stderr in
  fds_set (m_index_stderr d) f;;;
  cret d.

(** [~process_data]: the process is killed and waited for. *)
Definition destroy {R} (d : process_data) : M R unit :=
  let* nfds := global gp_nfds in
  update (set_nfds (nfds - 2));;;
  os (Kill (m_pid d) 9);;;
  let* a := os (Waitpid (m_pid d)) in
  let '(pid, status) := match a with Failed _ => (-1, 0) | Ok s pid => (pid, s) end in
  cassert (pid =? m_pid d);;;
  let* status :=
    (if WIFEXITED status then cret (WEXITSTATUS status)
     else if WIFSIGNALED status then cret (WTERMSIG status + 128)
     else cassert false;;; cret status) in
  if negb (status =? 0) then
    let* cerr := global gp_cerr in
    update (set_cerr (cerr ++ [(m_pid d,
      match spawn_status.string status with Some s => inl s | None => inr status end)]))
  else cret tt.

(** ** The vector of processes *)

(** [for (++itr; itr != processes.end(); ++itr) (\*itr)->shift();] *)
Fixpoint shift_all {R} (l : list process_data) : M R (list process_data) :=
  match l with
  | [] => cret []
  | d :: l =>
      let* d := shift d in
      let* l := shift_all l in
      cret (d :: l)
  end.

(** The process [d], with [before] and [after] it, hung up: its pipes are
    closed, the ones after it move down, and [erase] deletes it. *)
Definition remove {R} (before : list process_data) (d : process_data)
    (after : list process_data) : M R (list process_data) :=
  close d;;;
  let* after := shift_all after in
  update (set_processes (before ++ after));;;
  destroy d;;;
  cret after.

(** The loop over the processes; [before] are the ones it has passed.  It
    yields [count], or returns from [main] with a status. *)
Fixpoint check_processes (before after : list process_data) (fuel : nat) (count : Z) :
    M Z unit :=
  match fuel, after with
  | O, _ :: _ => cnofuel
  | _, [] => cret tt
  | S fuel, d :: after =>
      if 0 <? count then
        let* (status, count, d) := call (check count d) in
        update (set_processes (before ++ d :: after));;;
        if negb (status =? 0) then
          creturn_if (negb (status =? GEPD.error_HUP)) status;;;
          let* (status, count, d) := call (flush count d) in
          update (set_processes (before ++ d :: after));;;
          creturn_if (negb (status =? 0)) status;;;
          let* after := remove before d after in
          check_processes before after fuel count
        else check_processes (before ++ [d]) after fuel count
      else cret tt
  end.

(** ** GEPD::init and GEPD::wait *)

Definition store_standard_fd (n : Z) : M Z (Z * Z) :=
  let* a := os Pipe in
  match a with
  | Failed e => creturn (GEPD.errno_pipe e : Z)
  | Ok out in_ =>
      let* a := os (Dup2 in_ n) in
      match a with
      | Failed e => creturn (GEPD.errno_dup e : Z)
      | Ok _ _ =>
          let* a := os (Close in_) in
          match a with
          | Failed e => creturn (GEPD.errno_close e : Z)
          | Ok _ _ => cret (out, in_)
          end
      end
  end.

Definition init : M Z Z :=
  let* nfds := global gp_nfds in
  (if 0 <? nfds then
     let* g := creads pt_user in
     let* (_, fds) := copt (move sizeof_pollfd (gp_realloc g) 0 nfds 3 (gp_fds g)) in
     update (set_fds fds)
   else cret tt);;;
  let* (out, _) := store_standard_fd 1 in
  fds_set INDEX_STDOUT (watch out);;;
  let* (out, _) := store_standard_fd 2 in
  fds_set INDEX_STDERR (watch out);;;
  fds_set INDEX_ERLANG (watch PORT_READ_FILE_DESCRIPTOR);;;
  update (set_nfds (nfds + 3));;;
  creturn (GEPD.success : Z).

(** The [revents] the kernel stores in the first [nfds] elements. *)
Definition store_revents (fds : list (option pollfd)) (revents : list Z) :
    list (option pollfd) :=
  zip_with (fun f r => (fun f => mk_pollfd (pf_fd f) (pf_events f) r) <$> f)
    (take (length revents) fds) revents ++ drop (length revents) fds.

(** [poll(fds.get(), nfds, -1)]: how many descriptors are ready, or -1. *)
Definition poll_all {R} : M R (errno + Z) :=
  let* g := creads pt_user in
  match gp_polls g with
  | [] => cblocked
  | inl e :: rest => update (set_gp_polls rest);;; cret (inl e)
  | inr revents :: rest =>
      let revents := take (Z.to_nat (gp_nfds g)) revents in
      let count := length (filter (fun r => r <> 0) revents) in
      if (count =? 0)%nat then cblocked
      else
        update (fun g => set_gp_polls rest
          (set_fds (set_cells (gp_fds g) (store_revents (m_p (gp_fds g)) revents)) g));;;
        cret (inr (Z.of_nat count))
  end.

(** The buffers of [main] and the static indices of [wait], for the port's own
    stdout and stderr. *)
Record main_streams : Type := mk_main_streams {
  ms_stream1 : buffer_t; ms_index_stream1 : Z;
  ms_stream2 : buffer_t; ms_index_stream2 : Z
}.

(** One of the three descriptors of the port: consumed when it is ready. *)
Definition wait_stream (pid count index : Z) (name : bytes) (b : buffer_t) (i : Z) :
    M Z (Z * buffer_t * Z) :=
  let* ready := has_revents count index in
  if ready then
    let* (status, b, i) := on_stream true index b i (consume_stream name pid) in
    creturn_if (negb (status =? 0)) status;;;
    cret (count - 1, b, i)
  else cret (count, b, i).

Definition wait_erlang (functions : list (port_function gepd)) (count : Z) : M Z Z :=
  let* ready := has_revents count INDEX_ERLANG in
  if ready then
    let* f := fds_at INDEX_ERLANG in
    (if has (pf_revents f) POLLERR || has (pf_revents f) POLLHUP || has (pf_revents f) POLLNVAL
     then cret tt
     else fds_set INDEX_ERLANG (mk_pollfd (pf_fd f) (pf_events f) 0));;;
    let* status := call (consume_erlang functions (pf_revents f)) in
    creturn_if (negb (status =? 0)) status;;;
    cret (count - 1)
  else cret count.

(** [wait], for one round of its loop: [inl], the loop goes on; [inr], it is
    ready, with [count]. *)
Definition wait_round (functions : list (port_function gepd)) (pid : Z) (ms : main_streams) :
    M Z (Z * main_streams) :=
  let* count := poll_all in
  match count with
  | inl e => creturn (GEPD.errno_poll e : Z)
  | inr count =>
      let* count := wait_erlang functions count in
      let* (count, b2, i2) := wait_stream pid count INDEX_STDERR (chars "stderr")
        (ms_stream2 ms) (ms_index_stream2 ms) in
      let* (count, b1, i1) := wait_stream pid count INDEX_STDOUT (chars "stdout")
        (ms_stream1 ms) (ms_index_stream1 ms) in
      cret (count, mk_main_streams b1 i1 b2 i2)
  end.

(** The loops of [wait] and of [main]: a round of the one, and when a
    descriptor is left, the one over the processes. *)
Fixpoint main_loop (fuel : nat) (functions : list (port_function gepd)) (pid : Z)
    (ms : main_streams) : M Z Z :=
  match fuel with
  | O => cnofuel
  | S fuel =>
      let* (count, ms) := wait_round functions pid ms in
      (if 0 <? count then
         let* processes := global gp_processes in
         check_processes [] processes (S (length processes)) count
       else cret tt);;;
      main_loop fuel functions pid ms
  end.

(** [spawn] as the port calls it: the table of cloudi_os_spawn_api.h.  A
    process that exits or runs a program does not come back to the port. *)
Definition spawn_types : list type_name :=
  [ t_char; t_pchar_len; t_puint32_len; t_pchar_len; t_uint64_t; t_pchar_len; t_uint64_t;
    t_pchar_len; t_int32_t; t_pchar_len; t_pchar_len; t_pchar_len; t_pchar_len; t_pchar_len ].

Definition spawn_body (args : list arg_value) : M ret_value ret_value :=
  match args with
  | [AInt protocol; APtr socket_path; AInt socket_path_len; APtr ports; AInt ports_len;
     APtr rlimits; AInt rlimits_len; AInt user_i; APtr user_str; AInt user_str_len;
     AInt group_i; APtr group_str; AInt group_str_len; AInt nice;
     APtr chroot_directory; AInt chroot_directory_len; APtr directory; AInt directory_len;
     APtr filename; AInt filename_len; APtr argv; AInt argv_len; APtr env; AInt env_len] =>
      let* r := call (let* _ := spawn (mk_spawn_args protocol socket_path socket_path_len
        ports ports_len rlimits rlimits_len user_i user_str user_str_len group_i group_str
        group_str_len nice chroot_directory chroot_directory_len directory directory_len
        filename filename_len argv argv_len env env_len) in cundef) in
      match r with
      | Returned status => creturn (RInt (sint 4 status))
      | Exited _ | Executed => cblocked
      end
  | _ => cundef
  end.

Definition spawn_function : port_function gepd :=
  mk_function spawn_types ret_int32_t spawn_body.

Definition main (fuel : nat) : M Z Z :=
  cassert (spawn_status.last_value =? GEPD.min);;;
  let* status := call init in
  creturn_if (negb (status =? 0)) status;;;
  let* pid := os Getpid in
  let* pid := copt (match pid with Ok pid _ => Some pid | Failed _ => None end) in
  main_loop fuel [spawn_function] pid
    (mk_main_streams (construct 1 1 16384) 0 (construct 1 1 16384) 0).
End process.
