(* ===== verification/Table.v ===== *)
(** * The table of processes

    What the vector of processes and the poll set are for: a list of
    processes, each with the descriptors of its two pipes.  Spawning adds one
    at the end; a process that hangs up is taken out, wherever it is. *)

From S2P Require Import Prelude CMonad Status Sys ReallocPtr Framing Instance Ei ExitStatus Marshal Port Stream Posix Owner Rlimit Spawn Process.

(** ** Specification *)

Record entry : Type := mk_entry { en_pid : Z; en_stdout : Z; en_stderr : Z }.

(** The descriptor of an element of the poll set. *)
Definition fd_at (fds : realloc_ptr pollfd) (i : Z) : option Z :=
  pf_fd <$> (m_p fds !! Z.to_nat i ≫= id).

(** The processes [ds] have the pipes of [l] from element [i] on. *)
Fixpoint entries_at (fds : realloc_ptr pollfd) (i : Z) (ds : list process_data)
    (l : list entry) : Prop :=
  match ds, l with
  | [], [] => True
  | d :: ds, e :: l =>
      (m_pid d = en_pid e /\ m_index_stdout d = i /\ m_index_stderr d = i + 1 /\
       fd_at fds i = Some (en_stdout e) /\ fd_at fds (i + 1) = Some (en_stderr e)) /\
      entries_at fds (i + 2) ds l
  | _, _ => False
  end.

(** The poll set [g] with the processes [ds] implements the list [l]; the
    first three elements are the port's own. *)
Record table (g : gepd) (ds : list process_data) (l : list entry) : Prop := {
  table_fds : wf (gp_fds g);
  table_small : m_size (gp_fds g) < 2 ^ 62 /\ m_maxSize (gp_fds g) < 2 ^ 61;
  table_own : forall i, 0 <= i < 3 -> exists fd, fd_at (gp_fds g) i = Some fd;
  table_entries : entries_at (gp_fds g) 3 ds l;
  table_nfds : gp_nfds g = 3 + 2 * Z.of_nat (length l);
  table_room : gp_nfds g <= m_size (gp_fds g)
}.

(** ** Lemmas *)

Lemma entries_length fds i ds l : entries_at fds i ds l -> length ds = length l.
Proof.
  revert i l. induction ds as [|d ds IH]; intros i [|e l]; cbn; try done.
  intros [_ H]. by rewrite (IH _ _ H).
Qed.

Lemma entries_ext fds fds' i ds l :
  0 <= i -> entries_at fds i ds l ->
  (forall j, i <= j < i + 2 * Z.of_nat (length l) -> fd_at fds' j = fd_at fds j) ->
  entries_at fds' i ds l.
Proof.
  revert i l. induction ds as [|d ds IH]; intros i [|e l] Hi; cbn [entries_at length]; try done.
  intros ((H1 & H2 & H3 & H4 & H5) & H) Hext.
  rewrite !Hext by lia. split; [done|]. apply IH; [lia|done|]. intros j Hj. apply Hext. lia.
Qed.

Lemma entries_app fds i ds ds' l l' :
  length ds = length l ->
  entries_at fds i (ds ++ ds') (l ++ l') <->
    entries_at fds i ds l /\ entries_at fds (i + 2 * Z.of_nat (length l)) ds' l'.
Proof.
  revert i l. induction ds as [|d ds IH]; intros i [|e l] Hl; cbn in Hl; try lia.
  - cbn. rewrite Z.add_0_r. tauto.
  - cbn [app entries_at length]. rewrite IH by lia.
    replace (i + 2 + 2 * Z.of_nat (length l)) with (i + 2 * Z.of_nat (S (length l))) by lia.
    tauto.
Qed.

Lemma entries_split fds i ds l k :
  entries_at fds i ds l -> (k <= length ds)%nat ->
  entries_at fds i (take k ds) (take k l) /\
  entries_at fds (i + 2 * Z.of_nat k) (drop k ds) (drop k l).
Proof.
  intros H Hk. pose proof (entries_length _ _ _ _ H) as Hl.
  rewrite <- (take_drop k ds), <- (take_drop k l) in H.
  apply entries_app in H; [|rewrite !length_take; lia].
  rewrite (length_take l), Nat.min_l in H by lia. done.
Qed.

(** ** The poll set *)

Section fds.
Context {R : Type}.

Definition element (fds : realloc_ptr pollfd) (i : Z) : option pollfd :=
  m_p fds !! Z.to_nat i ≫= id.

Definition put_fd (i : Z) (f : pollfd) (g : gepd) : gepd :=
  set_fds (set_cells (gp_fds g) (<[Z.to_nat i := Some f]> (m_p (gp_fds g)))) g.

Lemma element_fd fds i fd : fd_at fds i = Some fd -> exists f, element fds i = Some f /\ pf_fd f = fd.
Proof. unfold fd_at, element. destruct (_ ≫= _) as [f|]; [|done]. intros [= <-]. by exists f. Qed.

Lemma fds_at_ok i f p :
  element (gp_fds (pt_user p)) i = Some f -> 0 <= i < m_size (gp_fds (pt_user p)) ->
  fds_at (R := R) i p = (Next f, p).
Proof.
  intros Hf Hi. unfold fds_at, global. crun. rewrite (proj2 (Z.ltb_lt _ _)) by lia.
  erewrite bind_next by reflexivity. unfold element in Hf. by rewrite Hf.
Qed.

Lemma fds_set_ok i f p :
  wf (gp_fds (pt_user p)) -> 0 <= i < m_size (gp_fds (pt_user p)) ->
  fds_set (R := R) i f p = (Next tt, with_user (put_fd i f (pt_user p)) p).
Proof.
  intros [Hl _] Hi. unfold fds_set, global. crun. rewrite (proj2 (Z.ltb_lt _ _)) by lia.
  erewrite bind_next by reflexivity. by rewrite (proj2 (Nat.ltb_lt _ _)) by lia.
Qed.

Lemma fd_at_put i j f g :
  wf (gp_fds g) -> 0 <= i < m_size (gp_fds g) -> 0 <= j ->
  fd_at (gp_fds (put_fd i f g)) j = if j =? i then Some (pf_fd f) else fd_at (gp_fds g) j.
Proof.
  intros [Hl _] Hi Hj. unfold fd_at, put_fd. cbn [gp_fds set_fds m_p set_cells].
  destruct (Z.eqb_spec j i) as [->|Hne].
  - by rewrite list_lookup_insert_eq by lia.
  - by rewrite list_lookup_insert_ne by lia.
Qed.

Lemma wf_put i f g : wf (gp_fds g) -> wf (gp_fds (put_fd i f g)).
Proof. intros [Hl Hs]. split; cbn; [by rewrite length_insert|done]. Qed.
End fds.

(** ** Moving down *)

Definition move_down (d : process_data) : process_data :=
  set_indices (m_index_stdout d - 2) (m_index_stderr d - 2) d.

(** [fds'] is [fds] but for the elements from [i] on. *)
Definition same_below (i : Z) (fds fds' : realloc_ptr pollfd) : Prop :=
  wf fds' /\ m_size fds' = m_size fds /\ m_maxSize fds' = m_maxSize fds /\
  forall j, 0 <= j < i -> fd_at fds' j = fd_at fds j.

Definition with_fds (fds : realloc_ptr pollfd) (p : port gepd) : port gepd :=
  with_user (set_fds fds (pt_user p)) p.

Lemma with_fds_twice fds fds' p : with_fds fds' (with_fds fds p) = with_fds fds' p.
Proof. done. Qed.

Lemma with_fds_same p : with_fds (gp_fds (pt_user p)) p = p.
Proof. by destruct p as [? ? []]. Qed.

Lemma shift_ok {R} d i e p :
  0 <= i -> wf (gp_fds (pt_user p)) -> i + 4 <= m_size (gp_fds (pt_user p)) ->
  entries_at (gp_fds (pt_user p)) (i + 2) [d] [e] ->
  exists fds', shift (R := R) d p = (Next (move_down d), with_fds fds' p) /\
    entries_at fds' i [move_down d] [e] /\
    wf fds' /\ m_size fds' = m_size (gp_fds (pt_user p)) /\
    m_maxSize fds' = m_maxSize (gp_fds (pt_user p)) /\
    forall j, 0 <= j -> j <> i -> j <> i + 1 -> fd_at fds' j = fd_at (gp_fds (pt_user p)) j.
Proof.
  intros Hi Hwf Hroom ((Hpid & Hout & Herr & Hfo & Hfe) & _).
  destruct (element_fd _ _ _ Hfo) as (f & Hf & Hffd).
  unfold shift. rewrite Hout, Herr. cbv zeta. cbn [m_index_stdout m_index_stderr set_indices].
  erewrite bind_next by (apply fds_at_ok; [exact Hf|lia]). cbv beta.
  erewrite bind_next by (apply fds_set_ok; [done|lia]). cbv beta.
  set (g1 := put_fd (i + 2 - 2) f (pt_user p)).
  assert (fd_at (gp_fds g1) (i + 2 + 1) = Some (en_stderr e)) as Hfe1.
  { unfold g1. rewrite fd_at_put, (proj2 (Z.eqb_neq _ _)) by (done || lia). done. }
  destruct (element_fd _ _ _ Hfe1) as (f' & Hf' & Hffd').
  assert (wf (gp_fds g1)) as Hwf1 by (by apply wf_put).
  erewrite bind_next by (apply fds_at_ok; [exact Hf'|cbn; lia]). cbv beta.
  erewrite bind_next by (apply fds_set_ok; [done|cbn; lia]). cbv beta.
  cbn [pt_user with_user]. set (g2 := put_fd (i + 2 + 1 - 2) f' g1).
  exists (gp_fds g2). split; [|split; [|split; [|split; [|split]]]].
  - unfold cret, move_down. rewrite Hout, Herr. reflexivity.
  - cbn [entries_at move_down set_indices m_pid m_index_stdout m_index_stderr].
    split; [|done]. unfold g2. rewrite !fd_at_put by (done || cbn; lia). unfold g1.
    rewrite !fd_at_put by (done || lia). rewrite Hout, Herr.
    replace (i + 2 - 2) with i by lia. replace (i + 2 + 1 - 2) with (i + 1) by lia.
    rewrite !Z.eqb_refl, (proj2 (Z.eqb_neq i (i + 1))) by lia. by rewrite Hffd, Hffd'.
  - by apply wf_put.
  - done.
  - done.
  - intros j Hj H1 H2. unfold g2. rewrite fd_at_put by (done || cbn; lia).
    rewrite (proj2 (Z.eqb_neq _ _)) by lia. unfold g1. rewrite fd_at_put by (done || lia).
    by rewrite (proj2 (Z.eqb_neq _ _)) by lia.
Qed.

Lemma shift_all_ok {R} ds l i p :
  0 <= i -> wf (gp_fds (pt_user p)) ->
  i + 2 + 2 * Z.of_nat (length l) <= m_size (gp_fds (pt_user p)) ->
  entries_at (gp_fds (pt_user p)) (i + 2) ds l ->
  exists fds', shift_all (R := R) ds p = (Next (move_down <$> ds), with_fds fds' p) /\
    entries_at fds' i (move_down <$> ds) l /\ same_below i (gp_fds (pt_user p)) fds'.
Proof.
  revert l i p. induction ds as [|d ds IH]; intros [|e l] i p Hi Hwf Hroom H; try done.
  - exists (gp_fds (pt_user p)). rewrite with_fds_same. by repeat split; try apply Hwf.
  - cbn [length] in Hroom. destruct H as [Hd H].
    destruct (shift_ok (R := R) d i e p) as (fds1 & Hs & Hd1 & Hwf1 & Hm1 & Hx1 & Hout1); [done|done|lia|by split|].
    destruct (IH l (i + 2) (with_fds fds1 p)) as (fds2 & Hs2 & He2 & Hwf2 & Hm2 & Hx2 & Hb2).
    { lia. } { done. } { cbn. rewrite Hm1. lia. }
    { cbn. eapply entries_ext; [|exact H|]; [lia|]. intros j Hj. apply Hout1; lia. }
    exists fds2. cbn [shift_all]. split; [|split].
    + erewrite bind_next by exact Hs. cbv beta. erewrite bind_next by exact Hs2. cbv beta.
      by rewrite with_fds_twice.
    + cbn [fmap list_fmap entries_at] in *. split; [|done].
      eapply (entries_ext fds1 fds2 i [move_down d] [e]) in Hd1; [by destruct Hd1|lia|].
      cbn [length]. intros j Hj. apply Hb2. lia.
    + split; [done|]. cbn in Hm2, Hx2. split; [congruence|]. split; [congruence|]. intros j Hj.
      rewrite Hb2 by lia. cbn. apply Hout1; lia.
Qed.

(** The operating system is still to answer as it was. *)
Definition same_system (g g' : gepd) : Prop :=
  gp_os g' = gp_os g /\ gp_polls g' = gp_polls g /\ gp_realloc g' = gp_realloc g.

(** ** Deleting a process *)

(** The status of a process that was waited for, as [string] knows it. *)
Definition wait_status (pid : Z) (a : answer) : option Z :=
  match a with
  | Ok status pid' =>
      if negb (pid' =? pid) then None
      else if WIFEXITED status then Some (WEXITSTATUS status)
      else if WIFSIGNALED status then Some (WTERMSIG status + 128) else None
  | Failed _ => None
  end.

Definition status_name (status : Z) : string + Z :=
  match spawn_status.string status with Some s => inl s | None => inr status end.

Definition reported (pid status : Z) : list report :=
  if status =? 0 then [] else [(pid, status_name status)].

(** The state after [~process_data], with the answers of [kill] and
    [waitpid]. *)
Definition destroyed (d : process_data) (a a' : answer) (g : gepd) : gepd :=
  mk_gepd (gp_os g) (gp_trace g ++ [(Kill (m_pid d) 9, a); (Waitpid (m_pid d), a')])
    (gp_realloc g) (gp_polls g) (gp_pipe g) (gp_fds g) (gp_nfds g - 2) (gp_processes g)
    (gp_cerr g ++
     match wait_status (m_pid d) a' with Some st => reported (m_pid d) st | None => [] end).

Lemma destroy_ok {R} d p :
  0 < m_pid d ->
  exists a a', destroy (R := R) d p =
    (match wait_status (m_pid d) a' with
     | Some _ => Next tt | None => Throw assert_exception end,
     with_user (destroyed d a a' (pt_user p)) p).
Proof.
  intros Hpid. destruct p as [er b [f tr rl po pi fd nf pr ce]].
  exists (f tr (Kill (m_pid d) 9)).
  exists (f (tr ++ [(Kill (m_pid d) 9, f tr (Kill (m_pid d) 9))]) (Waitpid (m_pid d))).
  unfold destroy, global, update. crun.
  erewrite bind_next by apply os_next. cbv beta.
  erewrite bind_next by apply os_next. cbv beta.
  unfold traced, with_user, set_trace, set_nfds, destroyed.
  cbn [pt_erlang pt_buffer pt_user gp_os gp_trace gp_realloc gp_polls gp_pipe gp_fds gp_nfds
    gp_processes gp_cerr]. rewrite <- !app_assoc. cbn [app].
  set (a := f tr _). set (a' := f _ (Waitpid _)). clearbody a a'.
  destruct a' as [e|st pid']; cbn [wait_status].
  { rewrite (proj2 (Z.eqb_neq (-1) _)) by lia. rewrite app_nil_r.
    by erewrite bind_throw by reflexivity. }
  destruct (pid' =? m_pid d); cbn [negb cassert].
  2:{ rewrite app_nil_r. by erewrite bind_throw by reflexivity. }
  erewrite bind_next by reflexivity. cbv beta. unfold reported, status_name.
  destruct (WIFEXITED st); [|destruct (WIFSIGNALED st)]; crun.
  - destruct (_ =? 0); cbn [negb]; [by rewrite app_nil_r|done].
  - destruct (_ =? 0); cbn [negb]; [by rewrite app_nil_r|done].
  - by rewrite app_nil_r.
Qed.

(** ** Taking out and adding *)

Section steps.
Context {P : Resources} {E : Ei}.

Lemma remove_table before d after lb e la p
    (Ht : table (pt_user p) (before ++ d :: after) (lb ++ e :: la))
    (Hl : length before = length lb) (Hpid : 0 < en_pid e) :
  exists a1 a2 a3 a4 p',
    remove (R := Z) before d after p =
      (match wait_status (en_pid e) a4 with
       | Some _ => Next (move_down <$> after) | None => Throw assert_exception end, p') /\
    gp_trace (pt_user p') = gp_trace (pt_user p) ++
      [ (Close (en_stdout e), a1); (Close (en_stderr e), a2);
        (Kill (en_pid e) 9, a3); (Waitpid (en_pid e), a4) ] /\
    gp_processes (pt_user p') = before ++ (move_down <$> after) /\
    table (pt_user p') (before ++ (move_down <$> after)) (lb ++ la) /\
    gp_cerr (pt_user p') = gp_cerr (pt_user p) ++
      match wait_status (en_pid e) a4 with Some st => reported (en_pid e) st | None => [] end /\
    same_system (pt_user p) (pt_user p').
Proof.
  destruct Ht as [Hwf Hsmall Hown Hent Hn Hroom].
  apply entries_app in Hent as [Hb Ha]; [|done].
  cbn [entries_at] in Ha. destruct Ha as ((Hp & Ho & He & Hfo & Hfe) & Ha).
  rewrite length_app in Hn. cbn [length] in Hn.
  set (i := 3 + 2 * Z.of_nat (length lb)) in *.
  destruct (element_fd _ _ _ Hfo) as (f & Hf & Hff). destruct (element_fd _ _ _ Hfe) as (f' & Hf' & Hff').
  rewrite <- Hp, <- Hff, <- Hff' in *.
  unfold remove, close. rewrite Ho, He.
  set (a1 := gp_os (pt_user p) (gp_trace (pt_user p)) (Close (pf_fd f))).
  set (p1 := traced [(Close (pf_fd f), a1)] p).
  set (a2 := gp_os (pt_user p1) (gp_trace (pt_user p1)) (Close (pf_fd f'))).
  set (p2 := traced [(Close (pf_fd f'), a2)] p1).
  destruct (shift_all_ok (R := Z) after la i p2) as (fds' & Hs & Hent' & Hwf' & Hm' & Hx' & Hb').
  { lia. } { done. } { cbn. lia. } { done. }
  set (p3 := with_user (set_processes (before ++ (move_down <$> after))
    (set_fds fds' (pt_user p2))) p).
  destruct (destroy_ok (R := Z) d p3) as (a3 & a4 & Hd); [lia|].
  exists a1, a2, a3, a4, (with_user (destroyed d a3 a4 (pt_user p3)) p3).
  split; [|split; [|split; [|split; [|split]]]].
  - rewrite bind_assoc. erewrite bind_next by (apply fds_at_ok; [exact Hf|lia]). cbv beta.
    rewrite bind_assoc. erewrite bind_next by apply os_next. cbv beta. fold a1. fold p1.
    rewrite bind_assoc.
    erewrite bind_next by (apply fds_at_ok; [exact Hf'|cbn; lia]). cbv beta.
    rewrite bind_assoc. erewrite bind_next by apply os_next. cbv beta. fold a2. fold p2. crun.
    erewrite bind_next by exact Hs. cbv beta. unfold update. crun.
    destruct (wait_status (m_pid d) a4) eqn:Hw.
    + erewrite bind_next by exact Hd. reflexivity.
    + erewrite bind_throw by exact Hd. reflexivity.
  - cbn. by rewrite <- !app_assoc.
  - done.
  - split; cbn.
    + exact Hwf'.
    + rewrite Hm', Hx'. exact Hsmall.
    + intros j Hj. rewrite Hb' by lia. by apply Hown.
    + apply entries_app; [done|]. split; [|done].
      eapply entries_ext; [|exact Hb|]; [lia|]. intros j Hj. apply Hb'. lia.
    + rewrite Hn, length_app. lia.
    + rewrite Hm', Hn. cbn. lia.
  - done.
  - done.
Qed.

Lemma os_or_return_failed c st p e :
  gp_os (pt_user p) (gp_trace (pt_user p)) c = Failed e ->
  os_or_return c st p = (Return (Returned (st e)), traced [(c, Failed e)] p).
Proof.
  intros H. unfold os_or_return. erewrite bind_next by apply os_next. cbv beta. by rewrite H.
Qed.

Lemma os_or_return_ok c st p x y :
  gp_os (pt_user p) (gp_trace (pt_user p)) c = Ok x y ->
  os_or_return c st p = (Next (x, y), traced [(c, Ok x y)] p).
Proof.
  intros H. unfold os_or_return. erewrite bind_next by apply os_next. cbv beta. by rewrite H.
Qed.

Lemma reserve_fails sizeof ok size (r r' : realloc_ptr pollfd) :
  reserve sizeof ok size r = Some (false, r') ->
  m_maxSize r < size \/ exists n, ok n = false.
Proof.
  unfold reserve, reallocate. destruct (size <? m_size r); [done|].
  destruct (Z.ltb_spec (m_maxSize r) size); [by left|].
  destruct (double_above _ _ _) as [k|]; [|done].
  destruct (ok _) eqn:Hk; [done|]. right. by eexists.
Qed.

Lemma reserve_max sizeof ok size (r r' : realloc_ptr pollfd) :
  reserve sizeof ok size r = Some (true, r') -> r' = r \/ size <= m_maxSize r.
Proof.
  unfold reserve. destruct (Z.ltb_spec size (m_size r)); [intros [= <-]; by left|].
  destruct (Z.ltb_spec (m_maxSize r) size); [done|by right].
Qed.

Lemma fd_at_extends fds fds' j :
  wf fds -> extends fds fds' -> 0 <= j < m_size fds -> fd_at fds' j = fd_at fds j.
Proof.
  intros [Hl _] (_ & _ & _ & _ & junk & Hj) H. unfold fd_at. rewrite Hj.
  by rewrite lookup_app_l by lia.
Qed.

(** A process that was forked is added at the end, with its two pipes; an
    error of [close] leaves the table as it is, and the port exits when the
    poll set can not grow. *)
Lemma parent_table pid fds_stdout fds_stderr l p
    (Ht : table (pt_user p) (gp_processes (pt_user p)) l) :
  exists r p', parent pid fds_stdout fds_stderr p = (Return r, p') /\
    p' = with_user (pt_user p') p /\ same_system (pt_user p) (pt_user p') /\
    match r with
    | Returned z =>
        z = pid /\
        (exists a a' b b', gp_trace (pt_user p') = gp_trace (pt_user p) ++
           [(Close fds_stdout.2, Ok a a'); (Close fds_stderr.2, Ok b b')]) /\
        table (pt_user p') (gp_processes (pt_user p'))
          (l ++ [mk_entry pid fds_stdout.1 fds_stderr.1]) \/
        (exists e a a', z = errno_close e /\
           (gp_trace (pt_user p') = gp_trace (pt_user p) ++ [(Close fds_stdout.2, Failed e)] \/
            gp_trace (pt_user p') = gp_trace (pt_user p) ++
              [(Close fds_stdout.2, Ok a a'); (Close fds_stderr.2, Failed e)])) /\
        table (pt_user p') (gp_processes (pt_user p')) l
    | Exited z =>
        z = spawn_status.out_of_memory /\
        table (pt_user p') (gp_processes (pt_user p')) l /\
        (m_maxSize (gp_fds (pt_user p)) < gp_nfds (pt_user p) + 2 \/
         exists n, gp_realloc (pt_user p) n = false)
    | Executed => False
    end.
Proof.
  destruct Ht as [Hwf [Hsmall Hmax] Hown Hent Hn Hroom].
  set (g := pt_user p) in *.
  unfold parent.
  destruct (gp_os g (gp_trace g) (Close fds_stdout.2)) as [e|x y] eqn:Ha1.
  { exists (Returned (errno_close e)), (traced [(Close fds_stdout.2, Failed e)] p). split.
    - by rewrite (bind_return _ _ _ _ _ (os_or_return_failed _ _ _ _ Ha1)).
    - split; [done|]. split; [done|]. right. split; [exists e, 0, 0; by split; [|left]|]. by constructor. }
  rewrite (bind_next _ _ _ _ _ (os_or_return_ok _ _ _ _ _ Ha1)).
  set (p1 := traced [(Close fds_stdout.2, Ok x y)] p).
  destruct (gp_os g (gp_trace (pt_user p1)) (Close fds_stderr.2)) as [e|x' y'] eqn:Ha2.
  { exists (Returned (errno_close e)), (traced [(Close fds_stderr.2, Failed e)] p1). split.
    - by rewrite (bind_return _ _ _ _ _ (os_or_return_failed _ _ p1 _ Ha2)).
    - split; [done|]. split; [done|]. right. split.
      { exists e, x, y. split; [done|]. right. cbn. by rewrite <- app_assoc. }
      by constructor. }
  rewrite (bind_next _ _ _ _ _ (os_or_return_ok _ _ p1 _ _ Ha2)).
  set (p2 := traced [(Close fds_stderr.2, Ok x' y')] p1).
  destruct (reserve_defined sizeof_pollfd (gp_realloc g) (gp_nfds g + 2) (gp_fds g)) as (ok & fds & Hr);
    [done|lia|].
  unfold global. 
  erewrite bind_next by reflexivity. cbv beta. erewrite bind_next by reflexivity. cbv beta.
  change (gp_nfds (pt_user p2)) with (gp_nfds g). change (gp_fds (pt_user p2)) with (gp_fds g).
  change (gp_realloc (pt_user p2)) with (gp_realloc g).
  rewrite wrap64_small by lia. rewrite Hr. cbn [copt].
  erewrite bind_next by reflexivity. cbv beta iota.
  erewrite bind_next by reflexivity. cbv beta.
  destruct ok; cbn [negb creturn_if]; cycle 1.
  { eexists _, _. split; [by erewrite bind_return by reflexivity|].
    split; [done|]. split; [done|]. split; [done|].
    pose proof (reserve_false _ _ _ _ _ Hr) as ->. apply reserve_fails in Hr.
    split; [|done]. by constructor. }
  pose proof (reserve_max _ _ _ _ _ Hr) as Hle.
  apply reserve_true in Hr as [Hext Hgrow]; [|done|lia].
  pose proof Hext as (Hwf' & _ & _ & Hmax' & _).
  erewrite bind_next by reflexivity. cbv beta.
  erewrite bind_next by (apply fds_set_ok; [exact Hwf'|cbn; lia]). cbv beta.
  set (g1 := put_fd (gp_nfds g) (watch fds_stdout.1) _).
  assert (wf (gp_fds g1)) as Hwf1 by (by apply wf_put).
  erewrite bind_next by (apply fds_set_ok; [exact Hwf1|cbn; lia]). cbv beta.
  set (g2 := put_fd (gp_nfds g + 1) (watch fds_stderr.1) g1).
  unfold update. erewrite bind_next by reflexivity. cbv beta.
  erewrite bind_next by reflexivity. cbv beta. erewrite bind_next by reflexivity. cbv beta.
  eexists _, _. split; [reflexivity|]. split; [done|]. split; [done|].
  left. split; [done|]. split.
  { exists x, y, x', y'. cbn. by rewrite <- app_assoc. }
  assert (forall j, 0 <= j -> fd_at (gp_fds g2) j =
    if j =? gp_nfds g + 1 then Some fds_stderr.1
    else if j =? gp_nfds g then Some fds_stdout.1 else fd_at fds j) as Hfd.
  { intros j Hj. unfold g2. rewrite fd_at_put by (done || cbn; lia). unfold g1.
    by rewrite fd_at_put by (done || cbn; lia). }
  assert (forall j, 0 <= j < gp_nfds g -> fd_at (gp_fds g2) j = fd_at (gp_fds g) j) as Hbelow.
  { intros j Hj. rewrite Hfd, !(proj2 (Z.eqb_neq _ _)) by lia.
    apply fd_at_extends; [done|done|lia]. }
  split; cbn [gp_fds gp_nfds gp_processes pt_user with_user set_processes set_nfds].
  - by apply wf_put.
  - cbn. rewrite Hmax'. destruct Hle as [-> |]; lia.
  - intros j Hj. change (gp_fds _) with (gp_fds g2). rewrite Hbelow by lia. by apply Hown.
  - change (gp_processes _) with (gp_processes g). apply entries_app; [by eapply entries_length|]. split.
    + eapply entries_ext; [|exact Hent|]; [lia|]. intros j Hj. apply Hbelow. lia.
    + cbn [entries_at m_pid m_index_stdout m_index_stderr new_process_data en_pid en_stdout en_stderr].
      rewrite <- Hn. split; [|done]. repeat split.
      * rewrite Hfd, (proj2 (Z.eqb_neq _ _)), Z.eqb_refl by lia. done.
      * by rewrite Hfd, Z.eqb_refl by lia.
  - change (gp_nfds _) with (gp_nfds g). rewrite Hn, length_app. cbn. lia.
  - cbn. lia.
Qed.
End steps.

(** ** Properties *)

(** C22. When a process hangs up, the two closes of its pipes and the killing
    of its process are all that happens to the system, and the table is the
    one without it: every other process keeps its pipes, at whatever elements
    they are now.  (If [waitpid] fails the table is the same, and the failed
    assertion ends the port.) *)
Theorem remove_implements before d after lb e la p
    (Ht : table (pt_user p) (before ++ d :: after) (lb ++ e :: la))
    (Hl : length before = length lb) (Hpid : 0 < en_pid e) :
  exists a1 a2 a3 a4 p',
    remove (R := Z) before d after p =
      (match wait_status (en_pid e) a4 with
       | Some _ => Next (move_down <$> after) | None => Throw assert_exception end, p') /\
    gp_trace (pt_user p') = gp_trace (pt_user p) ++
      [ (Close (en_stdout e), a1); (Close (en_stderr e), a2);
        (Kill (en_pid e) 9, a3); (Waitpid (en_pid e), a4) ] /\
    gp_processes (pt_user p') = before ++ (move_down <$> after) /\
    table (pt_user p') (before ++ (move_down <$> after)) (lb ++ la) /\
    gp_cerr (pt_user p') = gp_cerr (pt_user p) ++
      match wait_status (en_pid e) a4 with Some st => reported (en_pid e) st | None => [] end /\
    same_system (pt_user p) (pt_user p').
Proof. by apply remove_table. Qed.

(** ** Examples *)

Definition example_process (pid i : Z) : process_data := new_process_data pid i (i + 1).

Definition example_entries : list entry := [mk_entry 100 20 21; mk_entry 101 22 23].

(** Two processes; one that is waited for was killed. *)
Definition example_table : gepd :=
  mk_gepd
    (fun _ c => match c with Waitpid pid => Ok 9 pid | _ => Ok 0 0 end) [] (fun _ => true) []
    (fun _ => mk_sys [] [] [] [] [] [] (fun _ => true))
    (mk_realloc_ptr 4 8 65536
       ((fun fd => Some (watch fd)) <$> [10; 12; 3; 20; 21; 22; 23; 0]) 0)
    7 [example_process 100 3; example_process 101 5] [].

Definition example_table_port : port gepd :=
  mk_port (mk_sys [] [] [] [] [] [] (fun _ => true)) (construct 1 64 4096) example_table.

Lemma example_table_ok :
  table example_table [example_process 100 3; example_process 101 5] example_entries.
Proof.
  split; cbn; [by split|lia| | |lia|lia].
  - intros i Hi. assert (i = 0 \/ i = 1 \/ i = 2) as [-> | [-> | ->]] by lia; by eexists.
  - done.
Qed.

(** The first of them hangs up; its death is reported. *)
Definition example_remove : outcome Z (list process_data) * port gepd :=
  remove [] (example_process 100 3) [example_process 101 5] example_table_port.

Lemma remove_implements_witness :
  fst example_remove = Next [example_process 101 3] /\
  gp_cerr (pt_user (snd example_remove)) = [(100, inl "SIGKILL"%string)] /\
  table (pt_user (snd example_remove)) [example_process 101 3] [mk_entry 101 22 23].
Proof.
  split; [vm_compute; reflexivity|]. split; [vm_compute; reflexivity|].
  destruct (remove_implements [] (example_process 100 3) [example_process 101 5] []
    (mk_entry 100 20 21) [mk_entry 101 22 23] example_table_port example_table_ok eq_refl eq_refl)
    as (a1 & a2 & a3 & a4 & p' & Hr & _ & _ & Ht & _).
  unfold example_remove. rewrite Hr. exact Ht.
Defined.
