(* ===== verification/MainLoop.v ===== *)
(** * The main loop keeps the table

    Every round of the port's main loop, with all a round may call (a command
    from Erlang, the spawning of a process, the output of the processes, the
    removal of some of them), leaves the poll set and the vector of processes
    the table of some list of processes, and no loop is without end. *)

From S2P Require Import Prelude CMonad Status Sys ReallocPtr Framing Instance Ei ExitStatus Marshal Port Stream Posix Owner Rlimit Spawn Restrict Process Table.

(** ** Functions of the descriptors end *)

Lemma write_loop_ends fuel total m len s :
  (length (sys_writes s) < fuel)%nat ->
  match fst (Port.write_exact_loop fuel total m len s) with NoFuel => False | _ => True end.
Proof.
  revert total s. induction fuel as [|fuel IH]; intros total s Hf; [lia|].
  cbn [Port.write_exact_loop]. destruct (total <? len); [|done]. unfold cbind, copt.
  destruct (load _ _ _) as [data|]; [|done]. cbn [cret]. unfold sys_write.
  destruct (sys_writes s) as [|[k|e] ws]; [done| |done]. cbn in Hf.
  destruct (_ <=? 0); [done|]. apply IH. cbn. lia.
Qed.

Lemma write_exact_ends m len s :
  match fst (Port.write_exact m len s) with NoFuel => False | _ => True end.
Proof.
  unfold Port.write_exact, creads, cbind.
  pose proof (write_loop_ends (S (length (sys_writes s))) 0 m len s ltac:(lia)) as H.
  destruct (Port.write_exact_loop _ _ _ _ _) as [[] s']; cbn in *; try done.
  by destruct (_ <? _).
Qed.

Lemma read_loop_ends fuel total m len s :
  (length (sys_reads s) < fuel)%nat ->
  match fst (Port.read_exact_loop fuel total m len s) with NoFuel => False | _ => True end.
Proof.
  revert total m s. induction fuel as [|fuel IH]; intros total m s Hf; [lia|].
  cbn [Port.read_exact_loop]. destruct (total <? len); [|done]. unfold cbind, sys_read.
  destruct (sys_reads s) as [|[k|e] rs]; [done| |done]. cbn in Hf.
  destruct (take _ _) as [|b bs]; [done|]. case_decide; [|done]. apply IH. cbn. lia.
Qed.

Lemma read_exact_ends m len s :
  match fst (Port.read_exact m len s) with NoFuel => False | _ => True end.
Proof.
  unfold Port.read_exact, creads, cbind.
  pose proof (read_loop_ends (S (length (sys_reads s))) 0 m len s ltac:(lia)) as H.
  destruct (Port.read_exact_loop _ _ _ _ _) as [[[]| | | | |] s']; cbn in *; try done.
  by destruct (_ <? _).
Qed.

(** ** Functions of the port leave its user's state *)

Section user.
Context {X : Type} {E : Ei} (u : X).

Definition user (p : port X) : Prop := pt_user p = u.

Lemma user_modify_buffer {R} (ρ : R -> Prop) b : yields user any ρ (cmodify (with_buffer b)).
Proof. by apply yields_modify. Qed.
Lemma user_reads {R A} (ρ : R -> Prop) (f : port X -> A) : yields user any ρ (creads f).
Proof. by apply yields_reads. Qed.
Lemma user_get {R} (ρ : R -> Prop) : yields user any ρ cget.
Proof. by apply yields_get. Qed.

Lemma user_on_erlang {R A} (ρ : R -> Prop) (c : C sys R A) :
  (forall r, ρ r) -> (forall s, match fst (c s) with NoFuel => False | _ => True end) ->
  yields user any ρ (on_erlang c).
Proof.
  intros Hr H p Hp. unfold on_erlang. specialize (H (pt_erlang p)).
  destruct (c (pt_erlang p)) as [o s]. split; [done|]. destruct o; cbn in *; auto; done.
Qed.

Lemma user_write {R} (ρ : R -> Prop) m n :
  yields user any ρ (call (on_erlang (Port.write_exact m n))).
Proof. apply yields_call, user_on_erlang; [done|]. intros. apply write_exact_ends. Qed.
Lemma user_read {R} (ρ : R -> Prop) m n :
  yields user any ρ (call (on_erlang (Port.read_exact m n))).
Proof. apply yields_call, user_on_erlang; [done|]. intros. apply read_exact_ends. Qed.
#[local] Hint Resolve user_modify_buffer user_reads user_get user_write user_read : yields.

Lemma user_put index bs : yields user any any (put index bs).
Proof. unfold put. yields. Qed.
#[local] Hint Resolve user_put : yields.
Lemma user_ei_encode index ts : yields user any any (ei_encode index ts).
Proof. revert index. induction ts as [|[t|] ts IH]; intros index; cbn [ei_encode]; yields. Qed.
Lemma user_reserve_buffer n : yields user any any (reserve_buffer n).
Proof. unfold reserve_buffer. yields. Qed.
Lemma user_write_cmd n : yields user any any (write_cmd n).
Proof. unfold write_cmd. yields. Qed.
Lemma user_read_cmd : yields user any any read_cmd.
Proof. unfold read_cmd. yields. Qed.
#[local] Hint Resolve user_ei_encode user_reserve_buffer user_write_cmd user_read_cmd : yields.
Lemma user_write_reply i : yields user any any (write_reply i).
Proof. unfold write_reply. yields. Qed.
Lemma user_reply_error i c s : yields user any any (reply_error_string i c s).
Proof. unfold reply_error_string. yields. Qed.
Lemma user_integer_ret enc c i v : yields user any any (integer_ret enc c i v).
Proof. unfold integer_ret. yields. Qed.
Lemma user_pointer off : yields user any any (pointer off).
Proof. unfold pointer. yields. Qed.
#[local] Hint Resolve user_pointer : yields.
Lemma user_bytes_at n off : yields user any any (bytes_at n off).
Proof. unfold bytes_at. yields. Qed.
#[local] Hint Resolve user_bytes_at : yields.
Lemma user_unsigned_at n off : yields user any any (unsigned_at n off).
Proof. unfold unsigned_at. yields. Qed.
Lemma user_signed_at n off : yields user any any (signed_at n off).
Proof. unfold signed_at. yields. Qed.
#[local] Hint Resolve user_unsigned_at user_signed_at : yields.

Lemma user_arg_size t off : yields user any any (arg_size (arg_of t) off).
Proof.
  destruct t; cbn [arg_of]; unfold arg_char, arg_uchar, arg_bool, arg_int8_t, arg_uint8_t,
    arg_int16_t, arg_uint16_t, arg_int32_t, arg_uint32_t, arg_int64_t, arg_uint64_t, arg_time_t,
    arg_pchar_len, arg_puint32_len, signed_arg, unsigned_arg; cbn [arg_size]; yields.
Qed.
Lemma user_arg_get t off : yields user any any (arg_get (arg_of t) off).
Proof.
  destruct t; cbn [arg_of]; unfold arg_char, arg_uchar, arg_bool, arg_int8_t, arg_uint8_t,
    arg_int16_t, arg_uint16_t, arg_int32_t, arg_uint32_t, arg_int64_t, arg_uint64_t, arg_time_t,
    arg_pchar_len, arg_puint32_len, signed_arg, unsigned_arg; cbn [arg_get]; yields.
Qed.
#[local] Hint Resolve user_arg_size user_arg_get : yields.

Lemma user_get_args ts offs : yields user any any (get_args ts offs).
Proof. revert offs. induction ts as [|t ts IH]; intros [|off offs]; cbn [get_args]; yields. Qed.
Lemma user_offset_args ts off : yields user any any (offset_args ts off).
Proof.
  revert off. induction ts as [|t [|t' ts] IH]; intros off; [by apply yields_ret|by apply yields_ret|].
  change (offset_args (t :: t' :: ts) off) with
    (let* n := arg_size (X := X) (arg_of t) off in
     let* offs := offset_args (t' :: ts) (wrap64 (off + n)) in cret (off :: offs)).
  yields.
Qed.
End user.

(** ** Functions of a stream leave its user's state *)

Section stream_user.
Context {X : Type} {E : Ei} (u : X).

(** With at most [n] answers of [read] to come. *)
Definition suser (s : port_stream X) : Prop := pt_user (ps_port s) = u.
Definition reads (n : nat) (s : port_stream X) : Prop :=
  suser s /\ (length (sys_reads (st_sys (ps_stream s))) <= n)%nat.

Lemma suser_on_port {R A} (φ : A -> Prop) (ρ : R -> Prop) (c : C (port X) R A) :
  yields (user u) φ ρ c -> yields suser φ ρ (on_port c).
Proof.
  intros H s Hs. unfold on_port. specialize (H (ps_port s) Hs).
  by destruct (c (ps_port s)) as [o p].
Qed.

Lemma reads_weaken n n' s : reads n s -> (n <= n')%nat -> reads n' s.
Proof. intros [H1 H2] Hn. split; [done|lia]. Qed.

Abbreviation ends := (hoare suser (fun (_ : Z) => suser)).

Lemma hoare_ret {A} (P : port_stream X -> Prop) (Q : A -> port_stream X -> Prop) a :
  (forall s, P s -> Q a s) -> ends P Q (cret a).
Proof. intros H s Hs. by apply H. Qed.

Lemma hoare_modify (P Q : port_stream X -> Prop) f :
  (forall s, P s -> Q (f s)) -> ends P (fun _ => Q) (cmodify f).
Proof. intros H s Hs. by apply H. Qed.

(** A read takes one answer. *)
Lemma hoare_read_stream n left :
  ends (reads (S n)) (fun _ => reads n) (read_stream left).
Proof.
  intros [p [f r b i]] [Hu Hn]. cbn in Hu, Hn. unfold read_stream, creads, cassert, cbind.
  cbn. destruct (i <? m_size b); [|done]. cbn. unfold on_fd. cbn. unfold sys_read.
  destruct (sys_reads f) as [|[k|e] rs] eqn:Hr; cbn; [done| |].
  - cbn in Hn. case_decide; [|done]. cbn. split; [done|cbn; lia].
  - cbn in Hn. split; [done|cbn; lia].
Qed.

Lemma hoare_grow_stream n : ends (reads n) (fun _ => reads n) grow_stream.
Proof.
  intros [p [f r b i]] [Hu Hn]. unfold grow_stream, cget, cbind. cbn.
  destruct (grow _ _ _) as [ok b']. by split.
Qed.

Lemma hoare_data_ready n ready :
  ends (reads n) (fun _ => reads n) (call (on_fd (Stream.data_ready ready))).
Proof.
  intros [p [f r b i]] [Hu Hn]. unfold call, on_fd, Stream.data_ready, cbind. cbn. unfold sys_poll.
  destruct (sys_polls f) as [|[| |e] ps]; cbn; try done; by split.
Qed.

Lemma hoare_fill_loop fuel n :
  (n < fuel)%nat -> ends (reads n) (fun _ => suser) (fill_loop fuel).
Proof.
  revert n. induction fuel as [|fuel IH]; intros n Hn; [lia|]. cbn [fill_loop].
  eapply (hoare_bind _ _ _ (fun _ => reads n)); [by intros s Hs|]. intros st.
  destruct n as [|n].
  { intros [p [f r b i]] [Hu Hr]. cbn in Hu, Hr. unfold cbind, read_stream, creads, cassert. cbn.
    destruct (i <? m_size b); [|done]. unfold cbind, on_fd. cbn. unfold sys_read.
    destruct (sys_reads f); [done|]. cbn in Hr. lia. }
  eapply hoare_bind; [apply hoare_read_stream|]. intros readBytes.
  case_decide; [|apply hoare_ret; by intros s []].
  eapply hoare_bind; [apply hoare_grow_stream|]. intros [|]; [|apply hoare_ret; by intros s []].
  eapply (hoare_bind _ _ _ (fun _ => reads n)); [by apply hoare_modify|]. intros _.
  eapply hoare_bind; [apply hoare_data_ready|]. intros [z [|]];
    [|apply hoare_ret; by intros s []].
  apply IH. lia.
Qed.

Lemma suser_fill : yields suser any any fill.
Proof.
  apply yields_hoare. intros s Hs. unfold fill, creads, cbind.
  pose proof (hoare_fill_loop (S (length (sys_reads (st_sys (ps_stream s)))))
    (length (sys_reads (st_sys (ps_stream s)))) ltac:(lia) s) as H.
  specialize (H (conj Hs (le_n _))).
  by destruct (fill_loop _ s) as [[] s'].
Qed.

Lemma suser_reads {R A} (ρ : R -> Prop) (f : port_stream X -> A) : yields suser any ρ (creads f).
Proof. by apply yields_reads. Qed.
Lemma suser_get {R} (ρ : R -> Prop) : yields suser any ρ cget.
Proof. by apply yields_get. Qed.
Lemma suser_set_buffer {R} (ρ : R -> Prop) b : yields suser any ρ (cmodify (set_st_buffer b)).
Proof. by apply yields_modify. Qed.
Lemma suser_set_i {R} (ρ : R -> Prop) i : yields suser any ρ (cmodify (set_st_i i)).
Proof. by apply yields_modify. Qed.
Lemma suser_set_revents {R} (ρ : R -> Prop) i : yields suser any ρ (cmodify (set_st_revents i)).
Proof. by apply yields_modify. Qed.
#[local] Hint Resolve suser_reads suser_get suser_set_buffer suser_set_i suser_set_revents
  suser_fill : yields.

Lemma suser_last_newline j : yields suser any any (last_newline j).
Proof. induction j as [|j IH]; cbn [last_newline]; yields. Qed.

Lemma suser_send_stream name pid n : yields suser any any (send_stream name pid n).
Proof.
  unfold send_stream.
  apply (yields_bind _ _ any); [apply suser_on_port, user_ei_encode|]. intros index _.
  apply (yields_bind _ _ any); [apply suser_on_port, user_reserve_buffer|]. intros _ _.
  apply (yields_bind _ _ any); [yields|]. intros data _.
  apply (yields_bind _ _ any); [apply suser_on_port, user_ei_encode|]. intros index' _.
  apply (yields_bind _ _ any); [apply yields_call, suser_on_port, user_write_cmd|]. intros z _.
  yields.
Qed.
#[local] Hint Resolve suser_last_newline suser_send_stream : yields.

Lemma suser_send_lines name pid i : yields suser any any (send_lines name pid i).
Proof. unfold send_lines. yields. Qed.
#[local] Hint Resolve suser_send_lines : yields.

Lemma suser_consume_stream name pid : yields suser any any (consume_stream name pid).
Proof. unfold consume_stream. yields. Qed.

Lemma suser_flush_stream name pid : yields suser any any (flush_stream name pid).
Proof. unfold flush_stream. yields. Qed.
End stream_user.

(** ** The invariant *)

(** What the table depends on of a process. *)
Definition shape (d : process_data) : Z * Z * Z := (m_pid d, m_index_stdout d, m_index_stderr d).

Lemma entries_shape fds i ds ds' l :
  shape <$> ds = shape <$> ds' -> entries_at fds i ds l -> entries_at fds i ds' l.
Proof.
  revert i ds' l. induction ds as [|d ds IH]; intros i [|d' ds'] [|e l] Hs; try done.
  cbn in Hs. injection Hs as H1 H2 H3 Hs. cbn [entries_at]. rewrite H1, H2, H3.
  intros [? ?]. split; [done|]. by eapply IH.
Qed.

(** At most [n] answers of [poll] are to come; a number [fork] gives is not
    negative. *)
Definition system (n : nat) (g : gepd) : Prop :=
  (length (gp_polls g) <= n)%nat /\
  forall tr a b, gp_os g tr Fork = Ok a b -> 0 <= a.

(** The processes [ds], as the loop over them has them, are those of the
    vector, and the table is theirs. *)
Definition tabled (n : nat) (ds : list process_data) (p : port gepd) : Prop :=
  system n (pt_user p) /\ shape <$> gp_processes (pt_user p) = shape <$> ds /\
  exists l, table (pt_user p) ds l /\ Forall (fun e => 0 < en_pid e) l.

Definition inv (n : nat) (p : port gepd) : Prop := tabled n (gp_processes (pt_user p)) p.

Lemma table_shape g ds ds' l : shape <$> ds = shape <$> ds' -> table g ds l -> table g ds' l.
Proof. intros Hs []. constructor; try done. by eapply entries_shape. Qed.

Lemma tabled_shape n ds ds' p : shape <$> ds = shape <$> ds' -> tabled n ds p -> tabled n ds' p.
Proof.
  intros Hs (H1 & H2 & l & H3 & H4). split; [done|]. split; [congruence|].
  exists l. split; [|done]. by eapply table_shape.
Qed.

Lemma tabled_inv n ds p : tabled n ds p -> inv n p.
Proof. intros H. eapply tabled_shape; [|exact H]. symmetry. apply H. Qed.

Lemma inv_tabled n p ds : shape <$> gp_processes (pt_user p) = shape <$> ds -> inv n p -> tabled n ds p.
Proof. intros Hs H. by eapply tabled_shape. Qed.

Lemma tabled_weaken n n' ds p : (n <= n')%nat -> tabled n ds p -> tabled n' ds p.
Proof. intros Hn ([H1 H1'] & H2). split; [split; [lia|done]|done]. Qed.

(** An element of the poll set is stored with the descriptor it has. *)
Lemma fd_at_put_same fds i f j :
  0 <= i -> fd_at fds i = Some (pf_fd f) ->
  fd_at (set_cells fds (<[Z.to_nat i := Some f]> (m_p fds))) j = fd_at fds j.
Proof.
  unfold fd_at. cbn. intros Hi Hf.
  destruct (m_p fds !! Z.to_nat i) as [o|] eqn:Ho; [|done]. cbn in Hf.
  destruct (decide (Z.to_nat j = Z.to_nat i)) as [->|Hne].
  - rewrite list_lookup_insert_eq by (by eapply lookup_lt_Some). by rewrite Ho.
  - by rewrite list_lookup_insert_ne by done.
Qed.

(** The table is about the descriptors only. *)
Lemma tabled_fds n ds p fds :
  wf fds -> m_size fds = m_size (gp_fds (pt_user p)) ->
  m_maxSize fds = m_maxSize (gp_fds (pt_user p)) ->
  (forall j, 0 <= j -> fd_at fds j = fd_at (gp_fds (pt_user p)) j) ->
  tabled n ds p -> tabled n ds (with_user (set_fds fds (pt_user p)) p).
Proof.
  intros Hwf Hm Hx Hfd (H1 & H2 & l & [] & H4). split; [done|]. split; [done|].
  exists l. split; [|done]. constructor; cbn; rewrite ?Hm, ?Hx; try done.
  - intros i Hi. rewrite Hfd by lia. auto.
  - eapply entries_ext; [|done|]; [lia|]. intros j Hj. apply Hfd. lia.
Qed.

Section keeps.
Context {P : Resources} {E : Ei}.
Context (n : nat) (ds : list process_data).
Abbreviation keeps := (yields (tabled n ds)).

Lemma keeps_os {R} (ρ : R -> Prop) c : keeps any ρ (os c).
Proof. intros p (H1 & H2 & l & [] & H4). split; [|done]. split; [done|]. split; [done|]. exists l. by split. Qed.

Lemma keeps_traced l p : tabled n ds p -> inv n (traced l p).
Proof. intros (H1 & H2 & l' & [] & H4). eapply tabled_inv. split; [done|]. split; [exact H2|]. exists l'. by split. Qed.

Lemma keeps_global {R A} (ρ : R -> Prop) (f : gepd -> A) : keeps any ρ (global f).
Proof. by apply yields_reads. Qed.

Lemma keeps_fds_at {R} (ρ : R -> Prop) i : keeps any ρ (fds_at i).
Proof. unfold fds_at, global. yields. by apply yields_reads. Qed.

Lemma keeps_set_pipe {R} (ρ : R -> Prop) fd s : keeps any ρ (update (set_pipe fd s)).
Proof. apply yields_modify; [|done]. intros p (H1 & H2 & l & [] & H4). split; [done|]. split; [done|]. exists l. by split. Qed.

Lemma keeps_set_cerr {R} (ρ : R -> Prop) c : keeps any ρ (update (set_cerr c)).
Proof. apply yields_modify; [|done]. intros p (H1 & H2 & l & [] & H4). split; [done|]. split; [done|]. exists l. by split. Qed.

(** A function that does not see the global state. *)
Lemma keeps_user {R A} (φ : A -> Prop) (ρ : R -> Prop) (c : C (port gepd) R A) :
  (forall u, yields (user u) φ ρ c) -> keeps φ ρ c.
Proof.
  intros H p Hp. destruct (H (pt_user p) p eq_refl) as [Hu Ho]. split; [|done].
  unfold user in Hu. unfold tabled in *. by rewrite Hu.
Qed.
End keeps.
#[export] Hint Resolve keeps_os keeps_global keeps_fds_at keeps_set_pipe keeps_set_cerr : yields.

(** ** The streams of a process *)

Section streams.
Context {P : Resources} {E : Ei}.
Context (n : nat) (ds : list process_data).
Abbreviation keeps := (yields (tabled n ds)).

(** ... and element [i] is of the descriptor [fd]. *)
Definition tabled_at (i fd : Z) (p : port gepd) : Prop :=
  tabled n ds p /\ fd_at (gp_fds (pt_user p)) i = Some fd.

Abbreviation ends R := (hoare (tabled n ds) (fun (_ : R) _ => False)).

Lemma ends_fds_at {R} i :
  ends R (tabled n ds) (fun f => tabled_at i (pf_fd f)) (fds_at i).
Proof.
  intros p Hp. unfold fds_at, global, creads, cassert, cbind.
  destruct (i <? m_size _); [|done]. cbn [cret].
  destruct (m_p _ !! _ ≫= id) as [f|] eqn:Hf; [|done]. split; [done|]. unfold fd_at. by rewrite Hf.
Qed.

Lemma ends_fds_set {R} i f :
  0 <= i -> ends R (tabled_at i (pf_fd f)) (fun _ => tabled n ds) (fds_set i f).
Proof.
  intros Hi p [Hp Hf]. unfold fds_set, global, creads, cassert, cbind.
  destruct (i <? m_size _); [|done]. cbn [cret].
  destruct (Z.to_nat i <? _)%nat eqn:Hlt; [|done].
  assert (wf (gp_fds (pt_user p))) as [Hl Hs] by (destruct Hp as (_ & _ & l & [] & _); done).
  apply tabled_fds; [|done|done| |done].
  - split; [cbn; by rewrite length_insert|done].
  - intros j Hj. by apply fd_at_put_same.
Qed.

Lemma keeps_on_stream {R} (ρ : R -> Prop) keep i b j f :
  (forall u, yields (suser u) any any f) -> 0 <= i ->
  keeps any ρ (on_stream keep i b j f).
Proof.
  intros Hf Hi. apply yields_hoare.
  apply hoare_weaken with (X := tabled n ds) (ρ := fun _ _ => False)
    (Q := fun _ => tabled n ds); [|done|by intros|by intros].
  unfold on_stream. eapply hoare_bind; [apply ends_fds_at|]. intros fd.
  eapply (hoare_bind _ _ _ (fun _ => tabled_at i (pf_fd fd))); [by intros p Hp|]. intros g.
  eapply (hoare_bind _ _ _ (fun _ => tabled_at i (pf_fd fd))).
  { intros p [Hp Hfd]. unfold call. specialize (Hf (pt_user p)
      (mk_port_stream p (mk_stream (gp_pipe g (pf_fd fd)) (pf_revents fd) b j)) eq_refl).
    destruct (f _) as [o s]. destruct Hf as [Hu Ho]. unfold suser in Hu. cbn [fst snd] in Hu, Ho.
    assert (tabled_at i (pf_fd fd) (ps_port s)) as Hs by (unfold tabled_at, tabled; by rewrite Hu).
    destruct o; try done; apply Hs. }
  intros [status st].
  eapply (hoare_bind _ _ _ (fun _ => tabled_at i (pf_fd fd))).
  { intros p [Hp Hfd]. split; [|done]. by apply (keeps_set_pipe n ds ρ _ _ p). }
  intros _. eapply (hoare_bind _ _ _ (fun _ => tabled n ds)); [|by intros _ p Hp].
  destruct keep; [|by intros p []].
  eapply hoare_pre; [by apply ends_fds_set|]. done.
Qed.

Lemma keeps_has_revents {R} (ρ : R -> Prop) count i : keeps any ρ (has_revents count i).
Proof. unfold has_revents. yields. Qed.
#[local] Hint Resolve keeps_has_revents : yields.

Lemma keeps_poll_streams keep f count d :
  (forall name pid u, yields (suser u) any any (f name pid)) ->
  0 <= m_index_stdout d -> 0 <= m_index_stderr d ->
  keeps (fun '(_, _, d') => shape d' = shape d) (fun '(_, _, d') => shape d' = shape d)
    (poll_streams keep f count d).
Proof.
  intros Hf Ho He. unfold poll_streams.
  apply (yields_bind _ _ any); [apply keeps_has_revents|]. intros ready _.
  apply (yields_bind _ _ (fun '(_, d') => shape d' = shape d)).
  { destruct ready; [|by apply yields_ret].
    apply (yields_bind _ _ any); [by apply keeps_on_stream|]. intros [[status b] i] _. cbv zeta.
    apply (yields_bind _ _ any); [by apply yields_return_if|]. intros _ _. by apply yields_ret. }
  intros [count' d'] Hd.
  apply (yields_bind _ _ any); [apply keeps_has_revents|]. intros ready' _.
  apply (yields_bind _ _ (fun '(_, d'') => shape d'' = shape d)).
  { destruct ready'; [|by apply yields_ret].
    apply (yields_bind _ _ any).
    { apply keeps_on_stream; [done|]. unfold shape in Hd. congruence. }
    intros [[status b] i] _. cbv zeta.
    apply (yields_bind _ _ any); [by apply yields_return_if|]. intros _ _. by apply yields_ret. }
  intros [count'' d''] Hd'. by apply yields_return.
Qed.
End streams.

(** ** The loop over the processes *)

Section processes.
Context {P : Resources} {E : Ei}.
Context (n : nat).

Abbreviation ends R := (hoare (inv n) (fun (_ : R) => inv n)).

(** The members that matter of a process in the table. *)
Lemma tabled_process before d after p :
  tabled n (before ++ d :: after) p -> 0 <= m_index_stdout d /\ 0 <= m_index_stderr d.
Proof.
  intros (_ & _ & l & [_ _ _ Ht _ _] & _).
  pose proof (entries_length _ _ _ _ Ht) as Hl.
  rewrite length_app in Hl. cbn [length] in Hl. rewrite <- (take_drop (length before) l) in Ht.
  assert (length before = length (take (length before) l)) as Hb by (rewrite length_take; lia).
  apply entries_app in Ht as [_ Ht]; [|done].
  destruct (drop (length before) l); cbn [entries_at] in Ht; [done|].
  destruct Ht as ((_ & -> & -> & _) & _). lia.
Qed.

Lemma ends_remove before d after :
  ends Z (tabled n (before ++ d :: after))
    (fun after' p => length after' = length after /\ tabled n (before ++ after') p)
    (remove before d after).
Proof.
  intros p (Hsys & Hsh & l & Ht & Hpos).
  pose proof (entries_length _ _ _ _ (table_entries _ _ _ Ht)) as Hl.
  rewrite length_app in Hl. cbn [length] in Hl.
  destruct (drop (length before) l) as [|e la] eqn:Hd.
  { apply (f_equal length) in Hd. rewrite length_drop in Hd. cbn in Hd. lia. }
  rewrite <- (take_drop (length before) l), Hd in Ht, Hpos.
  apply Forall_app in Hpos as [Hpb Hpa]. apply Forall_cons in Hpa as [Hpe Hpa].
  destruct (remove_table before d after (take (length before) l) e la p Ht)
    as (a1 & a2 & a3 & a4 & p' & Hr & _ & Hproc & Ht' & _ & Hsame); [|done|].
  { rewrite length_take. lia. }
  assert (tabled n (before ++ (move_down <$> after)) p') as Hp'.
  { destruct Hsame as (H1 & H2 & H3). destruct Hsys as [Hs1 Hs2].
    split; [split; [by rewrite H2|by rewrite H1]|]. split; [by rewrite Hproc|].
    eexists. split; [exact Ht'|]. by apply Forall_app. }
  rewrite Hr. destruct (wait_status _ _); [|by eapply tabled_inv].
  split; [by rewrite length_fmap|done].
Qed.

Lemma shape_middle before d d' after :
  shape d' = shape d -> shape <$> (before ++ d' :: after) = shape <$> (before ++ d :: after).
Proof. intros H. rewrite !fmap_app. cbn. by rewrite H. Qed.

Lemma ends_poll_streams keep f before d after count :
  (forall name pid u, yields (suser u) any any (f name pid)) ->
  ends Z (tabled n (before ++ d :: after))
    (fun '(status, count, d') p => shape d' = shape d /\ tabled n (before ++ d' :: after) p)
    (let* (status, count, d') := call (poll_streams keep f count d) in
     update (set_processes (before ++ d' :: after));;;
     cret (status, count, d')).
Proof.
  intros Hf p Hp. destruct (tabled_process _ _ _ _ Hp) as [Ho He].
  pose proof (keeps_poll_streams n _ keep f count d Hf Ho He p Hp) as [Hk Hr].
  unfold cbind at 1, call. destruct (poll_streams keep f count d p) as [o p']. cbn [fst snd] in *.
  assert (forall d', shape d' = shape d ->
    shape d' = shape d /\
    tabled n (before ++ d' :: after)
      (with_user (set_processes (before ++ d' :: after) (pt_user p')) p')) as Hset.
  { intros d' Hd. split; [done|].
    assert (tabled n (before ++ d' :: after) p') as (H1 & H2 & l & [] & H4)
      by (eapply tabled_shape; [symmetry; by apply shape_middle|done]).
    split; [done|]. split; [done|]. exists l. by split. }
  destruct o as [[[st c] d']|[[st c] d']|x| | |]; cbn; try done;
    try (by apply Hset); by eapply tabled_inv.
Qed.

Lemma ends_step before d after (c : C (port gepd) polled polled)
    (k : Z -> Z -> process_data -> C (port gepd) Z unit) :
  ends Z (tabled n (before ++ d :: after))
    (fun '(status, count, d') p => shape d' = shape d /\ tabled n (before ++ d' :: after) p)
    (let* (status, count, d') := call c in
     update (set_processes (before ++ d' :: after));;; cret (status, count, d')) ->
  (forall st ct d', shape d' = shape d ->
    ends Z (tabled n (before ++ d' :: after)) (fun _ => inv n) (k st ct d')) ->
  ends Z (tabled n (before ++ d :: after)) (fun _ => inv n)
    (let* (status, count, d') := call c in
     update (set_processes (before ++ d' :: after));;; k status count d').
Proof.
  intros Hc Hk p Hp. specialize (Hc p Hp). unfold cbind in *.
  destruct (call c p) as [[[[st ct] d']|r|x| | |] p']; cbn in *; try done.
  destruct Hc as [Hd Hc]. by apply (Hk st ct d').
Qed.

Lemma ends_return_if (b : bool) (r : Z) Q :
  (forall p, Q p -> inv n p) -> ends Z Q (fun _ => Q) (creturn_if b r).
Proof. intros HQ p Hp. destruct b; cbn; auto. Qed.

Lemma ends_check_processes fuel before after count :
  (length after <= fuel)%nat ->
  ends Z (tabled n (before ++ after)) (fun _ => inv n) (check_processes before after fuel count).
Proof.
  revert before after count. induction fuel as [|fuel IH]; intros before [|d after] count Hf;
    cbn in Hf; try lia; try (intros p Hp; by eapply tabled_inv).
  cbn [check_processes]. destruct (0 <? count); [|intros p Hp; by eapply tabled_inv].
  apply ends_step; [apply ends_poll_streams; intros; apply suser_consume_stream|].
  intros st ct d1 Hd1. destruct (negb (st =? 0)).
  - eapply hoare_bind; [apply ends_return_if, tabled_inv|]. intros ?.
    apply ends_step; [apply ends_poll_streams; intros; apply suser_flush_stream|].
    intros st' ct' d2 Hd2. eapply hoare_bind; [apply ends_return_if, tabled_inv|]. intros ?.
    eapply hoare_bind; [apply ends_remove|]. intros after' p [Hl Hp].
    apply IH; [lia|done].
  - eapply hoare_pre; [apply IH; lia|]. intros p Hp. by rewrite <- app_assoc.
Qed.
End processes.

(** ** A command from Erlang *)

Section erlang.
Context {P : Resources} {E : Ei}.
Context (n : nat).

Lemma inv_user g g' : pt_user g = pt_user g' -> inv n g -> inv n g'.
Proof. unfold inv, tabled. by intros ->. Qed.

(** What the child does is not seen in the parent's table; the parent adds a
    process. *)
Lemma spawn_keeps a : yields (inv n) (fun _ => False) any (spawn a).
Proof.
  assert (forall c st, yields (inv n) any any (os_or_return c st)) as Hos.
  { intros c st. unfold os_or_return.
    apply (yields_bind _ _ any); [|by intros [] _; [apply yields_return|apply yields_ret]].
    intros p Hp. by apply (keeps_os n (gp_processes (pt_user p)) any c p). }
  unfold spawn.
  apply (yields_bind _ _ any); [unfold select_protocol; yields|]. intros [[domain type] h] _.
  apply (yields_bind _ _ any); [apply Hos|]. intros out _.
  apply (yields_bind _ _ any); [apply Hos|]. intros err _.
  apply (yields_bind _ _ (fun '(pid, _) => 0 <= pid)).
  { unfold os_or_return. apply (yields_bind _ _ (fun a => match a with Ok pid _ => 0 <= pid | _ => True end)).
    - intros p Hp. split; [by apply (keeps_os n (gp_processes (pt_user p)) (R := spawn_end) any Fork p)|].
      cbn. destruct (gp_os _ _ _) as [|x y] eqn:Hf; [done|]. destruct Hp as ([_ Hfork] & _).
      by eapply Hfork.
    - intros [e|x y] Hx; [by apply yields_return|by apply yields_ret]. }
  intros [pid x] Hpid. destruct (Z.eqb_spec pid 0) as [Hz|Hz].
  - intros p Hp. pose proof (calls_child (m_p (pt_buffer p)) a domain type h out err p eq_refl)
      as (l & Hl & Ht). rewrite Hl. split.
    + apply (keeps_traced n (gp_processes (pt_user p)) l p Hp).
    + unfold child_trace in Ht. by destruct (fst _).
  - intros p Hp. destruct Hp as (Hsys & Hsh & l & Ht & Hpos).
    destruct (parent_table pid out err l p Ht) as (r & p' & Hr & _ & (H1 & H2 & H3) & Hcase).
    rewrite Hr. split; [|done]. destruct Hsys as [Hs1 Hs2].
    assert (system n (pt_user p')) as Hsys' by (split; [by rewrite H2|by rewrite H1]).
    split; [done|]. split; [done|].
    destruct r as [z|z|]; [destruct Hcase as [(_ & _ & Htab)|[_ Htab]]|destruct Hcase as (_ & Htab & _)|done].
    + eexists. split; [exact Htab|]. apply Forall_app. split; [done|].
      constructor; [cbn; lia|done].
    + by exists l.
    + by exists l.
Qed.

Lemma spawn_body_keeps args : yields (inv n) any any (spawn_body args).
Proof.
  unfold spawn_body. repeat (match goal with |- yields _ _ _ (match ?x with _ => _ end) => destruct x end;
    try apply yields_undef).
  apply (yields_bind _ _ any).
  { apply yields_call. apply (yields_bind _ _ (fun _ => False)); [apply spawn_keeps|done]. }
  intros [w|w|] _; [by apply yields_return|apply yields_blocked..].
Qed.

Lemma inv_of_user {R A} (φ : A -> Prop) (ρ : R -> Prop) (c : C (port gepd) R A) :
  (forall u, yields (user u) φ ρ c) -> yields (inv n) φ ρ c.
Proof.
  intros H p Hp. destruct (H (pt_user p) p eq_refl) as [Hu Ho]. split; [|done].
  by eapply inv_user.
Qed.

Lemma consume_erlang_keeps r : yields (inv n) any any (consume_erlang [spawn_function] r).
Proof.
  unfold consume_erlang. repeat case_match; try (by apply yields_return).
  apply (yields_bind _ _ any); [apply yields_call, inv_of_user; intros; apply user_read_cmd|].
  intros status _. apply (yields_bind _ _ any); [by apply yields_return_if|]. intros _ _.
  apply (yields_bind _ _ any); [by apply yields_reads|]. intros b _.
  apply (yields_bind _ _ any); [apply yields_opt_any|]. intros bs _. cbv zeta.
  destruct (function_number _ _) as [f|] eqn:Hf.
  - assert (f = spawn_function) as ->.
    { unfold function_number in Hf. destruct (_ <=? _); [|done].
      apply list_elem_of_lookup_2, list_elem_of_singleton in Hf. done. }
    unfold create_function. cbn [fn_argv fn_body fn_return spawn_function].
    apply (yields_bind _ _ any); [apply inv_of_user; intros; apply user_offset_args|]. intros offs _.
    apply (yields_bind _ _ any); [apply inv_of_user; intros; apply user_get_args|]. intros args _.
    apply (yields_bind _ _ any); [apply yields_call, spawn_body_keeps|]. intros v _.
    apply (yields_bind _ _ any); [apply inv_of_user; intros; apply user_integer_ret|]. intros i _.
    apply inv_of_user; intros; apply user_write_reply.
  - apply (yields_bind _ _ any); [apply inv_of_user; intros; apply user_reply_error|]. intros i _.
    apply inv_of_user; intros; apply user_write_reply.
Qed.
End erlang.

(** ** A round *)

Section rounds.
Context {P : Resources} {E : Ei}.

(** The end of a round: whatever it is, at most [N] answers of [poll] are to
    come. *)
Abbreviation ends N := (hoare (inv N) (fun (_ : Z) => inv N)).

Lemma inv_fewer n n' p : (n <= n')%nat -> inv n p -> inv n' p.
Proof. apply tabled_weaken. Qed.

Lemma ends_inv {A} N n (Q : A -> port gepd -> Prop) c :
  (forall ds, ends N (tabled n ds) Q c) -> ends N (inv n) Q c.
Proof. intros H p Hp. by apply (H (gp_processes (pt_user p))). Qed.

Lemma ends_tabled {A} N n ds (Q : A -> port gepd -> Prop) P' (c : C (port gepd) Z A) :
  (n <= N)%nat -> hoare (tabled n ds) (fun _ _ => False) P' Q c -> ends N P' Q c.
Proof.
  intros Hn H. eapply hoare_weaken; [exact H| |done|done].
  intros p Hp. eapply inv_fewer; [exact Hn|]. by eapply tabled_inv.
Qed.

Lemma ends_keeps {A} N n (φ : A -> Prop) (c : C (port gepd) Z A) :
  (n <= N)%nat -> (forall ds, yields (tabled n ds) φ any c) -> ends N (inv n) (fun _ => inv n) c.
Proof.
  intros Hn H. apply ends_inv. intros ds. eapply hoare_yields; [apply H|..]; cbn; intros.
  - by eapply tabled_inv.
  - eapply inv_fewer; [exact Hn|]. by eapply tabled_inv.
  - eapply inv_fewer; [exact Hn|]. by eapply tabled_inv.
Qed.

Lemma ends_yields {A} N n (φ : A -> Prop) (c : C (port gepd) Z A) :
  (n <= N)%nat -> yields (inv n) φ any c -> ends N (inv n) (fun _ => inv n) c.
Proof. intros Hn H. eapply hoare_yields; [exact H|..]; cbn; intros; by eapply inv_fewer. Qed.

Lemma ends_return N n b r : (n <= N)%nat -> ends N (inv n) (fun _ => inv n) (creturn_if b r).
Proof. intros Hn. apply (ends_yields _ _ any); [done|]. by apply yields_return_if. Qed.

Lemma ends_done {A} N n (a : A) : ends N (inv n) (fun _ => inv n) (cret a).
Proof. by intros p Hp. Qed.

(** ... where the kernel stores what is ready. *)
Lemma length_store_revents fds l :
  (length l <= length fds)%nat -> length (store_revents fds l) = length fds.
Proof.
  intros Hl. unfold store_revents.
  rewrite length_app, length_zip_with, length_take, length_drop. lia.
Qed.

Lemma store_revents_lookup fds l i :
  (length l <= length fds)%nat ->
  (pf_fd <$> (store_revents fds l !! i ≫= id)) = (pf_fd <$> (fds !! i ≫= id)).
Proof.
  intros Hl. unfold store_revents. destruct (decide (i < length l)%nat) as [Hi|Hi].
  - rewrite lookup_app_l by (rewrite length_zip_with, length_take; lia).
    rewrite lookup_zip_with, lookup_take_lt by done.
    destruct (fds !! i) as [f|] eqn:Hf; [|done]. cbn.
    destruct (lookup_lt_is_Some_2 l i Hi) as [r Hr]. rewrite Hr. cbn. by destruct f.
  - rewrite lookup_app_r by (rewrite length_zip_with, length_take; lia).
    rewrite lookup_drop, length_zip_with, length_take. do 2 f_equal. f_equal. lia.
Qed.

Lemma tabled_polls n ds p a rest :
  gp_polls (pt_user p) = a :: rest -> tabled (S n) ds p ->
  tabled n ds (with_user (set_gp_polls rest (pt_user p)) p).
Proof.
  intros Ha ([H1 H1'] & H2 & l & [] & H4). rewrite Ha in H1. cbn in H1.
  split; [split; [cbn; lia|done]|]. split; [done|]. exists l. by split.
Qed.

(** A call of [poll] takes one answer. *)
Lemma ends_poll_all N n :
  (n <= N)%nat ->
  ends N (inv n) (fun _ p => match n with O => False | S m => inv m p end) poll_all.
Proof.
  intros Hn. apply ends_inv. intros ds p Hp. unfold poll_all, creads, cbind.
  destruct (gp_polls (pt_user p)) as [|[e|l] rest] eqn:Ha.
  - eapply inv_fewer; [exact Hn|]. by eapply tabled_inv.
  - destruct n as [|n]; [destruct Hp as ([H _] & _); rewrite Ha in H; cbn in H; lia|].
    eapply tabled_inv, tabled_polls; [exact Ha|exact Hp].
  - set (l' := take _ l). destruct (_ =? 0)%nat; [eapply inv_fewer; [exact Hn|by eapply tabled_inv]|].
    destruct n as [|n]; [destruct Hp as ([H _] & _); rewrite Ha in H; cbn in H; lia|].
    pose proof (tabled_polls n ds p _ _ Ha Hp) as Hp'.
    assert (wf (gp_fds (pt_user p)) /\ (length l' <= length (m_p (gp_fds (pt_user p))))%nat)
      as [[Hl Hs] Hlen].
    { destruct Hp as (_ & _ & l0 & [[Hl Hs] _ _ _ Hnf Hroom] & _). split; [done|].
      unfold l'. rewrite length_take. lia. }
    apply (tabled_inv n ds). apply (tabled_fds n ds
      (with_user (set_gp_polls rest (pt_user p)) p)
      (set_cells (gp_fds (pt_user p)) (store_revents (m_p (gp_fds (pt_user p))) l'))); [|done|done| |done].
    + split; [cbn; by rewrite length_store_revents|done].
    + intros j Hj. by apply store_revents_lookup.
Qed.

Lemma ends_wait_erlang N n count :
  (n <= N)%nat ->
  ends N (inv n) (fun _ => inv n) (wait_erlang [spawn_function] count).
Proof.
  intros Hn. unfold wait_erlang.
  eapply hoare_bind; [eapply ends_keeps; [done|]; intros; apply keeps_has_revents|].
  intros [|]; [|apply ends_done]. apply ends_inv. intros ds.
  eapply hoare_bind; [eapply ends_tabled; [exact Hn|apply ends_fds_at]|]. intros f.
  eapply (hoare_bind _ _ _ (fun _ => tabled n ds)).
  { destruct (_ || _); [by intros p []|].
    eapply ends_tabled; [exact Hn|].
    by apply (ends_fds_set n ds INDEX_ERLANG (mk_pollfd (pf_fd f) (pf_events f) 0)). }
  intros _. eapply hoare_pre; [|apply tabled_inv].
  eapply hoare_bind.
  { apply (ends_yields _ _ any); [done|]. apply yields_call, consume_erlang_keeps. }
  intros status.
  eapply hoare_bind; [by apply ends_return|]. intros ?. apply ends_done.
Qed.

Lemma ends_wait_stream N n pid count i name b j :
  (n <= N)%nat -> 0 <= i ->
  ends N (inv n) (fun _ => inv n) (wait_stream pid count i name b j).
Proof.
  intros Hn Hi. unfold wait_stream.
  eapply hoare_bind; [eapply ends_keeps; [done|]; intros; apply keeps_has_revents|].
  intros [|]; [|apply ends_done].
  eapply hoare_bind.
  { eapply ends_keeps; [done|]. intros. apply keeps_on_stream; [|done].
    intros. apply suser_consume_stream. }
  intros [[status b'] j'].
  eapply hoare_bind; [by apply ends_return|]. intros ?. apply ends_done.
Qed.

Lemma ends_wait_round N n pid ms :
  (n <= N)%nat ->
  ends N (inv n) (fun _ p => match n with O => False | S m => inv m p end)
    (wait_round [spawn_function] pid ms).
Proof.
  intros Hn. unfold wait_round. eapply hoare_bind; [by apply ends_poll_all|].
  destruct n as [|n]; [by intros ? p []|].
  intros [e|count]; [intros p Hp; eapply inv_fewer; [|exact Hp]; lia|].
  eapply hoare_bind; [apply ends_wait_erlang; lia|]. intros c.
  eapply hoare_bind; [apply ends_wait_stream; [lia|done]|]. intros [[c2 b2] i2].
  eapply hoare_bind; [apply ends_wait_stream; [lia|done]|]. intros [[c1 b1] i1].
  apply ends_done.
Qed.

Lemma ends_main_loop N fuel n pid ms :
  (n <= N)%nat -> (n < fuel)%nat ->
  ends N (inv n) (fun (_ : Z) _ => False) (main_loop fuel [spawn_function] pid ms).
Proof.
  revert n ms. induction fuel as [|fuel IH]; intros n ms Hn Hf; [lia|]. cbn [main_loop].
  eapply hoare_bind; [by apply ends_wait_round|].
  destruct n as [|n]; [by intros ? p []|]. intros [count ms'].
  eapply (hoare_bind _ _ _ (fun _ => inv n)).
  { destruct (0 <? count); [|apply ends_done]. intros p Hp.
    pose proof (ends_check_processes n (S (length (gp_processes (pt_user p)))) []
      (gp_processes (pt_user p)) count ltac:(lia) p Hp) as H.
    unfold cbind, global, creads. destruct (check_processes _ _ _ _ p) as [[] p'];
      try done; (eapply inv_fewer; [|exact H]; lia). }
  intros _. apply IH; lia.
Qed.
End rounds.

(** ** The whole program *)

Section whole.
Context {P : Resources} {E : Ei}.

(** No process yet: the poll set is as the static members are constructed,
    with the descriptors [own] stored in its first elements. *)
Definition starting (n : nat) (own : list Z) (p : port gepd) : Prop :=
  let g := pt_user p in
  system n g /\ gp_nfds g = 0 /\ gp_processes g = [] /\ wf (gp_fds g) /\
  4 <= m_size (gp_fds g) < 2 ^ 62 /\ m_maxSize (gp_fds g) < 2 ^ 61 /\
  forall i fd, own !! i = Some fd -> fd_at (gp_fds g) (Z.of_nat i) = Some fd.

(** An error has a status of its own. *)
Definition failing (n : nat) (st : Z) (p : port gepd) : Prop := st <> 0 /\ starting n [] p.
Abbreviation ends n := (hoare (starting n []) (failing n)).

Lemma starting_less n own p : starting n own p -> starting n [] p.
Proof. intros (H1 & H2 & H3 & H4 & H5 & H6 & _). do 6 (split; [done|]). done. Qed.

Lemma ends_return_error {A} n own (Q : A -> port gepd -> Prop) (e : GEPD.exit_status) :
  GEPD.value e <> 0 -> ends n (starting n own) Q (creturn (GEPD.value e)).
Proof. intros He p Hp. split; [done|]. by eapply starting_less. Qed.

Lemma ends_store_standard_fd n own fd :
  ends n (starting n own) (fun _ => starting n own) (store_standard_fd fd).
Proof.
  assert (forall c, ends n (starting n own) (fun _ => starting n own) (os c)) as Hos
    by (intros c p Hp; exact Hp).
  unfold store_standard_fd.
  eapply hoare_bind; [apply Hos|]. intros [e|out in_]; [apply ends_return_error; by destruct e|].
  eapply hoare_bind; [apply Hos|]. intros [e|? ?]; [apply ends_return_error; by destruct e|].
  eapply hoare_bind; [apply Hos|]. intros [e|? ?]; [apply ends_return_error; by destruct e|].
  by intros p Hp.
Qed.

Lemma ends_own n own i f :
  i = Z.of_nat (length own) -> i < 4 ->
  ends n (starting n own) (fun _ => starting n (own ++ [pf_fd f])) (fds_set i f).
Proof.
  intros Hi H4 p (H1 & H2 & H3 & Hwf & Hs & Hx & Hown).
  rewrite fds_set_ok by (done || lia).
  split; [done|]. split; [done|]. split; [done|]. split; [by apply wf_put|].
  split; [cbn; lia|]. split; [cbn; lia|]. intros j fd Hj. cbn [pt_user with_user].
  rewrite fd_at_put by (done || lia).
  destruct (Z.eqb_spec (Z.of_nat j) i) as [Hji|Hji].
  - rewrite lookup_app_r in Hj by lia. replace (j - length own)%nat with O in Hj by lia.
    by injection Hj as ->.
  - apply Hown. rewrite lookup_app_l in Hj; [done|]. apply lookup_lt_Some in Hj.
    rewrite length_app in Hj. cbn in Hj. lia.
Qed.

Lemma starting_table n fd0 fd1 fd2 p :
  starting n [fd0; fd1; fd2] p -> inv n (with_user (set_nfds 3 (pt_user p)) p).
Proof.
  intros (H1 & H2 & H3 & Hwf & Hs & Hx & Hown).
  split; [done|]. split; [done|]. exists []. split; [|done].
  cbn [pt_user with_user]. split; cbn; try lia; try done.
  - intros i Hi. assert (i = 0 \/ i = 1 \/ i = 2) as [-> | [-> | ->]] by lia.
    + exists fd0. by apply (Hown 0%nat).
    + exists fd1. by apply (Hown 1%nat).
    + exists fd2. by apply (Hown 2%nat).
  - by rewrite H3.
Qed.

Lemma ends_init n :
  hoare (starting n []) (fun st p => failing n st p \/ st = 0 /\ inv n p)
    (starting n []) (fun _ _ => False) init.
Proof.
  intros p Hp. unfold init. assert (gp_nfds (pt_user p) = 0) as Hn by apply Hp.
  unfold global at 1. unfold cbind at 1, creads. rewrite Hn. cbn [Z.ltb Z.compare].
  unfold cbind at 1, cret.
  assert (forall A Q Q' (c : C (port gepd) Z A), ends n Q Q' c ->
    hoare (starting n []) (fun st p => failing n st p \/ st = 0 /\ inv n p) Q Q' c) as He.
  { intros A Q Q' c H. eapply hoare_weaken; [exact H|done| |done]. auto. }
  revert p Hp Hn. eenough (hoare _ _ (starting n []) (fun _ _ => False) _) as H
    by (intros p Hp _; exact (H p Hp)).
  eapply hoare_bind; [apply He, ends_store_standard_fd|]. intros [out x].
  eapply hoare_bind; [by apply He, ends_own|]. intros ?.
  eapply hoare_bind; [apply He, ends_store_standard_fd|]. intros [err y].
  eapply hoare_bind; [by apply He, ends_own|]. intros ?.
  eapply hoare_bind; [by apply He, ends_own|]. intros ?.
  intros p Hp. exact (or_intror (conj eq_refl (starting_table n _ _ _ p Hp))).
Qed.

(** The static members before [main]. *)
Definition static_members (g : gepd) : Prop :=
  gp_fds g = construct sizeof_pollfd 4 65536 /\ gp_nfds g = 0 /\ gp_processes g = [].

Lemma static_starting n p :
  system n (pt_user p) -> static_members (pt_user p) -> starting n [] p.
Proof.
  intros Hs (Hf & Hn & Hp). unfold starting. cbv zeta. rewrite Hf.
  split; [done|]. split; [done|]. split; [done|]. split; [by split|].
  split; [by split|]. by split.
Qed.

Lemma ends_rounds n fuel ms :
  (n < fuel)%nat ->
  hoare (inv n) (fun (_ : Z) => inv n) (inv n) (fun (_ : Z) _ => False)
    (let* pid := os Getpid in
     let* pid := copt (match pid with Ok pid _ => Some pid | Failed _ => None end) in
     main_loop fuel [spawn_function] pid ms).
Proof.
  intros Hf. eapply hoare_bind; [eapply ends_keeps; [done|]; intros; apply keeps_os|]. intros a.
  eapply (hoare_bind _ _ _ (fun _ => inv n)); [destruct a; by intros p Hp|]. intros pid.
  by apply ends_main_loop.
Qed.

(** C18. Whatever Erlang sends, the processes write, the system calls answer
    and the order they become ready in: as long as [poll] answers, the port
    goes on, none of its loops is without end, and when it ends (a status, a
    failed assertion) or waits for ever, the poll set and the vector of
    processes are the table of some list of running processes, the pipes of
    the port itself in front; before its own pipes are there, there is no
    process. *)
Theorem main_keeps_table fuel p
    (Hfork : forall tr a b, gp_os (pt_user p) tr Fork = Ok a b -> 0 <= a)
    (Hstart : static_members (pt_user p))
    (Hfuel : (length (gp_polls (pt_user p)) < fuel)%nat) :
  match main fuel p with
  | (NoFuel, _) => False
  | (o, p') =>
      (exists l, table (pt_user p') (gp_processes (pt_user p')) l /\
        Forall (fun e => 0 < en_pid e) l) \/
      gp_nfds (pt_user p') = 0 /\ gp_processes (pt_user p') = [] /\
        (forall st, o = Return st -> st <> 0)
  end.
Proof.
  set (n := length (gp_polls (pt_user p))) in *.
  assert (starting n [] p) as Hp by (apply static_starting; [by split|done]).
  assert (forall p', inv n p' -> exists l, table (pt_user p') (gp_processes (pt_user p')) l /\
    Forall (fun e => 0 < en_pid e) l) as Hinv by (intros p' (_ & _ & H); exact H).
  pose proof (ends_init n p Hp) as Hi. unfold main.
  unfold cbind at 1. cbn [cassert Z.eqb]. change (spawn_status.last_value =? GEPD.min) with true.
  cbn [cassert]. unfold cret. unfold cbind at 1, call.
  assert (forall p', starting n [] p' -> gp_nfds (pt_user p') = 0 /\ gp_processes (pt_user p') = [])
    as Hs by (intros p' (_ & ? & ? & _); done).
  destruct (init p) as [o p1]. destruct o as [z|z|e| | |]; try done.
  - destruct Hi as [[Hz Hp1]|[-> Hp1]].
    + unfold cbind at 1. rewrite (proj2 (Z.eqb_neq _ _) Hz). cbn [negb creturn_if creturn].
      right. destruct (Hs _ Hp1). split_and!; [done..|]. by intros st [= <-].
    + unfold cbind at 1. cbn [Z.eqb negb creturn_if cret].
      pose proof (ends_rounds n fuel (mk_main_streams (construct 1 1 16384) 0
        (construct 1 1 16384) 0) Hfuel p1 Hp1) as H.
      destruct (cbind _ _ p1) as [[] p']; try done; left; by apply Hinv.
  - right. destruct (Hs _ Hi). by split_and!.
  - right. destruct (Hs _ Hi). by split_and!.
  - right. destruct (Hs _ Hi). by split_and!.
Qed.
End whole.

(** ** Example *)

(** [poll] answers once, that it was interrupted. *)
Definition example_start : port gepd :=
  mk_port (mk_sys [] [] [] [] [] [] (fun _ => true)) (construct 1 1 1024)
    (mk_gepd (fun _ c => match c with Pipe => Ok 10 11 | _ => Ok 0 0 end) [] (fun _ => true)
       [inl EINTR] (fun _ => mk_sys [] [] [] [] [] [] (fun _ => true))
       (construct sizeof_pollfd 4 65536) 0 [] []).

Lemma example_start_fork tr a b : gp_os (pt_user example_start) tr Fork = Ok a b -> 0 <= a.
Proof. cbn. intros [= <- <-]. lia. Qed.

Lemma example_start_static : static_members (pt_user example_start).
Proof. done. Qed.

Lemma main_keeps_table_witness :
  match main (P := example_resources) 2 example_start with
  | (Return st, p') => st = 106 /\ exists l, table (pt_user p') [] l
  | _ => False
  end.
Proof.
  assert (match main (P := example_resources) 2 example_start with
    | (Return st, p') => (st =? 106) = true /\ gp_processes (pt_user p') = [] /\
        (gp_nfds (pt_user p') =? 0) = false
    | _ => False
    end) as Hc by (vm_compute; by split_and!).
  pose proof (main_keeps_table (P := example_resources) 2 example_start
    example_start_fork example_start_static (le_n _)) as H.
  destruct (main (P := example_resources) 2 example_start) as [[r|st|e| | |] p'];
    try (destruct Hc; fail).
  all: try (exfalso; exact Hc).
  destruct Hc as (Hst & Hp & Hn). apply Z.eqb_eq in Hst. apply Z.eqb_neq in Hn.
  split; [exact Hst|]. rewrite Hp in H.
  destruct H as [(l & Hl & _)|(Hn' & _)]; [by exists l|by destruct (Hn Hn')].
Defined.
