(* ===== verification/SpawnCall.v ===== *)
(** * A process is spawned

    The call Erlang makes for a process, from the frame it writes to what
    becomes of it: in the child, the program that runs and what was done
    before it; in the port, the new entry of the table and the reply. *)

From S2P Require Import Prelude CMonad Status Sys ReallocPtr Framing Instance Ei ExitStatus Marshal Port Stream Posix Owner Rlimit Spawn Restrict ChildSetup Process Table MainLoop.

(** ** What Erlang asks for  (start_external_spawn, cloudi_core_i_spawn.erl) *)

Record spawn_request : Type := mk_request {
  rq_protocol : Z;
  rq_socket_path : bytes;
  rq_ports : list Z;
  rq_rlimits : list (limit_type * limits);
  rq_user_i : Z;
  rq_user : bytes;
  rq_group_i : Z;
  rq_group : bytes;
  rq_nice : Z;
  rq_chroot : bytes;
  rq_directory : bytes;
  rq_filename : bytes;
  rq_arguments : list bytes;
  rq_environment : list bytes
}.

Definition spawn_terms (q : spawn_request) : list erl_term :=
  [ EInt (rq_protocol q);
    EBinary (string_terminate (rq_socket_path q));
    EList (rq_ports q);
    EBinary (limit_format (rq_rlimits q));
    EInt (rq_user_i q);
    EBinary (string_terminate (rq_user q));
    EInt (rq_group_i q);
    EBinary (string_terminate (rq_group q));
    EInt (rq_nice q);
    EBinary (string_terminate (rq_chroot q));
    EBinary (string_terminate (rq_directory q));
    EBinary (string_terminate (rq_filename q));
    EBinary (string_terminate (arguments_join (rq_arguments q)));
    EBinary (environment_format (rq_environment q)) ].

(** A request that is valid: the integers and the lengths fit their types, no
    string has a null, and the first argument and the first variable are not
    empty. *)
Record request_ok (q : spawn_request) : Prop := {
  ok_protocol : rq_protocol q = 116 \/ rq_protocol q = 117 \/ rq_protocol q = 108;
  ok_rlimits : Forall limits_ok (rq_rlimits q).*2;
  ok_user_i : 0 <= rq_user_i q < 2 ^ 64;
  ok_group_i : 0 <= rq_group_i q < 2 ^ 64;
  ok_nice : - 2 ^ 31 <= rq_nice q < 2 ^ 31;
  ok_strings : no_null [rq_user q; rq_group q; rq_chroot q; rq_directory q; rq_filename q];
  ok_arguments : no_null (rq_arguments q) /\ head (rq_arguments q) <> Some [];
  ok_environment : rq_environment q <> [] /\ no_null (rq_environment q) /\
    head (rq_environment q) <> Some [];
  ok_lengths :
    Z.of_nat (length (string_terminate (arguments_join (rq_arguments q)))) < 2 ^ 32 /\
    Z.of_nat (length (environment_format (rq_environment q))) < 2 ^ 32
}.

Lemma spawn_terms_ok q : request_ok q -> Forall2 term_ok spawn_types (spawn_terms q).
Proof.
  intros []. repeat constructor; cbn; try lia.
Qed.

(** ** Specification of a child

    The restrictions of [restricted], of a request. *)

Section specification.
Context {P : Resources}.

Definition given (s : bytes) : bool := bool_decide (s <> []).

Definition owner_found (q : spawn_request) (uid gid : Z) (l : list event) : Prop :=
  exists gid0 lu lg, l = lu ++ lg /\
    (if (uid_t (rq_user_i q) =? 0) && given (rq_user q) then
       exists pw_uid pw_gid, lu = [(Getpwnam (rq_user q), Ok pw_uid pw_gid)] /\
         uid = uid_t pw_uid /\
         gid0 = if (uid_t (rq_group_i q) =? 0) && negb (given (rq_group q))
                then uid_t pw_gid else uid_t (rq_group_i q)
     else lu = [] /\ uid = uid_t (rq_user_i q) /\ gid0 = uid_t (rq_group_i q)) /\
    (if (gid0 =? 0) && given (rq_group q) then
       exists gr_gid x, lg = [(Getgrnam (rq_group q), Ok gr_gid x)] /\ gid = uid_t gr_gid
     else lg = [] /\ gid = gid0).

Definition root_entered (q : spawn_request) (l : list event) : Prop :=
  exists l1 l2, l = l1 ++ l2 /\
    when (given (rq_chroot q)) (Chroot (rq_chroot q)) l1 /\
    when (given (rq_chroot q) && negb (given (rq_directory q))) (Chdir (chars "/")) l2.

(** Each limit is set, with the other one of its resource as it was. *)
Definition limit_set (e : limit_type * limits) (l : list event) : Prop :=
  exists r x y, RLIMIT e.1 = Some r /\
    match e.2 with
    | Both c m => l = [(Setrlimit r (limit_denotes c) (limit_denotes m), Ok x y)]
    | Current c => exists c' m,
        l = [(Getrlimit r, Ok c' m); (Setrlimit r (limit_denotes c) m, Ok x y)]
    | Maximum m => exists c m',
        l = [(Getrlimit r, Ok c m'); (Setrlimit r c (limit_denotes m), Ok x y)]
    end.

Definition limits_set (es : list (limit_type * limits)) (l : list event) : Prop :=
  exists ls, l = concat ls /\ Forall2 limit_set es ls.

Definition confined (q : spawn_request) (l : list event) : Prop :=
  exists uid gid found root limits nice owner directory,
    l = found ++ root ++ limits ++ nice ++ owner ++ directory /\
    owner_found q uid gid found /\
    root_entered q root /\
    limits_set (rq_rlimits q) limits /\
    when (negb (rq_nice q =? 0)) (Nice (rq_nice q)) nice /\
    owner_changed uid gid owner /\
    when (given (rq_directory q)) (Chdir (rq_directory q)) directory.

(** What the events of a child are that ran a program, and of one that did
    not. *)
Definition spawned (q : spawn_request) (l : list event) : Prop :=
  Forall no_program l \/
  exists before confinement x y,
    l = before ++ confinement ++
      [(Execve (rq_filename q) (rq_filename q :: rq_arguments q) (rq_environment q), Ok x y)] /\
    Forall no_program before /\ confined q confinement.
End specification.

(** ** The arguments of the call *)

Lemma string_terminate_eq s : string_terminate s = s ++ [NUL].
Proof. by destruct s. Qed.

(** The arguments [a], in the memory [m], are the request. *)
Record described (m : cells) (q : spawn_request) (a : spawn_args) : Prop := {
  ds_protocol : a_protocol a = rq_protocol q;
  ds_rlimits : 0 <= a_rlimits a /\
    holds m (Z.to_nat (a_rlimits a)) (limit_format (rq_rlimits q)) /\
    a_rlimits_len a = Z.of_nat (length (limit_format (rq_rlimits q)));
  ds_user_i : a_user_i a = rq_user_i q;
  ds_user : holds m (Z.to_nat (a_user_str a)) (rq_user q ++ [NUL]) /\
    a_user_str_len a = Z.of_nat (length (rq_user q)) + 1;
  ds_group_i : a_group_i a = rq_group_i q;
  ds_group : holds m (Z.to_nat (a_group_str a)) (rq_group q ++ [NUL]) /\
    a_group_str_len a = Z.of_nat (length (rq_group q)) + 1;
  ds_nice : a_nice a = rq_nice q;
  ds_chroot : holds m (Z.to_nat (a_chroot_directory a)) (rq_chroot q ++ [NUL]) /\
    a_chroot_directory_len a = Z.of_nat (length (rq_chroot q)) + 1;
  ds_directory : holds m (Z.to_nat (a_directory a)) (rq_directory q ++ [NUL]) /\
    a_directory_len a = Z.of_nat (length (rq_directory q)) + 1;
  ds_filename : 0 <= a_filename a /\
    holds m (Z.to_nat (a_filename a)) (rq_filename q ++ [NUL]);
  ds_argv : 0 <= a_argv a /\
    holds m (Z.to_nat (a_argv a)) (string_terminate (arguments_join (rq_arguments q))) /\
    a_argv_len a = Z.of_nat (length (string_terminate (arguments_join (rq_arguments q))));
  ds_env : 0 <= a_env a /\
    holds m (Z.to_nat (a_env a)) (environment_format (rq_environment q)) /\
    a_env_len a = Z.of_nat (length (environment_format (rq_environment q)))
}.

(** The call of [spawn] in [spawn_body]. *)
Definition spawn_returns {P : Resources} {E : Ei} (a : spawn_args) :
    C (port gepd) ret_value ret_value :=
  let* r := call (let* _ := spawn a in cundef) in
  match r with
  | Returned status => creturn (RInt (sint 4 status))
  | Exited _ | Executed => cblocked
  end.

Lemma Forall3_cons_l {A B D} (R : A -> B -> D -> Prop) x xs y ys zs :
  Forall3 R (x :: xs) (y :: ys) zs ->
  exists z zs', zs = z :: zs' /\ R x y z /\ Forall3 R xs ys zs'.
Proof. intros H. inversion H; subst. eauto. Qed.

Lemma spawn_body_described {P : Resources} {E : Ei} m q args :
  call_denotes m spawn_types (spawn_terms q) args ->
  exists a, described m q a /\ spawn_body args = spawn_returns a.
Proof.
  intros (vss & H & ->). unfold spawn_types, spawn_terms in H.
  repeat (apply Forall3_cons_l in H as (? & ? & -> & ? & H)).
  inversion H; subst. cbn [arg_denotes] in *.
  repeat match goal with
  | H : exists _, _ |- _ => destruct H as (? & ? & ? & ?)
  end. subst. cbn [concat app spawn_body].
  eexists. split; [|reflexivity].
  split; cbn [a_protocol a_rlimits a_rlimits_len a_user_i a_user_str a_user_str_len a_group_i
    a_group_str a_group_str_len a_nice a_chroot_directory a_chroot_directory_len a_directory
    a_directory_len a_filename a_argv a_argv_len a_env a_env_len];
    rewrite <- ?string_terminate_eq; try done;
    (split; [done|]); rewrite ?string_terminate_eq, ?length_app; cbn; lia.
Qed.

(** ** The child *)

Section child.
Context {P : Resources} {E : Ei}.
Context (m : cells) (q : spawn_request) (a : spawn_args).
Context (Hq : request_ok q) (Ha : described m q a).

Lemma points_to_is off s s' :
  NUL ∉ s -> holds m (Z.to_nat off) (s ++ [NUL]) -> points_to m off s' -> s' = s.
Proof.
  intros Hn Hh Hp. unfold points_to in Hp. rewrite (cstr_of_holds s) in Hp by done. congruence.
Qed.

Lemma given_len s : (1 <? Z.of_nat (length s) + 1) = given s.
Proof.
  unfold given. destruct s; [done|]. rewrite bool_decide_true by done. apply Z.ltb_lt. cbn. lia.
Qed.

Lemma not_given_len s : (Z.of_nat (length s) + 1 =? 1) = negb (given s).
Proof.
  unfold given. destruct s; [done|]. rewrite bool_decide_true by done. apply Z.eqb_neq. cbn. lia.
Qed.

Lemma owner_looked_up_found uid gid l :
  owner_looked_up m a uid gid l -> owner_found q uid gid l.
Proof.
  destruct Ha, Hq as [_ _ _ _ _ Hs _ _ _].
  apply Forall_cons in Hs as [Hu Hs]. apply Forall_cons in Hs as [Hg _].
  intros (gid0 & lu & lg & Hl & H1 & H2). exists gid0, lu, lg. split; [done|].
  destruct ds_user0 as [Hm1 Hl1], ds_group0 as [Hm2 Hl2].
  rewrite ds_user_i0, ds_group_i0, Hl1, Hl2, given_len, not_given_len in H1.
  rewrite Hl2, given_len in H2. split.
  - destruct ((uid_t (rq_user_i q) =? 0) && given (rq_user q)); [|done]. destruct H1 as (name & x & y & Hn & ? & ? & ?).
    rewrite (points_to_is _ _ _ Hu Hm1 Hn) in *. by exists x, y.
  - destruct ((gid0 =? 0) && given (rq_group q)); [|done]. destruct H2 as (name & x & y & Hn & ? & ?).
    rewrite (points_to_is _ _ _ Hg Hm2 Hn) in *. by exists x, y.
Qed.

Lemma root_changed_entered l : root_changed m a l -> root_entered q l.
Proof.
  destruct Ha, Hq as [_ _ _ _ _ Hs _ _ _].
  do 2 apply Forall_cons in Hs as [_ Hs]. apply Forall_cons in Hs as [Hc _].
  destruct ds_chroot0 as [Hm1 Hl1], ds_directory0 as [Hm2 Hl2].
  unfold root_changed, root_entered. rewrite Hl1, Hl2, given_len, not_given_len.
  destruct (given (rq_chroot q)); cbn [andb when]; cycle 1.
  { intros ->. by exists [], []. }
  intros (d & l' & x & y & Hd & -> & Hw). rewrite (points_to_is _ _ _ Hc Hm1 Hd).
  exists [(Chroot (rq_chroot q), Ok x y)], l'. split; [done|]. split; [by exists x, y|done].
Qed.

Lemma directory_changed_given l :
  directory_changed m a l -> when (given (rq_directory q)) (Chdir (rq_directory q)) l.
Proof.
  destruct Ha, Hq as [_ _ _ _ _ Hs _ _ _].
  do 3 apply Forall_cons in Hs as [_ Hs]. apply Forall_cons in Hs as [Hd _].
  destruct ds_directory0 as [Hm Hl]. unfold directory_changed. rewrite Hl, given_len.
  destruct (given _); [|done]. intros (d & Hp & Hw).
  by rewrite (points_to_is _ _ _ Hd Hm Hp) in Hw.
Qed.

Lemma restricted_confined l :
  restricted m (limits_set (rq_rlimits q)) a l -> confined q l.
Proof.
  intros (uid & gid & l1 & l2 & l3 & l4 & l5 & l6 & Hl & H1 & H2 & H3 & H4 & H5 & H6).
  exists uid, gid, l1, l2, l3, l4, l5, l6. split; [done|].
  split; [by apply owner_looked_up_found|]. split; [by apply root_changed_entered|].
  split; [done|]. rewrite <- (ds_nice _ _ _ Ha). split; [done|]. split; [done|].
  by apply directory_changed_given.
Qed.

(** The limits. *)
Definition done_with (es : list (limit_type * limits)) (r : Z) (l : list event) : Prop :=
  r = 0 -> limits_set es l.

Lemma phase_set_limit t v :
  phase m (fun r _ => r = -1) (fun (_ : unit) l => limit_set (t, v) l) (set_limit t v).
Proof.
  unfold set_limit. destruct (RLIMIT t) as [r|] eqn:Hr; [|apply phase_throw].
  eapply (phase_bind m (fun r _ => r = -1) _ (fun '(cur, max) l => forall x y,
    limit_set (t, v) (l ++ [(Setrlimit r cur max, Ok x y)]))); [|done|].
  - destruct v as [c|c|c c']; cbn [new_limits].
    + eapply (phase_bind m (fun r _ => r = -1) _ (fun b l => l = [(Getrlimit r, b)]));
        [by apply phase_os|done|]. intros [e|x y] ? ->; [by apply phase_return|].
      apply phase_ret. intros x' y'. exists r, x', y'. split; [done|]. by exists x, y.
    + eapply (phase_bind m (fun r _ => r = -1) _ (fun b l => l = [(Getrlimit r, b)]));
        [by apply phase_os|done|]. intros [e|x y] ? ->; [by apply phase_return|].
      apply phase_ret. intros x' y'. exists r, x', y'. split; [done|]. by exists x, y.
    + apply phase_ret. intros x' y'. by exists r, x', y'.
  - intros [cur max] l Hl.
    eapply (phase_bind m (fun r _ => r = -1) _ (fun b l => l = [(Setrlimit r cur max, b)]));
      [by apply phase_os|done|]. intros [e|x y] ? ->; [by apply phase_return|].
    apply phase_ret, Hl.
Qed.

Lemma phase_set_limits es : phase m (done_with es) (done_with es) (set_limits es).
Proof.
  induction es as [|[t v] es IH]; cbn [set_limits].
  - apply phase_return. intros _. by exists [].
  - eapply phase_bind; [apply phase_set_limit|by intros r l ->|]. intros ? l Hl.
    eapply phase_weaken; [exact IH|..]; intros r l' H Hr;
      destruct (H Hr) as (ls & -> & Hls); exists (l :: ls); (split; [done|by constructor]).
Qed.

Lemma phase_request_limits :
  phase m (done_with (rq_rlimits q)) (done_with (rq_rlimits q))
    (rlimit (a_rlimits a) (a_rlimits_len a)).
Proof.
  intros p Hp. destruct (ds_rlimits _ _ _ Ha) as (H0 & Hh & ->).
  unfold rlimit. rewrite (rlimit_loop_ok (rq_rlimits q)).
  - by apply phase_set_limits.
  - apply Hq.
  - split; rewrite Z.add_0_r, ?Hp; done.
  - lia.
  - lia.
Qed.

(** The command line and the environment: what [strings_of] reads depends on
    the buffer only. *)
Lemma strings_of_memory array p p' :
  m_p (pt_buffer p) = m_p (pt_buffer p') ->
  fst (strings_of array p) = fst (strings_of array p').
Proof.
  intros Hm. induction array as [|[[off|]|] array IH]; cbn [strings_of]; try done.
  unfold cstr_at, cbind, creads. rewrite Hm. destruct (cstr_of _) as [s|]; [|done].
  cbn [copt cret]. destruct (strings_of array p) as [o x], (strings_of array p') as [o' x'].
  cbn in IH. subst o'. by destruct o.
Qed.

Lemma phase_array (c : C (port gepd) spawn_end pointers) l :
  (forall p, m_p (pt_buffer p) = m -> exists array, c p = (Next array, p) /\
     strings_of array p = (Next l, p)) ->
  phase m exits (fun array _ => strings_are m array (eq l)) c.
Proof.
  intros H p Hp. destruct (H p Hp) as (array & Hc & Hs). exists []. rewrite Hc, traced_nil.
  split; [done|]. split; [done|]. intros p' Hp'.
  rewrite (strings_of_memory array p' p) by congruence. by rewrite Hs.
Qed.

Lemma child_spawned domain type h out err :
  calls m (child_trace (limits_set (rq_rlimits q))
      (fun f av ev => f = rq_filename q /\ av = rq_filename q :: rq_arguments q /\
         ev = rq_environment q) m a)
    (child a domain type h out err).
Proof.
  pose proof Hq as [_ _ _ _ _ Hs [Hn Hh] (Hen & Henn & Heh) [Hl1 Hl2]].
  do 4 apply Forall_cons in Hs as [_ Hs]. apply Forall_cons in Hs as [Hf _].
  destruct (ds_filename _ _ _ Ha) as [Hf0 Hfm].
  apply (calls_child_arrays _ _ _ _ (eq (rq_filename q :: rq_arguments q)) (eq (rq_environment q))).
  - apply phase_request_limits.
  - apply phase_array. intros p Hp. destruct (ds_argv _ _ _ Ha) as (H0 & Hm & ->).
    rewrite <- Hp in Hm, Hfm. by apply execve_argv_arguments.
  - apply phase_array. intros p Hp. destruct (ds_env _ _ _ Ha) as (H0 & Hm & ->).
    rewrite <- Hp in Hm. by apply execve_env_environment.
  - intros f av ev Hp <- <-. split; [|done]. by eapply points_to_is.
Qed.
End child.

(** ** The events of a call *)

(** An event of the port itself: it does not run a program, and is not a
    [fork] seen from the child. *)
Definition in_port (e : event) : Prop :=
  match e with (Execve _ _ _, Ok _ _) | (Fork, Ok 0 _) => False | _ => True end.

Lemma in_port_no_program e : in_port e -> no_program e.
Proof. by destruct e as [[] []]. Qed.

Section trace.
Context {P : Resources} {E : Ei}.
Context (tr : list event) (q : spawn_request).

Definition extends_trace (Q : list event -> Prop) (p : port gepd) : Prop :=
  exists l, gp_trace (pt_user p) = tr ++ l /\ Q l.

Definition parent_events : port gepd -> Prop := extends_trace (Forall in_port).
Definition child_events : port gepd -> Prop := extends_trace (spawned q).

Lemma parent_child_events p : parent_events p -> child_events p.
Proof.
  intros (l & Hl & Hp). exists l. split; [done|]. left.
  eapply Forall_impl; [exact Hp|]. apply in_port_no_program.
Qed.

Lemma parent_os {R} (ρ : R -> Prop) c : plain c -> c <> Fork -> yields parent_events any ρ (os c).
Proof.
  intros Hc Hf p (l & Hl & Hp). split; [|done]. eexists. split.
  - cbn. rewrite Hl. by rewrite <- app_assoc.
  - apply Forall_app. split; [done|]. constructor; [|done]. by destruct c.
Qed.

Lemma parent_update {R} (ρ : R -> Prop) f :
  (forall g, gp_trace (f g) = gp_trace g) -> yields parent_events any ρ (update f).
Proof.
  intros Hf. apply yields_modify; [|done]. intros p (l & Hl & Hp). exists l.
  split; [|done]. cbn. by rewrite Hf.
Qed.

Lemma parent_user {R A} (φ : A -> Prop) (ρ : R -> Prop) (c : C (port gepd) R A) :
  (forall u, yields (user u) φ ρ c) -> yields parent_events φ ρ c.
Proof.
  intros H p Hp. destruct (H (pt_user p) p eq_refl) as [Hu Ho]. split; [|done].
  unfold user in Hu. unfold parent_events, extends_trace in *. by rewrite Hu.
Qed.

Lemma parent_reads {R A} (ρ : R -> Prop) (f : port gepd -> A) :
  yields parent_events any ρ (creads f).
Proof. by apply yields_reads. Qed.

Lemma parent_global {R A} (ρ : R -> Prop) (f : gepd -> A) :
  yields parent_events any ρ (global f).
Proof. apply parent_reads. Qed.
#[local] Hint Resolve parent_reads parent_global : yields.

Lemma parent_os_or_return c st :
  plain c -> c <> Fork -> yields parent_events any any (os_or_return c st).
Proof.
  intros Hc Hf. unfold os_or_return. apply (yields_bind _ _ any); [by apply parent_os|].
  intros [e|x y] _; [by apply yields_return|by apply yields_ret].
Qed.

Lemma parent_fds_set {R} (ρ : R -> Prop) i f : yields parent_events any ρ (fds_set i f).
Proof.
  unfold fds_set. apply (yields_bind _ _ any); [apply parent_global|]. intros fds _.
  apply (yields_bind _ _ any); [by apply yields_assert|]. intros _ _.
  destruct (_ <? _)%nat; [by apply parent_update|apply yields_undef].
Qed.

Lemma parent_parent pid out err :
  yields parent_events (fun _ => False) any (parent pid out err).
Proof.
  unfold parent.
  apply (yields_bind _ _ any); [by apply parent_os_or_return|]. intros _ _.
  apply (yields_bind _ _ any); [by apply parent_os_or_return|]. intros _ _.
  apply (yields_bind _ _ any); [apply parent_global|]. intros nfds _.
  apply (yields_bind _ _ any); [apply parent_reads|]. intros g _.
  apply (yields_bind _ _ any); [apply yields_opt_any|]. intros [ok fds] _.
  apply (yields_bind _ _ any); [by apply parent_update|]. intros _ _.
  apply (yields_bind _ _ any); [by apply yields_return_if|]. intros _ _.
  apply (yields_bind _ _ any); [apply parent_fds_set|]. intros _ _.
  apply (yields_bind _ _ any); [apply parent_fds_set|]. intros _ _.
  apply (yields_bind _ _ any); [by apply parent_update|]. intros _ _.
  apply (yields_bind _ _ any); [apply parent_global|]. intros ps _.
  apply (yields_bind _ _ any); [by apply parent_update|]. intros _ _.
  by apply yields_return.
Qed.

(** How [spawn] ends. *)
Definition spawn_ended (r : spawn_end) (p : port gepd) : Prop :=
  match r with Returned _ => parent_events p | _ => child_events p end.

Abbreviation ends := (hoare child_events spawn_ended).

Lemma ends_parent {A} (φ : A -> Prop) c :
  yields parent_events φ any c -> ends parent_events (fun _ => parent_events) c.
Proof.
  intros H. eapply hoare_yields; [exact H|by intros|apply parent_child_events|].
  intros [] p Hp; cbn; auto using parent_child_events.
Qed.

Lemma ends_child a l l' p domain type h out err :
  request_ok q -> described (m_p (pt_buffer p)) q a ->
  gp_trace (pt_user p) = tr ++ l ++ l' -> Forall no_program (l ++ l') ->
  match child a domain type h out err p with
  | (Return (Returned _), _) | (Next _, _) | (NoFuel, _) => False
  | (_, p') => child_events p'
  end.
Proof.
  intros Hq Ha Htr Hl.
  destruct (child_spawned _ q a Hq Ha domain type h out err p eq_refl) as (l2 & Hs & Ht).
  destruct (child a domain type h out err p) as [o p']. cbn [fst snd] in *. subst p'.
  assert (Forall no_program l2 -> child_events (traced l2 p)) as Hno.
  { intros H2. exists ((l ++ l') ++ l2). split; [cbn; by rewrite Htr, <- !app_assoc|].
    left. by apply Forall_app. }
  destruct o as [z|[st|st|]|e| | |]; cbn in Ht; auto.
  destruct Ht as (before & rs & f & av & ev & x & y & -> & Hb & Hr & -> & -> & ->).
  exists ((l ++ l') ++ before ++ rs ++ [(Execve (rq_filename q)
    (rq_filename q :: rq_arguments q) (rq_environment q), Ok x y)]).
  split; [cbn; by rewrite Htr, <- !app_assoc|]. right.
  exists ((l ++ l') ++ before), rs, x, y. split; [by rewrite <- !app_assoc|].
  split; [by apply Forall_app|]. by eapply restricted_confined.
Qed.
End trace.

(** ** The call, in every world *)

Section call.
Context {P : Resources} {E : Ei}.

Lemma select_protocol_ok q p :
  request_ok q -> exists d t h, select_protocol (rq_protocol q) p = (Next (d, t, h), p).
Proof. intros []. destruct ok_protocol0 as [-> | [-> | ->]]; by eexists _, _, _. Qed.

Lemma spawn_ends q a p :
  request_ok q -> described (m_p (pt_buffer p)) q a ->
  match spawn a p with
  | (Return r, p') => spawn_ended (gp_trace (pt_user p)) q r p'
  | (Next _, _) | (NoFuel, _) => False
  | (_, p') => child_events (gp_trace (pt_user p)) q p'
  end.
Proof.
  intros Hq Ha. destruct (select_protocol_ok q p Hq) as (d & t & h & Hsel).
  rewrite <- (ds_protocol _ _ _ Ha) in Hsel. unfold spawn. rewrite (bind_next _ _ _ _ _ Hsel).
  set (g := pt_user p). set (tr := gp_trace g).
  destruct (gp_os g tr Pipe) as [e|x1 y1] eqn:H1.
  { rewrite (bind_return _ _ _ _ _ (os_or_return_failed _ _ _ _ H1)). cbn.
    exists [(Pipe, Failed e)]. split; [done|]. by repeat constructor. }
  rewrite (bind_next _ _ _ _ _ (os_or_return_ok _ _ _ _ _ H1)).
  set (p1 := traced _ p).
  destruct (gp_os g (gp_trace (pt_user p1)) Pipe) as [e|x2 y2] eqn:H2.
  { rewrite (bind_return _ _ _ _ _ (os_or_return_failed _ _ p1 _ H2)). cbn.
    exists [(Pipe, Ok x1 y1); (Pipe, Failed e)]. split; [cbn; by rewrite <- app_assoc|].
    by repeat constructor. }
  rewrite (bind_next _ _ _ _ _ (os_or_return_ok _ _ p1 _ _ H2)).
  set (p2 := traced _ p1).
  destruct (gp_os g (gp_trace (pt_user p2)) Fork) as [e|pid y3] eqn:H3.
  { rewrite (bind_return _ _ _ _ _ (os_or_return_failed _ _ p2 _ H3)). cbn.
    exists [(Pipe, Ok x1 y1); (Pipe, Ok x2 y2); (Fork, Failed e)].
    split; [cbn; by rewrite <- !app_assoc|]. by repeat constructor. }
  rewrite (bind_next _ _ _ _ _ (os_or_return_ok _ _ p2 _ _ H3)).
  set (p3 := traced _ p2).
  destruct (Z.eqb_spec pid 0) as [->|Hpid].
  - assert (gp_trace (pt_user p3) =
      tr ++ [(Pipe, Ok x1 y1); (Pipe, Ok x2 y2)] ++ [(Fork, Ok 0 y3)]) as Htr
      by (cbn; by rewrite <- !app_assoc).
    pose proof (ends_child tr q a _ _ p3 d t h (x1, y1) (x2, y2) Hq Ha Htr
      ltac:(by repeat constructor)) as H.
    destruct (child _ _ _ _ _ _ _) as [[z|[st|st|]|e| | |] p4]; done.
  - assert (parent_events tr p3) as Hp3.
    { exists [(Pipe, Ok x1 y1); (Pipe, Ok x2 y2); (Fork, Ok pid y3)].
      split; [cbn; by rewrite <- !app_assoc|]. repeat constructor. by destruct pid. }
    destruct (parent_parent tr pid (x1, y1) (x2, y2) p3 Hp3) as [H Ho].
    destruct (parent _ _ _ _) as [[z|[st|st|]|e| | |] p4]; cbn in *; try done;
      by apply parent_child_events.
Qed.

(** [spawn] as the port calls it. *)
Lemma spawn_returns_ends q a p :
  request_ok q -> described (m_p (pt_buffer p)) q a ->
  match spawn_returns a p with
  | (Return r, p') => parent_events (gp_trace (pt_user p)) p' /\ exists z, r = RInt (sint 4 z)
  | (Next _, _) | (NoFuel, _) => False
  | (_, p') => child_events (gp_trace (pt_user p)) q p'
  end.
Proof.
  intros Hq Ha. pose proof (spawn_ends q a p Hq Ha) as H.
  unfold spawn_returns, call, cbind. destruct (spawn a p) as [[z|[st|st|]|e| | |] p']; try done.
  split; [done|]. by exists st.
Qed.

(** C20. Whatever the operating system answers: what a call of [spawn] leads
    to runs no program, or it runs the file Erlang asked for, with the
    arguments and the environment it asked for, after the process was
    confined as asked: its owner looked up, its root entered, each limit set,
    its niceness changed, its group and then its user given up and its
    directory entered, all with success and in this order.  Only a process
    that is not a child, and ran no program, returns to the port's loop. *)
Theorem spawn_call_confined q body rest p
    (Hq : request_ok q) (Hbody : encode_call 1 spawn_types (spawn_terms q) = Some body)
    (Hin : sys_in (pt_erlang p) = frame 1 body ++ rest)
    (Hreads : good_reads (4 + length body) (sys_reads (pt_erlang p)))
    (Halloc : forall n, sys_realloc (pt_erlang p) n = true) (Hwf : wf (pt_buffer p))
    (Hmax : Z.of_nat (length body) <= m_maxSize (pt_buffer p))
    (Hlt : 2 + Z.of_nat (length body) < 2 ^ 32) :
  let '(o, p') := consume_erlang [spawn_function] POLLIN p in
  exists l, gp_trace (pt_user p') = gp_trace (pt_user p) ++ l /\
    match o with
    | Return _ => Forall in_port l
    | Next _ | NoFuel => False
    | _ => spawned q l
    end.
Proof.
  destruct (call_reaches [spawn_function] spawn_function 1 (spawn_terms q) body rest p)
    as (args & b & j & Hb & Hge & Hden & He); try done; [by apply spawn_terms_ok|].
  destruct (spawn_body_described _ q args Hden) as (a & Ha & Heq).
  rewrite He. clear He. set (p1 := mk_port _ b (pt_user p)).
  cbn [fn_body fn_return spawn_function]. rewrite Heq.
  pose proof (spawn_returns_ends q a p1 Hq Ha) as H.
  unfold cbind at 1, call. destruct (spawn_returns a p1) as [[v|v|e| | |] p2]; try done.
  destruct H as [H [z ->]].
  assert (yields (parent_events (gp_trace (pt_user p1))) (fun _ => False) any
    (let* index := ret_int32_t 1 4 (RInt (sint 4 z)) in write_reply index)) as Hy.
  { apply (yields_bind _ _ any); [apply parent_user; intros; apply user_integer_ret|]. intros i _.
    apply parent_user. intros u. unfold write_reply.
    apply (yields_bind _ _ any); [apply yields_call, user_write_cmd|]. intros status _.
    apply (yields_bind _ _ any); [by apply yields_return_if|]. intros _ _. by apply yields_return. }
  destruct (Hy p2 H) as [Hl Ho].
  destruct (cbind _ _ p2) as [[] p3]; cbn [fst snd] in *; try done;
    by apply (parent_child_events _ q p3 Hl).
Qed.




End call.

Section registration.
Context {P : Resources} {E : Ei} {laws : EiLaws E}.


End registration.

(** ** Examples *)

Definition example_request : spawn_request :=
  mk_request 108 (chars "/tmp/cloudi_") [7] example_limits 0 (chars "cloudi") 0 [] 5 []
    (chars "/srv") (chars "/bin/service") [chars "-v"; chars "x y"] [chars "A=1"; chars "B=2"].

Lemma example_request_ok : request_ok example_request.
Proof.
  split; try (cbn; lia).
  - repeat constructor; cbn; unfold CLOUDI_RLIMITS_VALUE_INFINITY; lia.
  - apply (bool_decide_unpack _). vm_compute. done.
  - split; [|done]. apply (bool_decide_unpack _). vm_compute. done.
  - split; [done|]. split; [|done]. apply (bool_decide_unpack _). vm_compute. done.
Qed.

Definition example_body : bytes :=
  default [] (encode_call 1 spawn_types (spawn_terms example_request)).

(** The same system, as the child and as the port see it. *)
Definition example_spawn_port (pid : Z) : port gepd :=
  mk_port (example_sys (frame 1 example_body ++ chars "next")) (construct 1 256 4096)
    (mk_gepd (fun _ c => match c with Fork => Ok pid 0 | _ => Ok 1000 1001 end)
       [] (fun _ => true) [] (fun _ => example_sys [])
       (gp_fds example_table) 7 (gp_processes example_table) []).

Abbreviation example_spawn_call pid :=
  (consume_erlang (E := etf) [spawn_function (P := example_resources)] POLLIN
    (example_spawn_port pid)).

Lemma spawn_call_confined_witness :
  let P := example_resources in
  let l := gp_trace (pt_user (snd (example_spawn_call 0))) in
  fst (example_spawn_call 0) = Blocked /\ spawned example_request l /\
  exists before, l = before ++
    [ (Getpwnam (chars "cloudi"), Ok 1000 1001); (Getrlimit 4, Ok 1000 1001);
      (Setrlimit 4 0 1001, Ok 1000 1001); (Setrlimit 7 1024 (2 ^ 64 - 1), Ok 1000 1001);
      (Nice 5, Ok 1000 1001); (Setgid 1001, Ok 1000 1001); (Setuid 1000, Ok 1000 1001);
      (Chdir (chars "/srv"), Ok 1000 1001);
      (Execve (chars "/bin/service") [chars "/bin/service"; chars "-v"; chars "x y"]
         [chars "A=1"; chars "B=2"], Ok 1000 1001) ].
Proof.
  cbv zeta.
  pose proof (spawn_call_confined (P := example_resources) (E := etf) example_request example_body
    (chars "next") (example_spawn_port 0) example_request_ok) as H.
  assert (fst (example_spawn_call 0) = Blocked) as Ho by (vm_compute; reflexivity).
  split; [exact Ho|]. split.
  - destruct (consume_erlang [spawn_function] POLLIN (example_spawn_port 0)) as [o p'].
    cbn [fst snd] in *. subst o.
    destruct H as (l & Hl & Hs).
    + vm_compute. reflexivity.
    + reflexivity.
    + apply good_reads_replicate. vm_compute. lia.
    + done.
    + vm_compute. done.
    + vm_compute. done.
    + vm_compute. done.
    + change (gp_trace (pt_user (example_spawn_port 0))) with (@nil event) in Hl.
      cbn [app] in Hl. rewrite Hl. exact Hs.
  - set (t := gp_trace (pt_user (snd (example_spawn_call 0)))).
    exists (take (length t - 9) t). vm_compute. reflexivity.
Defined.

