(* ===== verification/CopyPtr.v ===== *)
(** * The vector of processes owns them  (copy_ptr.hpp)

    [copy_ptr] gives up its object when it is copied, even from a constant.
    The vector of the port is one of [copy_ptr]s, and std::vector copies its
    elements when it grows and assigns them when it erases one: that each
    process is deleted exactly once, when it is erased, depends on the order
    in which it does so. *)

From S2P Require Import Prelude CMonad.

(** The objects on the heap, by number, and those that were deleted, in
    order. *)
Record heap : Type := mk_heap { live : gset nat; deleted : list nat }.

(** The member [m_p]: null or a pointer. *)
Definition copy_ptr : Type := option nat.

Section copy_ptr.
Context {R : Type}.
Abbreviation M := (C heap R).

(** [new T(...)], when the allocator gives [p]. *)
Definition new_object (p : nat) : M nat := fun h =>
  (Next p, mk_heap ({[p]} ∪ live h) (deleted h)).

(** [delete p]: of a null pointer it does nothing, of an object that is not
    there it is undefined. *)
Definition delete_object (p : option nat) : M unit := fun h =>
  match p with
  | None => (Next tt, h)
  | Some p =>
      if decide (p ∈ live h)
      then (Next tt, mk_heap (live h ∖ {[p]}) (deleted h ++ [p]))
      else (Undef, h)
  end.

(** [release]: the pointer, and the object as it is left. *)
Definition release (m_p : copy_ptr) : option nat * copy_ptr := (m_p, None).

Definition reset (p : option nat) (m_p : copy_ptr) : M copy_ptr :=
  if decide (p = m_p) then cret m_p
  else delete_object m_p;;; cret p.

(** The copy constructors: the new object and the one copied. *)
Definition copy_construct (o : copy_ptr) : copy_ptr * copy_ptr := release o.

(** The assignment operators: [*this] and the one assigned. *)
Definition copy_assign (this o : copy_ptr) : M (copy_ptr * copy_ptr) :=
  let '(p, o) := release o in
  let* this := reset p this in
  cret (this, o).

(** The destructor. *)
Definition destruct_ptr (m_p : copy_ptr) : M unit := delete_object m_p.

(** ** std::vector of copy_ptr *)

(** [erase]: each element after the erased one is assigned to the one before
    it, and the last one is destroyed. *)
Fixpoint assign_down (this : copy_ptr) (v : list copy_ptr) : M (list copy_ptr) :=
  match v with
  | [] => destruct_ptr this;;; cret []
  | o :: v =>
      let* (this, o) := copy_assign this o in
      let* v := assign_down o v in
      cret (this :: v)
  end.

Definition vector_erase (i : nat) (v : list copy_ptr) : M (list copy_ptr) :=
  match drop i v with
  | [] => cundef
  | this :: rest =>
      let* moved := assign_down this rest in
      cret (take i v ++ moved)
  end.

(** A new allocation: the elements are copied into it one after the other,
    and then those of the old one are destroyed. *)
Fixpoint destruct_all (v : list copy_ptr) : M unit :=
  match v with
  | [] => cret tt
  | o :: v => destruct_ptr o;;; destruct_all v
  end.

Definition relocate (v : list copy_ptr) : M (list copy_ptr) :=
  destruct_all (snd ∘ copy_construct <$> v);;;
  cret (fst ∘ copy_construct <$> v).

(** [push_back(x)]: the vector, and [x] afterwards.  The new element is
    constructed before the old ones are moved. *)
Definition vector_push_back (grows : bool) (x : copy_ptr) (v : list copy_ptr) :
    M (list copy_ptr * copy_ptr) :=
  let '(e, x) := copy_construct x in
  let* v := if grows then relocate v else cret v in
  cret (v ++ [e], x).

(** [{ copy_ptr<process_data> P(new process_data(...)); processes.push_back(P); }] *)
Definition push_new (grows : bool) (p : nat) (v : list copy_ptr) : M (list copy_ptr) :=
  let* p := new_object p in
  let* (v, x) := vector_push_back grows (Some p) v in
  destruct_ptr x;;;
  cret v.

(** What the port does with its vector. *)
Inductive vector_op : Type :=
| Push_new (grows : bool) (p : nat)
| Erase (i : nat).

Fixpoint vector_run (ops : list vector_op) (v : list copy_ptr) : M (list copy_ptr) :=
  match ops with
  | [] => cret v
  | Push_new grows p :: ops => let* v := push_new grows p v in vector_run ops v
  | Erase i :: ops => let* v := vector_erase i v in vector_run ops v
  end.
End copy_ptr.

(** ** Specification: a list of distinct processes *)

Fixpoint list_run (ops : list vector_op) (l : list nat) (gone : list nat) :
    list nat * list nat :=
  match ops with
  | [] => (l, gone)
  | Push_new _ p :: ops => list_run ops (l ++ [p]) gone
  | Erase i :: ops =>
      list_run ops (delete i l) (gone ++ (match l !! i with Some p => [p] | None => [] end))
  end.

(** The operations are possible: the allocator gives what is not in use, and
    an element that exists is erased. *)
Fixpoint possible (ops : list vector_op) (l : list nat) : Prop :=
  match ops with
  | [] => True
  | Push_new _ p :: ops => (p ∉ l) /\ possible ops (l ++ [p])
  | Erase i :: ops => (i < length l)%nat /\ possible ops (delete i l)
  end.

(** The vector owns [l], and nothing else is on the heap. *)
Definition owns (v : list copy_ptr) (l : list nat) (gone : list nat) (h : heap) : Prop :=
  v = (Some <$> l) /\ NoDup l /\ live h = list_to_set l /\ deleted h = gone.

(** ** Lemmas *)

Section lemmas.
Context {R : Type}.

Lemma delete_object_ok p h :
  p ∈ live h ->
  delete_object (R := R) (Some p) h = (Next tt, mk_heap (live h ∖ {[p]}) (deleted h ++ [p])).
Proof. intros Hp. unfold delete_object. by rewrite decide_True. Qed.

Lemma delete_null h : delete_object (R := R) None h = (Next tt, h).
Proof. done. Qed.

(** An assignment to an element that is null. *)
Lemma assign_null p h : copy_assign (R := R) None (Some p) h = (Next (Some p, None), h).
Proof. unfold copy_assign, reset. cbn [release]. by rewrite decide_False by done. Qed.

(** The first element is null: the others move, and nothing is deleted. *)
Lemma assign_down_null l h :
  assign_down (R := R) None (Some <$> l) h = (Next (Some <$> l), h).
Proof.
  induction l as [|p l IH]; [done|]. cbn [fmap list_fmap assign_down].
  rewrite (bind_next _ _ _ _ _ (assign_null p h)). cbv beta iota.
  by rewrite (bind_next _ _ _ _ _ IH).
Qed.

(** The erased element is deleted, by the first assignment or at the end. *)
Lemma assign_down_ok p l h :
  p ∉ l -> p ∈ live h ->
  assign_down (R := R) (Some p) (Some <$> l) h =
    (Next (Some <$> l), mk_heap (live h ∖ {[p]}) (deleted h ++ [p])).
Proof.
  intros Hnd Hp. destruct l as [|p' l]; cbn [fmap list_fmap assign_down].
  - unfold destruct_ptr. by rewrite (bind_next _ _ _ _ _ (delete_object_ok p h Hp)).
  - assert (copy_assign (R := R) (Some p) (Some p') h =
      (Next (Some p', None), mk_heap (live h ∖ {[p]}) (deleted h ++ [p]))) as Ha.
    { unfold copy_assign, reset. cbn [release].
      rewrite decide_False by (intros [= ->]; apply Hnd; by left).
      unfold cbind. by rewrite delete_object_ok. }
    rewrite (bind_next _ _ _ _ _ Ha). cbv beta iota.
    by rewrite (bind_next _ _ _ _ _ (assign_down_null l _)).
Qed.

Lemma erase_ok i p l gone v h :
  owns v l gone h -> l !! i = Some p ->
  exists v' h', vector_erase (R := R) i v h = (Next v', h') /\
    owns v' (delete i l) (gone ++ [p]) h'.
Proof.
  intros (-> & Hnd & Hlive & Hgone) Hi.
  pose proof (take_drop_middle _ _ _ Hi) as Hl. pose proof Hnd as Hnd'.
  rewrite <- Hl in Hnd'. apply NoDup_app in Hnd' as (H1 & H12 & H2).
  apply NoDup_cons in H2 as [Hp H2].
  exists (Some <$> delete i l), (mk_heap (live h ∖ {[p]}) (deleted h ++ [p])). split.
  - unfold vector_erase. rewrite <- fmap_drop, (drop_S _ _ _ Hi). cbn [fmap list_fmap].
    rewrite (bind_next _ _ _ _ _ (assign_down_ok p _ h Hp ltac:(rewrite Hlive; set_unfold;
      by eapply list_elem_of_lookup_2))).
    unfold cret. rewrite <- fmap_take, <- fmap_app. by rewrite delete_take_drop.
  - split; [done|]. rewrite delete_take_drop. split; [|split; [|cbn; by rewrite Hgone]].
    + apply NoDup_app. split; [done|]. split; [|done].
      intros x Hx Hx'. apply (H12 x Hx). by right.
    + cbn. rewrite Hlive, <- Hl at 1. apply set_eq. intros x.
      rewrite elem_of_difference, !elem_of_list_to_set, elem_of_singleton, !elem_of_app, elem_of_cons.
      split; [naive_solver|]. intros [Hx|Hx]; (split; [tauto|]); intros ->; [|done].
      apply (H12 p Hx). by left.
Qed.

Lemma destruct_all_null n h : destruct_all (R := R) (replicate n None) h = (Next tt, h).
Proof. induction n as [|n IH]; [done|]. cbn [replicate destruct_all]. exact IH. Qed.

Lemma relocate_ok v h : relocate (R := R) v h = (Next v, h).
Proof.
  unfold relocate. assert (snd ∘ copy_construct <$> v = replicate (length v) None) as ->.
  { induction v as [|x v IH]; [done|]. cbn. by rewrite IH. }
  rewrite (bind_next _ _ _ _ _ (destruct_all_null _ h)). unfold cret. do 2 f_equal.
  induction v as [|x v IH]; [done|]. cbn. by rewrite IH.
Qed.

Lemma push_new_ok grows p l gone v h :
  owns v l gone h -> p ∉ l ->
  exists v' h', push_new (R := R) grows p v h = (Next v', h') /\ owns v' (l ++ [p]) gone h'.
Proof.
  intros (-> & Hnd & Hlive & Hgone) Hp.
  exists (Some <$> (l ++ [p])), (mk_heap ({[p]} ∪ live h) (deleted h)). split.
  - unfold push_new. erewrite bind_next by reflexivity. cbv beta.
    assert (vector_push_back (R := R) grows (Some p) (Some <$> l)
      (mk_heap ({[p]} ∪ live h) (deleted h)) =
      (Next ((Some <$> l) ++ [Some p], None), mk_heap ({[p]} ∪ live h) (deleted h))) as Hb.
    { unfold vector_push_back. cbn [copy_construct release].
      destruct grows; [by rewrite (bind_next _ _ _ _ _ (relocate_ok _ _))|done]. }
    rewrite (bind_next _ _ _ _ _ Hb). cbv beta iota.
    erewrite bind_next by reflexivity. unfold cret. by rewrite fmap_app.
  - split; [done|]. split; [|split; [cbn; rewrite Hlive; set_solver|done]].
    apply NoDup_app. split; [done|]. split; [|apply NoDup_singleton].
    intros x Hx ->%list_elem_of_singleton. done.
Qed.
End lemmas.

(** ** Property *)

Section property.
Context {R : Type}.

(** C23. Whatever the port does with its vector, in any order and however
    often it grows: it holds the processes that were pushed and not erased, in
    order; each erased process was deleted exactly then, and only once; no
    other object is on the heap, and no access is undefined. *)
Theorem vector_owns ops l gone v h
    (Hv : owns v l gone h) (Hops : possible ops l) :
  let '(l', gone') := list_run ops l gone in
  exists v' h', vector_run (R := R) ops v h = (Next v', h') /\ owns v' l' gone' h'.
Proof.
  revert l gone v h Hv Hops. induction ops as [|[grows p|i] ops IH]; intros l gone v h Hv Hops;
    cbn [list_run vector_run possible] in *.
  - by exists v, h.
  - destruct Hops as [Hp Hops].
    destruct (push_new_ok (R := R) grows p l gone v h Hv Hp) as (v' & h' & He & Hv').
    rewrite (bind_next _ _ _ _ _ He). by apply IH.
  - destruct Hops as [Hi Hops]. destruct (lookup_lt_is_Some_2 l i Hi) as [p Hp].
    destruct (erase_ok (R := R) i p l gone v h Hv Hp) as (v' & h' & He & Hv').
    rewrite (bind_next _ _ _ _ _ He), Hp. by apply IH.
Qed.
End property.

(** Three processes, of which the first and then the last are erased. *)
Lemma vector_owns_witness :
  exists h', vector_run (R := unit)
      [Push_new true 1; Push_new true 2; Push_new false 3; Erase 0; Erase 1] []
      (mk_heap ∅ []) = (Next [Some 2%nat], h') /\
    live h' = {[2%nat]} /\ deleted h' = [1; 3]%nat.
Proof.
  destruct (vector_owns (R := unit)
    [Push_new true 1; Push_new true 2; Push_new false 3; Erase 0; Erase 1] [] [] []
    (mk_heap ∅ [])) as (v' & h' & Hr & -> & _ & Hl & Hd).
  - split; [done|]. split; [constructor|]. by split.
  - cbn. split; [set_solver|]. split; [set_solver|]. split; [set_solver|]. split; [lia|].
    split; [lia|done].
  - exists h'. split; [exact Hr|]. split; [|exact Hd]. rewrite Hl. set_solver.
Defined.
