(* ===== verification/Api.v ===== *)
(** * class CloudI::API  (cloudi.cpp, cloudi.hpp)

    The C++ interface: its member functions, and the life of the instances
    its objects share.  An object has a pointer to an instance and to a count
    of the objects that share it; a subscription keeps a copy of the object
    it was made with. *)

From S2P Require Import Prelude CMonad Status Sys ReallocPtr Framing Lookup Ei Instance Requests Poll Calls Messages KeyValue.

(** ** Member functions *)

Module API.
Section members.
Context {F U : Type} {E : Ei}.
Context (run : F -> request -> C (world F U) unit unit).
Abbreviation M := (C (world F U) Z Z).

(** A constructor or function that throws unless [result] is success. *)
Definition throw_unless_success {S R} (result : Z) : C S R unit :=
  if negb (result =? cloudi_success) then cthrow (invalid_input_exception result) else cret tt.

Definition construct (getenv : bytes -> option bytes) (thread_index : Z) :
    C (world F U) unit unit :=
  let* result := call (cloudi_initialize run false getenv thread_index 0) in
  throw_unless_success result.

Definition thread_count {S} (getenv : bytes -> option bytes) : C S Z Z :=
  let '(result, thread_count) := cloudi_initialize_thread_count getenv in
  throw_unless_success result;;;
  let* thread_count := copt thread_count in
  creturn thread_count.

Definition subscribe (pattern : bytes) (p : F) : M := cloudi_subscribe_ pattern (callback_user p).
Definition subscribe_count (pattern : bytes) : M := cloudi_subscribe_count run pattern.
Definition unsubscribe (pattern : bytes) : M := cloudi_unsubscribe pattern.

(** Functions with defaults for what is not given, and with all of it. *)
Definition send_async (name request : bytes) : M := cloudi_send_async run name request.
Definition send_async_ (name request_info request : bytes) (timeout priority : Z) : M :=
  cloudi_send_async_ run name request_info request timeout priority.
Definition send_sync (name request : bytes) : M := cloudi_send_sync run name request.
Definition send_sync_ (name request_info request : bytes) (timeout priority : Z) : M :=
  cloudi_send_sync_ run name request_info request timeout priority.
Definition mcast_async (name request : bytes) : M := cloudi_mcast_async run name request.
Definition mcast_async_ (name request_info request : bytes) (timeout priority : Z) : M :=
  cloudi_mcast_async_ run name request_info request timeout priority.

Definition field {A} (f : cloudi_instance_t F -> A) {R} : C (world F U) R A :=
  creads (fun w => f (w_inst w)).

Definition get_response {R} := field p_response (R := R).
Definition get_response_size {R} := field p_response_size (R := R).
Definition get_response_info {R} := field p_response_info (R := R).
Definition get_response_info_size {R} := field p_response_info_size (R := R).
Definition get_trans_id_count {R} := field p_trans_id_count (R := R).

(** The pointer to the [i]th identifier, or 0. *)
Definition get_trans_id (i : Z) : C (world F U) (option ptr) (option ptr) :=
  let* count := field p_trans_id_count in
  creturn_if (count <=? i) None;;;
  let* trans_id := field p_trans_id in
  let* trans_id := copt trans_id in
  creturn (Some (mk_ptr (ptr_gen trans_id) (ptr_off trans_id + wrap32 (i * 16)))).

Definition get_trans_id_null (i : Z) : C (world F U) bool bool :=
  let* trans_id := call (get_trans_id i) in
  match trans_id with
  | None => cassert false;;; cundef
  | Some trans_id =>
      let* b := field p_buffer_recv in
      let* id := copt (deref b trans_id 16) in
      creturn (bool_decide (trans_id_null = id))
  end.

Definition get_subscribe_count {R} := field p_subscribe_count (R := R).

Definition forward_ (request_type : Z) (name request_info request : bytes)
    (timeout priority : Z) (trans_id pid : bytes) : M :=
  cloudi_forward request_type name request_info request timeout priority trans_id pid.
Definition forward_async (name request_info request : bytes) (timeout priority : Z)
    (trans_id pid : bytes) : M :=
  cloudi_forward_async name request_info request timeout priority trans_id pid.
Definition forward_sync (name request_info request : bytes) (timeout priority : Z)
    (trans_id pid : bytes) : M :=
  cloudi_forward_sync name request_info request timeout priority trans_id pid.
Definition return_ (request_type : Z) (name pattern response_info response : bytes)
    (timeout : Z) (trans_id pid : bytes) : M :=
  cloudi_return request_type name pattern response_info response timeout trans_id pid.
Definition return_async (name pattern response_info response : bytes) (timeout : Z)
    (trans_id pid : bytes) : M :=
  cloudi_return_async name pattern response_info response timeout trans_id pid.
Definition return_sync (name pattern response_info response : bytes) (timeout : Z)
    (trans_id pid : bytes) : M :=
  cloudi_return_sync name pattern response_info response timeout trans_id pid.

(** The seven functions [recv_async]: the timeout, the identifier and
    [consume] may be left out, though not [consume] alone. *)
Definition recv_async (timeout : option Z) (trans_id : option bytes) (consume : option bool) : M :=
  let* timeout_sync := field p_timeout_sync in
  let* result := call (cloudi_recv_async run (default timeout_sync timeout) trans_id
    (if default true consume then 1 else 0)) in
  creturn result.

Definition process_index {R} := field p_process_index (R := R).
Definition process_count {R} := field p_process_count (R := R).
Definition process_count_max {R} := field p_process_count_max (R := R).
Definition process_count_min {R} := field p_process_count_min (R := R).
Definition prefix {R} := field p_prefix (R := R).
Definition timeout_initialize {R} := field p_timeout_initialize (R := R).
Definition timeout_async {R} := field p_timeout_async (R := R).
Definition timeout_sync {R} := field p_timeout_sync (R := R).
Definition timeout_terminate {R} := field p_timeout_terminate (R := R).
Definition priority_default {R} := field p_priority_default (R := R).

Definition poll (timeout : Z) : M := cloudi_poll run timeout.
Definition shutdown : M := cloudi_shutdown (Some []).
Definition shutdown_ (reason : option bytes) : M := cloudi_shutdown reason.

Definition info_key_value_parse := text_key_value_parse.
End members.
End API.

(** ** Transaction identifiers *)

Section trans_ids.
Context {F U : Type} {E : Ei}.
Context (run : F -> request -> C (world F U) unit unit).

Lemma concat_at (l : list bytes) i t :
  Forall (fun t : bytes => length t = 16%nat) l -> l !! i = Some t ->
  exists before after, concat l = before ++ t ++ after /\ length before = (16 * i)%nat.
Proof.
  revert i. induction l as [|t' l IH]; intros [|i] Hl Hi; try done;
    apply Forall_cons in Hl as [Ht Hl].
  - injection Hi as ->. by exists [], (concat l).
  - destruct (IH i Hl Hi) as (before & after & Hc & Hb).
    exists (t' ++ before), after. cbn [concat]. rewrite Hc, <- app_assoc. split; [done|].
    rewrite length_app. lia.
Qed.

Lemma deref_part b p before bs after n :
  0 <= ptr_off p -> n = Z.of_nat (length (before ++ bs ++ after)) ->
  deref b p n = Some (before ++ bs ++ after) ->
  deref b (mk_ptr (ptr_gen p) (ptr_off p + Z.of_nat (length before)))
    (Z.of_nat (length bs)) = Some bs.
Proof.
  intros Hp -> H. unfold deref in *. cbn [ptr_gen ptr_off]. case_decide; [|done].
  rewrite Nat2Z.id in *. apply load_Some in H as [H _].
  apply holds_app in H as [_ H]. apply holds_app in H as [H _].
  rewrite Z2Nat.inj_add, Nat2Z.id by lia. by apply load_holds.
Qed.

(** C37. The answer to a multicast: after a returns_async message,
    [get_trans_id] gives a pointer to each of its identifiers, by number, and
    0 for every other number; [get_trans_id_null] tells which are null, and
    fails its assertion outside of them. *)
Theorem get_trans_id_returned trans_ids rest ps timeout external w
    (Hi : Forall (fun t : bytes => length t = 16%nat) trans_ids)
    (Hw : waiting external w)
    (Har : arriving (returns_async_out trans_ids) rest ps w) :
  exists w', poll_request run timeout external w = (Return (cloudi_success : Z), w') /\
    forall i, 0 <= i ->
      match trans_ids !! Z.to_nat i with
      | Some t =>
          exists p, API.get_trans_id i w' = (Return (Some p), w') /\
            deref (p_buffer_recv (w_inst w')) p 16 = Some t /\
            API.get_trans_id_null i w' = (Return (bool_decide (trans_id_null = t)), w')
      | None =>
          API.get_trans_id i w' = (Return None, w') /\
          API.get_trans_id_null i w' = (Throw assert_exception, w')
      end.
Proof.
  destruct (poll_request_trans_ids run trans_ids rest ps timeout external w Hi Hw Har)
    as (w' & He & _ & Hcount & pt & Hpt & Hoff & Hd).
  rewrite length_concat_ids in Hd by done.
  exists w'. split; [exact He|]. intros i Hi0.
  assert (16 * Z.of_nat (length trans_ids) < 2 ^ 32) as Hsize.
  { pose proof (ar_size _ _ _ _ Har) as Hsz. unfold returns_async_out in Hsz.
    rewrite !length_app, !length_u32 in Hsz. pose proof (length_concat_ids _ Hi). lia. }
  assert (forall o : option ptr, API.get_trans_id i w' = (Return o, w') ->
    call (R := bool) (API.get_trans_id i) w' = (Next o, w')) as Hcall
    by (intros o; apply call_return).
  destruct (trans_ids !! Z.to_nat i) as [t|] eqn:Ht.
  - pose proof (lookup_lt_Some _ _ _ Ht) as Hlt.
    destruct (concat_at _ _ _ Hi Ht) as (before & after & Hc & Hb).
    assert (length t = 16%nat) as Hlen by (eapply Forall_lookup in Hi; [exact Hi|exact Ht]).
    set (p := mk_ptr (ptr_gen pt) (ptr_off pt + wrap32 (i * 16))).
    assert (API.get_trans_id i w' = (Return (Some p), w')) as Hg.
    { unfold API.get_trans_id, API.field. crun. rewrite Hcount.
      rewrite (proj2 (Z.leb_gt _ _)) by lia. cbn [creturn_if]. crun. rewrite Hpt. done. }
    assert (deref (p_buffer_recv (w_inst w')) p 16 = Some t) as Hp.
    { unfold p. rewrite wrap32_small by lia. rewrite Hc in Hd.
      replace (i * 16) with (Z.of_nat (length before)) by lia.
      change 16 with (Z.of_nat 16). rewrite <- Hlen.
      eapply deref_part; [done| |exact Hd].
      rewrite <- Hc, length_concat_ids by done. lia. }
    exists p. split; [exact Hg|]. split; [exact Hp|].
    unfold API.get_trans_id_null. rewrite (bind_next _ _ _ _ _ (Hcall _ Hg)). cbv beta iota.
    unfold API.field. crun. rewrite Hp. done.
  - apply lookup_ge_None in Ht.
    assert (API.get_trans_id i w' = (Return None, w')) as Hg.
    { unfold API.get_trans_id, API.field. crun. rewrite Hcount.
      by rewrite (proj2 (Z.leb_le _ _)) by lia. }
    split; [exact Hg|]. unfold API.get_trans_id_null.
    by rewrite (bind_next _ _ _ _ _ (Hcall _ Hg)).
Qed.
End trans_ids.

Lemma get_trans_id_returned_witness :
  exists w' p, poll_request example_idle (-1) 0
      (example_world unit 1 (frame 1 (returns_async_out [replicate 16 NUL; replicate 16 NUL])
         ++ []) [pl_ready]) = (Return (cloudi_success : Z), w') /\
    API.get_trans_id 1 w' = (Return (Some p), w') /\
    API.get_trans_id 2 w' = (Return None, w').
Proof.
  destruct (get_trans_id_returned example_idle [replicate 16 NUL; replicate 16 NUL] [] []
    (-1) 0 (example_world unit 1 (frame 1 (returns_async_out
       [replicate 16 NUL; replicate 16 NUL]) ++ []) [pl_ready])) as (w' & He & Hi).
  - repeat first [apply Forall_nil_2 | apply Forall_cons_2; [first [lia|done]|]].
  - apply example_waiting.
  - apply example_arriving. vm_compute. lia.
  - destruct (Hi 1 ltac:(lia)) as (p & Hp & _). destruct (Hi 2 ltac:(lia)) as [Hn _].
    exists w', p. split_and!; [exact He|exact Hp|exact Hn].
Defined.
