(* ===== verification/Overloads.v ===== *)
(** * Functions of class API that take a std::string  (cloudi.hpp)

    A string is a list of characters with any of them in it; [c_str] points
    to the characters with a null after them.  So a name or a pattern goes
    only as far as its first null, and a transaction identifier, of which 16
    characters are read, has to be there. *)

From S2P Require Import Prelude CMonad Status Sys ReallocPtr Framing Lookup Ei Instance Requests Poll Calls Messages KeyValue Invariant Api.

(** The C string at [c_str()], and the 16 characters there. *)
Abbreviation c_str := cstring.

Definition c_str_id (trans_id : bytes) : option bytes :=
  if decide (16 <= length trans_id + 1)%nat then Some (take 16 (trans_id ++ [NUL])) else None.

(** ** Member functions *)

Module Str.
Section members.
Context {F U : Type} {E : Ei}.
Context (run : F -> request -> C (world F U) unit unit).
Abbreviation M := (C (world F U) Z Z).

Definition subscribe_count (pattern : bytes) : M := API.subscribe_count run (c_str pattern).
Definition unsubscribe (pattern : bytes) : M := API.unsubscribe (c_str pattern).

Definition send_async (name request : bytes) : M := API.send_async run (c_str name) request.
Definition send_async_ (name request_info request : bytes) (timeout priority : Z) : M :=
  API.send_async_ run (c_str name) request_info request timeout priority.
Definition send_sync (name request : bytes) : M := API.send_sync run (c_str name) request.
Definition send_sync_ (name request_info request : bytes) (timeout priority : Z) : M :=
  API.send_sync_ run (c_str name) request_info request timeout priority.
Definition mcast_async (name request : bytes) : M := API.mcast_async run (c_str name) request.
Definition mcast_async_ (name request_info request : bytes) (timeout priority : Z) : M :=
  API.mcast_async_ run (c_str name) request_info request timeout priority.

Definition forward_ (request_type : Z) (name request_info request : bytes)
    (timeout priority : Z) (trans_id pid : bytes) : M :=
  API.forward_ request_type (c_str name) request_info request timeout priority trans_id pid.
Definition forward_async (name request_info request : bytes) (timeout priority : Z)
    (trans_id pid : bytes) : M :=
  API.forward_async (c_str name) request_info request timeout priority trans_id pid.
Definition forward_sync (name request_info request : bytes) (timeout priority : Z)
    (trans_id pid : bytes) : M :=
  API.forward_sync (c_str name) request_info request timeout priority trans_id pid.
Definition return_ (request_type : Z) (name pattern response_info response : bytes)
    (timeout : Z) (trans_id pid : bytes) : M :=
  API.return_ request_type (c_str name) (c_str pattern) response_info response timeout
    trans_id pid.
Definition return_async (name pattern response_info response : bytes) (timeout : Z)
    (trans_id pid : bytes) : M :=
  API.return_async (c_str name) (c_str pattern) response_info response timeout trans_id pid.
Definition return_sync (name pattern response_info response : bytes) (timeout : Z)
    (trans_id pid : bytes) : M :=
  API.return_sync (c_str name) (c_str pattern) response_info response timeout trans_id pid.

(** The three functions [recv_async] with an identifier that is a string. *)
Definition recv_async (timeout : option Z) (trans_id : bytes) (consume : option bool) : M :=
  let* trans_id := copt (c_str_id trans_id) in
  API.recv_async run timeout (Some trans_id) consume.

Definition shutdown (reason : bytes) : M := API.shutdown_ (Some (c_str reason)).
End members.
End Str.

(** ** All member functions

    Those with a result that leave the subscriptions, with either. *)
Section members.
Context {F U : Type} {E : Ei}.

Inductive member (run : F -> request -> C (world F U) unit unit) : C (world F U) Z Z -> Prop :=
| member_subscribe_count pattern : member run (API.subscribe_count run pattern)
| member_send_async name req : member run (API.send_async run name req)
| member_send_async_ name info req timeout priority :
    member run (API.send_async_ run name info req timeout priority)
| member_send_sync name req : member run (API.send_sync run name req)
| member_send_sync_ name info req timeout priority :
    member run (API.send_sync_ run name info req timeout priority)
| member_mcast_async name req : member run (API.mcast_async run name req)
| member_mcast_async_ name info req timeout priority :
    member run (API.mcast_async_ run name info req timeout priority)
| member_forward t name info req timeout priority trans_id pid :
    member run (API.forward_ t name info req timeout priority trans_id pid)
| member_forward_async name info req timeout priority trans_id pid :
    member run (API.forward_async name info req timeout priority trans_id pid)
| member_forward_sync name info req timeout priority trans_id pid :
    member run (API.forward_sync name info req timeout priority trans_id pid)
| member_return t name pattern info resp timeout trans_id pid :
    member run (API.return_ t name pattern info resp timeout trans_id pid)
| member_return_async name pattern info resp timeout trans_id pid :
    member run (API.return_async name pattern info resp timeout trans_id pid)
| member_return_sync name pattern info resp timeout trans_id pid :
    member run (API.return_sync name pattern info resp timeout trans_id pid)
| member_recv_async timeout trans_id consume :
    member run (API.recv_async run timeout trans_id consume)
| member_poll timeout : member run (API.poll run timeout)
| member_shutdown : member run API.shutdown
| member_shutdown_ reason : member run (API.shutdown_ reason)
| str_subscribe_count pattern : member run (Str.subscribe_count run pattern)
| str_send_async name req : member run (Str.send_async run name req)
| str_send_async_ name info req timeout priority :
    member run (Str.send_async_ run name info req timeout priority)
| str_send_sync name req : member run (Str.send_sync run name req)
| str_send_sync_ name info req timeout priority :
    member run (Str.send_sync_ run name info req timeout priority)
| str_mcast_async name req : member run (Str.mcast_async run name req)
| str_mcast_async_ name info req timeout priority :
    member run (Str.mcast_async_ run name info req timeout priority)
| str_forward t name info req timeout priority trans_id pid :
    member run (Str.forward_ t name info req timeout priority trans_id pid)
| str_forward_async name info req timeout priority trans_id pid :
    member run (Str.forward_async name info req timeout priority trans_id pid)
| str_forward_sync name info req timeout priority trans_id pid :
    member run (Str.forward_sync name info req timeout priority trans_id pid)
| str_return t name pattern info resp timeout trans_id pid :
    member run (Str.return_ t name pattern info resp timeout trans_id pid)
| str_return_async name pattern info resp timeout trans_id pid :
    member run (Str.return_async name pattern info resp timeout trans_id pid)
| str_return_sync name pattern info resp timeout trans_id pid :
    member run (Str.return_sync name pattern info resp timeout trans_id pid)
| str_recv_async timeout trans_id consume :
    member run (Str.recv_async run timeout trans_id consume)
| str_shutdown reason : member run (Str.shutdown reason).

Context (L : lookup_t F -> Prop) (J : U -> Prop) (run : F -> request -> C (world F U) unit unit).
Context (Hfind : forall k l f l', L l -> lookup_find k l = Some (f, l') -> L l').
Context (Hrun : forall n f rq, yields (inv L J n None) any any (run f rq)).
Context (n : nat) (Hn : Z.of_nat n < 2 ^ 31).

Lemma keeps_call c : api_call run c -> yields (inv L J n None) any any c.
Proof. by apply keeps_api_call. Qed.

Lemma keeps_recv_async timeout trans_id consume :
  yields (inv L J n None) any any (API.recv_async run timeout trans_id consume).
Proof.
  unfold API.recv_async. apply yields_bind with any; [by apply keeps_field|]. intros t _.
  eapply yields_bind; [apply yields_call; apply keeps_call; constructor|].
  intros. by apply yields_return.
Qed.

(** They keep what the functions of cloudi.cpp keep. *)
Lemma keeps_member c : member run c -> yields (inv L J n None) any any c.
Proof.
  intros []; try (apply keeps_recv_async); try (apply keeps_call; constructor).
  unfold Str.recv_async. eapply yields_bind; [apply yields_opt_any|].
  intros. apply keeps_recv_async.
Qed.
End members.

(** ** Examples *)

(** A name with a null is another one's name. *)
Lemma example_null_in_name {F U} {E : Ei} (run : F -> request -> C (world F U) unit unit) req :
  Str.send_async run (chars "/a" ++ NUL :: chars "/b") req = API.send_async run (chars "/a") req.
Proof. reflexivity. Qed.

(** An identifier of 15 characters is read with the null after them, and
    what is after a shorter one is not the string's. *)
Lemma example_short_id :
  length <$> c_str_id (replicate 15 (byte.of_Z 97)) = Some 16%nat /\
  c_str_id (replicate 14 (byte.of_Z 97)) = None.
Proof. vm_compute. done. Qed.
