(* ===== verification/Messaging.v ===== *)
(** * A program with many callback functions  (src/src/tests/messaging/cxx)

    The program whose callback functions send messages to each other, in
    three sequences: class Input of main.cpp, its member functions and
    [process].  An assertion that fails throws.  What it prints is left out,
    and so are the threads of the pool that [process] runs in; [stop] is what
    they read of it. *)

From S2P Require Import Prelude Text CMonad Status Sys ReallocPtr Framing Lookup Ei Instance Requests Poll Calls Messages Callback KeyValue Api Overloads Serve Start.

(** The member functions it subscribes. *)
Inductive member_function : Type :=
| sequence1_abcd | sequence1_abc_ | sequence1_ab_d | sequence1_a_cd | sequence1__bcd
| sequence1_ab__ | sequence1_a__d | sequence1___cd
| sequence1_a___ | sequence1____d | sequence1_____ | sequence1
| sequence2_e1 | sequence2_e2 | sequence2_e3 | sequence2_e4
| sequence2_e5 | sequence2_e6 | sequence2_e7 | sequence2_e8 | sequence2
| sequence3_f1 | sequence3_f2 | sequence3_g1 | sequence3.

Module Input.
Section input.
Context {E : Ei}.
Abbreviation world := (world member_function unit).
Abbreviation M := (C world unit).

(** Callback functions run while a callback function waits only when the VM
    sends a request meanwhile; [run] is what runs then. *)
Context (run : member_function -> request -> C world unit unit).

Definition success : Z := cloudi_success.

(** A string literal with its null. *)
Definition literal (s : String.string) : bytes := chars s ++ [NUL].

Definition assert_success (result : C world Z Z) : M unit :=
  let* result := call result in cassert (result =? success).

(** [api.return_(request_type, name, pattern, "", 0, response, size, timeout,
    trans_id, pid, pid_size);] *)
Definition return_ (rq : request) (name pattern response : bytes) : M unit :=
  let* trans_id := call_bytes (rq_trans_id rq) 16 in
  let* pid := call_bytes (rq_pid rq) (rq_pid_size rq) in
  let* _ := call (Str.return_ (rq_type rq) name pattern [] response (rq_timeout rq) trans_id pid) in
  cret tt.

(** [api.forward_(request_type, name, "", 0, request, size, timeout, priority,
    trans_id, pid, pid_size);] *)
Definition forward_ (rq : request) (name request : bytes) : M unit :=
  let* trans_id := call_bytes (rq_trans_id rq) 16 in
  let* pid := call_bytes (rq_pid rq) (rq_pid_size rq) in
  let* _ := call (Str.forward_ (rq_type rq) name [] request (rq_timeout rq) (rq_priority rq)
                    trans_id pid) in
  cret tt.

(** [assert(request_size == size); assert(::memcmp(request, text, size) == 0 ||
    ...);] for the texts that are accepted. *)
Definition assert_request (rq : request) (texts : list bytes) : M unit :=
  match texts with
  | [] => cret tt
  | text :: _ =>
      cassert (rq_request_size rq =? Z.of_nat (length text));;;
      let* request := call_bytes (rq_request rq) (Z.of_nat (length text)) in
      cassert (bool_decide (request ∈ texts))
  end.

(** The member functions from [sequence1_abcd] to [sequence1_____], which
    send back what they are sent. *)
Definition sequence1_echo (suffix : bytes) (texts : list bytes) (name pattern : bytes)
    (rq : request) : M unit :=
  let* prefix := prefix_string in
  cassert (bool_decide (pattern = prefix ++ suffix));;;
  assert_request rq texts;;;
  let* request := call_bytes (rq_request rq) (rq_request_size rq) in
  return_ rq name pattern request.

(** The response of the instance, and the identifier that came with it. *)
Definition response_bytes (n : Z) : M bytes :=
  let* response := API.get_response in
  let* response := copt response in
  let* b := field p_buffer_recv in
  copt (deref b response n).
Definition trans_id_bytes (n : Z) : M bytes :=
  let* trans_id := call (API.get_trans_id 0) in
  let* trans_id := copt trans_id in
  let* b := field p_buffer_recv in
  copt (deref b trans_id n).

(** [result = api.send_async(std::string(api.prefix()) + suffix, request, size);]
    and the assertion. *)
Definition send (suffix request : bytes) : M unit :=
  let* prefix := prefix_string in
  assert_success (Str.send_async run (prefix ++ suffix) request).

(** [sequence1]: [while (::memcmp(api.get_response(), "end", 4) == 0)] *)
Fixpoint skip_end (fuel : nat) : M unit :=
  match fuel with
  | O => cnofuel
  | S fuel =>
      let* response := response_bytes 4 in
      if decide (response = literal "end") then
        assert_success (API.recv_async run (Some 1000) None None);;;
        skip_end fuel
      else cret tt
  end.

(** A request of [sequence1], and its identifier. *)
Definition sequence1_send (test : bytes * bytes) : M bytes :=
  send test.1 test.2;;;
  trans_id_bytes 16.

(** Its response, received twice. *)
Definition sequence1_check (text id : bytes) : M unit :=
  assert_success (API.recv_async run None (Some id) (Some false));;;
  assert_success (API.recv_async run None None None);;;
  let* size := API.get_response_size in
  cassert (size =? Z.of_nat (length text));;;
  let* check := response_bytes (Z.of_nat (length text)) in
  let* id_check := trans_id_bytes 16 in
  cassert (bool_decide (check = text));;;
  cassert (bool_decide (id_check = id)).

Definition sequence1_tests : list (bytes * bytes) :=
  [ (chars "a/b/c/d", literal "test1"); (chars "a/b/c/z", literal "test2");
    (chars "a/b/c/dd", literal "test3"); (chars "a/b/z/d", literal "test4");
    (chars "a/b/cc/d", literal "test5"); (chars "a/z/c/d", literal "test6");
    (chars "a/bb/c/d", literal "test7"); (chars "z/b/c/d", literal "test8");
    (chars "aa/b/c/d", literal "test9"); (chars "a/b/czd", literal "test10");
    (chars "a/bzc/d", literal "test11"); (chars "azb/c/d", literal "test12");
    (chars "a/bzczd", literal "test13"); (chars "azbzc/d", literal "test14");
    (chars "azbzczd", literal "test15") ].

(** One after the other. *)
Fixpoint each {A B} (step : A -> M B) (xs : list A) : M (list B) :=
  match xs with
  | [] => cret []
  | x :: xs => let* y := step x in let* ys := each step xs in cret (y :: ys)
  end.

Definition run_sequence1 (name pattern : bytes) (rq : request) : M unit :=
  assert_success (API.recv_async run (Some 1000) None None);;;
  let* fuel := creads poll_fuel in
  skip_end (S fuel);;;
  assert_request rq [literal "start"];;;
  let* ids := each sequence1_send sequence1_tests in
  let* _ := each (fun '(test, id) => sequence1_check test.2 id) (combine sequence1_tests ids) in
  send (chars "sequence2") (literal "start");;;
  return_ rq name pattern (literal "end").

(** [sequence2]: the first of three places of a digit that is free. *)
Fixpoint mark (offsets : list nat) (index : Z) (integer : byte) (check : bytes) : bytes :=
  match offsets with
  | [] => check
  | offset :: offsets =>
      if decide (check !! Z.to_nat (index + Z.of_nat offset) = Some (byte.of_Z 32))
      then <[Z.to_nat (index + Z.of_nat offset) := integer]> check
      else mark offsets index integer check
  end.

(** [(integer - '1') * 3] indexes the 25 characters of [e_str_check]. *)
Definition check_index (integer : byte) : option Z :=
  let index := (byte_signed integer - 49) * 3 in
  if decide (0 <= index <= 22) then Some index else None.

Fixpoint sequence2_loop (ids : list bytes) (check : bytes) : M bytes :=
  match ids with
  | [] => cret check
  | id :: ids =>
      assert_success (API.recv_async run None (Some id) None);;;
      let* trans_id := trans_id_bytes 16 in
      cassert (bool_decide (id = trans_id));;;
      let* size := API.get_response_size in
      cassert (size =? 2);;;
      let* response := response_bytes 1 in
      let* integer := copt (head response) in
      let* index := copt (check_index integer) in
      sequence2_loop ids (mark [0; 1; 2]%nat index integer check)
  end.

(** [char e_ids[24][16]] of its bytes. *)
Fixpoint split_ids (n : nat) (bs : bytes) : list bytes :=
  match n with O => [] | S n => take 16 bs :: split_ids n (drop 16 bs) end.

Definition run_sequence2 (name pattern : bytes) (rq : request) : M unit :=
  assert_request rq [literal "start"];;;
  let* prefix := prefix_string in
  assert_success (Str.mcast_async run (prefix ++ chars "e") (literal " "));;;
  let* count := API.get_trans_id_count in
  cassert (count =? 24);;;
  let* e_ids := trans_id_bytes (24 * 16) in
  let* e_str_check := sequence2_loop (split_ids 24 e_ids) (replicate 24 (byte.of_Z 32) ++ [NUL]) in
  cassert (bool_decide (take 24 e_str_check = take 24 (chars "111222333444555666777888999")));;;
  send (chars "sequence3") (literal "start");;;
  return_ rq name pattern (literal "end").

(** [::strtol(request, 0, 10)], and a number on a stringstream. *)
Definition request_number (rq : request) : M Z :=
  let* request := call_cstr (rq_request rq) in cret (atoi request).

Definition run_sequence3_f1 (name pattern : bytes) (rq : request) : M unit :=
  cassert (rq_request_size rq =? 2);;;
  let* request_i := request_number rq in
  cassert ((0 <=? request_i) && (request_i <=? 4));;;
  if request_i =? 4 then
    return_ rq name pattern (literal "done");;;
    cassert false;;;
    creturn tt
  else
    let* prefix := prefix_string in
    forward_ rq (prefix ++ chars "f2") (decimal (request_i + 2) ++ [NUL]).

Definition run_sequence3_f2 (rq : request) : M unit :=
  cassert (rq_request_size rq =? 2);;;
  let* request_i := request_number rq in
  cassert ((2 <=? request_i) && (request_i <=? 5));;;
  let* prefix := prefix_string in
  forward_ rq (prefix ++ chars "f1") (decimal (request_i + 2) ++ [NUL]).

Definition run_sequence3_g1 (name pattern : bytes) (rq : request) : M unit :=
  let* s := call_cstr (rq_request rq) in
  return_ rq name pattern (s ++ chars "suffix" ++ [NUL]).

Definition run_sequence3 (name pattern : bytes) (rq : request) : M unit :=
  assert_request rq [literal "start"];;;
  send (chars "f1") (literal "0");;;
  let* test1_id := trans_id_bytes 16 in
  assert_success (API.recv_async run None (Some test1_id) None);;;
  let* trans_id := trans_id_bytes 16 in
  cassert (bool_decide (test1_id = trans_id));;;
  let* size := API.get_response_size in
  cassert (size =? 5);;;
  let* response := response_bytes 5 in
  cassert (bool_decide (response = literal "done"));;;
  let* prefix := prefix_string in
  assert_success (Str.send_sync run (prefix ++ chars "g1") (literal "prefix_"));;;
  let* size := API.get_response_size in
  cassert (size =? 14);;;
  let* response := response_bytes 14 in
  cassert (bool_decide (response = literal "prefix_suffix"));;;
  send (chars "sequence1") (literal "start");;;
  return_ rq name pattern (literal "end").

(** The member function with the name and the pattern as strings. *)
Definition member (f : member_function) (name pattern : bytes) (rq : request) : M unit :=
  match f with
  | sequence1_abcd => sequence1_echo (chars "a/b/c/d") [literal "test1"] name pattern rq
  | sequence1_abc_ =>
      sequence1_echo (chars "a/b/c/*") [literal "test2"; literal "test3"] name pattern rq
  | sequence1_ab_d =>
      sequence1_echo (chars "a/b/*/d") [literal "test4"; literal "test5"] name pattern rq
  | sequence1_a_cd =>
      sequence1_echo (chars "a/*/c/d") [literal "test6"; literal "test7"] name pattern rq
  | sequence1__bcd =>
      sequence1_echo (chars "*/b/c/d") [literal "test8"; literal "test9"] name pattern rq
  | sequence1_ab__ => sequence1_echo (chars "a/b/*") [literal "test10"] name pattern rq
  | sequence1_a__d => sequence1_echo (chars "a/*/d") [literal "test11"] name pattern rq
  | sequence1___cd => sequence1_echo (chars "*/c/d") [literal "test12"] name pattern rq
  | sequence1_a___ => sequence1_echo (chars "a/*") [literal "test13"] name pattern rq
  | sequence1____d => sequence1_echo (chars "*/d") [literal "test14"] name pattern rq
  | sequence1_____ => sequence1_echo (chars "*") [literal "test15"] name pattern rq
  | sequence1 => run_sequence1 name pattern rq
  | sequence2_e1 => return_ rq name pattern (literal "1")
  | sequence2_e2 => return_ rq name pattern (literal "2")
  | sequence2_e3 => return_ rq name pattern (literal "3")
  | sequence2_e4 => return_ rq name pattern (literal "4")
  | sequence2_e5 => return_ rq name pattern (literal "5")
  | sequence2_e6 => return_ rq name pattern (literal "6")
  | sequence2_e7 => return_ rq name pattern (literal "7")
  | sequence2_e8 => return_ rq name pattern (literal "8")
  | sequence2 => run_sequence2 name pattern rq
  | sequence3_f1 => run_sequence3_f1 name pattern rq
  | sequence3_f2 => run_sequence3_f2 rq
  | sequence3_g1 => run_sequence3_g1 name pattern rq
  | sequence3 => run_sequence3 name pattern rq
  end.

(** [callback_function_cxx_m1]: called with strings. *)
Definition call_member (f : member_function) (rq : request) : M unit :=
  let* name := call_cstr (rq_name rq) in
  let* pattern := call_cstr (rq_pattern rq) in
  member f name pattern rq.
End input.

(** Callback functions inside of callback functions, [depth] of them. *)
Fixpoint run `{Ei} (depth : nat) (f : member_function) (rq : request)
    : C (world member_function unit) unit unit :=
  match depth with
  | O => cnofuel
  | S depth => call_member (run depth) f rq
  end.

Section process.
Context {E : Ei} (depth : nat).
Abbreviation M := (C (world member_function unit) Z).

(** What [process] subscribes, in its order. *)
Definition subscribed : list (bytes * member_function) :=
  [ (chars "a/b/c/d", sequence1_abcd); (chars "a/b/c/*", sequence1_abc_);
    (chars "a/b/*/d", sequence1_ab_d); (chars "a/*/c/d", sequence1_a_cd);
    (chars "*/b/c/d", sequence1__bcd); (chars "a/b/*", sequence1_ab__);
    (chars "a/*/d", sequence1_a__d); (chars "*/c/d", sequence1___cd);
    (chars "a/*", sequence1_a___); (chars "*/d", sequence1____d); (chars "*", sequence1_____);
    (chars "sequence1", sequence1);
    (chars "e", sequence2_e1); (chars "e", sequence2_e2); (chars "e", sequence2_e3);
    (chars "e", sequence2_e4); (chars "e", sequence2_e5); (chars "e", sequence2_e6);
    (chars "e", sequence2_e7); (chars "e", sequence2_e8); (chars "sequence2", sequence2);
    (chars "f1", sequence3_f1); (chars "f2", sequence3_f2); (chars "g1", sequence3_g1);
    (chars "sequence3", sequence3) ].

Fixpoint subscribe_all (l : list (bytes * member_function)) : M unit :=
  match l with
  | [] => cret tt
  | (pattern, f) :: l =>
      let* result := call (API.subscribe (c_str pattern) f) in
      cassert (result =? success);;;
      subscribe_all l
  end.

(** [while (timeout == (value = m_api.poll(1000))) { if (stop) return
    resultObject.setError(success); }]; [stop] has what each round reads. *)
Fixpoint poll_until (fuel : nat) (stop : nat -> bool) : M Z :=
  match fuel with
  | O => cnofuel
  | S fuel =>
      let* value := call (API.poll (run depth) 1000) in
      if value =? cloudi_timeout then
        if stop 0%nat then creturn success else poll_until fuel (fun i => stop (S i))
      else creturn value
  end.

(** The error of the result. *)
Definition process (thread_index : Z) (stop : nat -> bool) : M Z :=
  subscribe_all subscribed;;;
  cwhen (thread_index =? 0)
    (let* prefix := prefix_string in
     let* result := call (Str.send_async (run depth) (prefix ++ chars "sequence1")
                            (literal "start")) in
     cassert (result =? success));;;
  let* fuel := creads poll_fuel in
  poll_until (S fuel) stop.
End process.
End Input.

(** ** What the callback functions answer *)

(** The texts a function that sends back is sent, and the end of its
    pattern. *)
Definition echo_of (f : member_function) : option (bytes * list bytes) :=
  let l := Input.literal in
  match f with
  | sequence1_abcd => Some (chars "a/b/c/d", [l "test1"])
  | sequence1_abc_ => Some (chars "a/b/c/*", [l "test2"; l "test3"])
  | sequence1_ab_d => Some (chars "a/b/*/d", [l "test4"; l "test5"])
  | sequence1_a_cd => Some (chars "a/*/c/d", [l "test6"; l "test7"])
  | sequence1__bcd => Some (chars "*/b/c/d", [l "test8"; l "test9"])
  | sequence1_ab__ => Some (chars "a/b/*", [l "test10"])
  | sequence1_a__d => Some (chars "a/*/d", [l "test11"])
  | sequence1___cd => Some (chars "*/c/d", [l "test12"])
  | sequence1_a___ => Some (chars "a/*", [l "test13"])
  | sequence1____d => Some (chars "*/d", [l "test14"])
  | sequence1_____ => Some (chars "*", [l "test15"])
  | _ => None
  end.

(** The number of a function for "e". *)
Definition number_of (f : member_function) : option bytes :=
  match f with
  | sequence2_e1 => Some (chars "1") | sequence2_e2 => Some (chars "2")
  | sequence2_e3 => Some (chars "3") | sequence2_e4 => Some (chars "4")
  | sequence2_e5 => Some (chars "5") | sequence2_e6 => Some (chars "6")
  | sequence2_e7 => Some (chars "7") | sequence2_e8 => Some (chars "8")
  | _ => None
  end.

Section specification.
Context (prefix : bytes).

(** The requests a function is for: those the others send it.  The three
    functions that send requests are apart. *)
Definition accepts (f : member_function) (m : message) : Prop :=
  match f with
  | sequence1 | sequence2 | sequence3 => False
  | sequence3_f1 => exists n, 0 <= n <= 4 /\ msg_request m = decimal n ++ [NUL]
  | sequence3_f2 => exists n, 2 <= n <= 5 /\ msg_request m = decimal n ++ [NUL]
  | sequence3_g1 => exists s, (NUL ∉ s) /\ msg_request m = s ++ [NUL]
  | _ =>
      match echo_of f with
      | Some (suffix, texts) => msg_pattern m = prefix ++ suffix /\ msg_request m ∈ texts
      | None => True
      end
  end.

(** A number passed on, increased by two. *)
Definition pass_on (name : bytes) (n : Z) (m : message) : answer :=
  Forwarded (prefix ++ name) [] (decimal (n + 2) ++ [NUL]) (msg_timeout m) (msg_priority m).

Definition answer_of (f : member_function) (m : message) : answer :=
  let n := atoi (cstring (msg_request m)) in
  match f with
  | sequence1 | sequence2 | sequence3 => Unanswered
  | sequence3_f1 =>
      if n =? 4 then Responded [] (Input.literal "done") else pass_on (chars "f2") n m
  | sequence3_f2 => pass_on (chars "f1") n m
  | sequence3_g1 => Responded [] (cstring (msg_request m) ++ Input.literal "suffix")
  | _ =>
      match number_of f with
      | Some number => Responded [] (number ++ [NUL])
      | None => Responded [] (msg_request m)
      end
  end.

Definition spec (f : member_function) (u : unit) (m : message) : answer * unit :=
  (answer_of f m, u).
End specification.

Section members.
Context {E : Ei} {laws : EiLaws E} (prefix : bytes).
Context (Hprefix : NUL ∉ prefix).
Implicit Types (w : world member_function unit) (m : message) (rq : request).

Definition prefixed w : Prop := p_prefix (w_inst w) = Some (Some <$> prefix ++ [NUL]).

Lemma prefix_ok {R} w : prefixed w -> prefix_string (R := R) w = (Next prefix, w).
Proof using Hprefix.
  intros H. unfold prefix_string, field. crun. rewrite H, fmap_app. cbn [fmap list_fmap].
  by rewrite cstr_of_app.
Qed.

Lemma c_str_id_of s : NUL ∉ s -> cstring s = s.
Proof.
  induction s as [|c s IH]; intros Hs; [done|]. apply not_elem_of_cons in Hs as [Hc Hs]. cbn.
  rewrite decide_False by done. by rewrite IH.
Qed.

Lemma return_ok m rq r w :
  valid_message m -> called m rq w -> ready (room m (Responded [] r)) w ->
  exists w', Input.return_ rq (msg_name m) (msg_pattern m) r w =
      (Throw (if msg_async m then return_async_exception else return_sync_exception), w') /\
    exists bs, answer_out m (Responded [] r) = Some bs /\ sent bs w w'.
Proof.
  intros Hm Hc Hr. destruct (cloudi_return_answers m [] r w Hm Hr) as (w' & He & Hs).
  exists w'. split; [|exact Hs]. unfold Input.return_.
  erewrite bind_next by (by apply called_trans_id). cbv beta.
  erewrite bind_next by (by apply called_pid). cbv beta.
  rewrite (ca_type _ _ _ Hc), (ca_timeout _ _ _ Hc). apply bind_throw, call_throw.
  unfold Str.return_, API.return_. by rewrite !c_str_id_of by (by destruct Hm).
Qed.

Lemma forward_ok m rq n r w :
  valid_message m -> called m rq w -> NUL ∉ n ->
  valid_answer (Forwarded n [] r (msg_timeout m) (msg_priority m)) ->
  ready (room m (Forwarded n [] r (msg_timeout m) (msg_priority m))) w ->
  exists w', Input.forward_ rq n r w =
      (Throw (if msg_async m then forward_async_exception else forward_sync_exception), w') /\
    exists bs, answer_out m (Forwarded n [] r (msg_timeout m) (msg_priority m)) = Some bs /\
      sent bs w w'.
Proof.
  intros Hm Hc Hn Ha Hr. destruct (cloudi_forward_answers m n [] r w Hm Ha Hr) as (w' & He & Hs).
  exists w'. split; [|exact Hs]. unfold Input.forward_.
  erewrite bind_next by (by apply called_trans_id). cbv beta.
  erewrite bind_next by (by apply called_pid). cbv beta.
  rewrite (ca_type _ _ _ Hc), (ca_timeout _ _ _ Hc), (ca_priority _ _ _ Hc).
  apply bind_throw, call_throw. unfold Str.forward_, API.forward_. by rewrite c_str_id_of.
Qed.

(** A request that is one of the texts expected. *)
Lemma assert_request_ok m rq texts w :
  called m rq w -> msg_request m ∈ texts ->
  Forall (fun t : bytes => length t = length (msg_request m)) texts ->
  Input.assert_request rq texts w = (Next tt, w).
Proof.
  intros Hc Hin Hlen. destruct texts as [|text texts]; [by apply not_elem_of_nil in Hin|].
  apply Forall_cons in Hlen as [Hlen _]. unfold Input.assert_request. rewrite Hlen.
  rewrite (ca_request_size _ _ _ Hc), Z.eqb_refl. cbn [cassert].
  erewrite bind_next by reflexivity. cbv beta.
  erewrite bind_next by (rewrite <- (ca_request_size _ _ _ Hc); by apply called_request). cbv beta.
  rewrite bool_decide_eq_true_2 by done. reflexivity.
Qed.

(** The string that a request starts with. *)
Lemma request_string {R} m rq w s :
  called m rq w -> msg_request m = s ++ [NUL] -> NUL ∉ s ->
  call_cstr (R := R) (rq_request rq) w = (Next s, w).
Proof.
  intros Hc Hm Hs. unfold call_cstr, field. crun.
  pose proof (deref_string _ _ _ _ [] s [NUL] (ca_request_ptr _ _ _ Hc) (ca_request _ _ _ Hc)) as Hd.
  rewrite Hm in Hd. cbn [length app] in Hd. rewrite <- app_assoc in Hd.
  specialize (Hd eq_refl Hs). change (Z.of_nat 0) with 0 in Hd. rewrite Z.add_0_r in Hd.
  destruct (rq_request rq) as [g o]. cbn [ptr_gen ptr_off] in Hd. by rewrite Hd.
Qed.

(** How a function ends that answers. *)
Definition gives m (a : answer) (c : C (world member_function unit) unit unit) w : Prop :=
  exists o w', c w = (o, w') /\ answered m a o w w'.

Lemma return_gives m rq r w :
  valid_message m -> called m rq w -> ready (room m (Responded [] r)) w ->
  gives m (Responded [] r) (Input.return_ rq (msg_name m) (msg_pattern m) r) w.
Proof.
  intros Hm Hc Hr. destruct (return_ok m rq r w Hm Hc Hr) as (w' & He & Hs).
  destruct (return_answers (msg_async m)) as (e & Hexc & Hin). rewrite Hexc in He.
  exists (Throw e), w'. split; [exact He|]. split; [by exists e|exact Hs].
Qed.

Lemma forward_gives m rq n r w :
  valid_message m -> called m rq w -> NUL ∉ n ->
  let a := Forwarded n [] r (msg_timeout m) (msg_priority m) in
  valid_answer a -> ready (room m a) w -> gives m a (Input.forward_ rq n r) w.
Proof.
  intros Hm Hc Hn a Ha Hr. destruct (forward_ok m rq n r w Hm Hc Hn Ha Hr) as (w' & He & Hs).
  destruct (forward_exception_answers (msg_async m)) as (e & Hexc & Hin). rewrite Hexc in He.
  exists (Throw e), w'. split; [exact He|]. split; [by exists e|exact Hs].
Qed.

(** What an answer throws comes out of the statements after it. *)
Lemma gives_bind m a c (k : unit -> C (world member_function unit) unit unit) w :
  a <> Unanswered -> gives m a c w -> gives m a (cbind c k) w.
Proof.
  intros Ha (o & w' & He & Hans). destruct a; [| |done];
    destruct Hans as [(e & -> & Hin) Hs]; exists (Throw e), w';
    (split; [by apply bind_throw|]); (split; [by exists e|exact Hs]).
Qed.

Lemma echo_gives suffix texts m rq w :
  valid_message m -> called m rq w -> prefixed w ->
  msg_pattern m = prefix ++ suffix -> msg_request m ∈ texts ->
  Forall (fun t : bytes => length t = length (msg_request m)) texts ->
  ready (room m (Responded [] (msg_request m))) w ->
  gives m (Responded [] (msg_request m))
    (Input.sequence1_echo suffix texts (msg_name m) (msg_pattern m) rq) w.
Proof using Hprefix laws.
  intros Hm Hc Hw Hp Hin Hlen Hr. destruct (return_gives m rq (msg_request m) w Hm Hc Hr)
    as (o & w' & He & Hs). exists o, w'. split; [|exact Hs].
  unfold Input.sequence1_echo. erewrite bind_next by (by apply prefix_ok). cbv beta.
  rewrite bool_decide_eq_true_2 by done. cbn [cassert].
  erewrite bind_next by reflexivity. cbv beta.
  erewrite bind_next by (by apply (assert_request_ok m)). cbv beta.
  erewrite bind_next by (by apply (called_request m)). cbv beta. exact He.
Qed.

(** A number of one digit. *)
Lemma one_digit n : 0 <= n <= 9 -> length (decimal n) = 1%nat.
Proof.
  intros Hn. assert (Forall (fun k => length (decimal k) = 1%nat) (seqZ 0 10)) as H.
  { refine (bool_decide_unpack _ _). vm_compute. exact Logic.I. }
  rewrite Forall_forall in H. apply H, elem_of_seqZ. lia.
Qed.

Lemma number_read m rq n w :
  called m rq w -> msg_request m = decimal n ++ [NUL] -> 0 <= n <= 9 ->
  rq_request_size rq = 2 /\ Input.request_number rq w = (Next n, w) /\
  atoi (cstring (msg_request m)) = n.
Proof.
  intros Hc Hm Hn. pose proof (decimal_no_null n) as Hnul.
  assert (atoi (decimal n) = n) as Ha by (apply atoi_decimal; lia).
  split; [|split].
  - rewrite (ca_request_size _ _ _ Hc), Hm, length_app, one_digit by done. reflexivity.
  - unfold Input.request_number. erewrite bind_next by (by eapply request_string). cbv beta.
    by rewrite Ha.
  - by rewrite Hm, cstring_app.
Qed.

Lemma f1_gives m rq w :
  valid_message m -> called m rq w -> prefixed w -> accepts prefix sequence3_f1 m ->
  let a := answer_of prefix sequence3_f1 m in
  valid_answer a -> ready (room m a) w ->
  gives m a (Input.run_sequence3_f1 (msg_name m) (msg_pattern m) rq) w.
Proof using Hprefix laws.
  intros Hm Hc Hw (n & Hn & Hreq). cbv zeta. unfold answer_of.
  destruct (number_read m rq n w Hc Hreq ltac:(lia)) as (Hsz & Hnum & ->). intros Ha Hr.
  unfold Input.run_sequence3_f1. rewrite Hsz. cbn [Z.eqb Pos.eqb cassert].
  unfold gives. erewrite bind_next by reflexivity. cbv beta.
  erewrite bind_next by exact Hnum. cbv beta.
  rewrite (proj2 (Z.leb_le 0 n)), (proj2 (Z.leb_le n 4)) by lia. cbn [andb cassert].
  erewrite bind_next by reflexivity. cbv beta. destruct (Z.eqb_spec n 4) as [->|Hne].
  - apply gives_bind; [done|]. by apply return_gives.
  - erewrite bind_next by (by apply prefix_ok). cbv beta. apply forward_gives; try done.
    apply not_elem_of_app. split; [done|].
    refine (bool_decide_unpack _ _); vm_compute; exact Logic.I.
Qed.

Lemma f2_gives m rq w :
  valid_message m -> called m rq w -> prefixed w -> accepts prefix sequence3_f2 m ->
  let a := answer_of prefix sequence3_f2 m in
  valid_answer a -> ready (room m a) w -> gives m a (Input.run_sequence3_f2 rq) w.
Proof using Hprefix laws.
  intros Hm Hc Hw (n & Hn & Hreq). cbv zeta. unfold answer_of.
  destruct (number_read m rq n w Hc Hreq ltac:(lia)) as (Hsz & Hnum & ->). intros Ha Hr.
  unfold Input.run_sequence3_f2. rewrite Hsz. cbn [Z.eqb Pos.eqb cassert].
  unfold gives. erewrite bind_next by reflexivity. cbv beta.
  erewrite bind_next by exact Hnum. cbv beta.
  rewrite (proj2 (Z.leb_le 2 n)), (proj2 (Z.leb_le n 5)) by lia. cbn [andb cassert].
  erewrite bind_next by reflexivity. cbv beta.
  erewrite bind_next by (by apply prefix_ok). cbv beta. apply forward_gives; try done.
  apply not_elem_of_app. split; [done|].
  refine (bool_decide_unpack _ _); vm_compute; exact Logic.I.
Qed.

Lemma g1_gives m rq w :
  valid_message m -> called m rq w -> accepts prefix sequence3_g1 m ->
  let a := answer_of prefix sequence3_g1 m in
  ready (room m a) w -> gives m a (Input.run_sequence3_g1 (msg_name m) (msg_pattern m) rq) w.
Proof.
  intros Hm Hc (s & Hs & Hreq). cbv zeta. unfold answer_of. rewrite Hreq, cstring_app by done.
  intros Hr. unfold Input.run_sequence3_g1, gives.
  erewrite bind_next by (by eapply request_string). cbv beta. by apply return_gives.
Qed.

(** All of them are as specified. *)
Lemma member_gives depth f m rq w :
  valid_message m -> called m rq w -> prefixed w -> accepts prefix f m ->
  let a := answer_of prefix f m in
  valid_answer a -> ready (room m a) w ->
  gives m a (Input.member (Input.run depth) f (msg_name m) (msg_pattern m) rq) w.
Proof using Hprefix laws.
  intros Hm Hc Hw Hacc a Ha Hr. subst a.
  destruct f; try done;
    try exact (f1_gives m rq w Hm Hc Hw Hacc Ha Hr);
    try exact (f2_gives m rq w Hm Hc Hw Hacc Ha Hr);
    try exact (g1_gives m rq w Hm Hc Hacc Hr);
    try exact (return_gives m rq _ w Hm Hc Hr);
    destruct Hacc as [Hp Hin]; (apply echo_gives; try done);
    (eapply Forall_forall; intros t Ht; cbn [echo_of] in Hin;
     rewrite !elem_of_cons, elem_of_nil in Hin, Ht;
     by repeat (destruct Hin as [->|Hin]; [by repeat (destruct Ht as [->|Ht]; [reflexivity|])|])).
Qed.
End members.

(** ** The program *)

Section process.
Context {E : Ei} {laws : EiLaws E} (depth : nat) (prefix : bytes) (fd : Z).
Context (Hprefix : NUL ∉ prefix).
Implicit Types (w : world member_function unit).

(** Every thread has one, with the VM's prefix. *)
Definition thread_endpoint : Z * Z * Z * option cells :=
  (1, fd, fd, Some (Some <$> prefix ++ [NUL])).

Lemma messaging_implements f :
  Implements (Input.run (S depth)) thread_endpoint f (accepts prefix f) (spec prefix f).
Proof using Hprefix laws.
  intros m rq w Hep Hm Hacc Hc. cbn [spec]. intros Ha Hr.
  assert (prefixed prefix w) as Hw by (by injection Hep).
  destruct (member_gives prefix Hprefix depth f m rq w Hm Hc Hw Hacc Ha Hr) as (o & w' & He & Hans).
  exists o, w'. split; [|by destruct w as [? ? []]].
  cbn [Input.run]. unfold Input.call_member. erewrite bind_next by (by apply called_name). cbv beta.
  erewrite bind_next by (by apply called_pattern). exact He.
Qed.

(** A call whose result is returned. *)
Lemma called_returns {S R R'} (c : C S R R) s (r : R) s' :
  cbind (B := R) (call (R := R) c) (fun r => creturn r) s = (Return r, s') ->
  call (R := R') c s = (Next r, s').
Proof.
  unfold cbind, call, creturn. destruct (c s) as [[] ?]; intros H; by simplify_eq.
Qed.

(** The callback functions of each pattern, in the order they were
    subscribed. *)
Definition subscribed_with (l : list (bytes * member_function)) (k : bytes) :
    list (callback_function member_function) :=
  omap (fun '(pattern, f) =>
    if decide (prefix ++ pattern = k) then Some (callback_user f) else None) l.

Definition subscribe_writes (l : list (bytes * member_function)) : nat :=
  foldr Nat.add 0%nat (map (fun '(pattern, _) => Z.to_nat (strlen pattern + 180)) l).

Lemma subscribe_all_ok l B n k bs ps w :
  started prefix fd B n (subscribe_writes l + k) bs ps w -> lookup_wf (p_lookup (w_inst w)) ->
  Forall (fun '(pattern, _) => strlen pattern <= 65535 /\ NUL ∉ pattern) l ->
  exists sbs w', mapM (fun p => term_bytes (subscribe_terms p.1)) l = Some sbs /\
    Input.subscribe_all l w = (Next tt, w') /\ started prefix fd B n k bs ps w' /\
    lookup_wf (p_lookup (w_inst w')) /\
    (forall key, subscriptions w' key = subscriptions w key ++ subscribed_with l key) /\
    w_user w' = w_user w /\ sys_elapsed (w_sys w') = sys_elapsed (w_sys w) /\ wrote sbs w w'.
Proof using Hprefix laws.
  revert w. induction l as [|[pattern f] l IH]; intros w Hs Hwf Hl.
  { exists [], w. split_and!; try done; [|by apply wrote_nil].
    intros key. cbn. by rewrite app_nil_r. }
  apply Forall_cons in Hl as [[Hlen Hnul] Hl]. cbn [subscribe_writes map foldr] in Hs.
  rewrite <- Nat.add_assoc in Hs.
  destruct (subscribe_ok prefix fd B n _ bs ps pattern f w Hs Hprefix Hlen)
    as (sb & w1 & Hsb & He & Hs1 & Hl1 & Hu1 & Hel1 & Ho1).
  destruct (lookup_insert_refines (prefix ++ pattern) (callback_user f) (p_lookup (w_inst w)) Hwf)
    as [Hwf1 Habs1]. rewrite <- Hl1 in Hwf1, Habs1.
  destruct (IH w1 Hs1 Hwf1 Hl) as (sbs & w' & Hsbs & He' & Hs' & Hwf' & Habs' & Hu' & Hel' & Hwr').
  assert (wrote [sb] w w1) as Hwr.
  { pose proof (sd_endpoint _ _ _ _ _ _ _ _ Hs) as Hep. split.
    - by rewrite (sd_endpoint _ _ _ _ _ _ _ _ Hs1).
    - injection Hep as Hh _ _ _. cbn [map concat]. by rewrite Hh, app_nil_r. }
  exists (sb :: sbs), w'. split; [by apply mapM_cons_Some|].
  split; [|split; [done|split; [done|split; [|split; [by rewrite Hu'|split;
    [by rewrite Hel'|exact (wrote_app [sb] sbs _ _ _ Hwr Hwr')]]]]]].
  - cbn [Input.subscribe_all]. erewrite bind_next; cycle 1.
    { rewrite c_str_id_of by done. exact (called_returns _ _ _ _ He). }
    cbv beta. erewrite bind_next by reflexivity. exact He'.
  - intros key. rewrite Habs'. unfold subscriptions at 1. rewrite Habs1. unfold upd, subscribed_with.
    cbn [omap list_omap]. case_decide as Hk; [|done].
    subst key. unfold subscriptions. by rewrite <- app_assoc.
Qed.

Abbreviation serves := (pending thread_endpoint (accepts prefix) (spec prefix)).

(** One poll after another, until the VM ends the service; the first one may
    do something before it waits. *)
Lemma poll_until_serves N B ms l u rest ps fuel stop w0 w :
  poll_request (Input.run (S depth)) 1000 1 w0 =
    waits (Input.run (S depth)) (poll_fuel w) 1000 1 w ->
  serves N B ms l u rest ps w -> p_initialization_complete (w_inst w) <> 0 ->
  (length ms <= length (sys_elapsed (w_sys w)))%nat -> (length ms < fuel)%nat ->
  (forall i, stop i = false) ->
  exists outs w', replies_out ms l = Some outs /\
    Input.poll_until (S depth) fuel stop w0 = (Return (cloudi_success : Z), w') /\
    wrote outs w w' /\ finished u rest w'.
Proof using Hprefix laws.
  revert ms l stop w0 w.
  induction fuel as [|fuel IH]; intros ms l stop w0 w Hw0 Hpd Hi Hel Hfuel Hstop; [lia|].
  pose proof messaging_implements as Himp.
  pose proof (pd_serving _ _ _ _ _ _ _ _ _ _ _ Hpd) as Hsv.
  destruct (requests_served (Input.run (S depth)) thread_endpoint (accepts prefix) (spec prefix)
    N B ms l u rest ps (poll_fuel w) 1000 w Hpd)
    as (ms1 & ms2 & l1 & l2 & outs & status & w1 & -> & -> & Ho & He & Hwr & Hlen & _ & Hend);
    [|done|].
  { unfold poll_fuel. rewrite (sv_polls _ _ _ _ _ _ _ Hsv), length_app, length_replicate. lia. }
  assert (call (R := Z) (API.poll (Input.run (S depth)) 1000) w0 = (Next status, w1)) as Hp.
  { apply call_return. unfold API.poll, cloudi_poll. erewrite bind_next; [reflexivity|].
    apply call_return. by rewrite Hw0. }
  cbn [Input.poll_until]. destruct Hend as [(-> & -> & -> & _ & Hfin)|(-> & [Hne _] & Hpd1 & Hi1 & Hel1)].
  - rewrite !app_nil_r. exists outs, w1. split_and!; try done. by erewrite bind_next by exact Hp.
  - destruct (IH ms2 l2 (fun i => stop (S i)) w1 w1) as (outs2 & w' & Ho2 & He2 & Hwr2 & Hfin);
      [|done|by rewrite Hi1|by apply Hel1| |done|].
    { pose proof (pd_serving _ _ _ _ _ _ _ _ _ _ _ Hpd1) as [].
      apply poll_request_waits; [done|right; by rewrite Hi1]. }
    { rewrite length_app in Hfuel. lia. }
    exists (outs ++ outs2), w'. split; [by apply replies_out_app|].
    split; [|split; [by eapply wrote_app|done]].
    erewrite bind_next by exact Hp. cbv beta. by rewrite Hstop.
Qed.
End process.

(** ** Properties *)

Section properties.
Context {E : Ei} {laws : EiLaws E}.

Lemma subscribed_valid :
  Forall (fun '(pattern, _) => strlen pattern <= 65535 /\ NUL ∉ pattern) Input.subscribed.
Proof.
  assert (forallb (fun p : bytes * member_function => (strlen p.1 <=? 65535) && bool_decide (NUL ∉ p.1))
    Input.subscribed = true) as H by (vm_compute; reflexivity).
  revert H. generalize Input.subscribed. intros l. induction l as [|[p f] l IH]; intros H; [done|].
  cbn [forallb fst] in H. apply andb_prop in H as [[H1%Z.leb_le H2%bool_decide_eq_true]%andb_prop H].
  constructor; [done|by apply IH].
Qed.

(** C3. The program messaging/cxx, one of its threads that are not the first
    (that one starts the first sequence): [Input(thread_index)] and [process],
    while the program is not told to stop.  When the VM sends it a well-formed
    configuration and then requests to its 22 callback functions that answer,
    such as the program sends them (the three that run the sequences are in
    [Sequences]), it initialises,
    subscribes the 25 functions, and polls for a second at a time, whatever
    the clock says, until the message that ends the service; to each request
    it writes the answer of the function whose turn it is: the eight functions
    of "e" answer with their own number one after the other, those of the
    first sequence send back the text they expect, and those of the third pass
    a number on, increased by two, until it is four. *)
Theorem messaging_process depth threads getenv c i stop N B ms l rest ps
    (w : world member_function unit)
    (Henv : environment threads getenv) (Hi : 0 < i < 2 ^ 31 - 3)
    (Hin : incoming c (subscribe_writes Input.subscribed) N B ms l rest ps w)
    (Hclock : (length ms <= length (sys_elapsed (w_sys w)))%nat)
    (Hspec : turns (spec (cf_prefix c)) (subscribed_with (cf_prefix c) Input.subscribed) tt ms
               = (l, tt))
    (Hacc : all_accepted (accepts (cf_prefix c))
              (subscribed_with (cf_prefix c) Input.subscribed) ms)
    (Hstop : forall n, stop n = false) :
  exists w',
    (let* _ := call (API.construct (Input.run (S depth)) getenv i) in
     Input.process (S depth) i stop) w = (Return (cloudi_success : Z), w') /\
    finished tt rest w' /\
    exists ib sbs pb outs, term_bytes init_terms = Some ib /\
      mapM (fun p => term_bytes (subscribe_terms p.1)) Input.subscribed = Some sbs /\
      term_bytes polling_terms = Some pb /\ replies_out ms l = Some outs /\
      sys_out (w_sys w') = sys_out (w_sys w) ++ concat (map (frame 1) (ib :: sbs ++ pb :: outs)).
Proof.
  destruct (incoming_initializes (Input.run (S depth)) threads getenv i c _ N B ms l rest ps w Henv
    ltac:(lia) Hin) as (ib & w1 & Hib & He1 & Hs1 & Hl1 & Hu1 & Hel1 & Ho1).
  destruct Hin. pose proof (vc_prefix _ ic_configuration) as Hprefix.
  assert (lookup_wf (p_lookup (w_inst w1))) as Hwf1 by (rewrite Hl1; by apply map_Forall_empty).
  destruct (subscribe_all_ok (cf_prefix c) (i + 3) Hprefix Input.subscribed B _ _ _ _ w1 Hs1 Hwf1
    subscribed_valid) as (sbs & w2 & Hsbs & He2 & Hs2 & Hwf2 & Hsub2 & Hu2 & Hel2 & Hwr2).
  assert (starting N B ms l rest ps w2) as Hst.
  { exact (open_starting c (i + 3) N B ms l rest ps w2 Hs2 Hwf2 ic_sizes (proj2 ic_buffer)
      ic_messages ic_answers). }
  assert (forall k, subscribed_with (cf_prefix c) Input.subscribed k = subscriptions w2 k) as Hsubs.
  { intros k. rewrite Hsub2. unfold subscriptions, abs at 1. rewrite Hl1, lookup_empty.
    symmetry. apply app_nil_l. }
  assert (w_user w2 = tt) as Hu by (by destruct (w_user w2)).
  destruct (poll_begins (Input.run (S depth)) (accepts (cf_prefix c)) (spec (cf_prefix c)) 1000
    N B ms l tt rest ps w2) as (pb & w3 & Hpb & He3 & Hpd & Hwr3 & Hic3 & Hel3).
  { rewrite Hu, <- Hspec. apply turns_ext. intros k. symmetry. apply Hsubs. }
  { exact Hst. }
  { exact (all_accepted_ext _ _ _ _ Hsubs Hacc). }
  destruct (poll_until_serves depth (cf_prefix c) (i + 3) Hprefix N B ms l tt rest ps
    (S (poll_fuel w2)) stop w2 w3 He3) as (outs & w' & Houts & He4 & Hwr4 & Hfin).
  { rewrite (sd_endpoint _ _ _ _ _ _ _ _ Hs2) in Hpd. exact Hpd. }
  { by rewrite Hic3. }
  { by rewrite Hel3, Hel2, Hel1. }
  { unfold poll_fuel. rewrite (sd_polls _ _ _ _ _ _ _ _ Hs2), length_app, length_replicate. lia. }
  { exact Hstop. }
  exists w'. split; [|split; [exact Hfin|]].
  - erewrite bind_next; cycle 1.
    { apply call_next. unfold API.construct.
      erewrite bind_next by (apply call_return; exact He1). reflexivity. }
    cbv beta. unfold Input.process. erewrite bind_next by exact He2. cbv beta.
    rewrite (proj2 (Z.eqb_neq i 0)) by lia. cbn [cwhen].
    erewrite bind_next by reflexivity. cbv beta. erewrite bind_next by reflexivity. exact He4.
  - exists ib, sbs, pb, outs. do 4 (split; [assumption|]).
    destruct (wrote_app _ _ _ _ _ (wrote_app sbs [pb] _ _ _ Hwr2 Hwr3) Hwr4) as [_ Ho].
    pose proof (sd_endpoint _ _ _ _ _ _ _ _ Hs1) as Hep. injection Hep as Hh _ _ _.
    by rewrite Ho, Ho1, Hh, <- !app_assoc.
Qed.
End properties.

(** ** Examples *)

Definition example_to (name request : bytes) : message :=
  mk_message true name name [] request 5000 0 (replicate 16 NUL) example_pid.

(** Two requests to "e" and one of the third sequence. *)
Definition example_requests : list message :=
  [ example_to (chars "/p/e") (Input.literal " "); example_to (chars "/p/e") (Input.literal " ");
    example_to (chars "/p/f1") (Input.literal "0") ].
Definition example_answers : list answer :=
  [ Responded [] (Input.literal "1"); Responded [] (Input.literal "2");
    Forwarded (chars "/p/f2") [] (Input.literal "2") 5000 0 ].

(** The first poll is over after the second request. *)
Definition example_thread : world member_function unit :=
  mk_world (example_instance member_function 1)
    (mk_sys (concat (map (frame 1) (configuration_out example_configuration ::
         map message_out example_requests ++ [terminate_out])))
       (replicate 1000 (rd_some 3)) [] (replicate (Z.to_nat 6000) (wr_some 2))
       (replicate 5 pl_ready) [400; 700; 10] (fun _ => true)) tt.

Lemma example_requests_valid : Forall valid_message example_requests.
Proof.
  assert (forall m, (bool_decide (NUL ∈ msg_name m) || bool_decide (NUL ∈ msg_pattern m)) = false ->
    (strlen (msg_name m) <=? 65535) && (strlen (msg_pattern m) <=? 65535) = true ->
    msg_timeout m = 5000 -> msg_priority m = 0 -> msg_trans_id m = replicate 16 NUL ->
    msg_source m = example_pid -> valid_message m) as Hv.
  { intros m [H1%bool_decide_eq_false H2%bool_decide_eq_false]%orb_false_elim
      [H3%Z.leb_le H4%Z.leb_le]%andb_prop Ht Hp Hi Hs.
    split; rewrite ?Ht, ?Hp, ?Hi, ?Hs; try assumption; [lia|lia|reflexivity|].
    exists 1%nat. split; [reflexivity|vm_compute; discriminate]. }
  repeat constructor; apply Hv; reflexivity.
Qed.

Lemma messaging_process_witness :
  exists w',
    (let* _ := call (API.construct (Input.run 1) (example_getenv 4) 1) in
     Input.process 1 1 (fun _ => false)) example_thread = (Return (cloudi_success : Z), w') /\
    finished tt [] w' /\
    exists ib sbs pb outs, term_bytes init_terms = Some ib /\
      mapM (fun p => term_bytes (subscribe_terms p.1)) Input.subscribed = Some sbs /\
      term_bytes polling_terms = Some pb /\
      replies_out example_requests example_answers = Some outs /\
      sys_out (w_sys w') =
        sys_out (w_sys example_thread) ++ concat (map (frame 1) (ib :: sbs ++ pb :: outs)).
Proof.
  apply (messaging_process 0 4 (example_getenv 4) example_configuration 1 (fun _ => false) 300 32768
    example_requests example_answers [] [] example_thread (example_environment 4)).
  - lia.
  - split.
    + split; [|cbn; lia|refine (bool_decide_unpack _ _); vm_compute; exact Logic.I].
      repeat constructor; discriminate.
    + split; [lia|]. split; [lia|]. split; [lia|].
      split; repeat constructor; vm_compute; discriminate.
    + split; vm_compute; discriminate.
    + vm_compute. discriminate.
    + exact example_requests_valid.
    + repeat constructor; vm_compute; discriminate.
    + symmetry. apply app_nil_r.
    + reflexivity.
    + apply good_reads_replicate. vm_compute. lia.
    + apply good_writes_replicate. vm_compute. lia.
    + reflexivity.
  - vm_compute. lia.
  - vm_compute. reflexivity.
  - split; [exact Logic.I|]. split; [exact Logic.I|]. split; [|exact Logic.I].
    exists 0. split; [lia|reflexivity].
  - reflexivity.
Defined.
