(* ===== verification/Sequences.v ===== *)
(** * The three sequences of messaging/cxx

    The callback functions of Messaging.v that send requests themselves, as
    conversations: what they ask for, and that they end as they should when
    they are answered as the other functions answer. *)

From S2P Require Import Prelude Text CMonad Status Sys ReallocPtr Framing Lookup Ei Instance Requests Poll Calls Messages Callback Serve Exchange Api Overloads Messaging.
From Stdlib Require Import Sorting.Permutation.

(** ** The numbers of the second sequence *)

Definition digits : bytes := chars "12345678".

Definition count (d : byte) (ds : bytes) : nat := count_occ byte_eq_dec ds d.

(** The three places of a digit after it was received [c] times. *)
Definition block (d : byte) (c : nat) : bytes :=
  replicate (Nat.min 3 c) d ++ replicate (3 - c) (byte.of_Z 32).

(** [e_str_check] after the numbers [ds]. *)
Definition tally (ds : bytes) : bytes :=
  concat (map (fun d => block d (count d ds)) digits) ++ [NUL].

Lemma block_length d c : length (block d c) = 3%nat.
Proof. unfold block. rewrite length_app, !length_replicate. lia. Qed.

Lemma blocks_length (f : byte -> nat) l :
  length (concat (map (fun d => block d (f d)) l)) = (3 * length l)%nat.
Proof.
  induction l as [|d l IH]; [done|]. cbn [map concat length].
  rewrite length_app, block_length, IH. lia.
Qed.

(** A digit is written to the first of its places that is free. *)
Lemma mark_block (before : bytes) d c (after : bytes) :
  d <> byte.of_Z 32 ->
  Input.mark [0; 1; 2]%nat (Z.of_nat (length before)) d (before ++ block d c ++ after) =
    before ++ block d (S c) ++ after.
Proof.
  intros Hd. assert (forall xs x ys k, k = length xs ->
    (before ++ (xs ++ x :: ys) ++ after) !! Z.to_nat (Z.of_nat (length before) + Z.of_nat k) = Some x /\
    <[Z.to_nat (Z.of_nat (length before) + Z.of_nat k) := d]> (before ++ (xs ++ x :: ys) ++ after) =
      before ++ (xs ++ d :: ys) ++ after) as Hk.
  { intros xs x ys k ->. rewrite <- Nat2Z.inj_add, Nat2Z.id, <- length_app, <- !app_assoc.
    cbn [app]. rewrite !(app_assoc before xs). split; [by apply list_lookup_middle|].
    by apply insert_app_r_alt || (rewrite insert_app_r_alt by lia; by rewrite Nat.sub_diag). }
  set (sp := byte.of_Z 32) in *.
  destruct c as [|[|[|c]]]; unfold block; cbn [Nat.min Nat.sub replicate app]; fold sp;
    unfold Input.mark; fold sp; rewrite ?Nat.sub_0_l; cbn [replicate app].
  - destruct (Hk [] sp [sp; sp] 0%nat eq_refl) as [E0 I0]. cbn [app] in E0, I0.
    by rewrite decide_True by exact E0.
  - destruct (Hk [] d [sp; sp] 0%nat eq_refl) as [E0 _]. cbn [app] in E0.
    rewrite decide_False by (rewrite E0; congruence).
    destruct (Hk [d] sp [sp] 1%nat eq_refl) as [E1 I1]. cbn [app] in E1, I1.
    by rewrite decide_True by exact E1.
  - destruct (Hk [] d [d; sp] 0%nat eq_refl) as [E0 _]. cbn [app] in E0.
    rewrite decide_False by (rewrite E0; congruence).
    destruct (Hk [d] d [sp] 1%nat eq_refl) as [E1 _]. cbn [app] in E1.
    rewrite decide_False by (rewrite E1; congruence).
    destruct (Hk [d; d] sp [] 2%nat eq_refl) as [E2 I2]. cbn [app] in E2, I2.
    by rewrite decide_True by exact E2.
  - destruct (Hk [] d [d; d] 0%nat eq_refl) as [E0 _]. cbn [app] in E0.
    rewrite decide_False by (rewrite E0; congruence).
    destruct (Hk [d] d [d] 1%nat eq_refl) as [E1 _]. cbn [app] in E1.
    rewrite decide_False by (rewrite E1; congruence).
    destruct (Hk [d; d] d [] 2%nat eq_refl) as [E2 _]. cbn [app] in E2.
    by rewrite decide_False by (rewrite E2; congruence).
Qed.

Lemma digit_index i d :
  digits !! i = Some d -> Input.check_index d = Some (3 * Z.of_nat i) /\ d <> byte.of_Z 32.
Proof.
  intros H. do 8 (destruct i as [|i]; [injection H as <-; split; [reflexivity|discriminate]|]).
  done.
Qed.

Lemma digits_distinct : NoDup digits.
Proof. refine (bool_decide_unpack _ _). vm_compute. exact Logic.I. Qed.

Lemma count_same d ds : count d (d :: ds) = S (count d ds).
Proof. by apply count_occ_cons_eq. Qed.

Lemma counts_other {A} (f : byte -> nat -> A) d ds l :
  d ∉ l -> map (fun d' => f d' (count d' (d :: ds))) l = map (fun d' => f d' (count d' ds)) l.
Proof.
  intros Hn. apply map_ext_in. intros d' Hd'. unfold count. f_equal.
  apply count_occ_cons_neq. intros ->. by apply Hn, list_elem_of_In.
Qed.

Lemma mark_tally ds d :
  d ∈ digits -> exists index, Input.check_index d = Some index /\
    Input.mark [0; 1; 2]%nat index d (tally ds) = tally (d :: ds).
Proof.
  intros Hd. apply list_elem_of_split in Hd as (l1 & l2 & Hl).
  destruct (digit_index (length l1) d) as [Hi Hsp]; [by rewrite Hl, list_lookup_middle|].
  exists (3 * Z.of_nat (length l1)). split; [exact Hi|].
  pose proof digits_distinct as Hnd.
  rewrite Hl in Hnd. apply NoDup_app in Hnd as (_ & H1 & [H2 _]%NoDup_cons).
  assert (d ∉ l1) as H1' by (intros Hin; apply (H1 d Hin); left).
  unfold tally. rewrite Hl, !map_app, !concat_app. cbn [map concat].
  rewrite !counts_other by done.
  rewrite count_same.
  replace (3 * Z.of_nat (length l1))
    with (Z.of_nat (length (concat (map (fun d' => block d' (count d' ds)) l1))))
    by (rewrite blocks_length; lia).
  rewrite <- !app_assoc. by apply mark_block.
Qed.

(** The check of the sequence: three of each. *)
Definition expected : bytes := take 24 (chars "111222333444555666777888999").

Lemma count_cons d ds l :
  NoDup l -> d ∈ l ->
  sum_list (map (fun d' => count d' (d :: ds)) l) = S (sum_list (map (fun d' => count d' ds) l)).
Proof.
  induction 1 as [|x l Hx _ IH]; intros Hd; [by apply elem_of_nil in Hd|].
  cbn [map sum_list_with]. destruct (decide (d = x)) as [->|Hne].
  - by rewrite count_same, (counts_other (fun _ c => c)).
  - apply elem_of_cons in Hd as [|Hd]; [done|].
    assert (count x (d :: ds) = count x ds) as -> by (by apply count_occ_cons_neq).
    rewrite IH by done. unfold id. lia.
Qed.

Lemma count_total ds :
  Forall (fun d => d ∈ digits) ds -> sum_list (map (fun d => count d ds) digits) = length ds.
Proof.
  induction 1 as [|d ds Hd _ IH]; [done|]. rewrite count_cons by (exact digits_distinct || done).
  by rewrite IH.
Qed.

Lemma blocks_full (f : byte -> nat) l :
  Forall (fun d => d <> byte.of_Z 32) l ->
  concat (map (fun d => block d (f d)) l) = concat (map (replicate 3) l) <->
  Forall (fun d => 3 <= f d)%nat l.
Proof.
  induction 1 as [|d l Hd _ IH]; [done|]. cbn [map concat]. rewrite Forall_cons, <- IH.
  split.
  - intros [Hb Hr]%app_inj_1; [|by rewrite block_length]. split; [|done].
    unfold block in Hb. destruct (f d) as [|[|[|c]]]; [..|lia];
      cbn in Hb; injection Hb as Hb; by destruct Hd.
  - intros [Hb ->]. unfold block. rewrite Nat.min_l, (proj2 (Nat.sub_0_le _ _)) by lia.
    by rewrite app_nil_r.
Qed.

(** Eight numbers of at least three that are 24 together. *)
Lemma sum_full (f : byte -> nat) l :
  Forall (fun d => 3 <= f d)%nat l ->
  (3 * length l <= sum_list (map f l))%nat /\
  (sum_list (map f l) = (3 * length l)%nat -> Forall (fun d => f d = 3%nat) l).
Proof.
  induction 1 as [|d l Hd _ [IH1 IH2]]; [done|]. cbn [map length sum_list_with].
  change (id (f d)) with (f d).
  split; [lia|]. intros H. constructor; [lia|]. apply IH2. lia.
Qed.

Lemma expected_blocks : expected = concat (map (replicate 3) digits).
Proof. reflexivity. Qed.

Lemma expected_counts d : d ∈ digits -> count_occ byte_eq_dec expected d = 3%nat.
Proof.
  assert (Forall (fun d => count_occ byte_eq_dec expected d = 3%nat) digits) as H
    by (refine (bool_decide_unpack _ _); vm_compute; exact Logic.I).
  rewrite Forall_forall in H. exact (H d).
Qed.

Lemma expected_digits d : d ∈ expected -> d ∈ digits.
Proof.
  assert (Forall (fun d => d ∈ digits) expected) as H
    by (refine (bool_decide_unpack _ _); vm_compute; exact Logic.I).
  rewrite Forall_forall in H. exact (H d).
Qed.

Lemma digits_visible : Forall (fun d => d <> byte.of_Z 32) digits.
Proof. refine (bool_decide_unpack _ _). vm_compute. exact Logic.I. Qed.

Lemma tally_nil : tally [] = replicate 24 (byte.of_Z 32) ++ [NUL].
Proof. reflexivity. Qed.

Lemma expected_chars : expected = chars "111222333444555666777888".
Proof. reflexivity. Qed.

Lemma expected_text : take 24 (chars "111222333444555666777888999") = expected.
Proof. reflexivity. Qed.

#[local] Opaque expected digits.

(** Three of each, in any order. *)
Lemma counts_expected ds :
  Forall (fun d => d ∈ digits) ds ->
  (forall d, d ∈ digits -> count d ds = 3%nat) <-> ds ≡ₚ expected.
Proof.
  intros Hds. rewrite Forall_forall in Hds.
  rewrite (Permutation_count_occ byte_eq_dec). split.
  - intros H d. destruct (decide (d ∈ digits)) as [Hd|Hd].
    + rewrite (expected_counts d Hd). exact (H d Hd).
    + transitivity 0%nat; [|symmetry]; apply count_occ_not_In; intros Hin%list_elem_of_In;
        [by apply Hd, Hds|by apply Hd, expected_digits].
  - intros H d Hd. unfold count. rewrite H. exact (expected_counts d Hd).
Qed.

Lemma tally_expected ds :
  length ds = 24%nat -> Forall (fun d => d ∈ digits) ds ->
  take 24 (tally ds) = expected <-> ds ≡ₚ expected.
Proof.
  intros Hlen Hds. pose proof (count_total ds Hds) as Hsum. rewrite Hlen in Hsum.
  rewrite <- (counts_expected ds Hds), <- Forall_forall.
  assert (length digits = 8%nat) as H8 by reflexivity. unfold tally.
  rewrite take_app_le, take_ge by (rewrite blocks_length, H8; lia).
  rewrite expected_blocks, (blocks_full (fun d => count d ds)) by exact digits_visible.
  split; intros H; [apply sum_full; [exact H|by rewrite Hsum, H8]|].
  eapply Forall_impl; [exact H|]. cbn. intros d ->. lia.
Qed.

(** ** The statements of the sequences *)

Section statements.
Context {E : Ei} {laws : EiLaws E}.
Context (run : member_function -> request -> C (world member_function unit) unit unit).
Context (prefix : bytes) (Hprefix : NUL ∉ prefix).
Context (N : Z) (cl : client (F := member_function) (U := unit)) (n k : nat) (rest : bytes)
  (ps : list pl).
Context (Hcl : (cl_endpoint cl).2 = Some (Some <$> prefix ++ [NUL])).
Implicit Types (w : world member_function unit) (r : reply).
Abbreviation talking := (talking N cl n k rest ps).
Abbreviation says := (says N cl n k rest ps).

Lemma says_prefix {R} last : says (prefix_string (R := R)) last [] (Next prefix) last.
Proof using Hprefix Hcl.
  apply says_reads. intros es w Hw. apply (prefix_ok prefix Hprefix). unfold prefixed.
  rewrite <- Hcl, <- (tk_client _ _ _ _ _ _ _ _ _ Hw). reflexivity.
Qed.

Lemma says_assert {R} (b : bool) last :
  says (cassert (R := R) b) last [] (if b then Next tt else Throw assert_exception) last.
Proof. apply says_reads. by destruct b. Qed.

(** An assertion that holds. *)
Lemma says_check {R A} (b : bool) (c : C (world member_function unit) R A) last es o last' :
  b = true -> says c last es o last' -> says (cassert b;;; c) last es o last'.
Proof. intros -> H. eapply says_next; [exact (says_assert true last)|exact H]. Qed.

Lemma says_field {R A} (f : cloudi_instance_t member_function -> A) a last :
  (forall es w, talking last es w -> f (w_inst w) = a) ->
  says (API.field f (R := R)) last [] (Next a) last.
Proof. intros H. apply says_reads. intros es w Hw. unfold API.field, creads. by rewrite (H es w Hw). Qed.

Lemma says_ask {R A B} (c : C (world member_function unit) R A)
    (f : A -> C (world member_function unit) R B) last e es a o last1 last' :
  says c last [e] (Next a) last1 -> says (f a) last1 es o last' ->
  says (cbind c f) last (e :: es) o last'.
Proof. intros H1 H2. exact (says_bind _ _ _ _ _ _ c f _ _ _ [e] es _ _ H1 H2). Qed.

(** [assert_success] of an operation. *)
Lemma says_success (c : C (world member_function unit) Z Z) last es last' :
  says c last es (Return (cloudi_success : Z)) last' ->
  says (Input.assert_success c) last es (Next tt) last'.
Proof.
  intros H. unfold Input.assert_success. rewrite <- (app_nil_r es).
  eapply says_bind; [apply says_call; exact H|]. exact (says_assert true _).
Qed.

Definition sends (suffix request : bytes) : ask :=
  Send Async (prefix ++ suffix) [] request (cl_timeout_async cl) (cl_priority cl).

Lemma says_send suffix request r last :
  NUL ∉ suffix -> says (Input.send run suffix request) last [(sends suffix request, r)] (Next tt)
    (Some r).
Proof using Hprefix Hcl laws.
  intros Hs. unfold Input.send. eapply says_next; [apply says_prefix|]. apply says_success.
  unfold Str.send_async, API.send_async. rewrite c_str_id_of by (by apply not_elem_of_app).
  exact (says_perform run N cl n k rest ps (send_async (prefix ++ suffix) request) r last).
Qed.

Definition receives (timeout : option Z) (trans_id : option bytes) (consume : option bool) : ask :=
  Recv (timeout_or (default (cl_timeout_sync cl) timeout) (cl_timeout_sync cl))
    (default trans_id_null trans_id) (default true consume).

Lemma says_recv timeout trans_id consume r last :
  says (Input.assert_success (API.recv_async run timeout trans_id consume)) last
    [(receives timeout trans_id consume, r)] (Next tt) (Some r).
Proof using laws.
  apply says_success. unfold API.recv_async. eapply says_next.
  { apply (says_field _ (cl_timeout_sync cl)). intros es w Hw.
    by rewrite <- (tk_client _ _ _ _ _ _ _ _ _ Hw). }
  cbv beta. apply says_returns.
  exact (says_perform run N cl n k rest ps
    (recv_async (default (cl_timeout_sync cl) timeout) trans_id (default true consume)) r last).
Qed.

(** What the instance has of a response, as far as it is read. *)
Lemma points_to_take p o (bs : bytes) (i : nat) :
  points_to (F := member_function) p o bs -> (i <= length bs)%nat ->
  exists q, o = Some q /\ deref (p_buffer_recv p) q (Z.of_nat i) = Some (take i bs).
Proof.
  intros (q & -> & Hq & Hd) Hi. exists q. split; [done|].
  destruct q as [g off]. cbn [ptr_off] in Hq.
  pose proof (deref_part (p_buffer_recv p) (mk_ptr g off) [] (take i bs) (drop i bs)
    (Z.of_nat (length bs)) Hq) as H. cbn [app length ptr_gen ptr_off] in H.
  rewrite Z.add_0_r, length_take, Nat.min_l in H by lia. apply H; by rewrite take_drop.
Qed.

Lemma says_response r info response trans_id (i : nat) :
  r = Received info response trans_id \/ r = Returned info response trans_id ->
  (i <= length (response ++ NUL :: trans_id))%nat ->
  says (Input.response_bytes (Z.of_nat i)) (Some r) []
    (Next (take i (response ++ NUL :: trans_id))) (Some r).
Proof.
  intros Hr Hi. apply says_reads. intros es w Hw.
  assert (has_response info response trans_id (w_inst w)) as (_ & _ & _ & Hp & _)
    by (destruct Hr as [-> | ->]; exact (tk_last _ _ _ _ _ _ _ _ _ Hw)).
  destruct (points_to_take _ _ _ i Hp Hi) as (q & Hq & Hd).
  unfold Input.response_bytes, API.get_response, API.field, field. crun. rewrite Hq. cbn [copt].
  crun. by rewrite Hd.
Qed.

Lemma says_response_size {R} r info response trans_id :
  r = Received info response trans_id \/ r = Returned info response trans_id ->
  says (API.get_response_size (R := R)) (Some r) [] (Next (Z.of_nat (length response))) (Some r).
Proof.
  intros Hr. apply says_field. intros es w Hw.
  assert (has_response info response trans_id (w_inst w)) as (_ & _ & Hs & _)
    by (destruct Hr as [-> | ->]; exact (tk_last _ _ _ _ _ _ _ _ _ Hw)).
  exact Hs.
Qed.

(** As many identifiers as are read. *)
Lemma says_ids r ids :
  match r with
  | Received _ _ trans_id | Returned _ _ trans_id | Sent trans_id => ids = [trans_id] /\ length trans_id = 16%nat
  | Sents trans_ids =>
      ids = trans_ids /\ Forall (fun t => length t = 16%nat) trans_ids /\ trans_ids <> []
  | _ => False
  end ->
  says (Input.trans_id_bytes (Z.of_nat (16 * length ids))) (Some r) [] (Next (concat ids)) (Some r).
Proof.
  intros Hr. apply says_reads. intros es w Hw. pose proof (tk_last _ _ _ _ _ _ _ _ _ Hw) as Hl.
  assert (Forall (fun t => length t = 16%nat) ids /\ ids <> [] /\
    p_trans_id_count (w_inst w) = Z.of_nat (length ids) /\
    points_to (w_inst w) (p_trans_id (w_inst w)) (concat ids)) as (Hids & Hne & Hc & q & Hq & _ & Hd).
  { destruct r as [t|i s t|ts|i s t|?]; try done; cbn [from_option has_reply] in Hl.
    - destruct Hr as [-> Ht], Hl as [Hc Hp]. split; [by repeat constructor|done].
    - destruct Hr as [-> Ht], Hl as (_ & _ & _ & _ & Hc & Hp). cbn [concat]. rewrite app_nil_r.
      split; [by repeat constructor|done].
    - destruct Hr as (-> & Hts & Hne), Hl as [Hc Hp]. done.
    - destruct Hr as [-> Ht], Hl as (_ & _ & _ & _ & Hc & Hp). cbn [concat]. rewrite app_nil_r.
      split; [by repeat constructor|done]. }
  assert (0 < Z.of_nat (length ids)) by (destruct ids; [done|cbn; lia]).
  unfold Input.trans_id_bytes. erewrite bind_next; cycle 1.
  { apply call_return with (r := Some q) (s' := w). unfold API.get_trans_id, API.field. crun.
    rewrite Hc, (proj2 (Z.leb_gt _ _)) by lia. cbn [creturn_if]. crun. rewrite Hq. cbn [copt]. crun.
    destruct q as [g off]. cbn. by rewrite Z.add_0_r. }
  cbv beta. cbn [copt]. unfold field. crun. rewrite length_concat_ids in Hd by done.
  replace (Z.of_nat (16 * length ids)) with (16 * Z.of_nat (length ids)) by lia. by rewrite Hd.
Qed.

Lemma says_id r trans_id :
  length trans_id = 16%nat ->
  match r with Received _ _ t | Returned _ _ t | Sent t => t = trans_id | _ => False end ->
  says (Input.trans_id_bytes 16) (Some r) [] (Next trans_id) (Some r).
Proof.
  intros Hl Hr. change 16 with (Z.of_nat (16 * length [trans_id])).
  rewrite <- (app_nil_r trans_id) at 2. apply (says_ids r [trans_id]).
  destruct r; try done; by subst.
Qed.

Lemma says_option {R A} (o : option A) a last :
  o = Some a -> says (copt (R := R) o) last [] (Next a) last.
Proof. intros ->. by apply says_reads. Qed.

(** A program that reads how many polls are left. *)
Lemma says_fuel {R A} (f : nat -> C (world member_function unit) R A) last es o last' :
  (forall fuel, (length es <= fuel)%nat -> says (f fuel) last es o last') ->
  says (let* fuel := creads poll_fuel in f fuel) last es o last'.
Proof.
  intros H es' w Hw. destruct (H (poll_fuel w)) with (es' := es') (w := w) as (w' & outs & He & Hrest).
  - unfold poll_fuel. rewrite (tk_polls _ _ _ _ _ _ _ _ _ Hw), length_app, length_replicate, length_app.
    lia.
  - exact Hw.
  - exists w', outs. split; [|exact Hrest]. erewrite bind_next by reflexivity. exact He.
Qed.

(** *** What the second sequence gathers *)

Definition multicast (ids : list bytes) : ask * reply :=
  (Send Multicast (prefix ++ chars "e") [] (Input.literal " ") (cl_timeout_async cl) (cl_priority cl),
   Sents ids).

(** The number [d] from the service that was sent [id]. *)
Definition gathered (id : bytes) (d : byte) : ask * reply :=
  (receives None (Some id) None, Received [] [d; NUL] id).

Definition gathering (ids : list bytes) (ds : bytes) : list (ask * reply) :=
  multicast ids :: zip_with gathered ids ds.

Definition conversation2 (ids : list bytes) (ds : bytes) (id : bytes) : list (ask * reply) :=
  gathering ids ds ++ [(sends (chars "sequence3") (Input.literal "start"), Sent id)].

Lemma says_loop ids ds seen last :
  length ids = length ds -> Forall (fun t : bytes => length t = 16%nat) ids ->
  Forall (fun d => d ∈ digits) ds ->
  exists last', says (Input.sequence2_loop run ids (tally seen)) last (zip_with gathered ids ds)
    (Next (tally (rev ds ++ seen))) last'.
Proof using laws.
  intros Hl Hids. revert ds seen last Hl.
  induction Hids as [|id ids Hid _ IH]; intros [|d ds] seen last Hl Hds; try done.
  - exists last. apply says_ret.
  - apply Forall_cons in Hds as [Hd Hds]. destruct (mark_tally seen d Hd) as (index & Hi & Hmark).
    destruct (IH ds (d :: seen) (Some (Received [] [d; NUL] id)) ltac:(by injection Hl) Hds)
      as (last' & H).
    exists last'. cbn [Input.sequence2_loop zip_with rev]. rewrite <- app_assoc. cbn [app].
    change (gathered id d :: zip_with gathered ids ds)
      with ([gathered id d] ++ zip_with gathered ids ds).
    eapply says_bind; [apply says_recv|].
    eapply says_next; [by apply (says_id _ id)|].
    apply says_check; [by apply bool_decide_eq_true|].
    eapply says_next; [eapply says_response_size; by left|].
    apply says_check; [done|].
    eapply says_next; [apply (says_response _ [] _ _ 1%nat (or_introl eq_refl)); cbn; lia|].
    eapply says_next; [by apply says_option|].
    eapply says_next; [apply says_option; exact Hi|]. cbv beta.
    rewrite Hmark. exact H.
Qed.

(** *** What the first sequence waits for, sends and checks *)

(** A response, and what [memcmp] sees of it: the null and the identifier
    follow. *)
Definition late (r : bytes * bytes) : ask * reply :=
  (receives (Some 1000) None None, Received [] r.1 r.2).
Definition is_end (r : bytes * bytes) : Prop := take 4 (r.1 ++ NUL :: r.2) = Input.literal "end".

Lemma says_skip (ends : list (bytes * bytes)) (first : bytes * bytes) fuel
    (r : bytes * bytes) (rs : list (bytes * bytes)) :
  r :: rs = ends ++ [first] -> Forall is_end ends -> ~ is_end first ->
  Forall (fun r : bytes * bytes => length r.2 = 16%nat) (ends ++ [first]) ->
  (length ends <= fuel)%nat ->
  says (Input.skip_end run (S fuel)) (Some (Received [] r.1 r.2)) (map late rs) (Next tt)
    (Some (Received [] first.1 first.2)).
Proof using laws.
  revert r rs fuel. induction ends as [|e ends IH]; intros r rs fuel Hrs He Hf Hid Hfuel;
    cbn [app] in Hrs; injection Hrs as -> ->; apply Forall_cons in Hid as [Hr Hid];
    cbn [Input.skip_end map].
  - eapply says_next; [apply (says_response _ [] _ _ 4%nat (or_introl eq_refl));
      rewrite length_app; cbn; lia|].
    cbv beta. rewrite decide_False by exact Hf. apply says_ret.
  - destruct fuel as [|fuel]; [cbn in Hfuel; lia|]. apply Forall_cons in He as [He He'].
    eapply says_next; [apply (says_response _ [] _ _ 4%nat (or_introl eq_refl));
      rewrite length_app; cbn; lia|].
    cbv beta. rewrite decide_True by exact He.
    destruct (ends ++ [first]) as [|r' rs'] eqn:Hrs; [by destruct ends|]. cbn [map].
    eapply says_ask; [apply says_recv|]. cbv beta.
    apply IH; [done|exact He'|exact Hf|rewrite <- Hrs; exact Hid|cbn in Hfuel; lia].
Qed.

Definition tested (test : bytes * bytes) (id : bytes) : ask * reply :=
  (sends test.1 test.2, Sent id).

Lemma says_tests tests ids last :
  length tests = length ids -> Forall (fun t : bytes => length t = 16%nat) ids ->
  Forall (fun t : bytes * bytes => NUL ∉ t.1) tests ->
  exists last', says (Input.each (Input.sequence1_send run) tests) last
    (zip_with tested tests ids) (Next ids) last'.
Proof using laws Hprefix Hcl.
  intros Hl Hids. revert tests last Hl.
  induction Hids as [|id ids Hid _ IH]; intros [|t tests] last Hl Ht; try done.
  - exists last. apply says_ret.
  - apply Forall_cons in Ht as [Hn Ht].
    destruct (IH tests (Some (Sent id)) ltac:(by injection Hl) Ht) as (last' & H).
    exists last'. cbn [Input.each zip_with].
    change (tested t id :: zip_with tested tests ids)
      with ([tested t id] ++ zip_with tested tests ids).
    eapply says_bind.
    { unfold Input.sequence1_send. eapply says_ask; [by apply says_send|].
      by apply (says_id (Sent id)). }
    cbv beta. rewrite <- (app_nil_r (zip_with _ _ _)).
    eapply says_bind; [exact H|]. apply says_ret.
Qed.

(** Each response is looked at, with any answer, before it is taken. *)
Definition checked (test : bytes * bytes) (id : bytes) (seen : reply) : list (ask * reply) :=
  [ (receives None (Some id) (Some false), seen);
    (receives None None None, Received [] test.2 id) ].

Fixpoint checks (tests : list (bytes * bytes)) (ids : list bytes) (seens : list reply)
    : list (ask * reply) :=
  match tests, ids, seens with
  | test :: tests, id :: ids, seen :: seens => checked test id seen ++ checks tests ids seens
  | _, _, _ => []
  end.

Lemma says_checks tests ids seens last :
  length tests = length ids -> length seens = length ids ->
  Forall (fun t : bytes => length t = 16%nat) ids ->
  exists us last', says
    (Input.each (fun '(test, id) => Input.sequence1_check run test.2 id) (combine tests ids)) last
    (checks tests ids seens) (Next us) last'.
Proof using laws.
  intros Hl Hs Hids. revert tests seens last Hl Hs.
  induction Hids as [|id ids Hid _ IH]; intros [|t tests] [|seen seens] last Hl Hs; try done.
  - exists [], last. apply says_ret.
  - destruct (IH tests seens (Some (Received [] t.2 id)) ltac:(by injection Hl)
      ltac:(by injection Hs)) as (us & last' & H).
    exists (tt :: us), last'. cbn [Input.each combine checks].
    eapply says_bind.
    { unfold Input.sequence1_check, checked.
      eapply says_ask; [apply says_recv|]. eapply says_ask; [apply says_recv|].
      eapply says_next; [eapply says_response_size; by left|].
      apply says_check; [apply Z.eqb_refl|].
      eapply says_next; [apply (says_response _ [] _ _ (length t.2) (or_introl eq_refl));
        rewrite length_app; lia|].
      eapply says_next; [by apply (says_id _ id)|].
      apply says_check; [by apply bool_decide_eq_true; rewrite take_app_length|].
      rewrite bool_decide_eq_true_2 by done. exact (says_assert true _). }
    cbv beta. rewrite <- (app_nil_r (checks _ _ _)).
    eapply says_bind; [exact H|]. apply says_ret.
Qed.

(** ** Programs that answer the request they were called with *)

Context (m : message) (rq : request) (answer : bytes).
Context (Hm : valid_message m) (Hcalled : forall w, client_of w = cl -> called m rq w).
Context (Hroom : room m (Responded [] answer) + 128 <= N).
Context (Hk : (Z.to_nat (room m (Responded [] answer)) <= k)%nat).

(** The end of such a function, its requests and its answer written. *)
Definition concludes (c : C (world member_function unit) unit unit) (last : option reply)
    (es : list (ask * reply)) : Prop :=
  forall w, talking last es w ->
    exists w' outs bs,
      c w = (Throw (if msg_async m then return_async_exception else return_sync_exception), w') /\
      mapM ask_out (map fst es) = Some outs /\ answer_out m (Responded [] answer) = Some bs /\
      sys_out (w_sys w') =
        sys_out (w_sys w) ++ concat (map (frame (p_use_header (w_inst w))) (outs ++ [bs])).

Lemma concludes_return last :
  concludes (Input.return_ rq (msg_name m) (msg_pattern m) answer) last [].
Proof using laws Hm Hcalled Hroom Hk.
  intros w Hw. destruct (return_ok m rq answer w Hm (Hcalled w (tk_client _ _ _ _ _ _ _ _ _ Hw)))
    as (w' & He & bs & Hbs & Hs).
  { destruct Hw. split; try done; [lia|unfold INT_MAX; lia|].
    eapply good_writes_le; [|exact tk_writes]. exact Hk. }
  exists w', [], bs. split; [exact He|]. split; [done|]. split; [exact Hbs|].
  rewrite (sent_out _ _ _ Hs). cbn. by rewrite app_nil_r.
Qed.

Lemma concludes_bind {A} (c : C (world member_function unit) unit A) f last es1 es2 a last1 :
  says c last es1 (Next a) last1 -> concludes (f a) last1 es2 ->
  concludes (cbind c f) last (es1 ++ es2).
Proof.
  intros H1 H2 w Hw. destruct (H1 _ _ Hw) as (w1 & outs1 & He1 & Ho1 & Hw1 & Hs1).
  destruct (H2 _ Hw1) as (w2 & outs2 & bs & He2 & Ho2 & Hbs & Hs2).
  exists w2, (outs1 ++ outs2), bs. split; [by erewrite bind_next by exact He1|].
  apply mapM_Some_1 in Ho1, Ho2.
  split; [by apply mapM_Some_2; rewrite map_app; apply Forall2_app|]. split; [exact Hbs|].
  by rewrite Hs2, Hs1, (talking_header _ _ _ _ _ _ _ _ _ _ _ _ Hw Hw1), <- (app_assoc outs1),
    (map_app _ outs1), concat_app, <- app_assoc.
Qed.

Lemma concludes_next {A} (c : C (world member_function unit) unit A) f last es a :
  says c last [] (Next a) last -> concludes (f a) last es -> concludes (cbind c f) last es.
Proof. intros H1 H2. exact (concludes_bind c f last [] es a last H1 H2). Qed.

Lemma concludes_fuel f last es :
  (forall fuel, (length es <= fuel)%nat -> concludes (f fuel) last es) ->
  concludes (let* fuel := creads poll_fuel in f fuel) last es.
Proof.
  intros H w Hw. destruct (H (poll_fuel w)) with (w := w) as (w' & outs & bs & He & Hrest).
  - unfold poll_fuel. rewrite (tk_polls _ _ _ _ _ _ _ _ _ Hw), length_app, length_replicate. lia.
  - exact Hw.
  - exists w', outs, bs. split; [|exact Hrest]. erewrite bind_next by reflexivity. exact He.
Qed.

Lemma says_request texts last :
  msg_request m ∈ texts -> Forall (fun t : bytes => length t = length (msg_request m)) texts ->
  says (Input.assert_request rq texts) last [] (Next tt) last.
Proof using Hcalled.
  intros Hin Hl. apply says_reads. intros es w Hw.
  exact (assert_request_ok m rq texts w (Hcalled w (tk_client _ _ _ _ _ _ _ _ _ Hw)) Hin Hl).
Qed.

Lemma says_start last :
  msg_request m = Input.literal "start" ->
  says (Input.assert_request rq [Input.literal "start"]) last [] (Next tt) last.
Proof using Hcalled.
  intros Hr. apply says_request; rewrite Hr; [by left|by repeat constructor].
Qed.

Lemma concludes_ask {A} (c : C (world member_function unit) unit A) f last e es a last1 :
  says c last [e] (Next a) last1 -> concludes (f a) last1 es -> concludes (cbind c f) last (e :: es).
Proof. intros H1 H2. exact (concludes_bind c f last [e] es a last1 H1 H2). Qed.

Lemma concludes_check (b : bool) (c : C (world member_function unit) unit unit) last es :
  b = true -> concludes c last es -> concludes (cassert b;;; c) last es.
Proof. intros -> H. eapply concludes_next; [exact (says_assert true last)|exact H]. Qed.

(** *** The third sequence *)

Definition conversation3 (id1 id2 id3 : bytes) : list (ask * reply) :=
  [ (sends (chars "f1") (Input.literal "0"), Sent id1);
    (receives None (Some id1) None, Received [] (Input.literal "done") id1);
    (Send Sync (prefix ++ chars "g1") [] (Input.literal "prefix_") (cl_timeout_sync cl)
       (cl_priority cl), Returned [] (Input.literal "prefix_suffix") id2);
    (sends (chars "sequence1") (Input.literal "start"), Sent id3) ].

Lemma sequence3_concludes id1 id2 id3 :
  answer = Input.literal "end" -> msg_request m = Input.literal "start" -> length id1 = 16%nat ->
  concludes (Input.run_sequence3 run (msg_name m) (msg_pattern m) rq) None
    (conversation3 id1 id2 id3).
Proof using laws Hprefix Hcl Hm Hcalled Hroom Hk.
  intros Ha Hr H1. unfold Input.run_sequence3, conversation3.
  eapply concludes_next; [by apply says_start|].
  eapply concludes_ask; [apply says_send; by refine (bool_decide_unpack _ _)|].
  eapply concludes_next; [by apply (says_id (Sent id1) id1)|].
  eapply concludes_ask; [apply says_recv|].
  eapply concludes_next; [by apply (says_id _ id1)|].
  apply concludes_check; [by apply bool_decide_eq_true|].
  eapply concludes_next; [eapply says_response_size; by left|].
  apply concludes_check; [done|].
  eapply concludes_next; [apply (says_response _ [] _ _ 5%nat (or_introl eq_refl)); cbn; lia|].
  apply concludes_check; [done|].
  eapply concludes_next; [apply says_prefix|].
  eapply concludes_ask.
  { apply says_success. unfold Str.send_sync, API.send_sync.
    rewrite c_str_id_of by (apply not_elem_of_app; split; [done|by refine (bool_decide_unpack _ _)]).
    exact (says_perform run N cl n k rest ps
      (send_sync (prefix ++ chars "g1") (Input.literal "prefix_")) _ _). }
  eapply concludes_next; [eapply says_response_size; by right|].
  apply concludes_check; [done|].
  eapply concludes_next; [apply (says_response _ [] _ _ 14%nat (or_intror eq_refl)); cbn; lia|].
  apply concludes_check; [done|].
  eapply concludes_ask; [apply says_send; by refine (bool_decide_unpack _ _)|].
  rewrite <- Ha. apply concludes_return.
Qed.

(** *** The second sequence *)

(** Up to the check of the numbers, by the rules of [says] or [concludes]. *)
Ltac gather next ask check H Hids Hr :=
  unfold Input.run_sequence2; eapply next; [by apply says_start|];
  eapply next; [apply says_prefix|];
  eapply ask;
  [ apply says_success; unfold Str.mcast_async, API.mcast_async;
    rewrite c_str_id_of by (apply not_elem_of_app; split; [done|by refine (bool_decide_unpack _ _)]);
    exact (says_perform run N cl n k rest ps (mcast_async (prefix ++ chars "e") (Input.literal " ")) _ _)
  |];
  eapply next; [apply (says_field _ 24); intros es w Hw;
    destruct (tk_last _ _ _ _ _ _ _ _ _ Hw) as [-> _]; by rewrite (proj1 Hids)|];
  apply check; [done|];
  eapply next; [exact H|].

Lemma sequence2_concludes ids ds id :
  answer = Input.literal "end" -> msg_request m = Input.literal "start" ->
  length ids = 24%nat /\ Forall (fun t => length t = 16%nat) ids ->
  length ds = 24%nat /\ Forall (fun d => d ∈ digits) ds ->
  let c := Input.run_sequence2 run (msg_name m) (msg_pattern m) rq in
  if decide (ds ≡ₚ expected) then concludes c None (conversation2 ids ds id)
  else exists last, says c None (gathering ids ds) (Throw assert_exception) last.
Proof using laws Hprefix Hcl Hm Hcalled Hroom Hk.
  intros Ha Hr Hids Hds. cbv zeta.
  assert (says (Input.trans_id_bytes (24 * 16)) (Some (Sents ids)) [] (Next (concat ids))
    (Some (Sents ids))) as Hcat.
  { replace (24 * 16) with (Z.of_nat (16 * length ids)) by (by rewrite (proj1 Hids)).
    apply says_ids. split; [done|]. split; [apply Hids|]. intros ->. by destruct Hids. }
  destruct (says_loop ids ds [] (Some (Sents ids))) as (last & Hloop);
    [by rewrite (proj1 Hids), (proj1 Hds)|apply Hids|apply Hds|].
  rewrite tally_nil, app_nil_r in Hloop.
  assert (Input.split_ids 24 (concat ids) = ids) as Hsplit.
  { destruct Hids as [<- Hf]. clear -Hf. induction Hf as [|t l Ht _ IH]; [done|].
    cbn [length concat Input.split_ids]. rewrite take_app_length', drop_app_length' by done.
    by rewrite IH. }
  assert (take 24 (tally (rev ds)) = expected <-> ds ≡ₚ expected) as Hcheck.
  { rewrite tally_expected; [by rewrite <- Permutation_rev|by rewrite length_rev, (proj1 Hds)|].
    apply Forall_rev, Hds. }
  destruct (decide (ds ≡ₚ expected)) as [Hp|Hp].
  - unfold conversation2, gathering.
    gather uconstr:(concludes_next) uconstr:(concludes_ask) uconstr:(concludes_check) Hcat Hids Hr.
    rewrite Hsplit, expected_text.
    eapply concludes_bind; [exact Hloop|].
    apply concludes_check; [by apply bool_decide_eq_true, Hcheck|].
    eapply concludes_ask; [apply says_send; by refine (bool_decide_unpack _ _)|].
    rewrite <- Ha. apply concludes_return.
  - exists last. unfold gathering.
    gather uconstr:(says_next) uconstr:(says_ask) uconstr:(says_check) Hcat Hids Hr.
    rewrite Hsplit, expected_text, <- (app_nil_r (zip_with _ _ _)).
    eapply says_bind; [exact Hloop|]. apply says_throw.
    rewrite bool_decide_eq_false_2 by (by rewrite Hcheck). exact (says_assert false _).
Qed.

(** *** The first sequence *)

Definition conversation1 (ends : list (bytes * bytes)) (first : bytes * bytes) (ids : list bytes)
    (seens : list reply) (id : bytes) : list (ask * reply) :=
  map late (ends ++ [first]) ++ zip_with tested Input.sequence1_tests ids ++
  checks Input.sequence1_tests ids seens ++
  [(sends (chars "sequence2") (Input.literal "start"), Sent id)].

Lemma sequence1_concludes ends first ids seens id :
  answer = Input.literal "end" -> msg_request m = Input.literal "start" ->
  Forall is_end ends -> ~ is_end first ->
  Forall (fun r : bytes * bytes => length r.2 = 16%nat) (ends ++ [first]) ->
  length ids = 15%nat -> Forall (fun t => length t = 16%nat) ids -> length seens = 15%nat ->
  concludes (Input.run_sequence1 run (msg_name m) (msg_pattern m) rq) None
    (conversation1 ends first ids seens id).
Proof using laws Hprefix Hcl Hm Hcalled Hroom Hk.
  intros Ha Hr He Hf Hrs Hids Hids' Hseens. unfold conversation1.
  destruct (ends ++ [first]) as [|r rs] eqn:Heq; [by destruct ends|].
  assert (length rs = length ends) as Hlen.
  { apply (f_equal length) in Heq. rewrite length_app in Heq. cbn in Heq. lia. }
  unfold Input.run_sequence1. cbn [map app].
  eapply concludes_ask; [apply says_recv|]. apply concludes_fuel. intros fuel Hfuel.
  rewrite length_app, length_map in Hfuel.
  eapply concludes_bind.
  { apply (says_skip ends first fuel r rs); [by rewrite Heq|done|done|by rewrite Heq|lia]. }
  eapply concludes_next; [by apply says_start|].
  destruct (says_tests Input.sequence1_tests ids (Some (Received [] first.1 first.2)))
    as (l1 & H1); [by rewrite Hids|done|refine (bool_decide_unpack _ _); vm_compute; exact Logic.I|].
  eapply concludes_bind; [exact H1|].
  destruct (says_checks Input.sequence1_tests ids seens l1) as (us & l2 & H2);
    [by rewrite Hids|by rewrite Hids|done|].
  eapply concludes_bind; [exact H2|].
  eapply concludes_ask; [apply says_send; by refine (bool_decide_unpack _ _)|].
  rewrite <- Ha. apply concludes_return.
Qed.
End statements.

(** ** Properties *)

Section properties.
Context {E : Ei} {laws : EiLaws E}.
Implicit Types (w : world member_function unit) (m : message) (rq : request).

Lemma called_kept m rq w w' :
  p_buffer_call (w_inst w') = p_buffer_call (w_inst w) -> called m rq w -> called m rq w'.
Proof.
  intros Hb [[] ? ? ? ? ? ? ? ?]. split; rewrite ?Hb; try assumption. split; by rewrite Hb.
Qed.

(** A callback function of the program was called with "start", and [es] is the
    conversation it is going to have: the requests it should make and the
    answers to them. *)
Record conversing (prefix : bytes) (N : Z) (cl : client (F := member_function) (U := unit))
    (es : list (ask * reply)) m rq w : Prop := {
  cv_prefix : NUL ∉ prefix;
  cv_endpoint : (cl_endpoint cl).2 = Some (Some <$> prefix ++ [NUL]);
  cv_message : valid_message m;
  cv_start : msg_request m = Input.literal "start";
  cv_called : called m rq w;
  cv_room : room m (Responded [] (Input.literal "end")) + 128 <= N;
  cv_talking : exists n k rest ps, talking N cl n k rest ps None es w /\
    (Z.to_nat (room m (Responded [] (Input.literal "end"))) <= k)%nat
}.

(** It asks for all that and answers "end". *)
Definition completes (es : list (ask * reply)) m (c : C (world member_function unit) unit unit) w
    : Prop :=
  exists w' outs bs,
    c w = (Throw (if msg_async m then return_async_exception else return_sync_exception), w') /\
    mapM ask_out (map fst es) = Some outs /\
    answer_out m (Responded [] (Input.literal "end")) = Some bs /\
    sys_out (w_sys w') =
      sys_out (w_sys w) ++ concat (map (frame (p_use_header (w_inst w))) (outs ++ [bs])).

Lemma run_called depth f m rq w :
  called m rq w ->
  Input.run (S depth) f rq w = Input.member (Input.run depth) f (msg_name m) (msg_pattern m) rq w.
Proof.
  intros Hc. cbn [Input.run]. unfold Input.call_member.
  erewrite bind_next by (by apply (called_name m)). cbv beta.
  by erewrite bind_next by (by apply (called_pattern m)).
Qed.

Lemma conversing_called prefix N cl es m rq w :
  conversing prefix N cl es m rq w -> forall w', client_of w' = cl -> called m rq w'.
Proof.
  intros [] w' Hw'. destruct cv_talking0 as (n & k & rest & ps & Hw & _).
  eapply called_kept; [|exact cv_called0].
  pose proof (tk_client _ _ _ _ _ _ _ _ _ Hw) as Hc. rewrite <- Hw' in Hc. by injection Hc.
Qed.

(** C6. The first sequence.  It takes the "end" of earlier runs, as many as there
    are, sends its fifteen tests, finds each response twice, the second time
    with the text and the identifier of the test, starts the second sequence,
    and answers "end". *)
Theorem sequence1_completes depth prefix N cl ends first ids seens id m rq w
    (Hw : conversing prefix N cl (conversation1 prefix cl ends first ids seens id) m rq w)
    (Hends : Forall is_end ends) (Hfirst : ~ is_end first)
    (Hlate : Forall (fun r : bytes * bytes => length r.2 = 16%nat) (ends ++ [first]))
    (Hids : length ids = 15%nat /\ Forall (fun t : bytes => length t = 16%nat) ids)
    (Hseens : length seens = 15%nat) :
  completes (conversation1 prefix cl ends first ids seens id) m (Input.run (S depth) sequence1 rq) w.
Proof.
  pose proof (conversing_called _ _ _ _ _ _ _ Hw) as Hcalled. destruct Hw.
  destruct cv_talking0 as (n & k & rest & ps & Hw & Hk). unfold completes.
  rewrite (run_called depth sequence1 m rq w cv_called0).
  by eapply (sequence1_concludes (Input.run depth) prefix cv_prefix0 N cl n k rest ps);
    [..|exact Hw]; try done; apply Hids.
Qed.

(** C5. The second sequence.  It sends to the functions of "e" in the three other
    threads, and takes the 24 responses by their identifiers.  If they are
    three of each number from 1 to 8, in any order, it starts the third
    sequence and answers "end"; if not its assertion fails, and it has asked
    for nothing else. *)
Theorem sequence2_gathers depth prefix N cl ids ds id m rq w
    (Hw : conversing prefix N cl (conversation2 prefix cl ids ds id) m rq w)
    (Hids : length ids = 24%nat /\ Forall (fun t : bytes => length t = 16%nat) ids)
    (Hds : length ds = 24%nat /\ Forall (fun d => d ∈ digits) ds) :
  let c := Input.run (S depth) sequence2 rq in
  if decide (ds ≡ₚ chars "111222333444555666777888")
  then completes (conversation2 prefix cl ids ds id) m c w
  else exists w' outs, c w = (Throw assert_exception, w') /\
    mapM ask_out (map fst (gathering prefix cl ids ds)) = Some outs /\
    sys_out (w_sys w') =
      sys_out (w_sys w) ++ concat (map (frame (p_use_header (w_inst w))) outs).
Proof.
  pose proof (conversing_called _ _ _ _ _ _ _ Hw) as Hcalled. destruct Hw.
  destruct cv_talking0 as (n & k & rest & ps & Hw & Hk). unfold completes. cbv zeta.
  rewrite (run_called depth sequence2 m rq w cv_called0).
  pose proof (sequence2_concludes (Input.run depth) prefix cv_prefix0 N cl n k rest ps cv_endpoint0
    m rq _ cv_message0 Hcalled cv_room0 Hk ids ds id eq_refl cv_start0 Hids Hds) as H.
  cbv zeta in H. rewrite expected_chars in H.
  destruct (decide (ds ≡ₚ _)); [exact (H w Hw)|]. destruct H as (last & H).
  destruct (H _ w Hw) as (w' & outs & He & Ho & _ & Hs). by exists w', outs.
Qed.

(** The third sequence.  It sends 0, which the other functions pass on until
    they are done, and takes that response; asks for a suffix and waits for
    it; starts the first sequence again, and answers "end". *)
Theorem sequence3_completes depth prefix N cl id1 id2 id3 m rq w
    (Hw : conversing prefix N cl (conversation3 prefix cl id1 id2 id3) m rq w)
    (Hid : length id1 = 16%nat) :
  completes (conversation3 prefix cl id1 id2 id3) m (Input.run (S depth) sequence3 rq) w.
Proof.
  pose proof (conversing_called _ _ _ _ _ _ _ Hw) as Hcalled. destruct Hw.
  destruct cv_talking0 as (n & k & rest & ps & Hw & Hk). unfold completes.
  rewrite (run_called depth sequence3 m rq w cv_called0).
  by eapply (sequence3_concludes (Input.run depth) prefix cv_prefix0 N cl n k rest ps);
    [..|exact Hw].
Qed.
End properties.

(** ** Examples *)

Definition example_id (i : nat) : bytes := replicate 15 NUL ++ [byte.of_Z (Z.of_nat i)].
Definition example_start (name : bytes) : message := example_to (chars "/p/" ++ name) (Input.literal "start").

(** An instance in a callback function for the message [m], and what it is
    going to be answered. *)
Definition example_caller (m : message) (es : list (ask * reply)) : world member_function unit :=
  let b := construct 1 256 65536 in
  mk_world (set_buffer_call (set_cells b (store (m_p b) 0 (message_out m)))
      (example_instance member_function 1))
    (mk_sys (concat (map (fun e => frame 1 (reply_out e.2)) es)) (replicate (Z.to_nat 4000) (rd_some 3)) []
       (replicate (Z.to_nat 12000) (wr_some 2)) (replicate 60 pl_ready) [] (fun _ => true)) tt.

Definition example_request (m : message) : request :=
  send_request (type_of (msg_async m)) (msg_name m) (msg_pattern m) (msg_info m) (msg_request m)
    (msg_timeout m) (msg_priority m) (msg_source m)
    (p_buffer_call (w_inst (example_caller m []))).

Definition example_client_of (m : message) : client := client_of (example_caller m []).

Lemma example_start_valid name :
  NUL ∉ chars "/p/" ++ name -> strlen (chars "/p/" ++ name) <= 65535 ->
  valid_message (example_start name).
Proof.
  intros Hn Hl. split; try assumption; try (cbn; lia).
  exists 1%nat. split; [reflexivity|vm_compute; discriminate].
Qed.

Lemma example_conversing m es :
  valid_message m -> msg_request m = Input.literal "start" ->
  (length (message_out m) <= 200)%nat -> room m (Responded [] (Input.literal "end")) <= 500 ->
  Forall (allowed 1000) es -> (length es <= 60)%nat ->
  (foldr Nat.add 0 (map (fun e => 4 + length (reply_out e.2)) es) <= Z.to_nat 4000)%nat ->
  (foldr Nat.add 500 (map (fun e => Z.to_nat (ask_room e.1)) es) <= Z.to_nat 12000)%nat ->
  conversing (chars "/p/") 1000 (example_client_of m) es m (example_request m) (example_caller m es).
Proof.
  intros Hm Hstart Hlen Hroom Hes Hn Hr Hw.
  set (b := construct 1 256 65536 : buffer_t).
  assert (wf b) as Hwf by (split; vm_compute; done).
  assert (m_size b = 256) as Hsize by reflexivity.
  assert (length (m_p b) = 256%nat) as Hcells
    by (apply Nat2Z.inj; rewrite (proj1 Hwf); exact Hsize).
  split; try assumption.
  - refine (bool_decide_unpack _ _). vm_compute. exact Logic.I.
  - reflexivity.
  - apply send_request_called; [done| |reflexivity].
    assert (0 + length (message_out m) <= length (m_p b))%nat as Hfit by (rewrite Hcells; lia).
    split; [apply set_cells_wf; [exact Hwf|]; apply length_store; exact Hfit|].
    split; [done|]. split.
    + change (0 + Z.of_nat (length (message_out m)) < 256). lia.
    + apply holds_store_eq. apply Nat.le_0_l.
  - lia.
  - exists 0%nat, 500%nat, [], (replicate (60 - length es) pl_ready). split; [|lia].
    split; try reflexivity; try done.
    + symmetry. apply app_nil_r.
    + cbn [example_caller w_sys sys_polls]. rewrite <- replicate_add. f_equal. lia.
    + apply good_reads_replicate. exact Hr.
    + apply good_writes_replicate. exact Hw.
Qed.

Lemma sequence3_completes_witness :
  let m := example_start (chars "sequence3") in
  let es := conversation3 (chars "/p/") (example_client_of m) (example_id 1) (example_id 2)
    (example_id 3) in
  completes es m (Input.run 1 sequence3 (example_request m)) (example_caller m es).
Proof.
  cbv zeta. apply (sequence3_completes 0 (chars "/p/") 1000); [|reflexivity].
  apply example_conversing; [apply example_start_valid|reflexivity|..];
    try (refine (bool_decide_unpack _ _); vm_compute; exact Logic.I).
Defined.

(** The responses of the three other threads, one after the other. *)
Definition example_numbers : bytes := chars "123456781234567812345678".

Lemma sequence2_gathers_witness :
  let m := example_start (chars "sequence2") in
  let es := conversation2 (chars "/p/") (example_client_of m) (map example_id (seq 1 24))
    example_numbers (example_id 25) in
  completes es m (Input.run 1 sequence2 (example_request m)) (example_caller m es).
Proof.
  intros m es.
  assert (example_numbers ≡ₚ chars "111222333444555666777888") as Hp
    by (refine (bool_decide_unpack _ _); vm_compute; exact Logic.I).
  assert (conversing (chars "/p/") 1000 (example_client_of m) es m (example_request m)
    (example_caller m es)) as Hw.
  { apply example_conversing; [apply example_start_valid|reflexivity|..];
      try (refine (bool_decide_unpack _ _); vm_compute; exact Logic.I). }
  pose proof (sequence2_gathers 0 (chars "/p/") 1000 (example_client_of m) (map example_id (seq 1 24))
    example_numbers (example_id 25) m (example_request m) (example_caller m es) Hw) as H.
  cbv zeta in H. rewrite decide_True in H by exact Hp.
  apply H; (split; [reflexivity|]); refine (bool_decide_unpack _ _); vm_compute; exact Logic.I.
Defined.

(** The end of an earlier run is still there. *)
Lemma sequence1_completes_witness :
  let m := example_start (chars "sequence1") in
  let es := conversation1 (chars "/p/") (example_client_of m)
    [(Input.literal "end", example_id 20)] ([], trans_id_null) (map example_id (seq 1 15))
    (replicate 15 (Received [] [] trans_id_null)) (example_id 16) in
  completes es m (Input.run 1 sequence1 (example_request m)) (example_caller m es).
Proof.
  cbv zeta. apply (sequence1_completes 0 (chars "/p/") 1000).
  - apply example_conversing; [apply example_start_valid|reflexivity|..];
      try (refine (bool_decide_unpack _ _); vm_compute; exact Logic.I).
  - repeat constructor.
  - discriminate.
  - repeat constructor.
  - split; [reflexivity|]. repeat constructor.
  - reflexivity.
Defined.
