(* ===== verification/Objects.v ===== *)
(** * The objects that share an instance  (class API, cloudi.hpp)

    An object of class API has a pointer to an instance and one to the number
    of objects that share it; the destructor of the last one ends the
    instance.  A subscription keeps a copy of the object it was made with,
    and the queue it is in belongs to the instance. *)

From S2P Require Import Prelude CMonad Status Sys ReallocPtr Framing Lookup Ei Instance Requests Poll Calls Messages KeyValue Invariant Api Overloads.

(** The classes callback_function_cxx_*: of an object by reference or by
    pointer, of an object and a member function, and of a static function;
    with strings (1) or with pointers (2). *)
Inductive callback_class : Type := or1 | or2 | op1 | op2 | m1 | m2 | s1 | s2.

(** An object of one of them: its own [m_api], and the function (or the
    object and member function) it calls with it. *)
Record callback_object (G : Type) : Type := mk_callback {
  cb_class : callback_class;
  cb_api : nat;
  cb_function : G
}.
#[global] Arguments mk_callback {G} cb_class cb_api cb_function.
#[global] Arguments cb_class {G} c.
#[global] Arguments cb_api {G} c.
#[global] Arguments cb_function {G} c.

Section objects.
Context {G U : Type} {E : Ei}.
Abbreviation F := (callback_object G).

(** Where the object is that a function is given by pointer. *)
Context (address : G -> nat).

(** The functions of the program: they get the API object and the request,
    with the name and the pattern as strings, or as the pointers they are. *)
Context (call_strings : G -> nat -> bytes -> bytes -> request -> C (world F U) unit unit).
Context (call_pointers : G -> nat -> request -> C (world F U) unit unit).

(** The call operators of the eight classes. *)
Definition run (f : F) (rq : request) : C (world F U) unit unit :=
  match cb_class f with
  | or1 | op1 | m1 | s1 =>
      let* name := call_cstr (rq_name rq) in
      let* pattern := call_cstr (rq_pattern rq) in
      call_strings (cb_function f) (cb_api f) name pattern rq
  | or2 | op2 | m2 | s2 => call_pointers (cb_function f) (cb_api f) rq
  end.

(** The heap: the objects of class API by number, with the number of their
    [m_api] (a constructor allocates it and its [m_count] together, and no
    other function sets one); the counts and the instances by that number; and
    the function objects the program makes for op1 and op2.  And the
    descriptors that were closed. *)
Record objects : Type := mk_objects {
  apis : gmap nat nat;
  counts : gmap nat Z;
  instances : gmap nat (world F U);
  functions : gset nat;
  closed : list Z
}.

Definition no_objects : objects := mk_objects ∅ ∅ ∅ ∅ [].

Definition set_apis f st :=
  mk_objects (f (apis st)) (counts st) (instances st) (functions st) (closed st).
Definition set_counts f st :=
  mk_objects (apis st) (f (counts st)) (instances st) (functions st) (closed st).
Definition set_instances f st :=
  mk_objects (apis st) (counts st) (f (instances st)) (functions st) (closed st).
Definition set_functions f st :=
  mk_objects (apis st) (counts st) (instances st) (f (functions st)) (closed st).
Definition close_all fds st :=
  mk_objects (apis st) (counts st) (instances st) (functions st) (closed st ++ fds).

(** The callback objects of an instance. *)
Definition kept (f : callback_function F) : option F :=
  match f with callback_user f => Some f | callback_null_response => None end.
Definition held (l : lookup_t F) : list F := omap kept (callbacks l).
Definition holds_of (w : world F U) : list F := held (p_lookup (w_inst w)).

(** The object an op1 or an op2 has a pointer to, and deletes. *)
Definition function_of (c : F) : option nat :=
  match cb_class c with op1 | op2 => Some (address (cb_function c)) | _ => None end.

Section statements.
Context {R : Type}.
Abbreviation M := (C objects R).

Definition api_of (o : nat) : M nat :=
  let* st := cget in copt (apis st !! o).
Definition count_of (i : nat) : M Z :=
  let* st := cget in copt (counts st !! i).
Definition instance_of (i : nat) : M (world F U) :=
  let* st := cget in copt (instances st !! i).

(** [++( *m_count)] and [--( *m_count)] of an [int]. *)
Definition add_count (i : nat) (n : Z) : M Z :=
  let* count := count_of i in
  (if decide (- 2 ^ 31 <= count + n < 2 ^ 31) then cret tt else cundef);;;
  cmodify (set_counts <[i := count + n]>);;;
  cret (count + n).

(** A function of the instance [i]. *)
Definition on_instance {A} (i : nat) (c : C (world F U) R A) : M A := fun st =>
  match instances st !! i with
  | None => (Undef, st)
  | Some w => let '(out, w') := c w in (out, set_instances <[i := w']> st)
  end.

Fixpoint each {A} (f : A -> M unit) (l : list A) : M unit :=
  match l with [] => cret tt | x :: l => f x;;; each f l end.

(** [delete m_object] in the destructor of a callback object, of an object
    that is there. *)
Definition delete_function (c : F) : M unit :=
  match function_of c with
  | None => cret tt
  | Some a =>
      let* st := cget in
      if decide (a ∈ functions st) then cmodify (set_functions (fun s => s ∖ {[a]}))
      else cundef
  end.

(** [cloudi_destroy(m_api); delete m_api; delete m_count;] with the
    destructor of the lookup, which deletes every callback object ([del]), and
    each of those what it has.  The order is that of the hash table. *)
Definition destroy_instance (del : F -> M unit) (i : nat) : M unit :=
  let* w := instance_of i in
  cmodify (close_all (fst (cloudi_destroy (Some (w_inst w)))));;;
  cwhen (negb (p_fd_in (w_inst w) =? 0)) (each del (holds_of w));;;
  cmodify (fun st => set_counts (delete i) (set_instances (delete i) st)).

(** [~API()], of an object that is there. *)
Fixpoint destruct_api (fuel : nat) (o : nat) : M unit :=
  match fuel with
  | O => cnofuel
  | S fuel =>
      let* i := api_of o in
      cmodify (set_apis (delete o));;;
      let* count := add_count i (-1) in
      cwhen (count =? 0)
        (destroy_instance (fun c => delete_function c;;; destruct_api fuel (cb_api c)) i)
  end.

(** [delete p], of a pointer to an API object.  A destructor that runs has
    one object less below it. *)
Definition delete_api (o : nat) : M unit :=
  let* st := cget in destruct_api (base.size (apis st)) o.

(** [~callback_function_cxx_*()]: [delete m_object; delete m_api;] *)
Definition delete_callback (c : F) : M unit :=
  delete_function c;;; delete_api (cb_api c).
End statements.

(** [API(thread_index)], in the new object [o]: [new cloudi_instance_t()]
    gives [i] and is zero, [new int] gives its count; [s] is the socket and
    the clock, [u] what the functions of the program use.  When it throws, no destructor runs. *)
Definition api_construct (getenv : bytes -> option bytes) (thread_index : Z)
    (s : sys) (u : U) (o i : nat) : C objects unit unit :=
  cmodify (set_instances <[i := mk_world zero_instance s u]>);;;
  cmodify (set_counts <[i := 1]>);;;
  on_instance i (API.construct run getenv thread_index);;;
  cmodify (set_apis <[o := i]>).

(** [API(object)], in the new object [n]. *)
Definition api_copy {R} (o n : nat) : C objects R unit :=
  let* i := api_of o in
  cmodify (set_apis <[n := i]>);;;
  let* _ := add_count i 1 in
  cret tt.

(** The callback objects that [w] or [own] had and [w'] has not. *)
Definition dropped (own : list F) (w w' : world F U) : list F :=
  filter (fun c => cb_api c ∉ cb_api <$> holds_of w') (own ++ holds_of w).

(** Callback objects are shared between the queues and the function that
    handles them: after [c] those that were in a queue or in [own], and are
    in no queue any more, are deleted, also when an exception leaves it.
    (In [remove] this is before the end of the function; it does not read
    the counts.) *)
Definition releasing {R} (i : nat) (own : list F) (c : C objects R R) : C objects R R :=
  let* w := instance_of i in
  fun st =>
    let '(out, st) := c st in
    match out with
    | Undef | Blocked | NoFuel => (out, st)
    | _ =>
        (let* w' := instance_of i in
         each delete_callback (dropped own w w');;;
         fun st => (out, st)) st
    end.

(** The functions [subscribe] of cloudi.hpp, which make a callback object
    with a copy [n] of their object. *)
Definition api_subscribe_object (o n : nat) (pattern : bytes) (k : callback_class) (f : G) :
    C objects Z Z :=
  let* i := api_of o in
  api_copy o n;;;
  releasing i [mk_callback k n f] (on_instance i (API.subscribe pattern (mk_callback k n f))).

(** By the type of the pattern and of the function. *)
Definition subscribe_str_or1 (o n : nat) (pattern : bytes) (f : G) : C objects Z Z :=
  api_subscribe_object o n (c_str pattern) or1 f.
Definition subscribe_or2 (o n : nat) (pattern : bytes) (f : G) : C objects Z Z :=
  api_subscribe_object o n pattern or2 f.
Definition subscribe_str_op1 (o n : nat) (pattern : bytes) (f : G) : C objects Z Z :=
  api_subscribe_object o n (c_str pattern) op1 f.
Definition subscribe_op2 (o n : nat) (pattern : bytes) (f : G) : C objects Z Z :=
  api_subscribe_object o n pattern op2 f.
Definition subscribe_str_m1 (o n : nat) (pattern : bytes) (f : G) : C objects Z Z :=
  api_subscribe_object o n (c_str pattern) m1 f.
Definition subscribe_m1 (o n : nat) (pattern : bytes) (f : G) : C objects Z Z :=
  api_subscribe_object o n pattern m1 f.
Definition subscribe_str_m2 (o n : nat) (pattern : bytes) (f : G) : C objects Z Z :=
  api_subscribe_object o n (c_str pattern) m2 f.
Definition subscribe_m2 (o n : nat) (pattern : bytes) (f : G) : C objects Z Z :=
  api_subscribe_object o n pattern m2 f.
Definition subscribe_str_s1 (o n : nat) (pattern : bytes) (f : G) : C objects Z Z :=
  api_subscribe_object o n (c_str pattern) s1 f.
Definition subscribe_s1 (o n : nat) (pattern : bytes) (f : G) : C objects Z Z :=
  api_subscribe_object o n pattern s1 f.
Definition subscribe_str_s2 (o n : nat) (pattern : bytes) (f : G) : C objects Z Z :=
  api_subscribe_object o n (c_str pattern) s2 f.
Definition subscribe_s2 (o n : nat) (pattern : bytes) (f : G) : C objects Z Z :=
  api_subscribe_object o n pattern s2 f.

Definition api_unsubscribe_object (o : nat) (pattern : bytes) : C objects Z Z :=
  let* i := api_of o in
  releasing i [] (on_instance i (API.unsubscribe pattern)).

(** Any other member function. *)
Definition api_member (o : nat) (c : C (world F U) Z Z) : C objects Z Z :=
  let* i := api_of o in releasing i [] (on_instance i c).

(** ** Programs

    A program has objects of its own: the API objects it constructed or copied
    and has not deleted, and the function objects it made and has neither
    deleted nor given to a subscription.  It uses, deletes and gives only
    those. *)
Definition ended {A} (out : outcome A A) : Prop :=
  match out with Undef | Blocked | NoFuel => False | _ => True end.

Definition fresh_api (n : nat) (st : objects) : Prop := apis st !! n = None.
Definition fresh_instance (i : nat) (st : objects) : Prop :=
  instances st !! i = None /\ counts st !! i = None.

(** What a subscription with [f] takes from the program. *)
Definition gives (k : callback_class) (f : G) (fns : gset nat) : option (gset nat) :=
  match k with
  | op1 | op2 => if decide (address f ∈ fns) then Some (fns ∖ {[address f]}) else None
  | _ => Some fns
  end.

Abbreviation program := (gset nat * gset nat * objects)%type.

Inductive api_step : program -> program -> Prop :=
| step_construct own fns getenv thread_index s u o i st st' :
    fresh_api o st -> fresh_instance i st -> Z.of_nat (budget s) < 2 ^ 31 ->
    api_construct getenv thread_index s u o i st = (Next tt, st') ->
    api_step (own, fns, st) ({[o]} ∪ own, fns, st')
| step_construct_throws own fns getenv thread_index s u o i st e st' :
    fresh_api o st -> fresh_instance i st -> Z.of_nat (budget s) < 2 ^ 31 ->
    api_construct getenv thread_index s u o i st = (Throw e, st') ->
    api_step (own, fns, st) (own, fns, st')
| step_copy own fns o n st st' :
    o ∈ own -> fresh_api n st -> api_copy (R := unit) o n st = (Next tt, st') ->
    api_step (own, fns, st) ({[n]} ∪ own, fns, st')
| step_delete own fns o st st' :
    o ∈ own -> delete_api (R := unit) o st = (Next tt, st') ->
    api_step (own, fns, st) (own ∖ {[o]}, fns, st')
| step_new_function own fns a st :
    a ∉ functions st ->
    api_step (own, fns, st) (own, {[a]} ∪ fns, set_functions (union {[a]}) st)
| step_delete_function own fns a st :
    a ∈ fns ->
    api_step (own, fns, st) (own, fns ∖ {[a]}, set_functions (fun s => s ∖ {[a]}) st)
| step_subscribe own fns fns' o n pattern k f st out st' :
    o ∈ own -> fresh_api n st -> gives k f fns = Some fns' -> ended out ->
    api_subscribe_object o n pattern k f st = (out, st') ->
    api_step (own, fns, st) (own, fns', st')
| step_unsubscribe own fns o pattern st out st' :
    o ∈ own -> ended out ->
    api_unsubscribe_object o pattern st = (out, st') -> api_step (own, fns, st) (own, fns, st')
| step_member own fns o c st out st' :
    o ∈ own -> ended out -> member run c ->
    api_member o c st = (out, st') -> api_step (own, fns, st) (own, fns, st').

Definition reachable (own fns : gset nat) (st : objects) : Prop :=
  rtc api_step (∅, ∅, no_objects) (own, fns, st).

(** ** The invariant *)

Definition members (i : nat) (st : objects) : gset nat :=
  dom (filter (fun p => p.2 = i) (apis st)).

Lemma elem_of_members o i st : o ∈ members i st <-> apis st !! o = Some i.
Proof.
  unfold members. rewrite elem_of_dom. unfold is_Some. setoid_rewrite map_lookup_filter_Some.
  cbn. split; [by intros (? & ? & ->)|eauto].
Qed.

Lemma members_ext i st st' :
  (forall o, apis st' !! o = Some i <-> apis st !! o = Some i) -> members i st' = members i st.
Proof. intros H. apply set_eq. intros o. by rewrite !elem_of_members. Qed.

(** What holds of the instance [i] while an object of the API has it, when
    the objects in [own] belong to the program: its count is the number of
    its objects, and each of them that is not the program's is kept by one
    callback. *)
Record instance_ok (own : gset nat) (st : objects) (i : nat) (w : world F U) : Prop := {
  io_instance : instances st !! i = Some w;
  io_count : counts st !! i = Some (Z.of_nat (base.size (members i st)));
  io_small : Z.of_nat (base.size (members i st)) < 2 ^ 31;
  io_inv : exists n, Z.of_nat n < 2 ^ 31 /\ inv lookup_wf any n None w;
  io_nodup : NoDup (cb_api <$> holds_of w);
  io_held : forall o, o ∈ cb_api <$> holds_of w <-> apis st !! o = Some i /\ o ∉ own
}.

Record objects_ok (own : gset nat) (st : objects) : Prop := {
  ok_own : forall o, o ∈ own -> is_Some (apis st !! o);
  ok_instance : forall o i, apis st !! o = Some i -> exists w, instance_ok own st i w
}.

(** Of the function objects, when [m] says which of them goes with the API
    object of a callback: each is there, has one callback, and is not the
    program's. *)
Record functions_ok (own fns : gset nat) (st : objects) (m : gmap nat nat) : Prop := {
  fo_own : fns ⊆ functions st;
  fo_map : forall o a, m !! o = Some a ->
    a ∈ functions st /\ (a ∉ fns) /\ (o ∉ own) /\ is_Some (apis st !! o);
  fo_one : forall o o' a, m !! o = Some a -> m !! o' = Some a -> o = o';
  fo_calls : forall o i w c, apis st !! o = Some i -> instances st !! i = Some w ->
    c ∈ holds_of w -> function_of c = m !! cb_api c
}.

Lemma instance_ok_ext own own' st st' i w :
  instance_ok own st i w ->
  instances st' !! i = instances st !! i -> counts st' !! i = counts st !! i ->
  (forall o, apis st' !! o = Some i <-> apis st !! o = Some i) ->
  (forall o, apis st !! o = Some i -> (o ∉ own' <-> o ∉ own)) ->
  instance_ok own' st' i w.
Proof.
  intros [] Hi Hc Ha Ho. constructor; rewrite ?Hi, ?Hc, ?(members_ext i st st') by done; try done.
  intros o. rewrite Ha, io_held0. split; intros [H1 H2]; (split; [done|]); by apply (Ho o).
Qed.

(** ** Deleting an object *)

Lemma count_step {R} i n st c :
  counts st !! i = Some c -> - 2 ^ 31 <= c + n < 2 ^ 31 ->
  add_count (R := R) i n st = (Next (c + n), set_counts <[i := c + n]> st).
Proof.
  intros Hc Hn. unfold add_count, count_of. crun. rewrite Hc. cbn [copt]. crun.
  by rewrite decide_True.
Qed.

Lemma delete_runs {R} o i w c st :
  apis st !! o = Some i -> instances st !! i = Some w -> counts st !! i = Some c ->
  1 <= c < 2 ^ 31 -> (c = 1 -> holds_of w = []) ->
  delete_api (R := R) o st = (Next tt,
    if c =? 1 then
      mk_objects (delete o (apis st)) (delete i (counts st)) (delete i (instances st))
        (functions st) (closed st ++ fst (cloudi_destroy (Some (w_inst w))))
    else mk_objects (delete o (apis st)) (<[i := c - 1]> (counts st)) (instances st)
      (functions st) (closed st)).
Proof.
  intros Ho Hi Hc Hn Hh. unfold delete_api. crun.
  destruct (base.size (apis st)) as [|n] eqn:Hs.
  { apply map_size_empty_inv in Hs. by rewrite Hs, lookup_empty in Ho. }
  cbn [destruct_api]. unfold api_of. crun. rewrite Ho. cbn [copt]. crun.
  erewrite bind_next by (apply count_step; [exact Hc|lia]). cbv beta.
  replace (c + -1 =? 0) with (c =? 1) by lia.
  destruct (Z.eqb_spec c 1) as [->|Hc1]; cbn [cwhen]; [|by replace (c + -1) with (c - 1) by lia].
  unfold destroy_instance, instance_of. crun. cbn [instances set_counts set_apis].
  rewrite Hi. cbn [copt]. crun. rewrite Hh by done. cbn [each].
  rewrite bind_next with (a := tt) (s' := close_all (fst (cloudi_destroy (Some (w_inst w))))
    (set_counts <[i := 1 + -1]> (set_apis (delete o) st))) by (by destruct (negb _)).
  unfold cmodify, set_counts, set_instances, close_all, set_apis. cbn.
  by rewrite delete_insert_eq.
Qed.

Lemma size_members_delete o i st st' :
  apis st !! o = Some i -> apis st' = delete o (apis st) ->
  base.size (members i st) = S (base.size (members i st')).
Proof.
  intros Ho Ha. assert (members i st = {[o]} ∪ members i st') as ->.
  { apply set_eq. intros x. rewrite elem_of_union, elem_of_singleton, !elem_of_members, Ha.
    destruct (decide (x = o)) as [->|]; [tauto|]. rewrite lookup_delete_ne by done. tauto. }
  rewrite size_union, size_singleton; [done|].
  intros x Hx. rewrite elem_of_singleton, elem_of_members, Ha in *. intros Hx2.
  by rewrite Hx, lookup_delete_eq in Hx2.
Qed.

(** The other instances, when [o] is deleted. *)
Lemma delete_other own o i st st' j w :
  apis st !! o = Some i -> j <> i -> apis st' = delete o (apis st) ->
  instances st' !! j = instances st !! j -> counts st' !! j = counts st !! j ->
  instance_ok ({[o]} ∪ own) st j w -> instance_ok own st' j w.
Proof.
  intros Ho Hj Ha Hi Hc Hw. apply (instance_ok_ext _ own _ st' _ _ Hw Hi Hc).
  - intros x. rewrite Ha. destruct (decide (x = o)) as [->|].
    + rewrite lookup_delete_eq. split; [done|congruence].
    + by rewrite lookup_delete_ne.
  - intros x Hx. assert (x <> o) by congruence. clear -H. set_solver.
Qed.

(** Its own, when it has others. *)
Lemma delete_same own o i st w c' fs cl :
  apis st !! o = Some i -> o ∉ own ->
  c' = Z.of_nat (base.size (members i st)) - 1 ->
  instance_ok ({[o]} ∪ own) st i w ->
  instance_ok own (mk_objects (delete o (apis st)) (<[i := c']> (counts st)) (instances st) fs cl)
    i w.
Proof.
  intros Ho Hown -> [Hi Hc Hs Hn Hd Hh]. set (st' := mk_objects _ _ _ _ _).
  pose proof (size_members_delete o i st st' Ho eq_refl) as Hm.
  constructor; try done.
  - cbn. rewrite lookup_insert_eq. f_equal. lia.
  - lia.
  - intros x. rewrite Hh. cbn. destruct (decide (x = o)) as [->|Hx].
    + rewrite lookup_delete_eq. split; intros [H1 H2]; [|done].
      exfalso. clear -H2. set_solver.
    + rewrite lookup_delete_ne by done. clear -Hx. set_solver.
Qed.

Lemma members_one o i st :
  apis st !! o = Some i ->
  base.size (members i st) <> 0%nat /\
  (base.size (members i st) = 1%nat <-> members i st = {[o]}).
Proof.
  intros Ho. apply elem_of_members in Ho. split.
  - intros H. apply size_empty_inv in H. set_solver.
  - split; [|intros ->; apply size_singleton].
    intros H. apply size_1_elem_of in H as [x Hx]. apply leibniz_equiv in Hx.
    rewrite Hx in *. apply elem_of_singleton in Ho. by subst.
Qed.

(** An object of the program, or one no callback keeps any more.  The
    instance ends with its last object. *)
Lemma delete_api_ok {R} own o st :
  o ∉ own -> objects_ok ({[o]} ∪ own) st ->
  exists i w st', apis st !! o = Some i /\ instance_ok ({[o]} ∪ own) st i w /\
    delete_api (R := R) o st = (Next tt, st') /\ objects_ok own st' /\
    apis st' = delete o (apis st) /\ functions st' = functions st /\
    if decide (members i st = {[o]}) then
      instances st' = delete i (instances st) /\
      closed st' = closed st ++ fst (cloudi_destroy (Some (w_inst w)))
    else instances st' = instances st /\ closed st' = closed st.
Proof.
  intros Hown [Hu Hok]. destruct (Hu o ltac:(set_solver)) as [i Ho].
  destruct (Hok o i Ho) as [w Hw]. pose proof Hw as [Hi Hc Hs Hn Hd Hh].
  destruct (members_one o i st Ho) as [H0 H1].
  exists i, w. eexists. split; [done|]. split; [done|]. split.
  { apply (delete_runs o i w _ _ Ho Hi Hc); [lia|]. intros H.
    assert (members i st = {[o]}) as Hone by (apply H1; lia).
    destruct (holds_of w) as [|x l]; [done|].
    destruct (proj1 (Hh (cb_api x)) (list_elem_of_here _ _)) as [Hx1 Hx2].
    apply elem_of_members in Hx1. clear -Hone Hx1 Hx2. set_solver. }
  assert (forall x, x ∈ own -> is_Some (delete o (apis st) !! x)) as Hu'.
  { intros x Hx. rewrite lookup_delete_ne by (by intros ->). apply Hu. clear -Hx. set_solver. }
  destruct (Z.eqb_spec (Z.of_nat (base.size (members i st))) 1) as [Hl|Hl].
  - assert (members i st = {[o]}) as Hone by (apply H1; lia).
    rewrite decide_True by done. split; [|done]. split; [done|]. cbn. intros x j Hx.
    destruct (proj1 (lookup_delete_Some _ _ _ _) Hx) as [Hxo Hx'].
    assert (j <> i) as Hj.
    { intros ->. apply elem_of_members in Hx'. rewrite Hone in Hx'.
      apply Hxo. clear -Hx'. set_solver. }
    destruct (Hok x j Hx') as [wx Hwx]. exists wx.
    apply (delete_other own o i st _ j wx Ho Hj); try done; cbn; by rewrite lookup_delete_ne.
  - rewrite decide_False by (intros H; apply Hl; apply H1 in H; lia).
    split; [|done]. split; [done|]. cbn. intros x j Hx.
    destruct (proj1 (lookup_delete_Some _ _ _ _) Hx) as [Hxo Hx'].
    destruct (decide (j = i)) as [->|Hj].
    + exists w. by apply delete_same.
    + destruct (Hok x j Hx') as [wx Hwx]. exists wx.
      apply (delete_other own o i st _ j wx Ho Hj); try done. cbn. by rewrite lookup_insert_ne.
Qed.

(** [delete m_object] of a callback that no instance has any more. *)
Lemma delete_function_ok {R} own fns st m d :
  functions_ok own fns st m -> function_of d = m !! cb_api d ->
  (forall o i w, apis st !! o = Some i -> instances st !! i = Some w ->
     cb_api d ∉ cb_api <$> holds_of w) ->
  exists fs, delete_function (R := R) d st = (Next tt, set_functions (fun _ => fs) st) /\
    functions_ok own fns (set_functions (fun _ => fs) st) (delete (cb_api d) m).
Proof.
  intros [Ho Hm H1 Hc] Hd Hgone. unfold delete_function. rewrite Hd.
  assert (forall fs, (forall o a, m !! o = Some a -> o <> cb_api d -> a ∈ fs) ->
    fns ⊆ fs -> functions_ok own fns (set_functions (fun _ => fs) st) (delete (cb_api d) m)) as Hdel.
  { intros fs Hfs Hown. split; [done|..].
    - intros o a [Hne Ha]%lookup_delete_Some. destruct (Hm o a Ha) as (_ & H2 & H3).
      split; [by apply (Hfs o)|done].
    - intros o o' a [_ Ha]%lookup_delete_Some [_ Ha']%lookup_delete_Some. by apply (H1 o o' a).
    - intros o i w c Hi Hw Hin. rewrite lookup_delete_ne; [by apply (Hc o i w)|].
      intros Heq. apply (Hgone o i w Hi Hw). rewrite Heq. apply list_elem_of_fmap. by exists c. }
  destruct (m !! cb_api d) as [a|] eqn:Ha.
  - destruct (Hm _ _ Ha) as (Hin & Hnot & _). exists (functions st ∖ {[a]}).
    unfold cbind, cget. rewrite decide_True by done. split; [done|]. apply Hdel.
    + intros o a' Ha' Hne. apply elem_of_difference. split; [by apply (Hm o)|].
      intros ->%elem_of_singleton. by apply Hne, (H1 _ _ a).
    + clear -Ho Hnot. set_solver.
  - exists (functions st). split; [by destruct st|]. apply Hdel; [|done].
    intros o a Ha' _. by apply (Hm o).
Qed.

(** The functions are those of the objects that are left. *)
Lemma functions_deleted own own' fns st st' m o :
  functions_ok own fns st m -> m !! o = None -> own' ⊆ own ->
  apis st' = delete o (apis st) -> functions st' = functions st ->
  (forall o i w, apis st' !! o = Some i -> instances st' !! i = Some w ->
     instances st !! i = Some w) ->
  functions_ok own' fns st' m.
Proof.
  intros [Ho Hm H1 Hc] Hno Hsub Ha Hf Hi. split; rewrite ?Hf; try done.
  - intros x a Hx. destruct (Hm x a Hx) as (? & ? & ? & ?). rewrite Ha.
    rewrite lookup_delete_ne by congruence. split_and!; auto.
  - intros x i w c Hx Hw. rewrite Ha in Hx. apply lookup_delete_Some in Hx as [Hne Hx].
    apply (Hc x i w c Hx). apply (Hi x); [|done]. by rewrite Ha, lookup_delete_ne.
Qed.

Lemma each_delete_ok {R} own fns ds st m :
  NoDup (cb_api <$> ds) -> (forall d, d ∈ ds -> (cb_api d ∉ own) /\ function_of d = m !! cb_api d) ->
  objects_ok (list_to_set (cb_api <$> ds) ∪ own) st -> functions_ok own fns st m ->
  exists st' m', each (R := R) delete_callback ds st = (Next tt, st') /\ objects_ok own st' /\
    functions_ok own fns st' m'.
Proof.
  revert st m. induction ds as [|d ds IH]; intros st m Hd Ho Hok Hf.
  - exists st, m. split; [done|]. cbn in Hok. by rewrite (left_id_L ∅ (∪)) in Hok.
  - cbn [fmap list_fmap] in Hd, Hok. apply NoDup_cons in Hd as [Hd Hds].
    rewrite list_to_set_cons, <- (assoc_L (∪)) in Hok.
    destruct (Ho d (list_elem_of_here _ _)) as [Hdo Hdf].
    destruct (delete_function_ok (R := R) own fns st m d Hf Hdf) as (fs & Hdel & Hf1).
    { intros o i w Hi Hw Hin. destruct (ok_instance _ _ Hok o i Hi) as [w' Hw'].
      pose proof (io_instance _ _ _ _ Hw') as Hi'. rewrite Hw in Hi'. injection Hi' as <-.
      apply (io_held _ _ _ _ Hw') in Hin as [_ Hin]. clear -Hin. set_solver. }
    set (st1 := set_functions (fun _ => fs) st) in *.
    assert (objects_ok ({[cb_api d]} ∪ (list_to_set (cb_api <$> ds) ∪ own)) st1) as Hok1.
    { split; [apply Hok|]. intros o i Hi. destruct (ok_instance _ _ Hok o i Hi) as [w Hw].
      exists w. by apply (instance_ok_ext _ _ _ _ _ _ Hw). }
    destruct (delete_api_ok (R := R) (list_to_set (cb_api <$> ds) ∪ own) (cb_api d) st1)
      as (i & w & st2 & _ & _ & He & Hok2 & Ha & Hfn & Hend); [|done|].
    { rewrite elem_of_union, elem_of_list_to_set. tauto. }
    destruct (IH st2 (delete (cb_api d) m) Hds) as (st3 & m3 & He3 & Hok3 & Hf3); [|done| |].
    { intros x Hx. destruct (Ho x) as [Hx1 Hx2]; [by right|]. split; [done|].
      rewrite lookup_delete_ne; [done|]. intros Heq. apply Hd. rewrite Heq.
      apply list_elem_of_fmap. by exists x. }
    { apply (functions_deleted own own fns st1 st2 _ (cb_api d)); try done.
      - apply lookup_delete_eq.
      - intros o j wj Hj Hwj. case_decide; destruct Hend as [Hend _]; rewrite Hend in Hwj; [|done].
        by apply lookup_delete_Some in Hwj as [_ ?]. }
    exists st3, m3. split; [|done]. cbn [each]. unfold delete_callback.
    rewrite bind_assoc. erewrite bind_next by exact Hdel. cbv beta.
    by erewrite bind_next by exact He.
Qed.

(** ** The functions of an instance *)

(** What a function may make of the callbacks of an instance, when the
    objects in [own] are not in a queue yet: it loses some. *)
Record loses (own : list F) (w w' : world F U) : Prop := {
  lo_inv : exists n, Z.of_nat n < 2 ^ 31 /\ inv lookup_wf any n None w';
  lo_held : holds_of w' ⊆+ own ++ holds_of w
}.

Lemma elem_of_dropped own w w' n :
  n ∈ cb_api <$> dropped own w w' <->
  (n ∉ cb_api <$> holds_of w') /\ (n ∈ cb_api <$> own \/ n ∈ cb_api <$> holds_of w).
Proof.
  rewrite <- elem_of_app, <- fmap_app. unfold dropped. split.
  - intros (c & -> & [H1 H2]%list_elem_of_filter)%list_elem_of_fmap.
    split; [done|]. apply list_elem_of_fmap. by exists c.
  - intros (H & (c & -> & Hc)%list_elem_of_fmap). apply list_elem_of_fmap.
    exists c. split; [done|]. by apply list_elem_of_filter.
Qed.

Lemma NoDup_dropped own w w' :
  NoDup (cb_api <$> own ++ holds_of w) -> NoDup (cb_api <$> dropped own w w').
Proof.
  unfold dropped. induction (own ++ holds_of w) as [|c l IH]; [done|].
  cbn [fmap list_fmap]. intros [Hc Hl]%NoDup_cons. rewrite filter_cons. case_decide; [|by apply IH].
  cbn [fmap list_fmap]. apply NoDup_cons. split; [|by apply IH].
  intros (c' & Hc' & [_ Hin]%list_elem_of_filter)%list_elem_of_fmap. apply Hc. rewrite Hc'.
  apply list_elem_of_fmap. by exists c'.
Qed.

(** The callbacks in [own] are new: each has its own API object, of the
    instance [i], and its function. *)
Definition new_callbacks (own : list F) (mine : gset nat) (m : gmap nat nat) (st : objects)
    (i : nat) : Prop :=
  NoDup (cb_api <$> own) /\
  forall d, d ∈ own -> (cb_api d ∉ mine) /\ apis st !! cb_api d = Some i /\
    function_of d = m !! cb_api d.

Lemma new_callbacks_api own mine m st i n :
  new_callbacks own mine m st i -> n ∈ cb_api <$> own -> (n ∉ mine) /\ apis st !! n = Some i.
Proof. intros [_ H] (d & -> & Hd)%list_elem_of_fmap. by destruct (H d Hd) as (? & ? & _). Qed.

Lemma update_functions own own' fns m st i w w' :
  functions_ok own fns st m -> instances st !! i = Some w ->
  new_callbacks own' own m st i -> loses own' w w' ->
  (exists o, apis st !! o = Some i) ->
  functions_ok own fns (set_instances <[i := w']> st) m /\
  forall d, d ∈ dropped own' w w' -> function_of d = m !! cb_api d.
Proof.
  intros [Ho Hm H1 Hc] Hi [_ Hnew] [_ Hl] [o Hapi].
  assert (forall c, c ∈ own' ++ holds_of w -> function_of c = m !! cb_api c) as Hall.
  { intros c [Hin|Hin]%elem_of_app; [by apply Hnew|by apply (Hc o i w)]. }
  split.
  - split; try done. intros x j wj c Hx. cbn.
    intros [[<- <-]|[Hj Hw]]%lookup_insert_Some Hin; [|by apply (Hc x j wj)].
    apply Hall. by eapply elem_of_submseteq.
  - intros d [_ Hin]%list_elem_of_filter. by apply Hall.
Qed.

Lemma update_ok own own' m st i w w' :
  objects_ok (list_to_set (cb_api <$> own') ∪ own) st ->
  instance_ok (list_to_set (cb_api <$> own') ∪ own) st i w ->
  new_callbacks own' own m st i -> loses own' w w' ->
  objects_ok (list_to_set (cb_api <$> dropped own' w w') ∪ own) (set_instances <[i := w']> st) /\
  NoDup (cb_api <$> dropped own' w w') /\
  forall d, d ∈ dropped own' w w' -> cb_api d ∉ own.
Proof.
  intros [Hu Hok] [Hi Hc Hs Hn Hd Hh] Hnew [Hn' Hl].
  pose proof (fun n => new_callbacks_api own' own m st i n Hnew) as Ho.
  assert (forall d, d ∈ cb_api <$> holds_of w ->
    apis st !! d = Some i /\ (d ∉ cb_api <$> own') /\ d ∉ own) as Hw.
  { intros d Hx. apply Hh in Hx as [H1 H2]. split; [done|].
    rewrite elem_of_union, elem_of_list_to_set in H2. tauto. }
  assert (NoDup (cb_api <$> own' ++ holds_of w)) as Hnd2.
  { rewrite fmap_app. apply NoDup_app. split; [apply Hnew|]. split; [|done].
    intros x H1 H2. by apply Hw in H2 as (_ & ? & _). }
  assert (forall d, d ∈ cb_api <$> dropped own' w w' -> apis st !! d = Some i /\ d ∉ own) as Hdr'.
  { intros d Hx. apply elem_of_dropped in Hx as [_ [Hx|Hx]]; [apply Ho in Hx; tauto|].
    apply Hw in Hx. tauto. }
  split; [|split; [by apply NoDup_dropped|
    intros d Hx; apply Hdr', list_elem_of_fmap; by exists d]].
  split.
  { intros x Hx. apply elem_of_union in Hx as [Hx|Hx].
    - apply elem_of_list_to_set, Hdr' in Hx as [Hx _]. by exists i.
    - apply Hu. set_solver. }
  intros x j Hx. destruct (decide (j = i)) as [->|Hj].
  - exists w'. apply (fmap_submseteq cb_api) in Hl. rewrite fmap_app in Hl, Hnd2.
    constructor; try done.
    + cbn. apply lookup_insert_eq.
    + apply submseteq_Permutation in Hl as [k Hk]. rewrite Hk in Hnd2.
      by apply NoDup_app in Hnd2 as [? _].
    + intros d. rewrite elem_of_union, elem_of_list_to_set, elem_of_dropped. cbn.
      assert (d ∈ cb_api <$> holds_of w' -> d ∈ cb_api <$> own' \/ d ∈ cb_api <$> holds_of w) as Hin.
      { intros H. apply elem_of_app. by eapply elem_of_submseteq. }
      specialize (Hh d). rewrite elem_of_union, elem_of_list_to_set in Hh.
      specialize (Ho d). specialize (Hw d).
      destruct (decide (d ∈ cb_api <$> holds_of w')), (decide (d ∈ cb_api <$> own')); tauto.
  - destruct (Hok x j Hx) as [wx Hwx]. exists wx.
    apply (instance_ok_ext _ _ _ _ _ _ Hwx); try done; [cbn; by rewrite lookup_insert_ne|].
    intros d Hdj. rewrite !elem_of_union, !elem_of_list_to_set.
    assert (d ∉ cb_api <$> own') by (intros Hx'; apply Ho in Hx' as [_ Hx']; congruence).
    assert (d ∉ cb_api <$> dropped own' w w') by (intros Hx'; apply Hdr' in Hx' as [Hx' _]; congruence).
    tauto.
Qed.

(** A function of an instance that keeps or loses callbacks: those it lost
    are deleted. *)
Lemma releasing_ok {R} own own' fns m st i w (c : C (world F U) R R) out w' :
  objects_ok (list_to_set (cb_api <$> own') ∪ own) st -> functions_ok own fns st m ->
  (exists o, apis st !! o = Some i) ->
  instance_ok (list_to_set (cb_api <$> own') ∪ own) st i w ->
  new_callbacks own' own m st i -> c w = (out, w') -> loses own' w w' -> ended out ->
  exists st' m', releasing i own' (on_instance i c) st = (out, st') /\ objects_ok own st' /\
    functions_ok own fns st' m'.
Proof.
  intros Hok Hf Ho Hw Hnew He Hl Hout. pose proof (io_instance _ _ _ _ Hw) as Hi.
  destruct (update_ok own own' m st i w w' Hok Hw Hnew Hl) as (Hok' & Hnd' & Hd).
  destruct (update_functions own own' fns m st i w w' Hf Hi Hnew Hl Ho) as [Hf' Hfd].
  destruct (each_delete_ok (R := R) own fns _ _ m Hnd' (fun d Hin => conj (Hd d Hin) (Hfd d Hin))
    Hok' Hf') as (st' & m' & Hs & Hokd & Hfnd).
  exists st', m'. split; [|done]. unfold releasing, instance_of. crun. rewrite Hi. cbn [copt].
  crun. unfold on_instance. rewrite Hi, He.
  assert (forall (o : outcome R R), (let* w' :=
     let* st := cget in copt (instances st !! i) in
   each delete_callback (dropped own' w w');;;
   fun st => (o, st)) (set_instances <[i := w']> st) = (o, st')) as Hgo.
  { intros o. crun. cbn [instances set_instances]. rewrite lookup_insert_eq. cbn [copt].
    crun. by erewrite bind_next by exact Hs. }
  destruct out; done || apply Hgo.
Qed.

(** What is kept of the subscriptions. *)
Definition keeps_held (K : list F) (l : lookup_t F) : Prop := lookup_wf l /\ held l ≡ₚ K.

Lemma held_kept k (f : callback_function F) l :
  held (lookup_insert k f l) ≡ₚ omap kept [f] ++ held l.
Proof.
  unfold held. rewrite (omap_Permutation _ _ _ (callbacks_subscribed k f l)). cbn.
  by destruct (kept f).
Qed.

Lemma keeps_held_find (K : list F) (k : bytes) (l : lookup_t F) f l' :
  keeps_held K l -> lookup_find k l = Some (f, l') -> keeps_held K l'.
Proof.
  intros [Hl HK] He. split.
  - by eapply lookup_wf_find.
  - rewrite <- HK. apply omap_Permutation. by eapply callbacks_found.
Qed.

Lemma inv_impl (L L' : lookup_t F -> Prop) n m (w : world F U) :
  (L (p_lookup (w_inst w)) -> L' (p_lookup (w_inst w))) -> inv L any n m w -> inv L' any n m w.
Proof. intros H ([] & Hr). split; [|done]. constructor; auto. Qed.

Lemma inv_held n (w : world F U) : inv lookup_wf any n None w -> inv (keeps_held (holds_of w)) any n None w.
Proof. by apply inv_impl. Qed.

(** A state of a function that has lost nothing but what is in [own]. *)
Lemma loses_intro own n w w' K :
  Z.of_nat n < 2 ^ 31 -> inv (keeps_held K) any n None w' -> K ⊆+ own ++ holds_of w ->
  loses own w w'.
Proof.
  intros Hn Hw HK. split.
  - exists n. split; [done|]. revert Hw. apply inv_impl. by intros [].
  - destruct Hw as ([_ _ _ [_ Hh]] & _). by rewrite <- HK, <- Hh.
Qed.

Lemma subscribe_loses n o pattern k (f : G) w out w' :
  Z.of_nat n < 2 ^ 31 -> inv lookup_wf any n None w ->
  API.subscribe pattern (mk_callback k o f) w = (out, w') -> ended out -> loses [mk_callback k o f] w w'.
Proof.
  intros Hn Hw He Hout. apply inv_held in Hw. set (K := holds_of w) in *.
  set (X := fun w' : world F U => inv (keeps_held K) any n None w' \/ inv (keeps_held (mk_callback k o f :: K)) any n None w').
  assert (X w') as [Hx|Hx]; [|apply (loses_intro _ n _ _ _ Hn Hx), (submseteq_inserts_l [mk_callback k o f]); done
    |by apply (loses_intro _ n _ _ _ Hn Hx)].
  assert (hoare X (fun _ => X) (inv (keeps_held K) any n None) (fun _ => X)
    (cloudi_subscribe_ pattern (callback_user (mk_callback k o f)))) as H.
  { unfold cloudi_subscribe_. apply hoare_bind with (fun _ => inv (keeps_held K) any n None).
    { eapply hoare_yields; [apply (keeps_prefix_string _ _ n None any)|by unfold X; auto..]. }
    intros prefix.
    apply hoare_bind with (fun l w => keeps_held K l /\ inv (keeps_held K) any n None w).
    { intros w1 Hw1. cbn. split; [|done]. apply Hw1. }
    intros l. apply hoare_bind with (fun _ => inv (keeps_held (mk_callback k o f :: K)) any n None).
    { intros w1 [[Hl Hh] Hw1]. cbn. destruct Hw1 as ([] & Hr). split; [|done].
      constructor; try done. split; [by apply lookup_insert_refines|].
      cbn. by rewrite held_kept, Hh. }
    intros _. eapply hoare_yields with (φ := any) (π := any); [|by unfold X; auto..].
    eapply yields_bind; [apply keeps_encode_request|]. intros. apply keeps_send_result. }
  specialize (H w Hw). unfold API.subscribe in He. rewrite He in H.
  by destruct out.
Qed.

Lemma unsubscribe_loses n pattern w out w' :
  Z.of_nat n < 2 ^ 31 -> inv lookup_wf any n None w ->
  API.unsubscribe pattern w = (out, w') -> ended out -> loses [] w w'.
Proof.
  intros Hn Hw He Hout. apply inv_held in Hw. set (K := holds_of w) in *.
  set (X := fun w' : world F U => exists K', K' ⊆+ K /\ inv (keeps_held K') any n None w').
  assert (forall w', inv (keeps_held K) any n None w' -> X w') as HX by (intros w1 H1; by exists K).
  assert (X w') as (K' & HK & Hx); [|by apply (loses_intro _ n _ _ K')].
  assert (hoare X (fun _ => X) (inv (keeps_held K) any n None) (fun _ => X)
    (cloudi_unsubscribe pattern)) as H.
  { unfold cloudi_unsubscribe. apply hoare_bind with (fun _ => inv (keeps_held K) any n None).
    { eapply hoare_yields; [apply (keeps_prefix_string _ _ n None any)|by auto..]. }
    intros prefix.
    apply hoare_bind with (fun l w => keeps_held K l /\ inv (keeps_held K) any n None w).
    { intros w1 Hw1. cbn. split; [|done]. apply Hw1. }
    intros l. apply hoare_bind with (fun '(_, l) w => exists K', K' ⊆+ K /\
      keeps_held K' l /\ inv (keeps_held K) any n None w).
    { intros w1 [[Hl Hh] Hw1].
      destruct (callbacks_removed (R := Z) (prefix ++ pattern) l w1 Hl)
        as (b & l' & -> & Hl' & Hb). exists (held l'). split; [|done].
      rewrite <- Hh. destruct b; [|by subst].
      destruct Hb as [f Hf]. unfold held. rewrite (omap_Permutation _ _ _ Hf). cbn.
      destruct (kept f); [|done]. by apply submseteq_cons. }
    intros [b l']. apply hoare_bind with (fun _ w => X w /\ exists K', K' ⊆+ K /\
      inv (keeps_held K') any n None w).
    { intros w1 (K' & HK & Hl & Hw1). destruct Hw1 as ([] & Hr).
      assert (X (upd_inst (set_lookup l') w1)); [|done].
      exists K'. split; [done|]. split; [|done]. by constructor. }
    intros _. destruct b; [|by intros w1 [H _]].
    intros w1 (_ & K' & HK & Hw1). revert w1 Hw1.
    eapply hoare_yields with (φ := any) (π := any);
      [|intros; by exists K'..].
    eapply yields_bind; [apply keeps_encode_request|]. intros. apply keeps_send_result. }
  specialize (H w Hw). unfold API.unsubscribe in He. rewrite He in H. by destruct out.
Qed.

(** ** Programs *)

(** The functions of the program keep the invariant and leave the
    subscriptions, as do those that only use [api_call]. *)
Context (Hstrings : forall K n f o name pattern rq,
  yields (inv (keeps_held K) any n None) any any (call_strings f o name pattern rq)).
Context (Hpointers : forall K n f o rq,
  yields (inv (keeps_held K) any n None) any any (call_pointers f o rq)).

Lemma run_keeps K n f rq : yields (inv (keeps_held K) any n None) any any (run f rq).
Proof.
  assert (forall p, yields (inv (keeps_held K) any n None) any any
    (call_cstr (F := F) (U := U) (R := unit) p)) as Hc.
  { intros p. unfold call_cstr. apply yields_bind with any; [by apply keeps_field|].
    intros. apply yields_opt_any. }
  assert (yields (inv (keeps_held K) any n None) any any
    (let* name := call_cstr (rq_name rq) in
     let* pattern := call_cstr (rq_pattern rq) in
     call_strings (cb_function f) (cb_api f) name pattern rq)) as Hs.
  { do 2 (eapply yields_bind; [apply Hc|]; intros). apply Hstrings. }
  unfold run. destruct (cb_class f); apply Hs || apply Hpointers.
Qed.

Lemma member_loses n (c : C (world F U) Z Z) w out w' :
  Z.of_nat n < 2 ^ 31 -> inv lookup_wf any n None w -> member run c ->
  c w = (out, w') -> loses [] w w'.
Proof.
  intros Hn Hw Hc He. apply inv_held in Hw.
  destruct (keeps_member (keeps_held (holds_of w)) any run (keeps_held_find _) (run_keeps _)
    n Hn c Hc w Hw) as [H _].
  rewrite He in H. by apply (loses_intro _ n _ _ _ Hn H).
Qed.

Lemma construct_ok getenv thread_index s u w' :
  Z.of_nat (budget s) < 2 ^ 31 ->
  API.construct run getenv thread_index (mk_world zero_instance s u) = (Next tt, w') ->
  (exists n, Z.of_nat n < 2 ^ 31 /\ inv lookup_wf any n None w') /\ holds_of w' = [].
Proof.
  intros Hn He.
  pose proof (hoare_cloudi_initialize (keeps_held []) (keeps_held_find _) any run (run_keeps _)
    (budget s) false getenv thread_index 0 Hn) as H.
  specialize (H ltac:(by split) (mk_world zero_instance s u) (conj (Nat.le_refl _) I)).
  unfold API.construct, call, cbind in He.
  destruct (cloudi_initialize run false getenv thread_index 0 (mk_world zero_instance s u))
    as [[r|r| | | |] w1]; try done.
  unfold API.throw_unless_success in He.
  destruct (Z.eqb_spec r cloudi_success) as [->|]; [|done]. injection He as <-.
  destruct H as [H|[H|H]]; [done..|]. split.
  - exists (budget s). split; [done|]. revert H. apply inv_impl. by intros [].
  - destruct H as ([_ _ _ [_ H]] & _). by apply Permutation_nil_r.
Qed.

Lemma instance_not_fresh own i st x j :
  objects_ok own st -> fresh_instance i st -> apis st !! x = Some j -> j <> i.
Proof.
  intros [_ Hok] [Hi _] Hx ->. destruct (Hok x i Hx) as [w [Hw _]]. congruence.
Qed.

(** A constructor leaves the objects of other instances. *)
Lemma construct_other own own' i c w st st' j wj :
  j <> i -> instances st' = <[i := w]> (instances st) -> counts st' = <[i := c]> (counts st) ->
  (forall x, apis st' !! x = Some j <-> apis st !! x = Some j) ->
  (forall x, apis st !! x = Some j -> (x ∉ own' <-> x ∉ own)) ->
  instance_ok own st j wj -> instance_ok own' st' j wj.
Proof.
  intros Hj Hi Hc Ha Ho Hw. apply (instance_ok_ext _ _ _ _ _ _ Hw); try done.
  - by rewrite Hi, lookup_insert_ne.
  - by rewrite Hc, lookup_insert_ne.
Qed.

Lemma construct_runs getenv thread_index s u o i st :
  api_construct getenv thread_index s u o i st =
  let '(out, w) := API.construct run getenv thread_index (mk_world zero_instance s u) in
  let st' := mk_objects (apis st) (<[i := 1]> (counts st)) (<[i := w]> (instances st))
               (functions st) (closed st) in
  (out, match out with Next _ => set_apis <[o := i]> st' | _ => st' end).
Proof.
  unfold api_construct. crun. unfold on_instance, cbind.
  cbn [instances set_counts set_instances]. rewrite lookup_insert_eq.
  destruct (API.construct _ _ _ _) as [out w]. unfold set_instances, set_counts. cbn.
  rewrite insert_insert_eq. by destruct out as [[]| | | | |].
Qed.

(** A new object has a new instance, of which it is the only one. *)
Lemma construct_new own o i st w fs cl :
  objects_ok own st -> fresh_api o st -> fresh_instance i st ->
  (exists n, Z.of_nat n < 2 ^ 31 /\ inv lookup_wf any n None w) -> holds_of w = [] ->
  instance_ok ({[o]} ∪ own) (mk_objects (<[o := i]> (apis st)) (<[i := 1]> (counts st))
    (<[i := w]> (instances st)) fs cl) i w.
Proof.
  intros Hok Ho Hi Hinv Hh. set (st' := mk_objects _ _ _ _ _).
  assert (forall x, apis st' !! x = Some i <-> x = o) as Ha.
  { intros x. cbn. rewrite lookup_insert_Some. split; [|intros ->; by left].
    intros [[-> _]|[_ Hx]]; [done|]. by destruct (instance_not_fresh _ _ _ _ _ Hok Hi Hx). }
  assert (members i st' = {[o]}) as Hm.
  { apply set_eq. intros x. by rewrite elem_of_members, elem_of_singleton. }
  constructor; rewrite ?Hm, ?size_singleton, ?Hh; try done; try apply lookup_insert_eq.
  - constructor.
  - intros x. rewrite Ha. split; [by intros ?%not_elem_of_nil|].
    intros [-> Hx]. clear -Hx. set_solver.
Qed.

(** It has no callbacks; one whose constructor throws has no object. *)
Lemma construct_functions own own' fns m o i st w st' :
  objects_ok own st -> fresh_api o st -> fresh_instance i st ->
  holds_of w = [] \/ apis st' = apis st ->
  own' ⊆ {[o]} ∪ own -> apis st ⊆ apis st' ->
  (forall x j, apis st' !! x = Some j -> j <> i -> apis st !! x = Some j) ->
  instances st' = <[i := w]> (instances st) -> functions st' = functions st ->
  functions_ok own fns st m -> functions_ok own' fns st' m.
Proof.
  intros Hok Ho Hi Hh Hsub Hle Ha Hinst Hfun [H1 H2 H3 H4]. split; rewrite ?Hfun; try done.
  - intros x a Hx. destruct (H2 x a Hx) as (? & ? & ? & [j Hj]). split_and!; try done.
    + intros Hx'. apply Hsub in Hx'. apply elem_of_union in Hx' as [Hx'|?]; [|done].
      apply elem_of_singleton in Hx' as ->. unfold fresh_api in Ho. congruence.
    + exists j. by eapply lookup_weaken.
  - intros x j wj c Hx. rewrite Hinst.
    intros [[<- <-]|[Hj Hw]]%lookup_insert_Some Hin; [|apply (H4 x j wj c); auto].
    destruct Hh as [Hh|Hh]; [rewrite Hh in Hin; by apply not_elem_of_nil in Hin|].
    rewrite Hh in Hx. by destruct (instance_not_fresh _ _ _ _ _ Hok Hi Hx).
Qed.

Lemma construct_steps own getenv thread_index s u o i st out st' :
  fresh_api o st -> fresh_instance i st -> Z.of_nat (budget s) < 2 ^ 31 ->
  objects_ok own st -> api_construct getenv thread_index s u o i st = (out, st') ->
  match out with
  | Next _ => objects_ok ({[o]} ∪ own) st'
  | _ => objects_ok own st'
  end.
Proof.
  intros Ho Hi Hn Hok He. pose proof (instance_not_fresh own i st) as Hne.
  pose proof Hok as [Hu Hoks]. rewrite construct_runs in He.
  destruct (API.construct _ _ _ _) as [out' w] eqn:Hw. injection He as <- <-.
  assert (forall fs e, objects_ok own (mk_objects (apis st) (<[i := 1]> (counts st))
            (<[i := w]> (instances st)) fs e)) as Hfail.
  { intros fs e. split; [done|]. intros x j Hx. destruct (Hoks x j Hx) as [wx Hwx].
    exists wx. by apply (construct_other own _ i 1 w st _ _ _ (Hne _ _ Hok Hi Hx)). }
  destruct out' as [[]| | | | |]; [|apply Hfail..].
  apply construct_ok in Hw as [Hinv Hh]; [|done]. split.
  { intros x Hx. cbn. destruct (decide (x = o)) as [->|]; [rewrite lookup_insert_eq; eauto|].
    rewrite lookup_insert_ne by done. apply Hu. set_solver. }
  intros x j. cbn. intros [[<- <-]|[Hxo Hx]]%lookup_insert_Some.
  { exists w. exact (construct_new own o i st w (functions st) (closed st) Hok Ho Hi Hinv Hh). }
  destruct (Hoks x j Hx) as [wx Hwx]. exists wx.
  pose proof (Hne _ _ Hok Hi Hx) as Hj.
  apply (construct_other own _ i 1 w st _ _ _ Hj); try done.
  - intros y. cbn. rewrite lookup_insert_Some. split; [intros [[_ ?]|[_ ?]]; [by subst|done]|].
    intros Hy. right. split; [|done]. intros <-. unfold fresh_api in Ho. congruence.
  - intros y Hy. assert (y <> o) by (intros ->; unfold fresh_api in Ho; congruence). set_solver.
Qed.

Lemma construct_keeps own fns m getenv thread_index s u o i st out st' :
  fresh_api o st -> fresh_instance i st -> Z.of_nat (budget s) < 2 ^ 31 ->
  objects_ok own st -> functions_ok own fns st m ->
  api_construct getenv thread_index s u o i st = (out, st') ->
  functions_ok (match out with Next _ => {[o]} ∪ own | _ => own end) fns st' m.
Proof.
  intros Ho Hi Hn Hok Hf He. rewrite construct_runs in He.
  destruct (API.construct _ _ _ _) as [out' w] eqn:Hw. injection He as <- <-.
  assert (forall st', apis st' = apis st -> instances st' = <[i := w]> (instances st) ->
    functions st' = functions st -> functions_ok own fns st' m) as Hfail.
  { intros st' Ha Hin Hfs.
    apply (construct_functions own own fns m o i st w st'); rewrite ?Ha; auto; set_solver. }
  destruct out' as [[]| | | | |]; [|by apply Hfail..].
  apply construct_ok in Hw as [_ Hh]; [|done].
  apply (construct_functions own _ fns m o i st w); auto; cbn.
  - by apply insert_subseteq.
  - intros x j [[_ Hj]|[_ Hx]]%lookup_insert_Some; [by subst|done].
Qed.

(** What [API(object)] does: one more object has the instance. *)
Lemma copy_runs {R} o n i c st :
  apis st !! o = Some i -> counts st !! i = Some c ->
  api_copy (R := R) o n st =
    if decide (- 2 ^ 31 <= c + 1 < 2 ^ 31) then
      (Next tt, mk_objects (<[n := i]> (apis st)) (<[i := c + 1]> (counts st)) (instances st)
                  (functions st) (closed st))
    else (Undef, set_apis <[n := i]> st).
Proof.
  intros Ho Hc. unfold api_copy, api_of, add_count, count_of. crun. rewrite Ho. cbn [copt].
  crun. unfold cbind, cget. cbn [counts set_apis]. rewrite Hc. cbn [copt cret].
  by case_decide.
Qed.

Lemma api_copy_ok own n i c st fs cl :
  fresh_api n st -> objects_ok own st -> counts st !! i = Some c -> c + 1 < 2 ^ 31 ->
  (exists o, apis st !! o = Some i) ->
  objects_ok ({[n]} ∪ own)
    (mk_objects (<[n := i]> (apis st)) (<[i := c + 1]> (counts st)) (instances st) fs cl).
Proof.
  intros Hn [Hu Hok] Hc Hb [o Ho]. set (st' := mk_objects _ _ _ _ _).
  assert (forall x j, apis st !! x = Some j -> x <> n) as Hne
    by (intros x j Hx ->; unfold fresh_api in Hn; congruence).
  assert (forall x j, apis st' !! x = Some j <-> (x = n /\ j = i) \/ apis st !! x = Some j) as Ha.
  { intros x j. cbn. rewrite lookup_insert_Some. split; [intros [[]|[]]; auto|].
    intros [[-> ->]|Hx]; [by left|]. right. split; [|done]. by apply not_eq_sym, (Hne _ j). }
  assert (base.size (members i st') = S (base.size (members i st))) as Hm.
  { apply (size_members_delete n); [by apply Ha; left|]. symmetry. apply delete_insert_id.
    exact Hn. }
  split.
  { intros x [Hx|Hx]%elem_of_union; [apply elem_of_singleton in Hx as ->; exists i; apply Ha; by left|].
    destruct (Hu x Hx) as [j Hj]. exists j. apply Ha. by right. }
  assert (forall x j, apis st !! x = Some j -> exists w, instance_ok ({[n]} ∪ own) st' j w) as Hold.
  { intros x j Hx. destruct (Hok x j Hx) as [w Hw]. exists w.
    destruct (decide (j = i)) as [->|Hj].
    - destruct Hw as [Hi Hc' Hs Hinv Hd Hh]. rewrite Hc in Hc'. injection Hc' as ->.
      constructor; rewrite ?Hm; try done; [cbn; rewrite lookup_insert_eq; f_equal; lia|lia|].
      intros y. rewrite Hh, Ha. specialize (Hne y i). set_solver.
    - apply (instance_ok_ext _ _ _ _ _ _ Hw); try done; [cbn; by rewrite lookup_insert_ne| |].
      + intros y. rewrite Ha. split; [intros [[_ ?]|?]; done|auto].
      + intros y Hy. apply Hne in Hy. set_solver. }
  intros x j Hx. apply Ha in Hx as [[-> ->]|Hx]; [by eapply Hold|by eapply Hold].
Qed.

Lemma function_ok {R} own own' fns m o i st w (c : C (world F U) R R) out st' :
  objects_ok (list_to_set (cb_api <$> own') ∪ own) st -> functions_ok own fns st m ->
  apis st !! o = Some i -> new_callbacks own' own m st i ->
  instances st !! i = Some w -> loses own' w (snd (c w)) \/ ~ ended (fst (c w)) ->
  releasing i own' (on_instance i c) st = (out, st') -> ended out ->
  objects_ok own st' /\ exists m', functions_ok own fns st' m'.
Proof.
  intros Hok Hf Ho Hnew Hi Hl He Hout.
  destruct (ok_instance _ _ Hok o i Ho) as [w0 Hw]. pose proof (io_instance _ _ _ _ Hw) as Hi0.
  rewrite Hi in Hi0. injection Hi0 as <-.
  destruct (c w) as [out0 w'] eqn:Hc. cbn [fst snd] in Hl.
  assert (ended out0) as H0.
  { unfold releasing, instance_of, on_instance, cbind, cget, copt in He. rewrite Hi in He.
    cbn in He. rewrite Hi, Hc in He. destruct out0; try done; by injection He as <- _. }
  destruct Hl as [Hl|]; [|done].
  destruct (releasing_ok own own' fns m st i w c out0 w' Hok Hf (ex_intro _ o Ho) Hw Hnew Hc Hl H0)
    as (st2 & m2 & He2 & Hok2 & Hf2).
  rewrite He in He2. injection He2 as _ <-. eauto.
Qed.

(** A member function that makes no callback object. *)
Lemma member_ok own fns m o i st (c : C (world F U) Z Z) out st' :
  objects_ok own st -> functions_ok own fns st m -> apis st !! o = Some i ->
  (forall n w out w', Z.of_nat n < 2 ^ 31 -> inv lookup_wf any n None w -> c w = (out, w') ->
     ended out -> loses [] w w') ->
  releasing i [] (on_instance i c) st = (out, st') -> ended out ->
  objects_ok own st' /\ exists m', functions_ok own fns st' m'.
Proof.
  intros Hok Hf Ho Hc He Hout. destruct (ok_instance _ _ Hok o i Ho) as [w Hw].
  pose proof Hw as [Hi _ _ (n & Hn & Hinv) _ _].
  apply (function_ok own [] fns m o i st w c out); try done.
  - cbn. by rewrite (left_id_L ∅ (∪)).
  - split; [constructor|]. by intros d ?%not_elem_of_nil.
  - destruct (c w) as [o' w'] eqn:Hcw. cbn.
    destruct o'; cbn; try (by right; intros []); left; by eapply Hc.
Qed.

Lemma copied_ok {R} own o n st (out : outcome R unit) st' :
  objects_ok own st -> o ∈ own -> fresh_api n st -> api_copy o n st = (out, st') ->
  out = Undef \/
  exists i w, out = Next tt /\ apis st !! o = Some i /\ apis st' = <[n := i]> (apis st) /\
     instances st' = instances st /\ functions st' = functions st /\
     instances st !! i = Some w /\ (exists m, Z.of_nat m < 2 ^ 31 /\ inv lookup_wf any m None w) /\
     objects_ok ({[n]} ∪ own) st'.
Proof.
  intros Hok Hown Hn He. destruct (ok_own _ _ Hok o Hown) as [i Ho].
  destruct (ok_instance _ _ Hok o i Ho) as [w [Hi Hc Hsm Hinv _ _]].
  rewrite (copy_runs o n i _ st Ho Hc) in He. case_decide as Hb; injection He as <- <-; [|by left].
  right. exists i, w. split_and!; try done. apply api_copy_ok; try done; [lia|by exists o].
Qed.

(** The functions are those of the objects that were there. *)
Lemma functions_copied own fns m n i st st' o :
  fresh_api n st -> apis st !! o = Some i -> apis st' = <[n := i]> (apis st) ->
  instances st' = instances st -> functions st' = functions st ->
  functions_ok own fns st m -> functions_ok ({[n]} ∪ own) fns st' m.
Proof.
  intros Hn Ho Ha Hi Hf [H1 H2 H3 H4]. split; rewrite ?Hf, ?Hi; try done.
  - intros x a Hx. destruct (H2 x a Hx) as (? & ? & ? & [j Hj]).
    assert (x <> n) by (intros ->; unfold fresh_api in Hn; congruence).
    split_and!; try done; [set_solver|]. exists j. by rewrite Ha, lookup_insert_ne.
  - intros x j wj c. rewrite Ha. intros [[_ <-]|[_ Hx]]%lookup_insert_Some; by eapply H4.
Qed.

(** The function object of a new callback is the program's no more. *)
Lemma functions_given own fns fns' m n i k f st :
  gives k f fns = Some fns' -> n ∉ own -> apis st !! n = Some i ->
  (forall w c, instances st !! i = Some w -> c ∈ holds_of w -> cb_api c <> n) ->
  (forall o j w c, apis st !! o = Some j -> instances st !! j = Some w -> c ∈ holds_of w ->
     j <> i -> apis st !! cb_api c = Some j) ->
  m !! n = None -> functions_ok own fns st m ->
  exists m', functions_ok own fns' st m' /\ function_of (mk_callback k n f) = m' !! n.
Proof.
  intros Hg Hown Hn Hfresh Hheld Hm [H1 H2 H3 H4].
  assert (forall x c j w, apis st !! x = Some j -> instances st !! j = Some w ->
    c ∈ holds_of w -> cb_api c <> n) as Hne.
  { intros x c j w Hx Hw Hc Heq. destruct (decide (j = i)) as [->|Hj]; [by eapply Hfresh|].
    specialize (Hheld x j w c Hx Hw Hc Hj). congruence. }
  assert (fns' = fns /\ function_of (mk_callback k n f) = None \/
    address f ∈ fns /\ fns' = fns ∖ {[address f]} /\
    function_of (mk_callback k n f) = Some (address f)) as [[-> Hk]|(Hin & -> & Hk)].
  { unfold gives in Hg. unfold function_of. cbn.
    destruct k; try (left; by injection Hg as <-); case_decide; try done; right;
      by injection Hg as <-. }
  - exists m. split; [by split|]. by rewrite Hk.
  - exists (<[n := address f]> m). split; [|by rewrite Hk, lookup_insert_eq]. split.
    + set_solver.
    + intros x a [[<- <-]|[Hx Ha]]%lookup_insert_Some; [split_and!; eauto; set_solver|].
      destruct (H2 x a Ha) as (? & ? & ? & ?). split_and!; try done. set_solver.
    + intros x x' a [[<- <-]|[Hx Ha]]%lookup_insert_Some [[<- Ha']|[Hx' Ha']]%lookup_insert_Some;
        try done; [by destruct (H2 x' _ Ha') as (_ & ? & _)| |by eapply H3].
      subst. by destruct (H2 x _ Ha) as (_ & ? & _).
    + intros x j w c Hx Hw Hc. rewrite lookup_insert_ne by (apply not_eq_sym; by eapply Hne).
      by eapply H4.
Qed.

Lemma subscribed_ok own fns fns' m o n pattern k f st out st' :
  objects_ok own st -> functions_ok own fns st m ->
  o ∈ own -> fresh_api n st -> gives k f fns = Some fns' -> ended out ->
  api_subscribe_object o n pattern k f st = (out, st') ->
  objects_ok own st' /\ exists m', functions_ok own fns' st' m'.
Proof.
  intros Hok Hf Hown Hn Hg Hout He. destruct (ok_own _ _ Hok o Hown) as [i Ho].
  unfold api_subscribe_object, api_of in He. unfold cbind at 1 2, cget in He.
  rewrite Ho in He. cbn [copt cret] in He. unfold cbind at 1 in He.
  destruct (api_copy o n st) as [oc st1] eqn:Hcopy.
  apply (copied_ok own) in Hcopy
    as [->|(i' & w & -> & Ho' & Ha & Hin & Hfs & Hi & (b & Hb & Hinv) & Hok1)];
    [by injection He as <- _| |done..].
  rewrite Ho in Ho'. injection Ho' as <-.
  assert (n ∉ own) as Hnown.
  { intros Hx. destruct (ok_own _ _ Hok _ Hx) as [y Hy]. unfold fresh_api in *. congruence. }
  assert (apis st1 !! n = Some i) as Hn1 by (rewrite Ha; apply lookup_insert_eq).
  assert (forall x j w c, apis st !! x = Some j -> instances st !! j = Some w -> c ∈ holds_of w ->
    apis st !! cb_api c = Some j) as Hheld.
  { intros x j wj c Hx Hw Hc. destruct (ok_instance _ _ Hok x j Hx) as [w0 [Hi0 _ _ _ _ Hh0]].
    rewrite Hw in Hi0. injection Hi0 as <-. apply Hh0, list_elem_of_fmap. by exists c. }
  assert (functions_ok own fns st1 m) as Hf1.
  { destruct (functions_copied own fns m n i st st1 o Hn Ho Ha Hin Hfs Hf) as [H1 H2 H3 H4].
    split; try done. intros x a Hx. destruct (H2 x a Hx) as (? & ? & ? & ?).
    split_and!; try done. set_solver. }
  destruct (functions_given own fns fns' m n i k f st1) as (m' & Hf' & Hfun); try done.
  { intros w0 c Hw Hc Heq. rewrite Hin in Hw. specialize (Hheld o i w0 c Ho Hw Hc).
    unfold fresh_api in Hn. congruence. }
  { intros x j w0 c Hx Hw Hc Hj. rewrite Hin in Hw. rewrite Ha in Hx.
    apply lookup_insert_Some in Hx as [[_ ?]|[_ Hx]]; [done|].
    specialize (Hheld x j w0 c Hx Hw Hc). rewrite Ha, lookup_insert_ne; [done|].
    intros Heq. rewrite <- Heq in Hheld. unfold fresh_api in Hn. congruence. }
  { destruct (m !! n) as [a|] eqn:Hm; [|done].
    destruct (fo_map _ _ _ _ Hf n a Hm) as (_ & _ & _ & [j Hj]). unfold fresh_api in Hn. congruence. }
  eapply (function_ok own [mk_callback k n f] fns' m' n i _ w); [..|exact He|done]; try done.
  - cbn. by rewrite (right_id_L ∅ (∪)).
  - split; [apply NoDup_singleton|]. by intros d ->%list_elem_of_singleton.
  - by rewrite Hin.
  - destruct (API.subscribe _ _ w) as [o' w'] eqn:Hcw. cbn.
    destruct o'; cbn; try (by right; intros []); left; by eapply subscribe_loses.
Qed.

(** Of a member function through an object of the program. *)
Lemma through_ok own fns m o st (c : C (world F U) Z Z) out st' :
  objects_ok own st -> functions_ok own fns st m -> o ∈ own ->
  (forall n w out w', Z.of_nat n < 2 ^ 31 -> inv lookup_wf any n None w -> c w = (out, w') ->
     ended out -> loses [] w w') ->
  (let* i := api_of o in releasing i [] (on_instance i c)) st = (out, st') -> ended out ->
  objects_ok own st' /\ exists m', functions_ok own fns st' m'.
Proof.
  intros Hok Hf Hown Hc He Hout. destruct (ok_own _ _ Hok o Hown) as [i Ho].
  unfold api_of, cbind at 1 2, cget in He. rewrite Ho in He. cbn [copt cret] in He.
  by apply (member_ok own fns m o i st c out).
Qed.

Definition program_ok (p : program) : Prop :=
  objects_ok p.1.1 p.2 /\ exists m, functions_ok p.1.1 p.1.2 p.2 m.

Lemma deleted_ok own fns m o st st' :
  objects_ok own st -> functions_ok own fns st m -> o ∈ own ->
  delete_api (R := unit) o st = (Next tt, st') ->
  objects_ok (own ∖ {[o]}) st' /\ functions_ok (own ∖ {[o]}) fns st' m.
Proof.
  intros Hok Hf Ho He.
  destruct (delete_api_ok (R := unit) (own ∖ {[o]}) o st)
    as (i & w & st3 & _ & _ & He2 & Hok2 & Ha & Hfs & Hend).
  { clear. set_solver. }
  { by rewrite <- union_difference_singleton_L. }
  rewrite He in He2. injection He2 as <-. split; [done|].
  apply (functions_deleted own _ fns st st' m o); try done.
  - destruct (m !! o) as [a|] eqn:Hm; [|done].
    by destruct (fo_map _ _ _ _ Hf o a Hm) as (_ & _ & ? & _).
  - set_solver.
  - intros x j wj Hx Hw. case_decide; destruct Hend as [Hend _]; rewrite Hend in Hw; [|done].
    by apply lookup_delete_Some in Hw as [_ ?].
Qed.

(** Making and deleting a function object. *)
Lemma functions_own own fns fns' fs m st :
  fns' ⊆ fs -> (forall o a, m !! o = Some a -> a ∈ fs /\ a ∉ fns') ->
  objects_ok own st -> functions_ok own fns st m ->
  program_ok (own, fns', set_functions (fun _ => fs) st).
Proof.
  intros Hs Hm Hok [H1 H2 H3 H4]. split.
  - split; [apply Hok|]. intros o i Ho. destruct (ok_instance _ _ Hok o i Ho) as [w Hw].
    exists w. by apply (instance_ok_ext _ _ _ _ _ _ Hw).
  - exists m. split; try done. intros o a Ha. destruct (H2 o a Ha) as (_ & _ & ?).
    by destruct (Hm o a Ha).
Qed.

Lemma step_ok p p' : api_step p p' -> program_ok p -> program_ok p'.
Proof.
  intros [own fns gv ti s u o i st st2 Ho Hi Hn He | own fns gv ti s u o i st e st2 Ho Hi Hn He
    | own fns o n st st2 Ho Hn He | own fns o st st2 Ho He | own fns a st Ha | own fns a st Ha
    | own fns fns' o n pattern k f st out st2 Ho Hn Hg Hout He
    | own fns o pattern st out st2 Ho Hout He | own fns o c st out st2 Ho Hout Hc He];
    intros (Hok & m & Hf); cbn [fst snd] in *.
  - split; [|exists m].
    + by apply (construct_steps _ _ _ _ _ _ _ _ _ _ Ho Hi Hn Hok He).
    + by apply (construct_keeps _ _ _ _ _ _ _ _ _ _ _ _ Ho Hi Hn Hok Hf He).
  - split; [|exists m].
    + by apply (construct_steps _ _ _ _ _ _ _ _ _ _ Ho Hi Hn Hok He).
    + by apply (construct_keeps _ _ _ _ _ _ _ _ _ _ _ _ Ho Hi Hn Hok Hf He).
  - apply (copied_ok own) in He as [?|(i & w & _ & Hi & Ha & Hin & Hfs & _ & _ & Hok')]; try done.
    split; [done|]. exists m. by apply (functions_copied own fns m n i st st2 o).
  - destruct (deleted_ok own fns m o st st2 Hok Hf Ho He). split; [done|by exists m].
  - apply (functions_own own fns _ ({[a]} ∪ functions st) m); try done.
    + apply union_mono_l, Hf.
    + intros o b Hb. destruct (fo_map _ _ _ _ Hf o b Hb) as (? & ? & _). split; [set_solver|].
      intros [->%elem_of_singleton|?]%elem_of_union; done.
  - apply (functions_own own fns _ (functions st ∖ {[a]}) m); try done.
    + apply difference_mono_r, Hf.
    + intros o b Hb. destruct (fo_map _ _ _ _ Hf o b Hb) as (? & ? & _).
      assert (b <> a) by congruence. set_solver.
  - by apply (subscribed_ok own fns fns' m o n pattern k f st out).
  - apply (through_ok own fns m o st (API.unsubscribe pattern) out); try done.
    intros n w out' w' Hn Hw. by eapply unsubscribe_loses.
  - apply (through_ok own fns m o st c out); try done.
    intros n w out' w' Hn Hw Hcw _. by eapply member_loses.
Qed.

Lemma reachable_ok own fns st : reachable own fns st -> program_ok (own, fns, st).
Proof.
  intros H. enough (forall p q, rtc api_step p q -> program_ok p -> program_ok q) as Hs.
  { apply (Hs _ _ H). split; [|exists ∅]; split; cbn; try done; set_solver. }
  intros p q. induction 1 as [|x y z Hxy _ IH]; [done|]. intros Hok.
  by apply IH, (step_ok x).
Qed.

(** What [unsubscribe] answers is what the function of the instance does: the
    callbacks it loses can be deleted. *)
Lemma unsubscribed own fns m o i w pattern out w' st :
  objects_ok own st -> functions_ok own fns st m -> apis st !! o = Some i ->
  instances st !! i = Some w -> API.unsubscribe pattern w = (out, w') -> ended out ->
  fst (api_unsubscribe_object o pattern st) = out.
Proof.
  intros Hok Hf Ho Hi Hc Hout. destruct (ok_instance _ _ Hok o i Ho) as [w0 Hw].
  pose proof Hw as [Hi0 _ _ (n & Hn & Hinv) _ _]. rewrite Hi in Hi0. injection Hi0 as <-.
  destruct (releasing_ok own [] fns m st i w (API.unsubscribe pattern) out w')
    as (st2 & m2 & He & _); try done.
  - cbn. by rewrite (left_id_L ∅ (∪)).
  - by exists o.
  - cbn. by rewrite (left_id_L ∅ (∪)).
  - split; [constructor|]. by intros d ?%not_elem_of_nil.
  - by eapply unsubscribe_loses.
  - unfold api_unsubscribe_object, api_of, cbind at 1 2, cget. rewrite Ho. cbn [copt cret].
    by rewrite He.
Qed.

(** ** Properties *)

(** C14. The objects of a program, whose callback functions keep the instance in
    order and leave its subscriptions alone, and which gives a function object
    to one subscription at most and then no longer has it (what becomes of a
    program that gives one twice is [subscribed_twice]).  In every state such a
    program reaches by constructing, copying and deleting objects of class API,
    making and deleting function objects, subscribing, unsubscribing and calling
    member functions through its own, whatever the calls return or throw: every object
    has an instance that is there and in order, the count of an instance is
    the number of its objects, and each object that is not the program's is
    kept by exactly one callback.  The function object a callback has a
    pointer to is there and is not the program's, and no other callback has it;
    so the callbacks an unsubscription drops are deleted without touching what
    is not there. *)
Theorem objects_invariant own fns st (Hr : reachable own fns st) :
  (forall o, o ∈ own -> is_Some (apis st !! o)) /\
  (forall o i, apis st !! o = Some i -> exists w, instance_ok own st i w) /\
  fns ⊆ functions st /\
  (forall o i w c a, apis st !! o = Some i -> instances st !! i = Some w -> c ∈ holds_of w ->
     function_of c = Some a -> a ∈ functions st /\ a ∉ fns) /\
  (forall o i w c o' i' w' c' a,
     apis st !! o = Some i -> instances st !! i = Some w -> c ∈ holds_of w ->
     apis st !! o' = Some i' -> instances st !! i' = Some w' -> c' ∈ holds_of w' ->
     function_of c = Some a -> function_of c' = Some a -> cb_api c = cb_api c') /\
  (forall o i w pattern, o ∈ own -> apis st !! o = Some i -> instances st !! i = Some w ->
     ended (fst (API.unsubscribe pattern w)) ->
     fst (api_unsubscribe_object o pattern st) = fst (API.unsubscribe pattern w)).
Proof.
  destruct (reachable_ok own fns st Hr) as (Hok & m & Hf). pose proof Hf as [H1 H2 H3 H4].
  cbn [fst snd] in *. split; [apply Hok|]. split; [apply Hok|]. split; [done|].
  split; [|split].
  - intros o i w c a Ho Hi Hc Ha. rewrite (H4 o i w c) in Ha by done.
    by destruct (H2 _ _ Ha) as (? & ? & _).
  - intros o i w c o' i' w' c' a Ho Hi Hc Ho' Hi' Hc' Ha Ha'.
    rewrite (H4 o i w c) in Ha by done. rewrite (H4 o' i' w' c') in Ha' by done. by eapply H3.
  - intros o i w pattern Hown Ho Hi Hout.
    destruct (API.unsubscribe pattern w) as [out w'] eqn:Hc. cbn [fst] in *.
    by apply (unsubscribed own fns m o i w pattern out w' st).
Qed.

(** C15. The end of an instance.  Deleting an object of the program always
    succeeds.  It closes the descriptors of the instance and frees it when
    the program has no other object of it and it has no subscription, and
    not otherwise: an instance with a subscription, which keeps an object of
    its own, outlives every object of the program. *)
Theorem instance_released own fns st o (Hr : reachable own fns st) (Ho : o ∈ own) :
  exists i w st', apis st !! o = Some i /\ instances st !! i = Some w /\
    delete_api (R := unit) o st = (Next tt, st') /\
    ((forall o', o' ∈ own -> apis st !! o' = Some i -> o' = o) ->
     holds_of w = [] ->
     instances st' = delete i (instances st) /\
     closed st' = closed st ++ fst (cloudi_destroy (Some (w_inst w)))) /\
    ((exists o', o' ∈ own /\ apis st !! o' = Some i /\ o' <> o) \/ holds_of w <> [] ->
     instances st' = instances st /\ closed st' = closed st).
Proof.
  destruct (reachable_ok own fns st Hr) as (Hok & _). cbn [fst snd] in Hok.
  destruct (delete_api_ok (R := unit) (own ∖ {[o]}) o st) as
    (i & w & st' & Hi & [Hw Hc Hs Hinv Hd Hh] & He & _ & _ & _ & Hend).
  { clear. set_solver. }
  { by rewrite <- union_difference_singleton_L. }
  rewrite <- union_difference_singleton_L in Hh by done.
  exists i, w, st'. split; [done|]. split; [done|]. split; [done|]. split.
  - intros Honly Hl. rewrite decide_True in Hend; [done|].
    apply set_eq. intros x. rewrite elem_of_members, elem_of_singleton.
    split; [|by intros ->]. intros Hx. destruct (decide (x ∈ own)); [by apply Honly|].
    assert (x ∈ cb_api <$> holds_of w) as Hin by (by apply Hh).
    rewrite Hl in Hin. by apply not_elem_of_nil in Hin.
  - intros Hmore. rewrite decide_False in Hend; [done|]. intros Hone.
    assert (forall x, apis st !! x = Some i -> x = o) as Hx.
    { intros x Hx. apply elem_of_members in Hx. rewrite Hone in Hx. by apply elem_of_singleton in Hx. }
    destruct Hmore as [(o' & _ & Ho' & Hne)|Hne]; [by apply Hx in Ho'|].
    destruct (holds_of w) as [|x l]; [done|].
    destruct (proj1 (Hh (cb_api x)) (list_elem_of_here _ _)) as [Hx1 Hx2].
    apply Hx in Hx1. by rewrite Hx1 in Hx2.
Qed.
End objects.

(** ** A program with one object *)

Definition example_strings (_ : unit) (_ : nat) (_ _ : bytes) (_ : request) :
    C (world (callback_object unit) unit) unit unit := cret tt.
Definition example_pointers (_ : unit) (_ : nat) (_ : request) :
    C (world (callback_object unit) unit) unit unit := cret tt.

Definition example_env (k : bytes) : option bytes :=
  if decide (k = chars "CLOUDI_API_INIT_PROTOCOL") then Some (chars "tcp")
  else Some (chars "65536").

(** It constructs an API object; what the socket brings is the init
    message. *)
Definition example_constructed : outcome unit unit * objects :=
  api_construct example_strings example_pointers example_env 0
    (set_polls [pl_ready] (example_sys
      (frame 1 (init_out 0 4 8 2 (chars "/svc/") 5000 5000 5000 2000 (-7))))) tt 0%nat 0%nat
    no_objects.

Lemma example_constructs : fst example_constructed = Next tt.
Proof. vm_compute. reflexivity. Qed.

Lemma example_strings_keep K n f o name pattern rq :
  yields (inv (keeps_held (G := unit) K) any n None) any any
    (example_strings f o name pattern rq).
Proof. by apply yields_ret. Qed.

Lemma example_pointers_keep K n f o rq :
  yields (inv (keeps_held (G := unit) K) any n None) any any (example_pointers f o rq).
Proof. by apply yields_ret. Qed.

(** The one function object it makes. *)
Definition example_address (_ : unit) : nat := 7%nat.

(** It makes the function object and subscribes with it. *)
Definition example_subscribed : outcome Z Z * objects :=
  api_subscribe_object example_address 0 1 (chars "a") op1 tt
    (set_functions (union {[7%nat]}) (snd example_constructed)).

Lemma example_subscribes : fst example_subscribed = Return 0.
Proof. vm_compute. reflexivity. Qed.

Lemma example_reachable :
  reachable example_address example_strings example_pointers ({[0%nat]} ∪ ∅)
    (({[7%nat]} ∪ ∅) ∖ {[7%nat]}) (snd example_subscribed).
Proof.
  eapply rtc_l; [eapply step_construct; [done|done| |rewrite <- example_constructs;
    apply surjective_pairing]; vm_compute; reflexivity|].
  eapply rtc_l; [eapply (step_new_function _ _ _ _ _ 7%nat)|].
  { vm_compute. done. }
  apply rtc_once. eapply (step_subscribe _ _ _ _ _ _ 0%nat 1%nat (chars "a") op1 tt);
    [..|apply surjective_pairing].
  - set_solver.
  - vm_compute. reflexivity.
  - unfold gives, example_address. by rewrite decide_True by set_solver.
  - rewrite example_subscribes. exact I.
Qed.

(** It deletes its object: the socket is not closed. *)
Lemma example_leak :
  let st' := snd (delete_api (R := unit) example_address 0 (snd example_subscribed)) in
  closed st' = [] /\ dom (instances st') = {[0%nat]} /\ dom (apis st') = {[1%nat]} /\
  functions st' = {[7%nat]}.
Proof. vm_compute. done. Qed.

(** The subscription owns the function object: it goes with the
    subscription, so a second subscription with the same one has it deleted
    twice. *)
Lemma example_owned :
  functions (snd (api_unsubscribe_object example_address 0 (chars "a")
    (snd example_subscribed))) = ∅.
Proof. vm_compute. reflexivity. Qed.

Lemma subscribed_twice :
  let st := snd (api_subscribe_object example_address 0 2 (chars "b") op1 tt
                   (snd example_subscribed)) in
  let '(out, st') := api_unsubscribe_object example_address 0 (chars "a") st in
  out = Return 0 /\
  fst (api_unsubscribe_object example_address 0 (chars "b") st') = Undef.
Proof. vm_compute. done. Qed.

Lemma objects_invariant_witness :
  exists w, instance_ok ({[0%nat]} ∪ ∅) (snd example_subscribed) 0%nat w.
Proof.
  destruct (objects_invariant example_address example_strings example_pointers
    example_strings_keep example_pointers_keep _ _ _ example_reachable) as (H1 & H2 & _).
  destruct (H1 0%nat ltac:(set_solver)) as [i Hi]. destruct (H2 0%nat i Hi) as [w Hw].
  assert (apis (snd example_subscribed) !! 0%nat = Some 0%nat) as H0 by (vm_compute; reflexivity).
  rewrite Hi in H0. injection H0 as ->. exists w. exact Hw.
Defined.

Lemma instance_released_witness :
  exists st', delete_api (R := unit) example_address 0 (snd example_subscribed) = (Next tt, st').
Proof.
  destruct (instance_released example_address example_strings example_pointers
    example_strings_keep example_pointers_keep _ _ _ 0%nat example_reachable
    ltac:(set_solver)) as (i & w & st' & _ & _ & He & _).
  exists st'. exact He.
Defined.
