(* ===== verification/Python.v ===== *)
(** * The Python C extension  (cloudi_py.cpp)

    The methods of the Python type [cloudi_c], and the callback functions it
    subscribes.  The code gives up the lock of the interpreter while it is in
    the C++ API, and takes it back for a callback function; it owns references
    to Python objects.  The interpreter is the environment: what is modelled
    of it is the lock, the counts of references, and the error indicator. *)

From S2P Require Import Prelude CMonad Status Sys ReallocPtr Lookup Ei Instance Requests Poll Calls Invariant Api Objects.

(** ** The interpreter *)

(** What a Python object is to the code.  A string has its UTF-8 bytes
    unless it cannot be encoded. *)
Inductive pyvalue : Type :=
| PyBytes (b : bytes)
| PyUnicode (utf8 : option bytes)
| PyTuple (items : list nat)
| PyOther.

(** An exception: the name of its type, and its text or the number a format
    shows. *)
Record pyerror : Type := mk_pyerror { e_name : bytes; e_text : bytes + Z }.

Record interp : Type := mk_interp {
  gil : bool;                           (* this thread has the lock *)
  thread_state : bool;                  (* object->thread_state is not null *)
  err : option pyerror;                 (* the error indicator *)
  pyobjects : gmap nat (Z * pyvalue);   (* with the counts of references *)
  printed : list pyerror;               (* what PyErr_Print has shown *)
  unlocked : list nat;                  (* objects counted without the lock *)
  misused : bool                        (* the lock was taken or given up wrongly *)
}.

Definition set_lock (g t : bool) (u : interp) : interp :=
  mk_interp g t (err u) (pyobjects u) (printed u) (unlocked u) (misused u).
Definition set_err (e : option pyerror) (u : interp) : interp :=
  mk_interp (gil u) (thread_state u) e (pyobjects u) (printed u) (unlocked u) (misused u).
Definition set_objects (o : gmap nat (Z * pyvalue)) (u : interp) : interp :=
  mk_interp (gil u) (thread_state u) (err u) o (printed u) (unlocked u) (misused u).
Definition add_printed (l : list pyerror) (u : interp) : interp :=
  mk_interp (gil u) (thread_state u) (err u) (pyobjects u) (printed u ++ l) (unlocked u) (misused u).
Definition add_unlocked (n : nat) (u : interp) : interp :=
  mk_interp (gil u) (thread_state u) (err u) (pyobjects u) (printed u)
    (if gil u then unlocked u else unlocked u ++ [n]) (misused u).
Definition set_misused (b : bool) (u : interp) : interp :=
  mk_interp (gil u) (thread_state u) (err u) (pyobjects u) (printed u) (unlocked u) b.

(** [Py_INCREF] and [Py_DECREF]: an object without references is freed, and
    gives up those it has.  They need the lock; without it they race with
    the other threads. *)
Definition count_up (n : nat) (o : gmap nat (Z * pyvalue)) : option (gmap nat (Z * pyvalue)) :=
  '(k, v) ← o !! n; Some (<[n := (k + 1, v)]> o).

Fixpoint count_down (fuel : nat) (n : nat) (o : gmap nat (Z * pyvalue)) :
    option (gmap nat (Z * pyvalue)) :=
  match fuel with
  | O => None
  | S fuel =>
      '(k, v) ← o !! n;
      if k =? 1 then
        match v with
        | PyTuple items => foldl (fun o n => o ← o; count_down fuel n o) (Some (delete n o)) items
        | _ => Some (delete n o)
        end
      else Some (<[n := (k - 1, v)]> o)
  end.

(** The type of the callable objects a subscription keeps. *)
Abbreviation pyworld := (world (callback_object nat) interp).

Definition upd_user {F U} (f : U -> U) (w : world F U) : world F U :=
  mk_world (w_inst w) (w_sys w) (f (w_user w)).

Section interpreter.
Context {R : Type}.
Abbreviation M := (C pyworld R).

Definition py {A} (f : interp -> A) : M A := creads (fun w => f (w_user w)).
Definition set_py (f : interp -> interp) : M unit := cmodify (upd_user f).

(** [PyEval_SaveThread()] and [PyEval_RestoreThread(...)], with the
    assignments of the macros THREADS_*: they must be called with, and
    without, the lock, and the thread state that is restored must not be null;
    otherwise the interpreter ends the program, or waits for itself, which is
    recorded. *)
Definition misuse {A} : M A := set_py (set_misused true);;; cundef.
Definition save_thread : M unit :=
  let* g := py gil in
  if (g : bool) then set_py (set_lock false true) else misuse.
Definition restore_thread : M unit :=
  let* g := py gil in
  let* t := py thread_state in
  if t && negb g then set_py (set_lock true false) else misuse.

Definition incref (n : nat) : M unit :=
  set_py (add_unlocked n);;;
  let* o := py pyobjects in
  let* o := copt (count_up n o) in
  set_py (set_objects o).
Definition decref (n : nat) : M unit :=
  set_py (add_unlocked n);;;
  let* o := py pyobjects in
  let* o := copt (count_down (S (base.size o)) n o) in
  set_py (set_objects o).

Definition err_set (name : bytes) (text : bytes + Z) : M unit :=
  set_py (set_err (Some (mk_pyerror name text))).
Definition err_clear : M unit := set_py (set_err None).
(** [PyErr_Print()] *)
Definition err_print : M unit :=
  let* e := py err in
  set_py (add_printed (match e with Some e => [e] | None => [] end));;;
  set_py (set_err None).
End interpreter.

(** ** Errors *)

Definition assert_name : bytes := chars "assert_exception".
Definition invalid_input_name : bytes := chars "invalid_input_exception".
Definition message_decoding_name : bytes := chars "message_decoding_exception".
Definition terminate_name : bytes := chars "terminate_exception".

(** The cases of [python_error] besides terminate. *)
Definition error_texts : list (cloudi_status * bytes) :=
  [ (cloudi_timeout, chars "timeout");
    (cloudi_error_function_parameter, chars "function_parameter");
    (cloudi_error_read_underflow, chars "read_underflow");
    (cloudi_error_ei_decode, chars "ei_decode");
    (cloudi_invalid_input, chars "cloudi_invalid_input");
    (cloudi_out_of_memory, chars "cloudi_out_of_memory");
    (cloudi_error_read_EAGAIN, chars "read_EAGAIN");
    (cloudi_error_read_EBADF, chars "read_EBADF");
    (cloudi_error_read_EFAULT, chars "read_EFAULT");
    (cloudi_error_read_EINTR, chars "read_EINTR");
    (cloudi_error_read_EINVAL, chars "read_EINVAL");
    (cloudi_error_read_EIO, chars "read_EIO");
    (cloudi_error_read_EISDIR, chars "read_EISDIR");
    (cloudi_error_read_null, chars "read_null");
    (cloudi_error_read_overflow, chars "read_overflow");
    (cloudi_error_read_unknown, chars "read_unknown");
    (cloudi_error_write_EAGAIN, chars "write_EAGAIN");
    (cloudi_error_write_EBADF, chars "write_EBADF");
    (cloudi_error_write_EFAULT, chars "write_EFAULT");
    (cloudi_error_write_EFBIG, chars "write_EFBIG");
    (cloudi_error_write_EINTR, chars "write_EINTR");
    (cloudi_error_write_EINVAL, chars "write_EINVAL");
    (cloudi_error_write_EIO, chars "write_EIO");
    (cloudi_error_write_ENOSPC, chars "write_ENOSPC");
    (cloudi_error_write_EPIPE, chars "write_EPIPE");
    (cloudi_error_write_null, chars "write_null");
    (cloudi_error_write_overflow, chars "write_overflow");
    (cloudi_error_write_unknown, chars "write_unknown");
    (cloudi_error_ei_encode, chars "ei_encode");
    (cloudi_error_poll_EBADF, chars "poll_EBADF");
    (cloudi_error_poll_EFAULT, chars "poll_EFAULT");
    (cloudi_error_poll_EINTR, chars "poll_EINTR");
    (cloudi_error_poll_EINVAL, chars "poll_EINVAL");
    (cloudi_error_poll_ENOMEM, chars "poll_ENOMEM");
    (cloudi_error_poll_ERR, chars "poll_ERR");
    (cloudi_error_poll_NVAL, chars "poll_NVAL");
    (cloudi_error_poll_unknown, chars "poll_unknown") ].

Definition python_error {R} (value : Z) : C pyworld R unit :=
  if value =? cloudi_terminate then err_set terminate_name (inl (chars "terminate"))
  else
    match list_find (fun '(s, _) => value = status_value s) error_texts with
    | Some (_, (_, text)) => err_set message_decoding_name (inl text)
    | None => err_set message_decoding_name (inr value)
    end.

(** ** class callback *)

(** What [Py_BuildValue] makes of a request. *)
Record pyrequest : Type := mk_pyrequest {
  py_request_type : Z;
  py_name : bytes;
  py_pattern : bytes;
  py_request_info : bytes;
  py_request : bytes;
  py_timeout : Z;
  py_priority : Z;
  py_trans_id : bytes;
  py_pid : bytes
}.

(** A [char *] of the response: null, or into an object; and its size. *)
Definition chars_of : Type := option nat * Z.

(** A state that is not left any more is of no interest, but for whether the
    lock was misused: the one before is taken for the rest of it. *)
Definition with_misused (w' w : pyworld) : pyworld :=
  upd_user (set_misused (misused (w_user w'))) w.
Definition or_before {R A} (c : C pyworld R A) : C pyworld R A := fun w =>
  match c w with
  | (Undef, w') => (Undef, with_misused w' w)
  | (Blocked, w') => (Blocked, with_misused w' w)
  | r => r
  end.

Section python.
Context {E : Ei}.

(** Whether bytes are UTF-8; the Python functions, which give a new reference
    to their result, or nothing and set the error indicator. *)
Context (utf8 : bytes -> bool).
Context (call_object : nat -> pyrequest -> C pyworld unit (option nat)).

(** [Py_BuildValue("(i,s,s,y#,y#,I,i,y#,y#)", ...)]: its strings must be
    UTF-8. *)
Definition build_request (rq : request) : C pyworld unit (option pyrequest) :=
  let* name := call_cstr (rq_name rq) in
  let* pattern := call_cstr (rq_pattern rq) in
  let* request_info := call_bytes (rq_request_info rq) (rq_request_info_size rq) in
  let* request := call_bytes (rq_request rq) (rq_request_size rq) in
  let* trans_id := call_bytes (rq_trans_id rq) 16 in
  let* pid := call_bytes (rq_pid rq) (rq_pid_size rq) in
  if utf8 name && utf8 pattern then
    cret (Some (mk_pyrequest (rq_type rq) name pattern request_info request
      (rq_timeout rq) (rq_priority rq) trans_id pid))
  else
    err_set (chars "UnicodeDecodeError") (inl []);;;
    cret None.

(** [PyObject_CallObject(m_f, args)].  A C++ exception does not get through
    the interpreter. *)
Definition call_function (f : nat) (args : pyrequest) : C pyworld unit (option nat) :=
  ctry (call_object f args) (fun _ => Some cundef).

(** The item of a tuple that the format [y#] takes: a bytes object whose
    length is an int. *)
Definition item_chars (n : nat) : C pyworld unit (option chars_of) :=
  let* o := py pyobjects in
  let* (_, v) := copt (o !! n) in
  match v with
  | PyBytes b =>
      if Z.of_nat (length b) <=? INT_MAX then cret (Some (Some n, Z.of_nat (length b)))
      else err_set (chars "OverflowError") (inl []);;; cret None
  | _ => err_set (chars "TypeError") (inl []);;; cret None
  end.

(** The response info and the response in the result of a Python function,
    if it is a valid one. *)
Definition parse_result (n : nat) : C pyworld unit (option (chars_of * chars_of)) :=
  let* o := py pyobjects in
  let* (_, v) := copt (o !! n) in
  match v with
  | PyTuple [info; response] =>
      let* info := item_chars info in
      match info with
      | None => err_print;;; cret None
      | Some info =>
          let* response := item_chars response in
          match response with
          | None => err_print;;; cret None
          | Some response => cret (Some (info, response))
          end
      end
  | PyBytes b => cret (Some ((None, 0), (Some n, wrap32 (Z.of_nat (length b)))))
  | PyUnicode (Some b) => cret (Some ((None, 0), (Some n, wrap32 (Z.of_nat (length b)))))
  | PyUnicode None =>
      err_set (chars "UnicodeEncodeError") (inl []);;;
      err_print;;;
      cret None
  | _ => cret None
  end.

(** The characters at such a pointer, of an object that is still there. *)
Definition read_chars (p : chars_of) : C pyworld unit bytes :=
  match p with
  | (None, _) => cret []
  | (Some n, size) =>
      let* o := py pyobjects in
      let* (_, v) := copt (o !! n) in
      match v with
      | PyBytes b | PyUnicode (Some b) => cret (take (Z.to_nat size) b)
      | _ => cundef
      end
  end.

(** [api.return_async(...)] or [api.return_sync(...)] *)
Definition answer_bytes (rq : request) (info response : bytes) : C pyworld unit unit :=
  let* name := call_cstr (rq_name rq) in
  let* pattern := call_cstr (rq_pattern rq) in
  let* trans_id := call_bytes (rq_trans_id rq) 16 in
  let* pid := call_bytes (rq_pid rq) (rq_pid_size rq) in
  let* _ := call ((if rq_type rq =? CLOUDI_ASYNC then API.return_async else API.return_sync)
                    name pattern info response (rq_timeout rq) trans_id pid) in
  cret tt.

Definition send_answer (rq : request) (info response : chars_of) : C pyworld unit unit :=
  if (rq_type rq =? CLOUDI_ASYNC) || (rq_type rq =? CLOUDI_SYNC) then
    let* info := read_chars info in
    let* response := read_chars response in
    answer_bytes rq info response
  else cret tt.

(** The exceptions by which a Python function tells that it has answered. *)
Definition raised (rq : request) (e : pyerror) : option exception :=
  let sync := rq_type rq =? CLOUDI_SYNC in
  let async := rq_type rq =? CLOUDI_ASYNC in
  if async && bool_decide (e_name e = chars "ReturnAsyncException")
  then Some return_async_exception
  else if sync && bool_decide (e_name e = chars "ReturnSyncException")
  then Some return_sync_exception
  else if async && bool_decide (e_name e = chars "ForwardAsyncException")
  then Some forward_async_exception
  else if sync && bool_decide (e_name e = chars "ForwardSyncException")
  then Some forward_sync_exception
  else None.

(** [operator ()] *)
Definition callback_operator (f : nat) (_ : nat) (rq : request) : C pyworld unit unit :=
  or_before (
    restore_thread;;;
    let* args := build_request rq in
    match args with
    | None => err_print;;; save_thread
    | Some args =>
        let* result := call_function f args in
        match result with
        | None =>
            let* e := py err in
            match e with
            | None => save_thread
            | Some e =>
                match raised rq e with
                | Some x => err_clear;;; save_thread;;; cthrow x
                | None => err_print;;; save_thread
                end
            end
        | Some result =>
            let* response := parse_result result in
            decref result;;;
            save_thread;;;
            match response with
            | None => cret tt
            | Some (info, response) => send_answer rq info response
            end
        end
    end).

(** What is subscribed is a [callback_function_cxx_op2]. *)
Definition run_python : callback_object nat -> request -> C pyworld unit unit :=
  run (fun _ _ _ _ _ => cundef) callback_operator.
End python.

(** ** Methods *)

(** What a method returns: null, or a new object. *)
Inductive pyresult : Type :=
| py_null | py_none | py_true | py_false
| py_uint (n : Z) | py_bytes (b : bytes) | py_str (b : bytes)
| py_tuple (l : list pyresult).

(** Arguments of the three functions that send, as [kwlist] has them. *)
Record send_args : Type := mk_send_args {
  sa_name : bytes;
  sa_request : bytes;
  sa_timeout : option Z;
  sa_request_info : option bytes;
  sa_priority : option Z
}.

Record forward_args : Type := mk_forward_args {
  fa_name : bytes;
  fa_request_info : bytes;
  fa_request : bytes;
  fa_timeout : Z;
  fa_priority : Z;
  fa_trans_id : bytes;
  fa_pid : bytes
}.

Record return_args : Type := mk_return_args {
  ra_name : bytes;
  ra_pattern : bytes;
  ra_response_info : bytes;
  ra_response : bytes;
  ra_timeout : Z;
  ra_trans_id : bytes;
  ra_pid : bytes
}.

Section methods.
Context {E : Ei}.
Context (utf8 : bytes -> bool).
Context (call_object : nat -> pyrequest -> C pyworld unit (option nat)).
(** [PyCallable_Check] *)
Context (callable : nat -> bool).
Abbreviation M := (C pyworld pyresult).
Abbreviation run := (run_python utf8 call_object).

(** The code between THREADS_BEGIN and THREADS_END. *)
Definition threads {A} (c : M A) : M A :=
  save_thread;;;
  let* result := c in
  restore_thread;;;
  cret result.

(** [if (result != 0) { python_error(result); return NULL; }] *)
Definition check_result (result : Z) : M unit :=
  if negb (result =? 0) then python_error result;;; creturn py_null else cret tt.

(** The same, where a timeout is not an error. *)
Definition check_timeout (result : Z) : M unit :=
  creturn_if (result =? cloudi_timeout) py_none;;;
  check_result result.

(** PY_ASSERT, without the text. *)
Definition py_assert (b : bool) : M unit :=
  if b then cret tt else err_set assert_name (inl []);;; creturn py_null.

(** PyArg_ParseTuple and PyArg_ParseTupleAndKeywords, which have set an
    exception when they fail. *)
Definition parsed {A} (args : option A) : M A :=
  match args with Some args => cret args | None => creturn py_null end.

(** A [y#] of a pointer into the buffer of the instance. *)
Definition build_bytes (p : option ptr) (size : Z) : M pyresult :=
  match p with
  | None => cret py_none
  | Some p =>
      let* b := field p_buffer_recv in
      let* bs := copt (deref b p size) in
      cret (py_bytes bs)
  end.

Definition python_cloudi_subscribe (args : option (bytes * nat)) : M pyresult :=
  let* (pattern, f) := parsed args in
  if negb (callable f) then
    err_set message_decoding_name (inl (chars "subscribe: not_callable"));;;
    creturn py_null
  else
    let* result := threads (
      incref f;;;                                            (* new callback *)
      call (API.subscribe pattern (mk_callback op2 0 f))) in
    check_result result;;;
    creturn py_none.

Definition python_cloudi_subscribe_count (args : option bytes) : M pyresult :=
  let* pattern := parsed args in
  let* result := threads (call (API.subscribe_count run pattern)) in
  check_result result;;;
  let* n := API.get_subscribe_count in
  creturn (py_uint n).

(** The function of the callback that [remove] takes, and deletes. *)
Definition next_function (pattern : bytes) (w : pyworld) : option nat :=
  prefix ← p_prefix (w_inst w);
  prefix ← cstr_of prefix;
  f ← head (abs (p_lookup (w_inst w)) (prefix ++ pattern));
  match f with callback_user f => Some (cb_function f) | callback_null_response => None end.

Definition python_cloudi_unsubscribe (args : option bytes) : M pyresult :=
  let* pattern := parsed args in
  let* result := threads (
    let* f := creads (next_function pattern) in
    match f with Some f => decref f | None => cret tt end;;;   (* ~callback *)
    call (API.unsubscribe pattern)) in
  check_result result;;;
  creturn py_none.

(** The answer of [send_sync] and [recv_async]. *)
Definition build_response : M pyresult :=
  let* count := API.get_trans_id_count in
  py_assert (count =? 1);;;
  let* info := API.get_response_info in
  let* info_size := API.get_response_info_size in
  let* response := API.get_response in
  let* response_size := API.get_response_size in
  let* trans_id := call (API.get_trans_id 0) in
  let* info := build_bytes info info_size in
  let* response := build_bytes response response_size in
  let* trans_id := build_bytes trans_id 16 in
  creturn (py_tuple [info; response; trans_id]).

Definition python_cloudi_send_async (args : option send_args) : M pyresult :=
  let* timeout := API.timeout_async in
  let* priority := API.priority_default in
  let* args := parsed args in
  let* result := threads (call (API.send_async_ run (sa_name args)
    (default [] (sa_request_info args)) (sa_request args)
    (default timeout (sa_timeout args)) (default priority (sa_priority args)))) in
  check_timeout result;;;
  let* count := API.get_trans_id_count in
  py_assert (count =? 1);;;
  let* trans_id := call (API.get_trans_id 0) in
  let* trans_id := build_bytes trans_id 16 in
  creturn trans_id.

Definition python_cloudi_send_sync (args : option send_args) : M pyresult :=
  let* timeout := API.timeout_sync in
  let* priority := API.priority_default in
  let* args := parsed args in
  let* result := threads (call (API.send_sync_ run (sa_name args)
    (default [] (sa_request_info args)) (sa_request args)
    (default timeout (sa_timeout args)) (default priority (sa_priority args)))) in
  check_timeout result;;;
  build_response.

Definition python_cloudi_mcast_async (args : option send_args) : M pyresult :=
  let* timeout := API.timeout_async in
  let* priority := API.priority_default in
  let* args := parsed args in
  let* result := threads (call (API.mcast_async_ run (sa_name args)
    (default [] (sa_request_info args)) (sa_request args)
    (default timeout (sa_timeout args)) (default priority (sa_priority args)))) in
  check_timeout result;;;
  let* count := API.get_trans_id_count in
  let* trans_id := call (API.get_trans_id 0) in
  let* trans_id := build_bytes trans_id (wrap32 (count * 16)) in
  creturn trans_id.

(** [result = 0; try { result = ...; } catch (e const &) {}] *)
Definition catching (e : exception) (c : M Z) : M Z :=
  ctry c (fun x => if decide (x = e) then Some (cret 0) else None).

Definition python_cloudi_forward_async (args : option forward_args) : M pyresult :=
  let* args := parsed args in
  py_assert (length (fa_trans_id args) =? 16)%nat;;;
  let* result := threads (catching forward_async_exception (call (API.forward_async
    (fa_name args) (fa_request_info args) (fa_request args) (fa_timeout args)
    (fa_priority args) (fa_trans_id args) (fa_pid args)))) in
  check_result result;;;
  creturn py_none.

Definition python_cloudi_forward_sync (args : option forward_args) : M pyresult :=
  let* args := parsed args in
  py_assert (length (fa_trans_id args) =? 16)%nat;;;
  let* result := threads (catching forward_sync_exception (call (API.forward_sync
    (fa_name args) (fa_request_info args) (fa_request args) (fa_timeout args)
    (fa_priority args) (fa_trans_id args) (fa_pid args)))) in
  check_result result;;;
  creturn py_none.

Definition python_cloudi_return_async (args : option return_args) : M pyresult :=
  let* args := parsed args in
  py_assert (length (ra_trans_id args) =? 16)%nat;;;
  let* result := threads (catching return_async_exception (call (API.return_async
    (ra_name args) (ra_pattern args) (ra_response_info args) (ra_response args)
    (ra_timeout args) (ra_trans_id args) (ra_pid args)))) in
  check_result result;;;
  creturn py_none.

Definition python_cloudi_return_sync (args : option return_args) : M pyresult :=
  let* args := parsed args in
  py_assert (length (ra_trans_id args) =? 16)%nat;;;
  let* result := threads (catching return_sync_exception (call (API.return_sync
    (ra_name args) (ra_pattern args) (ra_response_info args) (ra_response args)
    (ra_timeout args) (ra_trans_id args) (ra_pid args)))) in
  check_result result;;;
  creturn py_none.

Definition python_cloudi_recv_async
    (args : option (option Z * option bytes * option bool)) : M pyresult :=
  let* timeout_sync := API.timeout_sync in
  let* (timeout, trans_id, consume) := parsed args in
  let trans_id := default trans_id_null trans_id in
  py_assert (length trans_id =? 16)%nat;;;
  let* result := threads (call (API.recv_async run (Some (default timeout_sync timeout))
    (Some trans_id) (Some (default true consume)))) in
  check_timeout result;;;
  build_response.

Definition build_uint (c : M Z) : M pyresult := let* n := c in creturn (py_uint n).
Definition python_cloudi_process_index : M pyresult := build_uint API.process_index.
Definition python_cloudi_process_count : M pyresult := build_uint API.process_count.
Definition python_cloudi_process_count_max : M pyresult := build_uint API.process_count_max.
Definition python_cloudi_process_count_min : M pyresult := build_uint API.process_count_min.
Definition python_cloudi_timeout_initialize : M pyresult := build_uint API.timeout_initialize.
Definition python_cloudi_timeout_async : M pyresult := build_uint API.timeout_async.
Definition python_cloudi_timeout_sync : M pyresult := build_uint API.timeout_sync.
Definition python_cloudi_timeout_terminate : M pyresult := build_uint API.timeout_terminate.

Definition python_cloudi_prefix : M pyresult :=
  let* prefix := API.prefix in
  match prefix with
  | None => creturn py_none
  | Some cells =>
      let* s := copt (cstr_of cells) in
      if utf8 s then creturn (py_str s)
      else err_set (chars "UnicodeDecodeError") (inl []);;; creturn py_null
  end.

Definition python_cloudi_poll (args : option Z) : M pyresult :=
  let* timeout := parsed args in
  let* result := threads (call (API.poll run timeout)) in
  creturn_if (result =? cloudi_timeout) py_true;;;
  check_result result;;;
  creturn py_false.

Definition python_cloudi_shutdown (args : option (option bytes)) : M pyresult :=
  let* reason := parsed args in
  let* result := threads (call (API.shutdown_ (Some (default [] reason)))) in
  check_result result;;;
  creturn py_none.

(** [__init__]: 0, or -1 with an exception set. *)
Definition python_cloudi_instance_object_init (getenv : bytes -> option bytes)
    (args : option Z) : C pyworld Z Z :=
  match args with
  | None => creturn (-1)
  | Some thread_index =>
      ctry (call (let* _ := call (API.construct run getenv thread_index) in cret 0);;;
            let* g := py gil in
            set_py (set_lock g false);;;
            creturn 0)
        (fun e => match e with
                  | invalid_input_exception _ =>
                      Some (err_set invalid_input_name (inl []);;; creturn (-1))
                  | _ => None
                  end)
  end.
End methods.
