(* ===== verification/PythonLock.v ===== *)
(** * The Python C extension and the lock of the interpreter

    What holds of the methods and of the callback functions of [Python]: the
    lock is given up and taken back in pairs, whatever happens in between, the
    references to the objects are counted, and the result of a callback
    function is used after it was given up. *)

From S2P Require Import Prelude CMonad Status Sys ReallocPtr Framing Lookup Ei Instance Requests Poll Calls Messages Callback Invariant Api Objects Python.

(** ** Where an execution ends

    [ends T ρ P Q c]: from [P], [c] completes in [Q], returns in [ρ] and
    throws in [T]; where it is stuck for ever, or undefined for another reason,
    the lock was not misused until then. *)

Definition sound (w : pyworld) : Prop := misused (w_user w) = false.

Section ends.
Abbreviation S := pyworld.
Context {R : Type} (T : S -> Prop) (ρ : R -> S -> Prop).

Definition ends {A} (P : S -> Prop) (Q : A -> S -> Prop) (c : C S R A) : Prop :=
  forall s, P s ->
    match c s with
    | (Next a, s') => Q a s'
    | (Return r, s') => ρ r s'
    | (Throw _, s') => T s'
    | (NoFuel, _) => False
    | (Undef, s') | (Blocked, s') => sound s'
    end.

Lemma ends_bind {A B} P (Q : A -> S -> Prop) (Q' : B -> S -> Prop) c k :
  ends P Q c -> (forall a, ends (Q a) Q' (k a)) -> ends P Q' (cbind c k).
Proof.
  intros H Hk s Hs. specialize (H s Hs). unfold cbind.
  destruct (c s) as [[a|r|e| | |] s']; try done. by apply Hk.
Qed.
Lemma ends_ret {A} (P : S -> Prop) (Q : A -> S -> Prop) a :
  (forall s, P s -> Q a s) -> ends P Q (cret a).
Proof. intros H s Hs. by apply H. Qed.
Lemma ends_creturn {A} (P : S -> Prop) (Q : A -> S -> Prop) r :
  (forall s, P s -> ρ r s) -> ends P Q (creturn r).
Proof. intros H s Hs. by apply H. Qed.
Lemma ends_throw {A} (P : S -> Prop) (Q : A -> S -> Prop) e :
  (forall s, P s -> T s) -> ends P Q (cthrow e).
Proof. intros H s Hs. by apply (H s). Qed.
Lemma ends_undef {A} (P : S -> Prop) (Q : A -> S -> Prop) :
  (forall s, P s -> sound s) -> ends P Q cundef.
Proof. intros H s Hs. by apply H. Qed.
Lemma ends_reads {A} (P : S -> Prop) (f : S -> A) : ends P (fun _ => P) (creads f).
Proof. by intros s Hs. Qed.
Lemma ends_opt {A} (P : S -> Prop) (o : option A) :
  (forall s, P s -> sound s) -> ends P (fun _ => P) (copt o).
Proof. intros H s Hs. destruct o; [done|by apply H]. Qed.
Lemma ends_modify (P P' : S -> Prop) f :
  (forall s, P s -> P' (f s)) -> ends P (fun _ => P') (cmodify f).
Proof. intros H s Hs. by apply H. Qed.
Lemma ends_creturn_if (P : S -> Prop) b r :
  (forall s, P s -> ρ r s) -> ends P (fun _ => P) (creturn_if b r).
Proof. intros. destruct b; [by apply ends_creturn|by apply ends_ret]. Qed.
End ends.

Lemma ends_call {R R'} (T : pyworld -> Prop) (ρ : R -> pyworld -> Prop) P
    (Q : R' -> pyworld -> Prop) c :
  ends T Q P Q c -> ends T ρ P Q (call c).
Proof.
  intros H s Hs. specialize (H s Hs). unfold call. by destruct (c s) as [[] s'].
Qed.

Lemma ends_of_yields {R A} (I : pyworld -> Prop) (ρ : R -> pyworld -> Prop) (c : C pyworld R A) :
  yields I any any c -> (forall r s, I s -> ρ r s) -> (forall s, I s -> sound s) ->
  ends I ρ I (fun _ => I) c.
Proof.
  intros H Hρ HI s Hs. destruct (H s Hs) as [H1 H2]. destruct (c s) as [[] s']; cbn in *; auto.
Qed.

(** ** The lock *)

Definition has_lock (u : interp) : Prop :=
  gil u = true /\ thread_state u = false /\ misused u = false.
Definition lacks_lock (u : interp) : Prop :=
  gil u = false /\ thread_state u = true /\ misused u = false.

(** In the interpreter, and in the C++ API. *)
Definition inside n : pyworld -> Prop := inv lookup_wf has_lock n None.
Definition outside n : pyworld -> Prop := inv lookup_wf lacks_lock n None.

Lemma inside_sound n s : inside n s -> sound s.
Proof. by intros ([_ _ _ _ (_ & _ & H)] & _). Qed.
Lemma outside_sound n s : outside n s -> sound s.
Proof. by intros ([_ _ _ _ (_ & _ & H)] & _). Qed.

Section lock.
Context {R : Type} (T : pyworld -> Prop) (ρ : R -> pyworld -> Prop) (n : nat).
Abbreviation ends := (ends T ρ).

Lemma inv_upd_user (J J' : interp -> Prop) m f (w : pyworld) :
  (J (w_user w) -> J' (f (w_user w))) ->
  inv lookup_wf J n m w -> inv lookup_wf J' n m (upd_user f w).
Proof. intros H ([] & Hr). split; [|done]. constructor; cbn; auto. Qed.

Lemma set_py_keeps (J : interp -> Prop) f :
  (forall u, J u -> J (f u)) ->
  ends (inv lookup_wf J n None) (fun _ => inv lookup_wf J n None) (set_py f).
Proof. intros H. apply ends_modify. intros w. apply inv_upd_user, H. Qed.

Lemma save_thread_ends : ends (inside n) (fun _ => outside n) save_thread.
Proof.
  intros w Hw. pose proof Hw as ([_ _ _ _ (Hg & _ & Hm)] & _).
  unfold save_thread, py. erewrite bind_next by reflexivity. rewrite Hg.
  apply (inv_upd_user has_lock); [by split|exact Hw].
Qed.

Lemma restore_thread_ends : ends (outside n) (fun _ => inside n) restore_thread.
Proof.
  intros w Hw. pose proof Hw as ([_ _ _ _ (Hg & Ht & Hm)] & _).
  unfold restore_thread, py. erewrite bind_next by reflexivity. cbv beta.
  erewrite bind_next by reflexivity. rewrite Hg, Ht.
  apply (inv_upd_user lacks_lock); [by split|exact Hw].
Qed.

(** The lock is not changed by the other functions of the interpreter. *)
Context (J : interp -> Prop) (HJ : J = has_lock \/ J = lacks_lock).
Abbreviation here := (inv lookup_wf J n None).
Abbreviation keeps := (ends here (fun _ => here)).

Lemma here_sound s : here s -> sound s.
Proof. destruct HJ as [-> | ->]; [apply inside_sound|apply outside_sound]. Qed.

Lemma same_lock f :
  (forall u, gil (f u) = gil u /\ thread_state (f u) = thread_state u /\ misused (f u) = misused u) ->
  forall u, J u -> J (f u).
Proof.
  intros Hf u. destruct (Hf u) as (H1 & H2 & H3).
  destruct HJ as [H|H]; rewrite H; unfold has_lock, lacks_lock; by rewrite H1, H2, H3.
Qed.

Lemma incref_keeps o : keeps (incref o).
Proof.
  unfold incref. eapply ends_bind; [apply set_py_keeps, same_lock; intros; split_and!; reflexivity|]. intros ?.
  eapply ends_bind; [apply ends_reads|]. intros os. eapply ends_bind; [apply ends_opt, here_sound|].
  intros os'. apply set_py_keeps, same_lock; intros; split_and!; reflexivity.
Qed.
Lemma decref_keeps o : keeps (decref o).
Proof.
  unfold decref. eapply ends_bind; [apply set_py_keeps, same_lock; intros; split_and!; reflexivity|]. intros ?.
  eapply ends_bind; [apply ends_reads|]. intros os. eapply ends_bind; [apply ends_opt, here_sound|].
  intros os'. apply set_py_keeps, same_lock; intros; split_and!; reflexivity.
Qed.
Lemma err_set_keeps name text : keeps (err_set name text).
Proof. apply set_py_keeps, same_lock; intros; split_and!; reflexivity. Qed.
Lemma err_clear_keeps : keeps err_clear.
Proof. apply set_py_keeps, same_lock; intros; split_and!; reflexivity. Qed.
Lemma err_print_keeps : keeps err_print.
Proof.
  unfold err_print. eapply ends_bind; [apply ends_reads|]. intros e.
  eapply ends_bind; [|intros; apply set_py_keeps, same_lock; intros; split_and!; reflexivity].
  apply set_py_keeps, same_lock; intros; split_and!; reflexivity.
Qed.
Lemma call_cstr_keeps p : keeps (call_cstr p).
Proof. unfold call_cstr, field. eapply ends_bind; [apply ends_reads|]. intros. apply ends_opt, here_sound. Qed.
Lemma call_bytes_keeps p k : keeps (call_bytes p k).
Proof. unfold call_bytes, field. eapply ends_bind; [apply ends_reads|]. intros. apply ends_opt, here_sound. Qed.
Lemma python_error_keeps value : keeps (python_error value).
Proof.
  unfold python_error. destruct (_ =? _); [apply err_set_keeps|].
  destruct (list_find _ _) as [[? [? ?]]|]; apply err_set_keeps.
Qed.
End lock.

Create HintDb ends.
#[local] Hint Resolve incref_keeps decref_keeps err_set_keeps err_clear_keeps err_print_keeps
  call_cstr_keeps call_bytes_keeps python_error_keeps ends_reads ends_opt ends_undef
  inside_sound outside_sound : ends.

(** What is left of a call operator that is stuck. *)
Lemma yields_or_before {A} n (c : C pyworld unit A) :
  ends (outside n) (fun _ => outside n) (outside n) (fun _ => outside n) c ->
  yields (outside n) any any (or_before c).
Proof.
  intros H s Hs. specialize (H s Hs). unfold or_before.
  assert (forall s', sound s' -> outside n (with_misused s' s)) as Hstuck.
  { intros s' Hm. apply (inv_upd_user n lacks_lock); [|exact Hs].
    intros (? & ? & ?). by split_and!. }
  destruct (c s) as [[] s']; cbn; split; try done; by apply Hstuck.
Qed.

(** A statement that keeps what holds, and then the rest. *)
Ltac keep := cbv beta; eapply ends_bind; [solve [eauto with ends]|]; intros.

Section callbacks.
Context {E : Ei}.
Context (utf8 : bytes -> bool).
Context (call_object : nat -> pyrequest -> C pyworld unit (option nat)).

(** Python functions are called with the lock and come back with it, and do not
    misuse it, as every function does that uses the methods below. *)
Definition functions_ok : Prop :=
  forall n f args, ends sound (fun _ _ => False) (inside n) (fun _ => inside n)
    (call_object f args).

Context (Hcall : functions_ok).

Section one.
Context {R : Type} (T : pyworld -> Prop) (n : nat).
Abbreviation ρ := (fun _ : unit => outside n).
Abbreviation keeps := (ends T ρ (inside n) (fun _ => inside n)).

Lemma build_request_keeps rq : keeps (build_request utf8 rq).
Proof.
  unfold build_request. do 6 keep. destruct (_ && _); [by apply ends_ret|].
  eapply ends_bind; [apply err_set_keeps; by left|]. intros. by apply ends_ret.
Qed.

Lemma call_function_keeps f args : keeps (call_function call_object f args).
Proof.
  intros w Hw. pose proof (Hcall n f args w Hw) as H. unfold call_function, ctry.
  by destruct (call_object f args w) as [[] w'].
Qed.

Lemma item_chars_keeps o : keeps (item_chars o).
Proof.
  unfold item_chars. keep. keep. destruct a0 as [k v].
  assert (forall name, keeps (err_set name (inl []);;; cret (None : option chars_of))) as He.
  { intros name. eapply ends_bind; [apply err_set_keeps; by left|]. intros. by apply ends_ret. }
  destruct v; try apply He. destruct (_ <=? _); [by apply ends_ret|apply He].
Qed.

Lemma printed_keeps {A} : keeps (err_print;;; cret (None : option A)).
Proof. eapply ends_bind; [apply err_print_keeps; by left|]. intros. by apply ends_ret. Qed.

Lemma parse_result_keeps o : keeps (parse_result o).
Proof.
  unfold parse_result. keep. keep. destruct a0 as [k v].
  destruct v as [b|[b|]|[|i [|r [|]]]|]; try by apply ends_ret.
  - eapply ends_bind; [apply err_set_keeps; by left|]. intros. apply printed_keeps.
  - eapply ends_bind; [apply item_chars_keeps|]. intros [info|]; [|apply printed_keeps].
    eapply ends_bind; [apply item_chars_keeps|]. intros [resp|]; [|apply printed_keeps].
    by apply ends_ret.
Qed.
End one.

(** [cloudi_return_async] etc. in the API. *)
Lemma return_keeps n (t : bool) name pattern info resp timeout trans_id pid :
  yields (outside n) any any
    ((if t then API.return_async else API.return_sync) name pattern info resp timeout
       trans_id pid).
Proof.
  destruct t; (eapply yields_bind; [apply yields_call, keeps_cloudi_return_|];
    intros; apply keeps_throw_on_success).
Qed.

Lemma read_chars_keeps n p :
  ends (outside n) (fun _ : unit => outside n) (outside n) (fun _ => outside n) (read_chars p).
Proof.
  destruct p as [[o|] size]; [|by apply ends_ret]. unfold read_chars. keep. keep.
  destruct a0 as [k v]. destruct v as [b|[b|]| |]; by apply ends_ret || apply ends_undef, outside_sound.
Qed.

Lemma send_answer_keeps n rq info resp :
  ends (outside n) (fun _ => outside n) (outside n) (fun _ => outside n)
    (send_answer rq info resp).
Proof.
  unfold send_answer, answer_bytes. destruct (_ || _); [|by apply ends_ret].
  do 2 (eapply ends_bind; [apply read_chars_keeps|]; intros). do 4 keep.
  apply (ends_bind _ _ _ (fun _ => outside n)); [|intros; by apply ends_ret].
  apply ends_call, ends_of_yields; [apply return_keeps|done|apply outside_sound].
Qed.

(** The call operator takes the lock and gives it up again, however the Python
    function and the API end. *)
Lemma callback_operator_keeps n f o rq :
  yields (outside n) any any (callback_operator utf8 call_object f o rq).
Proof.
  apply yields_or_before. eapply ends_bind; [apply restore_thread_ends|]. intros ?.
  eapply ends_bind; [apply build_request_keeps|]. intros [args|].
  2:{ keep. apply save_thread_ends. }
  eapply ends_bind; [apply call_function_keeps|]. intros [result|].
  - eapply ends_bind; [apply parse_result_keeps|]. intros response. keep.
    eapply ends_bind; [apply save_thread_ends|]. intros ?.
    destruct response as [[info resp]|]; [apply send_answer_keeps|by apply ends_ret].
  - eapply ends_bind; [apply ends_reads|]. intros [e|]; [|apply save_thread_ends].
    destruct (raised rq e) as [x|]; keep; [|apply save_thread_ends].
    eapply ends_bind; [apply save_thread_ends|]. intros ?. by apply ends_throw.
Qed.

Lemma run_python_keeps n f rq :
  yields (outside n) any any (run_python utf8 call_object f rq).
Proof.
  unfold run_python, run. destruct (cb_class f); try apply callback_operator_keeps;
    (do 2 (apply yields_bind with any; [unfold call_cstr; apply yields_bind with any;
       [by apply keeps_field|intros; apply yields_opt_any]|intros]); apply yields_undef).
Qed.
End callbacks.

(** The methods of the type, as [python_cloudi_instance_object_methods] lists
    them. *)
Inductive py_method `{E : Ei} (utf8 : bytes -> bool)
    (call_object : nat -> pyrequest -> C pyworld unit (option nat)) (callable : nat -> bool) :
    C pyworld pyresult pyresult -> Prop :=
| m_subscribe args : py_method utf8 call_object callable (python_cloudi_subscribe callable args)
| m_subscribe_count args :
    py_method utf8 call_object callable (python_cloudi_subscribe_count utf8 call_object args)
| m_unsubscribe args : py_method utf8 call_object callable (python_cloudi_unsubscribe args)
| m_send_async args :
    py_method utf8 call_object callable (python_cloudi_send_async utf8 call_object args)
| m_send_sync args :
    py_method utf8 call_object callable (python_cloudi_send_sync utf8 call_object args)
| m_mcast_async args :
    py_method utf8 call_object callable (python_cloudi_mcast_async utf8 call_object args)
| m_forward_async args : py_method utf8 call_object callable (python_cloudi_forward_async args)
| m_forward_sync args : py_method utf8 call_object callable (python_cloudi_forward_sync args)
| m_return_async args : py_method utf8 call_object callable (python_cloudi_return_async args)
| m_return_sync args : py_method utf8 call_object callable (python_cloudi_return_sync args)
| m_recv_async args :
    py_method utf8 call_object callable (python_cloudi_recv_async utf8 call_object args)
| m_process_index : py_method utf8 call_object callable python_cloudi_process_index
| m_process_count : py_method utf8 call_object callable python_cloudi_process_count
| m_process_count_max : py_method utf8 call_object callable python_cloudi_process_count_max
| m_process_count_min : py_method utf8 call_object callable python_cloudi_process_count_min
| m_prefix : py_method utf8 call_object callable (python_cloudi_prefix utf8)
| m_timeout_initialize : py_method utf8 call_object callable python_cloudi_timeout_initialize
| m_timeout_async : py_method utf8 call_object callable python_cloudi_timeout_async
| m_timeout_sync : py_method utf8 call_object callable python_cloudi_timeout_sync
| m_timeout_terminate : py_method utf8 call_object callable python_cloudi_timeout_terminate
| m_poll args : py_method utf8 call_object callable (python_cloudi_poll utf8 call_object args)
| m_shutdown args : py_method utf8 call_object callable (python_cloudi_shutdown args).

Section methods_keep.
Context {E : Ei}.
Context (utf8 : bytes -> bool).
Context (call_object : nat -> pyrequest -> C pyworld unit (option nat)).
Context (callable : nat -> bool).
Context (Hcall : functions_ok call_object).
Context (n : nat) (Hn : Z.of_nat n < 2 ^ 31).
Abbreviation run := (run_python utf8 call_object).
Abbreviation T := (outside n).
Abbreviation ρ := (fun _ : pyresult => inside n).
Abbreviation keeps := (ends T ρ (inside n) (fun _ => inside n)).
Abbreviation keeps_out := (ends T ρ (outside n) (fun _ => outside n)).

Lemma threads_keeps {A} (c : C pyworld pyresult A) : keeps_out c -> keeps (threads c).
Proof.
  intros H. unfold threads. eapply ends_bind; [apply save_thread_ends|]. intros ?.
  eapply ends_bind; [apply H|]. intros ?.
  eapply ends_bind; [apply restore_thread_ends|]. intros ?. by apply ends_ret.
Qed.

Lemma call_keeps {A} (c : C pyworld A A) : yields (outside n) any any c -> keeps_out (call c).
Proof. intros H. apply ends_call, ends_of_yields; [done|done|apply outside_sound]. Qed.

Lemma api_call_keeps (c : C pyworld Z Z) : api_call run c -> keeps_out (call c).
Proof.
  intros H. apply call_keeps, (keeps_api_call lookup_wf lacks_lock run n c); try done.
  - apply lookup_wf_find.
  - intros n' f rq. by apply run_python_keeps.
Qed.

Lemma catching_keeps e (c : C pyworld pyresult Z) : keeps_out c -> keeps_out (catching e c).
Proof.
  intros H w Hw. specialize (H w Hw). unfold catching, ctry.
  destruct (c w) as [[a|r|x| | |] w']; try done. by case_decide.
Qed.

Lemma check_result_keeps result : keeps (check_result result).
Proof.
  unfold check_result. destruct (negb _); [|by apply ends_ret].
  eapply ends_bind; [apply python_error_keeps; by left|]. intros. by apply ends_creturn.
Qed.

Lemma check_timeout_keeps result : keeps (check_timeout result).
Proof.
  unfold check_timeout. eapply ends_bind; [by apply ends_creturn_if|]. intros.
  apply check_result_keeps.
Qed.

Lemma py_assert_keeps b : keeps (py_assert b).
Proof.
  unfold py_assert. destruct b; [by apply ends_ret|].
  eapply ends_bind; [apply err_set_keeps; by left|]. intros. by apply ends_creturn.
Qed.

Lemma parsed_keeps {A} (args : option A) : keeps (parsed args).
Proof. destruct args; [by apply ends_ret|by apply ends_creturn]. Qed.

Lemma api_field_keeps {A} (f : cloudi_instance_t (callback_object nat) -> A) :
  keeps (API.field f).
Proof. apply ends_reads. Qed.

Lemma get_trans_id_keeps i : keeps (call (API.get_trans_id i)).
Proof.
  apply ends_call. unfold API.get_trans_id, API.field.
  eapply ends_bind; [apply ends_reads|]. intros ?.
  eapply ends_bind; [by apply ends_creturn_if|]. intros ?.
  eapply ends_bind; [apply ends_reads|]. intros ?.
  eapply ends_bind; [apply ends_opt, inside_sound|]. intros ?. by apply ends_creturn.
Qed.

Lemma build_bytes_keeps p size : keeps (build_bytes p size).
Proof.
  destruct p; [|by apply ends_ret]. unfold build_bytes, field.
  eapply ends_bind; [apply ends_reads|]. intros ?.
  eapply ends_bind; [apply ends_opt, inside_sound|]. intros ?. by apply ends_ret.
Qed.
#[local] Hint Resolve check_result_keeps check_timeout_keeps py_assert_keeps parsed_keeps
  get_trans_id_keeps build_bytes_keeps : ends.

(** The statements of a method, one after the other. *)
Ltac step :=
  cbv beta; first
    [ by apply ends_creturn | apply ends_undef, inside_sound
    | eapply ends_bind; [solve [eauto with ends | apply api_field_keeps]|];
      intros; repeat match goal with x : (_ * _)%type |- _ => destruct x end ].
Ltac call_api :=
  eapply ends_bind; [apply threads_keeps, api_call_keeps; constructor|]; intros.

Lemma build_response_keeps : ends T ρ (inside n) (fun _ _ => False) build_response.
Proof. unfold build_response. repeat step. Qed.

Lemma build_uint_keeps (c : C pyworld pyresult Z) : keeps c -> keeps (build_uint c).
Proof. intros H. unfold build_uint. eapply ends_bind; [exact H|]. intros. by apply ends_creturn. Qed.

Lemma subscribe_keeps args :
  ends T ρ (inside n) (fun _ _ => False) (python_cloudi_subscribe callable args).
Proof.
  unfold python_cloudi_subscribe. step. destruct (negb _).
  - eapply ends_bind; [apply err_set_keeps; by left|]. intros. by apply ends_creturn.
  - eapply ends_bind; [apply threads_keeps|intros; repeat step].
    eapply ends_bind; [apply incref_keeps; by right|]. intros ?.
    apply call_keeps, keeps_cloudi_subscribe_. intros. by apply lookup_insert_refines.
Qed.

Lemma unsubscribe_keeps args :
  ends T ρ (inside n) (fun _ _ => False) (python_cloudi_unsubscribe args).
Proof.
  unfold python_cloudi_unsubscribe. step.
  eapply ends_bind; [apply threads_keeps|intros; repeat step].
  eapply ends_bind; [apply ends_reads|]. intros f.
  apply (ends_bind _ _ _ (fun _ => outside n)).
  - destruct f; [apply decref_keeps; by right|by apply ends_ret].
  - intros ?. apply call_keeps, keeps_cloudi_unsubscribe. intros k l w Hl.
    destruct (lookup_remove_refines (R := Z) k l w Hl) as (l' & He & Hl' & _). eauto.
Qed.

Lemma recv_async_keeps args :
  ends T ρ (inside n) (fun _ _ => False) (python_cloudi_recv_async utf8 call_object args).
Proof.
  unfold python_cloudi_recv_async. step. step. cbv zeta. step.
  eapply ends_bind; [apply threads_keeps, call_keeps|intros; step; apply build_response_keeps].
  - unfold API.recv_async, API.field. apply yields_bind with any; [by apply keeps_field|].
    intros. apply yields_bind with any; [|intros; by apply yields_return].
    apply yields_call, (keeps_api_call lookup_wf lacks_lock run n); try done.
    + apply lookup_wf_find.
    + intros n' f rq. by apply run_python_keeps.
    + constructor.
Qed.

(** A method that calls the API once, between statements that keep what
    holds. *)
Ltac method :=
  repeat first
    [ apply build_response_keeps
    | eapply ends_bind;
        [apply threads_keeps; first [ apply api_call_keeps; constructor
           | apply catching_keeps, api_call_keeps; constructor ]|]; intros
    | eapply ends_bind; [by apply ends_creturn_if|]; intros
    | step ].

Lemma prefix_keeps : ends T ρ (inside n) (fun _ _ => False) (python_cloudi_prefix utf8).
Proof.
  unfold python_cloudi_prefix. step. destruct a; [|by apply ends_creturn]. step.
  destruct (utf8 _); [by apply ends_creturn|].
  eapply ends_bind; [apply err_set_keeps; by left|]. intros. by apply ends_creturn.
Qed.

Lemma method_ends m :
  py_method utf8 call_object callable m -> ends T ρ (inside n) (fun _ _ => False) m.
Proof.
  intros [].
  all: try first
    [ apply subscribe_keeps | apply unsubscribe_keeps | apply recv_async_keeps
    | apply prefix_keeps
    | apply (ends_bind _ _ _ (fun _ => inside n)); [apply api_field_keeps|];
      intros; by apply ends_creturn ].
  - unfold python_cloudi_subscribe_count. method.
  - unfold python_cloudi_send_async. method.
  - unfold python_cloudi_send_sync. method.
  - unfold python_cloudi_mcast_async. method.
  - unfold python_cloudi_forward_async. method.
  - unfold python_cloudi_forward_sync. method.
  - unfold python_cloudi_return_async. method.
  - unfold python_cloudi_return_sync. method.
  - unfold python_cloudi_poll. method.
  - unfold python_cloudi_shutdown. method.
Qed.
End methods_keep.

(** ** Properties *)

Section properties.
Context {E : Ei}.
Context (utf8 : bytes -> bool).
Context (call_object : nat -> pyrequest -> C pyworld unit (option nat)).
Context (callable : nat -> bool).

Lemma inside_intro (w : pyworld) :
  inst_wf (w_inst w) -> has_lock (w_user w) -> inside (budget (w_sys w)) w.
Proof. intros [] Hl. split; [by constructor|done]. Qed.

(** C16. The lock of the interpreter.  A method that is called with the lock
    ends, and when it returns it has the lock and its instance is in order,
    whatever callback functions it ran, messages it received and system calls
    failed meanwhile; a C++ exception it does not catch leaves it without the
    lock.  It never takes the lock while it has it or from a null thread state,
    and never gives it up without having it: neither the method nor the callback
    functions it runs have misused the lock, also where it waits for ever or
    what it does is undefined for another reason (a malformed message, or an
    object that was freed). *)
Theorem method_keeps_lock m w (Hcall : functions_ok call_object)
    (Hm : py_method utf8 call_object callable m)
    (Hwf : inst_wf (w_inst w)) (Hn : Z.of_nat (budget (w_sys w)) < 2 ^ 31)
    (Hl : has_lock (w_user w)) :
  match m w with
  | (Return _, w') => inst_wf (w_inst w') /\ has_lock (w_user w')
  | (Throw _, w') => lacks_lock (w_user w')
  | (Next _, _) | (NoFuel, _) => False
  | (Undef, w') | (Blocked, w') => misused (w_user w') = false
  end.
Proof.
  pose proof (method_ends utf8 call_object callable Hcall _ Hn m Hm w
    (inside_intro w Hwf Hl)) as H.
  destruct (m w) as [[a|r|e| | |] w']; try done.
  - destruct H as ([] & _). split; [by constructor|done].
  - by destruct H as ([] & _).
Qed.

Lemma count_down_text fuel r k v o b :
  o !! r = Some (k, v) -> v = PyBytes b \/ v = PyUnicode (Some b) ->
  count_down (S fuel) r o = Some (if k =? 1 then delete r o else <[r := (k - 1, v)]> o).
Proof.
  intros Hr Hv. cbn [count_down]. rewrite Hr. cbn. destruct (k =? 1); [|done].
  by destruct Hv; subst.
Qed.

Lemma parse_text r k v b w :
  pyobjects (w_user w) !! r = Some (k, v) -> v = PyBytes b \/ v = PyUnicode (Some b) ->
  parse_result r w = (Next (Some ((None, 0), (Some r, wrap32 (Z.of_nat (length b))))), w).
Proof.
  intros Hr Hv. unfold parse_result, py. crun. rewrite Hr. cbn [copt]. crun.
  by destruct Hv; subst.
Qed.

Lemma read_text r k v b w :
  pyobjects (w_user w) !! r = Some (k, v) -> v = PyBytes b \/ v = PyUnicode (Some b) ->
  read_chars (Some r, Z.of_nat (length b)) w = (Next b, w).
Proof.
  intros Hr Hv. unfold read_chars, py. crun. rewrite Hr. cbn [copt]. crun.
  destruct Hv; subst; by rewrite take_ge by lia.
Qed.

Lemma read_freed r size w :
  pyobjects (w_user w) !! r = None -> read_chars (Some r, size) w = (Undef, w).
Proof. intros Hr. unfold read_chars, py. crun. by rewrite Hr. Qed.

(** Where [save_thread] leaves the interpreter, after the reference to the
    result was given up. *)
Definition released (r : nat) (k : Z) (v : pyvalue) (u : interp) : interp :=
  set_lock false true (set_objects
    (if k =? 1 then delete r (pyobjects u) else <[r := (k - 1, v)]> (pyobjects u)) u).

(** C17. The result of a Python callback function, a bytes object or a string.
    Its characters are sent as the response only when someone else has a
    reference to the object.  When the function gave its only reference, as
    it does when it makes the object, the object is freed before its characters
    are read. *)
Theorem callback_result f o rq w args w2 r k v b
    (Hl : lacks_lock (w_user w)) (w1 := upd_user (set_lock true false) w)
    (Hargs : build_request utf8 rq w1 = (Next (Some args), w1))
    (Hcall : call_object f args w1 = (Next (Some r), w2))
    (Hl2 : has_lock (w_user w2))
    (Hr : pyobjects (w_user w2) !! r = Some (k, v))
    (Hv : v = PyBytes b \/ v = PyUnicode (Some b)) (Hb : Z.of_nat (length b) < 2 ^ 32)
    (Ht : rq_type rq = CLOUDI_ASYNC \/ rq_type rq = CLOUDI_SYNC) :
  callback_operator utf8 call_object f o rq w =
    if k =? 1 then (Undef, w)
    else or_before (fun _ => answer_bytes rq [] b (upd_user (released r k v) w2)) w.
Proof.
  unfold callback_operator, or_before. destruct Hl as (Hg & Hs & Hm).
  assert (restore_thread (R := unit) w = (Next tt, w1)) as Hrestore.
  { unfold restore_thread, py. crun. by rewrite Hg, Hs. }
  rewrite (bind_next _ _ _ _ _ Hrestore). cbv beta.
  rewrite (bind_next _ _ _ _ _ Hargs). cbv beta iota.
  assert (call_function call_object f args w1 = (Next (Some r), w2)) as Hf.
  { unfold call_function, ctry. by rewrite Hcall. }
  rewrite (bind_next _ _ _ _ _ Hf). cbv beta iota.
  rewrite (bind_next _ _ _ _ _ (parse_text r k v b w2 Hr Hv)). cbv beta.
  destruct Hl2 as (Hg2 & Hs2 & Hm2).
  assert (decref (R := unit) r w2 = (Next tt, upd_user (set_objects
    (if k =? 1 then delete r (pyobjects (w_user w2))
     else <[r := (k - 1, v)]> (pyobjects (w_user w2)))) w2)) as Hd.
  { assert (upd_user (add_unlocked r) w2 = w2) as Hu.
    { destruct w2 as [i s []]. unfold upd_user, add_unlocked. cbn in *. by subst. }
    unfold decref, set_py, py. erewrite bind_next by reflexivity. rewrite Hu. crun.
    rewrite (count_down_text _ r k v _ b Hr Hv). done. }
  rewrite (bind_next _ _ _ _ _ Hd). cbv beta.
  assert (forall w', gil (w_user w') = true ->
    save_thread (R := unit) w' = (Next tt, upd_user (set_lock false true) w')) as Hsave.
  { intros w' Hw'. unfold save_thread, py. crun. by rewrite Hw'. }
  rewrite (bind_next _ _ _ _ _ (Hsave (upd_user (set_objects _) w2) Hg2)). cbv beta iota.
  assert ((rq_type rq =? CLOUDI_ASYNC) || (rq_type rq =? CLOUDI_SYNC) = true) as Htype
    by (destruct Ht as [-> | ->]; done).
  unfold send_answer. rewrite Htype. erewrite bind_next by reflexivity. cbv beta.
  rewrite wrap32_small by lia. unfold released. destruct (Z.eqb_spec k 1) as [->|Hk].
  - erewrite bind_undef by (apply read_freed, lookup_delete_eq).
    unfold with_misused. cbn. rewrite Hm2, <- Hm. by destruct w as [i s []].
  - by erewrite bind_next by (eapply read_text; [apply lookup_insert_eq|exact Hv]).
Qed.

Lemma python_error_sets value (w : pyworld) :
  exists e, python_error (R := pyresult) value w = (Next tt, upd_user (set_err e) w).
Proof.
  unfold python_error. destruct (value =? cloudi_terminate); [by eexists|].
  destruct (list_find _ error_texts) as [[i [s t]]|]; by eexists.
Qed.

(** The end of a method that gives the lock back, and checks the status. *)
Lemma method_tail r (w : pyworld) :
  gil (w_user w) = false -> thread_state (w_user w) = true ->
  exists v e, (cbind (restore_thread;;; cret r) (fun result : Z =>
               check_result result;;; creturn py_none : C pyworld pyresult pyresult)) w =
    (Return v, upd_user (set_err e) (upd_user (set_lock true false) w)).
Proof.
  intros Hg Ht.
  assert (restore_thread (R := pyresult) w = (Next tt, upd_user (set_lock true false) w)) as Hr
    by (unfold restore_thread, py; crun; by rewrite Hg, Ht).
  rewrite bind_assoc, (bind_next _ _ _ _ _ Hr). cbv beta.
  erewrite bind_next by reflexivity. unfold check_result.
  destruct (negb (r =? 0)).
  - destruct (python_error_sets r (upd_user (set_lock true false) w)) as [e He].
    rewrite bind_assoc, (bind_next _ _ _ _ _ He). by exists py_null, e.
  - exists py_none, (err (w_user w)). by destruct w as [i s []].
Qed.

(** A subscription from Python keeps one reference to the function, which
    [unsubscribe] gives up; it counts it after it has given up the lock of the
    interpreter, where other threads may count the same object. *)
Theorem subscribe_counts pattern f w k v (Hf : callable f = true)
    (Hwf : inst_wf (w_inst w)) (Hl : has_lock (w_user w))
    (Ho : pyobjects (w_user w) !! f = Some (k, v)) :
  match python_cloudi_subscribe callable (Some (pattern, f)) w with
  | (Return _, w') =>
      pyobjects (w_user w') = <[f := (k + 1, v)]> (pyobjects (w_user w)) /\
      unlocked (w_user w') = unlocked (w_user w) ++ [f] /\ has_lock (w_user w')
  | (Next _, _) | (NoFuel, _) => False
  | _ => True
  end.
Proof.
  destruct Hl as (Hg & Ht & Hm). set (u1 := mk_interp false true (err (w_user w))
    (<[f := (k + 1, v)]> (pyobjects (w_user w))) (printed (w_user w))
    (unlocked (w_user w) ++ [f]) (misused (w_user w))).
  set (w1 := mk_world (w_inst w) (w_sys w) u1).
  assert (inv lookup_wf (fun u => u = u1) (budget (w_sys w)) None w1) as Hw1.
  { destruct Hwf. split; [by constructor|done]. }
  assert (yields (inv lookup_wf (fun u => u = u1) (budget (w_sys w)) None) any any
    (API.subscribe pattern (mk_callback op2 0 f))) as Hy.
  { apply keeps_cloudi_subscribe_. intros. by apply lookup_insert_refines. }
  destruct (Hy w1 Hw1) as [([_ _ _ _ Hu] & _) H2].
  unfold python_cloudi_subscribe. erewrite bind_next by reflexivity. cbv beta iota.
  rewrite Hf. cbn [negb]. unfold threads. rewrite bind_assoc.
  assert (save_thread (R := pyresult) w = (Next tt, upd_user (set_lock false true) w)) as Hs
    by (unfold save_thread, py; crun; by rewrite Hg).
  rewrite (bind_next _ _ _ _ _ Hs). cbv beta. rewrite !bind_assoc.
  assert (incref (R := pyresult) f (upd_user (set_lock false true) w) = (Next tt, w1)) as Hi.
  { unfold incref, set_py, py. crun. unfold count_up. cbn. by rewrite Ho. }
  rewrite (bind_next _ _ _ _ _ Hi). cbv beta. unfold cbind at 1, call.
  destruct (API.subscribe pattern (mk_callback op2 0 f) w1) as [[r|r|e| | |] w2]; try done;
    cbn [fst snd] in *; subst u1.
  all: assert (gil (w_user w2) = false /\ thread_state (w_user w2) = true) as [Hg2 Ht2]
    by (by rewrite Hu).
  all: destruct (method_tail r w2 Hg2 Ht2) as (v2 & e2 & ->).
  all: cbn; by rewrite Hu.
Qed.
End properties.

(** ** Examples *)

(** A request in the buffer of a small instance; the thread with the lock of
    the interpreter, or outside it. *)
Definition example_python (inside : bool) : pyworld :=
  mk_world (set_buffer_call example_call_buffer (example_instance (callback_object nat) 1))
    (example_sys [])
    (mk_interp inside (negb inside) None {[7%nat := (1, PyOther)]} [] [] false).

(** A function that returns a bytes object with [k] references. *)
Definition example_returning (k : Z) (_ : nat) (_ : pyrequest) :
    C pyworld unit (option nat) :=
  let* o := py pyobjects in
  set_py (set_objects (<[5%nat := (k, PyBytes (chars "ok"))]> o));;;
  cret (Some 5%nat).

Lemma example_functions_ok k : functions_ok (example_returning k).
Proof.
  intros n f args. unfold example_returning. eapply ends_bind; [apply ends_reads|]. intros o.
  eapply ends_bind; [apply set_py_keeps; by intros u []|]. intros. by apply ends_ret.
Qed.

Lemma example_python_wf b : inst_wf (w_inst (example_python b)).
Proof.
  destruct (example_wf (callback_object nat) 1).
  assert (wf example_call_buffer) as H by (vm_compute; done).
  by constructor.
Qed.

Lemma method_keeps_lock_witness :
  match python_cloudi_send_async (fun _ => true) (example_returning 2)
          (Some (mk_send_args (chars "/p/a") (chars "hi") None None None))
          (example_python true) with
  | (Return _, w') => inst_wf (w_inst w') /\ has_lock (w_user w')
  | (Throw _, w') => lacks_lock (w_user w')
  | (Next _, _) | (NoFuel, _) => False
  | (Undef, w') | (Blocked, w') => misused (w_user w') = false
  end.
Proof.
  apply (method_keeps_lock (fun _ => true) (example_returning 2) (fun _ => true)).
  - apply example_functions_ok.
  - constructor.
  - apply example_python_wf.
  - vm_compute. done.
  - done.
Defined.

Lemma callback_result_witness :
  callback_operator (fun _ => true) (example_returning 1) 0%nat 0%nat example_request
    (example_python false) = (Undef, example_python false) /\
  fst (callback_operator (fun _ => true) (example_returning 2) 0%nat 0%nat
    example_request (example_python false)) = Throw return_async_exception.
Proof.
  split.
  - eapply (callback_result (fun _ => true) (example_returning 1) 0%nat 0%nat example_request
      (example_python false) _ _ 5%nat 1 (PyBytes (chars "ok")) (chars "ok")).
    + done.
    + vm_compute. reflexivity.
    + vm_compute. reflexivity.
    + done.
    + vm_compute. reflexivity.
    + by left.
    + vm_compute. done.
    + by left.
  - vm_compute. reflexivity.
Defined.

Lemma subscribe_counts_witness :
  match python_cloudi_subscribe (fun _ => true) (Some (chars "a", 7%nat))
          (example_python true) with
  | (Return _, w') =>
      pyobjects (w_user w') = <[7%nat := (1 + 1, PyOther)]> (pyobjects (w_user (example_python true))) /\
      unlocked (w_user w') = unlocked (w_user (example_python true)) ++ [7%nat] /\
      has_lock (w_user w')
  | (Next _, _) | (NoFuel, _) => False
  | _ => True
  end.
Proof.
  apply (subscribe_counts (fun _ => true) (chars "a") 7%nat (example_python true) 1 PyOther).
  - reflexivity.
  - apply example_python_wf.
  - done.
  - vm_compute. reflexivity.
Defined.
