(* ===== verification/ThreadPool.v ===== *)
(** * The pool of threads  (thread_pool.hpp)

    A service with several threads gives each a task of its own through a
    ThreadPool.  A thread sleeps on a condition variable while its queue is
    empty; the thread of the program puts tasks into the queues in turn, and
    ends the threads in the end.  What any number of threads do is a sequence
    of steps of one of them, a step being what it does between two points
    where others can tell. *)

From S2P Require Import Prelude.

(** What a statement does next: a new state; nothing, because it waits for
    another thread; or undefined behaviour. *)
Inductive moved (A : Type) : Type :=
| to (a : A)
| stays
| undefined.
#[global] Arguments to {A} a.
#[global] Arguments stays {A}.
#[global] Arguments undefined {A}.

Section thread_pool.
Context {INPUT OUTPUT_DATA : Type}.

(** ** ThreadObjectData *)

(** Where the thread of an object is: the statement it runs next in
    [ThreadObjectData::operator ()], in the [operator ()] of the function it
    executes, and in [ThreadPool::output]. *)
Inductive thread_at : Type :=
| no_thread                            (* not started *)
| at_running                           (* m_running = true; *)
| at_exited                            (* m_exited = false; *)
| at_started                           (* m_runningLock.unlock(); *)
| at_lock                              (* unique_lock lock(m_queueMutex); *)
| at_empty                             (* while (m_running && m_queue.empty()) *)
| at_wait                              (* m_queueConditional.wait(lock), asleep *)
| at_woken                             (* the same, before it has the mutex *)
| at_while                             (* while (m_running) *)
| at_front                             (* m_queue.front(); lock.unlock(); *)
| at_process                           (* m_task.process(stop, data) *)
| at_stop (r : OUTPUT_DATA)            (* if (stop) return; *)
| at_try (r : OUTPUT_DATA)             (* lock.try_lock() *)
| at_spin (r : OUTPUT_DATA)            (* if (m_stop) return; yield(); *)
| at_owned (r : OUTPUT_DATA)           (* if (m_stop) return; *)
| at_output (r : OUTPUT_DATA)          (* m_outputObject.output(result) *)
| at_done                              (* the end of [lock], on m_taskOutputMutex *)
| at_relock                            (* lock.lock(); *)
| at_pop                               (* m_queue.pop_front(); *)
| at_leave                             (* m_exited = true; *)
| at_notify                            (* m_destructionConditional.notify_one(); *)
| at_unlock                            (* the end of [lock], on m_queueMutex *)
| thread_ended.

Inductive owner : Type := by_thread | by_caller.

Record object : Type := mk_object {
  m_running : bool;
  m_runningMutex : bool;               (* locked *)
  m_runningLock : bool;                (* owns_lock() *)
  m_exited : bool;
  m_queue : list INPUT;
  m_queueMutex : option owner;
  thread : thread_at;
  accepted : list INPUT;               (* the tasks push_back took *)
  processed : list INPUT               (* the tasks that were processed *)
}.

Definition set_running b o := mk_object b (m_runningMutex o) (m_runningLock o) (m_exited o)
  (m_queue o) (m_queueMutex o) (thread o) (accepted o) (processed o).
Definition set_runningMutex b l o := mk_object (m_running o) b l (m_exited o)
  (m_queue o) (m_queueMutex o) (thread o) (accepted o) (processed o).
Definition set_exited b o := mk_object (m_running o) (m_runningMutex o) (m_runningLock o) b
  (m_queue o) (m_queueMutex o) (thread o) (accepted o) (processed o).
Definition set_queue q o := mk_object (m_running o) (m_runningMutex o) (m_runningLock o)
  (m_exited o) q (m_queueMutex o) (thread o) (accepted o) (processed o).
Definition set_queueMutex m o := mk_object (m_running o) (m_runningMutex o) (m_runningLock o)
  (m_exited o) (m_queue o) m (thread o) (accepted o) (processed o).
Definition set_thread t o := mk_object (m_running o) (m_runningMutex o) (m_runningLock o)
  (m_exited o) (m_queue o) (m_queueMutex o) t (accepted o) (processed o).
Definition add_accepted x o := mk_object (m_running o) (m_runningMutex o) (m_runningLock o)
  (m_exited o) (m_queue o) (m_queueMutex o) (thread o) (accepted o ++ [x]) (processed o).
Definition add_processed x o := mk_object (m_running o) (m_runningMutex o) (m_runningLock o)
  (m_exited o) (m_queue o) (m_queueMutex o) (thread o) (accepted o) (processed o ++ [x]).

(** [ThreadObjectData()]: the lock of [m_runningMutex] is taken. *)
Definition new_thread_object : object := mk_object false true true true [] None no_thread [] [].

(** [m_queueConditional.notify_one()]: only the thread waits for it. *)
Definition notify_queue (o : object) : object :=
  match thread o with at_wait => set_thread at_woken o | _ => o end.

(** What the others see of a step of a thread, besides its object. *)
Inductive thread_event : Type :=
| quiet
| notify_destruction                   (* m_destructionConditional.notify_one() *)
| has_output (r : OUTPUT_DATA).        (* m_outputObject.output(result) *)

(** What [lock.lock()] on [m_queueMutex] does in the thread. *)
Definition thread_locks (t : thread_at) (o : object) : option object :=
  match m_queueMutex o with
  | None => Some (set_thread t (set_queueMutex (Some by_thread) o))
  | Some _ => None
  end.

(** One step of the thread of the [i]th object; [stop] is [m_stop], and
    [out] the owner of [m_taskOutputMutex].  [result] is what [process]
    returns. *)
Definition thread_step (i : nat) (stop : bool) (result : option OUTPUT_DATA)
    (out : option nat) (o : object) : moved (object * option nat * thread_event) :=
  let next o := to (o, out, quiet) in
  let locks t := match thread_locks t o with Some o => next o | None => stays end in
  match thread o with
  | no_thread | at_wait | thread_ended => stays
  | at_running => next (set_thread at_exited (set_running true o))
  | at_exited => next (set_thread at_started (set_exited false o))
  | at_started =>
      if m_runningLock o then next (set_thread at_lock (set_runningMutex false false o))
      else undefined
  | at_lock | at_woken => locks at_empty
  | at_empty =>
      if m_running o && match m_queue o with [] => true | _ => false end
      then next (set_thread at_wait (set_queueMutex None o))
      else next (set_thread at_while o)
  | at_while => next (set_thread (if m_running o then at_front else at_leave) o)
  | at_front =>
      match m_queue o with
      | [] => undefined
      | _ => next (set_thread at_process (set_queueMutex None o))
      end
  | at_process =>
      match result, m_queue o with
      | None, _ => stays
      | Some _, [] => undefined
      | Some r, x :: _ => next (set_thread (at_stop r) (add_processed x o))
      end
  | at_stop r => next (set_thread (if stop then at_relock else at_try r) o)
  | at_try r =>
      match out with
      | None => to (set_thread (at_owned r) o, Some i, quiet)
      | Some _ => next (set_thread (at_spin r) o)
      end
  | at_spin r => next (set_thread (if stop then at_relock else at_try r) o)
  | at_owned r => next (set_thread (if stop then at_done else at_output r) o)
  | at_output r => to (set_thread at_done o, out, has_output r)
  | at_done => to (set_thread at_relock o, None, quiet)
  | at_relock => locks at_pop
  | at_pop =>
      match m_queue o with
      | [] => undefined
      | _ :: q => next (set_thread at_empty (set_queue q o))
      end
  | at_leave => next (set_thread at_notify (set_exited true o))
  | at_notify => to (set_thread at_unlock o, out, notify_destruction)
  | at_unlock => next (set_thread thread_ended (set_queueMutex None o))
  end.

(** ** ThreadPool *)

(** Where the thread of the program is: between two calls, or at a statement
    of a method.  [count] is the argument of [configure], [initial] says
    whether the constructor called it, [i] is the index of the loop, and [t]
    the time that is left to [exit]. *)
Inductive caller_at : Type :=
| idle (returned : option bool)
| at_configure (count : Z) (initial : option Z)
| at_spawn (i count : Z) (initial : option Z)           (* m_threads[i].reset(...) *)
| at_wait_on_start (i count : Z) (initial : option Z)   (* lock(m_runningMutex) *)
| at_start_seen (i count : Z) (initial : option Z)      (* the end of that lock *)
| at_configured (count : Z) (initial : option Z)        (* m_totalConfigured = count *)
| at_active (count : Z) (initial : option Z)
| at_input (x : INPUT)                                  (* lock(m_taskInputMutex) *)
| at_push_running (x : INPUT)                           (* if (! m_running) *)
| at_push_lock (x : INPUT)                              (* lock(m_queueMutex) *)
| at_push (x : INPUT)                                   (* m_queue.push_back(input) *)
| at_push_unlock (wasEmpty : bool)
| at_push_notify                                        (* m_queueConditional *)
| at_input_unlock (pushed : bool)                       (* m_taskInputMutex *)
| at_input_next                                         (* ++m_currentThread *)
| at_exit (t : Z)                                       (* m_stop = true; *)
| at_exit_running (i t : Z)                             (* if (! m_running) *)
| at_exit_lock (i t : Z)
| at_exit_stop (i t : Z)                                (* m_running = false; *)
| at_exit_unlock (i t : Z)
| at_exit_notify (i t : Z)                              (* m_queueConditional *)
| at_wait_exited (i t : Z)                              (* if (m_exited) *)
| at_wait_lock (i t : Z)
| at_wait_block (i t : Z)                               (* timed_wait(lock, t) *)
| at_timed_wait (i t : Z)                               (* the same, asleep *)
| at_wait_woken (i t : Z)                               (* before it has the mutex *)
| at_wait_unlock (i t : Z)
| at_elapsed (i t : Z)                                  (* elapsed < t *)
| at_exit_done.                                         (* m_currentThread = 0; ... *)

Record pool : Type := mk_pool {
  m_objects : list object;
  m_currentThread : Z;
  m_totalConfigured : Z;
  m_totalActive : Z;
  m_taskInputMutex : bool;
  m_taskOutputMutex : option nat;      (* the thread that has it *)
  m_stop : bool;
  outputs : list (nat * OUTPUT_DATA);  (* what m_outputObject.output got *)
  caller : caller_at
}.

Definition set_m_objects l p := mk_pool l (m_currentThread p) (m_totalConfigured p)
  (m_totalActive p) (m_taskInputMutex p) (m_taskOutputMutex p) (m_stop p) (outputs p) (caller p).
Definition set_sizes cur conf act p := mk_pool (m_objects p) cur conf act
  (m_taskInputMutex p) (m_taskOutputMutex p) (m_stop p) (outputs p) (caller p).
Definition set_input b p := mk_pool (m_objects p) (m_currentThread p) (m_totalConfigured p)
  (m_totalActive p) b (m_taskOutputMutex p) (m_stop p) (outputs p) (caller p).
Definition set_output m l p := mk_pool (m_objects p) (m_currentThread p) (m_totalConfigured p)
  (m_totalActive p) (m_taskInputMutex p) m (m_stop p) (outputs p ++ l) (caller p).
Definition set_stop p := mk_pool (m_objects p) (m_currentThread p) (m_totalConfigured p)
  (m_totalActive p) (m_taskInputMutex p) (m_taskOutputMutex p) true (outputs p) (caller p).
Definition set_caller c p := mk_pool (m_objects p) (m_currentThread p) (m_totalConfigured p)
  (m_totalActive p) (m_taskInputMutex p) (m_taskOutputMutex p) (m_stop p) (outputs p) c.

(** [m_objects[i]], in the vector or beyond it. *)
Definition object_at (i : Z) (p : pool) : option object := m_objects p !! Z.to_nat i.
Definition with_object (i : Z) (o : object) (p : pool) : pool :=
  set_m_objects (<[Z.to_nat i := o]> (m_objects p)) p.

Definition on_object (i : Z) (p : pool) (f : object -> moved (object * caller_at)) : moved pool :=
  match object_at i p with
  | None => undefined
  | Some o =>
      match f o with
      | to (o, c) => to (set_caller c (with_object i o p))
      | stays => stays
      | undefined => undefined
      end
  end.

(** [lock(m_queueMutex)] in the thread of the program. *)
Definition caller_locks (c : caller_at) (o : object) : moved (object * caller_at) :=
  match m_queueMutex o with
  | None => to (set_queueMutex (Some by_caller) o, c)
  | Some _ => stays
  end.

(** The first [configure] is part of the constructor, which then sets
    [m_totalActive]. *)
Definition constructed (initial : option Z) (p : pool) : pool :=
  match initial with
  | Some size => set_sizes (m_currentThread p) (m_totalConfigured p) size p
  | None => p
  end.

(** One step of the thread of the program; [elapsed] is what the timer of
    [wait_on_exit] says, in milliseconds. *)
Definition caller_step (elapsed : Z) (p : pool) : moved pool :=
  let next c := to (set_caller c p) in
  match caller p with
  | idle _ | at_timed_wait _ _ => stays
  | at_configure count initial =>
      let count := Z.min count (Z.of_nat (length (m_objects p))) in
      if m_totalConfigured p <? count then next (at_spawn (m_totalConfigured p) count initial)
      else next (at_active count initial)
  | at_spawn i count initial =>
      if i <? count then
        on_object i p (fun o =>
          match thread o with
          | no_thread => to (set_thread at_running o, at_spawn (i + 1) count initial)
          | _ => undefined
          end)
      else next (at_wait_on_start (m_totalConfigured p) count initial)
  | at_wait_on_start i count initial =>
      if i <? count then
        on_object i p (fun o =>
          if m_runningMutex o then stays
          else to (set_runningMutex true (m_runningLock o) o, at_start_seen i count initial))
      else next (at_configured count initial)
  | at_start_seen i count initial =>
      on_object i p (fun o => to (set_runningMutex false (m_runningLock o) o,
                                  at_wait_on_start (i + 1) count initial))
  | at_configured count initial =>
      to (set_caller (at_active count initial)
            (set_sizes (m_currentThread p) count (m_totalActive p) p))
  | at_active count initial =>
      let cur := if (count <? m_totalActive p) && (count <=? m_currentThread p) then 0
                 else m_currentThread p in
      to (set_caller (idle None)
            (constructed initial (set_sizes cur (m_totalConfigured p) count p)))
  | at_input x =>
      if m_taskInputMutex p then stays
      else to (set_caller (at_push_running x) (set_input true p))
  | at_push_running x =>
      on_object (m_currentThread p) p (fun o =>
        to (o, if m_running o then at_push_lock x else at_input_unlock false))
  | at_push_lock x => on_object (m_currentThread p) p (caller_locks (at_push x))
  | at_push x =>
      on_object (m_currentThread p) p (fun o =>
        to (add_accepted x (set_queue (m_queue o ++ [x]) o),
            at_push_unlock (match m_queue o with [] => true | _ => false end)))
  | at_push_unlock wasEmpty =>
      on_object (m_currentThread p) p (fun o =>
        to (set_queueMutex None o, if wasEmpty then at_push_notify else at_input_unlock true))
  | at_push_notify =>
      on_object (m_currentThread p) p (fun o => to (notify_queue o, at_input_unlock true))
  | at_input_unlock pushed =>
      to (set_caller (if pushed then at_input_next else idle (Some false)) (set_input false p))
  | at_input_next =>
      let cur := wrap64 (m_currentThread p + 1) in
      to (set_caller (idle (Some true))
            (set_sizes (if cur =? m_totalActive p then 0 else cur) (m_totalConfigured p)
               (m_totalActive p) p))
  | at_exit t => to (set_caller (at_exit_running 0 t) (set_stop p))
  | at_exit_running i t =>
      if i <? m_totalConfigured p then
        on_object i p (fun o =>
          to (o, if m_running o then at_exit_lock i t else at_exit_running (i + 1) t))
      else next (at_wait_exited 0 t)
  | at_exit_lock i t => on_object i p (caller_locks (at_exit_stop i t))
  | at_exit_stop i t => on_object i p (fun o => to (set_running false o, at_exit_unlock i t))
  | at_exit_unlock i t => on_object i p (fun o => to (set_queueMutex None o, at_exit_notify i t))
  | at_exit_notify i t =>
      on_object i p (fun o => to (notify_queue o, at_exit_running (i + 1) t))
  | at_wait_exited i t =>
      if i <? m_totalConfigured p then
        on_object i p (fun o =>
          to (o, if negb (m_exited o) then at_wait_lock i t
                 else if t =? 0 then at_exit_done else at_wait_exited (i + 1) t))
      else next at_exit_done
  | at_wait_lock i t => on_object i p (caller_locks (at_wait_block i t))
  | at_wait_block i t => on_object i p (fun o => to (set_queueMutex None o, at_timed_wait i t))
  | at_wait_woken i t => on_object i p (caller_locks (at_wait_unlock i t))
  | at_wait_unlock i t => on_object i p (fun o => to (set_queueMutex None o, at_elapsed i t))
  | at_elapsed i t =>
      let t := if elapsed <? t then t - elapsed else 0 in
      next (if t =? 0 then at_exit_done else at_wait_exited (i + 1) t)
  | at_exit_done => to (set_caller (idle None) (set_sizes 0 0 0 p))
  end.

(** The methods a program calls. *)
Inductive method : Type :=
| call_input (x : INPUT)
| call_grow (increment : Z)
| call_shrink (decrement : Z)
| call_exit (timeout : Z).

(** An assertion that fails throws, and the method has done nothing. *)
Definition called (m : method) (p : pool) : caller_at :=
  match m with
  | call_input x => at_input x
  | call_grow increment => at_configure (wrap64 (m_totalActive p + increment)) None
  | call_shrink decrement =>
      if decrement <=? m_totalActive p
      then at_configure (m_totalActive p - decrement) None else idle None
  | call_exit timeout => at_exit timeout
  end.

(** [ThreadPool(initialSize, maxSize, outputObject)], before the body. *)
Definition new_pool (initialSize maxSize : Z) : pool :=
  mk_pool (replicate (Z.to_nat maxSize) new_thread_object) 0 0 0 false None false []
    (at_configure initialSize (Some initialSize)).

(** Who moves: a thread, where [process] has returned a result if it was
    there; a thread that wakes without a notification; the thread of the
    program, with what its timer says; its timed wait, at the end of the time
    or without a reason; or it calls a method. *)
Inductive label : Type :=
| l_thread (i : nat) (result : option OUTPUT_DATA)
| l_spurious (i : nat)
| l_caller (elapsed : Z)
| l_timeout
| l_call (m : method).

Definition notified (i : nat) (e : thread_event) (p : pool) : pool :=
  match e, caller p with
  | notify_destruction, at_timed_wait k t =>
      if k =? Z.of_nat i then set_caller (at_wait_woken k t) p else p
  | _, _ => p
  end.

Definition pool_step (l : label) (p : pool) : moved pool :=
  match l with
  | l_thread i result =>
      match m_objects p !! i with
      | None => stays
      | Some o =>
          match thread_step i (m_stop p) result (m_taskOutputMutex p) o with
          | to (o, out, e) =>
              to (notified i e (set_output out
                    (match e with has_output r => [(i, r)] | _ => [] end)
                    (set_m_objects (<[i := o]> (m_objects p)) p)))
          | stays => stays
          | undefined => undefined
          end
      end
  | l_spurious i =>
      match m_objects p !! i with
      | Some o =>
          match thread o with
          | at_wait => to (set_m_objects (<[i := set_thread at_woken o]> (m_objects p)) p)
          | _ => stays
          end
      | None => stays
      end
  | l_caller elapsed => caller_step elapsed p
  | l_timeout =>
      match caller p with
      | at_timed_wait i t => to (set_caller (at_wait_woken i t) p)
      | _ => stays
      end
  | l_call m =>
      match caller p with
      | idle _ => to (set_caller (called m p) p)
      | _ => stays
      end
  end.

(** A schedule; where a step cannot be taken, it is left out. *)
Fixpoint run_schedule (ls : list label) (p : pool) : option pool :=
  match ls with
  | [] => Some p
  | l :: ls =>
      match pool_step l p with
      | to p => run_schedule ls p
      | stays => run_schedule ls p
      | undefined => None
      end
  end.
End thread_pool.
