(* ===== verification/PoolInvariant.v ===== *)
(** * The invariant of the pool of threads

    What holds in every state of a ThreadPool, between any two steps of its
    threads: who has which mutex, where the tasks are, and which notification
    is still to come; and that every step keeps it and is defined. *)

From S2P Require Import Prelude ThreadPool.

(** ** The invariant of an object *)

Section invariant.
Context {INPUT OUTPUT_DATA : Type}.
Abbreviation object := (@object INPUT OUTPUT_DATA).
Abbreviation pool := (@pool INPUT OUTPUT_DATA).
Implicit Types (o : object) (p : pool).

(** Where a thread has [m_queueMutex]. *)
Definition thread_holds (t : @thread_at OUTPUT_DATA) : bool :=
  match t with
  | at_empty | at_while | at_front | at_pop | at_leave | at_notify | at_unlock => true
  | _ => false
  end.

(** Before it has let go of [m_runningMutex]. *)
Definition thread_starting (t : @thread_at OUTPUT_DATA) : bool :=
  match t with no_thread | at_running | at_exited | at_started => true | _ => false end.

Definition thread_new (t : @thread_at OUTPUT_DATA) : bool :=
  match t with no_thread | at_running | at_exited => true | _ => false end.

(** When it has a function: the first of the queue. *)
Definition thread_busy (t : @thread_at OUTPUT_DATA) : bool :=
  match t with
  | at_front | at_process | at_stop _ | at_try _ | at_spin _ | at_owned _ | at_output _
  | at_done | at_relock | at_pop => true
  | _ => false
  end.

(** When [process] has returned, but the function is still in the queue. *)
Definition thread_after (t : @thread_at OUTPUT_DATA) : bool :=
  match t with
  | at_stop _ | at_try _ | at_spin _ | at_owned _ | at_output _ | at_done | at_relock | at_pop =>
      true
  | _ => false
  end.

Definition thread_leaving (t : @thread_at OUTPUT_DATA) : bool :=
  match t with at_leave | at_notify | at_unlock | thread_ended => true | _ => false end.
Definition thread_left (t : @thread_at OUTPUT_DATA) : bool :=
  match t with at_notify | at_unlock | thread_ended => true | _ => false end.

(** Where a thread has [m_taskOutputMutex]. *)
Definition thread_outputs (t : @thread_at OUTPUT_DATA) : bool :=
  match t with at_owned _ | at_output _ | at_done => true | _ => false end.

(** What the thread of the program does with one object: nothing; it has
    [m_runningMutex], or [m_queueMutex], also after a change it will tell the
    thread of ([changed true]); or it is about to tell. *)
Inductive view : Type := away | seen | holding | changed (tell : bool) | notifying.

Definition view_holds (v : view) : bool :=
  match v with holding | changed _ => true | _ => false end.
Definition is_seen (v : view) : bool := match v with seen => true | _ => false end.
Definition will_notify (v : view) : bool :=
  match v with changed true | notifying => true | _ => false end.
(** What it does next when it lets go of [m_queueMutex]. *)
Definition released_view (v : view) : view :=
  match v with changed true => notifying | _ => away end.

(** The tasks that are still to be processed. *)
Definition pending (o : object) : list INPUT :=
  if thread_after (thread o) then tail (m_queue o) else m_queue o.

Record object_ok (v : view) (o : object) : Prop := {
  oo_mutex : m_queueMutex o =
    if thread_holds (thread o) then Some by_thread
    else if view_holds v then Some by_caller else None;
  oo_exclusive : thread_holds (thread o) && view_holds v = false;
  oo_started : m_runningMutex o = thread_starting (thread o) || is_seen v;
  oo_seen : thread_starting (thread o) && is_seen v = false;
  oo_lock : m_runningLock o = thread_starting (thread o);
  oo_tasks : accepted o = processed o ++ pending o;
  oo_busy : thread_busy (thread o) = true -> m_queue o <> [];
  oo_front : thread o = at_while -> m_running o = true -> m_queue o <> [];
  oo_asleep : thread o = at_wait -> will_notify v = false -> m_running o = true /\ m_queue o = [];
  oo_none : thread o = no_thread -> m_running o = false /\ m_queue o = [];
  oo_start : thread_starting (thread o) = true -> m_running o = false ->
    thread o = no_thread \/ thread o = at_running;
  oo_leaving : thread_leaving (thread o) = true -> m_running o = false;
  oo_exited : m_exited o = thread_left (thread o) || thread_new (thread o)
}.

Lemma new_thread_object_ok : object_ok away new_thread_object.
Proof. constructor; cbn; auto; discriminate. Qed.


(** Every case of a step is one of these. *)
Ltac object_case :=
  split; cbn in *; rewrite ?andb_true_r, ?andb_false_r, ?orb_false_r in *;
  try done; try (intros; discriminate); try (intros; auto; fail);
  try (intros; tauto || congruence);
  try (intros; match goal with H : view_holds _ = _ |- _ => by rewrite H end).

Ltac object_cases o :=
  intros []; destruct o as [run rm rl ex q qm t acc pr]; unfold pending in *;
  cbn [thread m_running m_runningMutex m_runningLock m_exited m_queue m_queueMutex accepted
       processed set_running set_runningMutex set_exited set_queue set_queueMutex set_thread
       add_accepted add_processed] in *.

(** A step of the thread keeps it, and is defined. *)
Lemma thread_step_ok i stop result out v o :
  object_ok v o ->
  match thread_step i stop result out o with
  | to (o', _, _) => object_ok v o'
  | stays => True
  | undefined => False
  end.
Proof.
  object_cases o.
  destruct t; unfold thread_step, thread_locks; cbn in *; repeat case_match; simplify_eq; try done.
  all: try object_case.
  all: try tauto; try (by rewrite <- app_assoc).
  all: intros; by destruct oo_start0.
Qed.

(** The steps of the thread of the program. *)
Lemma spawn_ok o : object_ok away o -> thread o = no_thread -> object_ok away (set_thread at_running o).
Proof. object_cases o. intros ->. object_case. Qed.

Lemma seen_ok o : object_ok away o -> m_runningMutex o = false ->
  object_ok seen (set_runningMutex true (m_runningLock o) o).
Proof. object_cases o. intros ->. destruct t; object_case. Qed.

Lemma unseen_ok o : object_ok seen o -> object_ok away (set_runningMutex false (m_runningLock o) o).
Proof. object_cases o. destruct t; object_case. Qed.

Lemma hold_ok o : object_ok away o -> m_queueMutex o = None ->
  object_ok holding (set_queueMutex (Some by_caller) o).
Proof. object_cases o. intros ->. destruct t; object_case. Qed.

Lemma push_ok x o : object_ok holding o -> thread_starting (thread o) = false ->
  object_ok (changed (match m_queue o with [] => true | _ => false end))
    (add_accepted x (set_queue (m_queue o ++ [x]) o)).
Proof.
  object_cases o. intros Hs. destruct t, q; object_case.
  all: subst; rewrite <- ?app_assoc; try done.
  intros. by destruct oo_asleep0.
Qed.

Lemma stop_ok o : object_ok holding o -> thread_starting (thread o) = false ->
  object_ok (changed true) (set_running false o).
Proof. object_cases o. intros Hs. destruct t; object_case. Qed.

Lemma release_ok v o : object_ok v o -> view_holds v = true ->
  object_ok (released_view v) (set_queueMutex None o).
Proof. object_cases o. intros Hs. destruct v as [| | |[]|]; try done; destruct t; object_case. Qed.

Lemma notify_ok o : object_ok notifying o -> object_ok away (notify_queue o).
Proof. unfold notify_queue. object_cases o. destruct t; object_case. Qed.

Lemma woken_ok v o : object_ok v o -> thread o = at_wait -> object_ok v (set_thread at_woken o).
Proof. object_cases o. intros ->. object_case. Qed.
End invariant.

(** ** The invariant of the pool *)

Section pool_invariant.
Context {INPUT OUTPUT_DATA : Type}.
Abbreviation object := (@object INPUT OUTPUT_DATA).
Abbreviation pool := (@pool INPUT OUTPUT_DATA).
Implicit Types (o : object) (p : pool).

(** What the thread of the program does with the object [i]. *)
Definition view_of p (i : Z) : view :=
  let at_current v := if m_currentThread p =? i then v else away in
  let at_index k v := if k =? i then v else away in
  match caller p with
  | at_push _ => at_current holding
  | at_push_unlock wasEmpty => at_current (changed wasEmpty)
  | at_push_notify => at_current notifying
  | at_start_seen k _ _ => at_index k seen
  | at_exit_stop k _ | at_wait_block k _ | at_wait_unlock k _ => at_index k holding
  | at_exit_unlock k _ => at_index k (changed true)
  | at_exit_notify k _ => at_index k notifying
  | _ => away
  end.

Definition size_of p : Z := Z.of_nat (length (m_objects p)).

(** The numbers of the pool, in use. *)
Definition in_use p : Prop :=
  0 <= m_currentThread p < m_totalActive p /\ m_totalActive p <= m_totalConfigured p <= size_of p.
Definition not_in_use p : Prop :=
  m_currentThread p = 0 /\ m_totalActive p = 0 /\ m_totalConfigured p = 0.

(** While [configure] runs: from the constructor, or later. *)
Definition configuring p (count : Z) (initial : option Z) : Prop :=
  1 <= count <= size_of p /\ m_stop p = false /\
  match initial with
  | Some size => size = count /\ not_in_use p
  | None => in_use p
  end.

Definition stopped_below p (n : Z) : Prop :=
  forall i o, m_objects p !! i = Some o -> Z.of_nat i < n -> m_running o = false.

(** Between two calls: in use, or after [exit]. *)
Definition at_rest p : Prop :=
  in_use p \/ not_in_use p /\ m_stop p = true /\ stopped_below p (size_of p).

(** How many objects have a thread, and how many of those were waited for. *)
Definition spawned_to p : Z :=
  match caller p with
  | at_spawn i _ _ => i
  | at_wait_on_start _ count _ | at_start_seen _ count _ | at_configured count _ => count
  | _ => m_totalConfigured p
  end.
Definition started_to p : Z :=
  match caller p with
  | at_wait_on_start i _ _ | at_start_seen i _ _ => i
  | at_configured count _ => count
  | _ => m_totalConfigured p
  end.

Definition caller_ok p : Prop :=
  match caller p with
  | idle _ | at_input _ | at_push_running _ | at_input_unlock false | at_exit _ => at_rest p
  | at_push_lock _ | at_push _ | at_push_unlock _ | at_push_notify | at_input_unlock true
  | at_input_next => in_use p
  | at_configure count initial =>
      1 <= count /\ m_stop p = false /\
      match initial with
      | Some size => size = count /\ not_in_use p /\ count <= size_of p
      | None => in_use p
      end
  | at_spawn i count initial => configuring p count initial /\ m_totalConfigured p <= i <= count
  | at_wait_on_start i count initial =>
      configuring p count initial /\ m_totalConfigured p <= i <= count
  | at_start_seen i count initial =>
      configuring p count initial /\ m_totalConfigured p <= i < count
  | at_configured count initial =>
      configuring p count initial /\ m_totalConfigured p <= count
  | at_active count initial =>
      1 <= count <= m_totalConfigured p /\ m_totalConfigured p <= size_of p /\ m_stop p = false /\
      match initial with
      | Some size => size = count /\ m_currentThread p = 0 /\ m_totalActive p = 0
      | None => in_use p
      end
  | at_exit_running i t =>
      at_rest p /\ m_stop p = true /\ 0 <= i <= m_totalConfigured p /\ stopped_below p i
  | at_exit_lock i t | at_exit_stop i t =>
      in_use p /\ m_stop p = true /\ 0 <= i < m_totalConfigured p /\ stopped_below p i
  | at_exit_unlock i t | at_exit_notify i t =>
      in_use p /\ m_stop p = true /\ 0 <= i < m_totalConfigured p /\ stopped_below p (i + 1)
  | at_wait_exited i t =>
      at_rest p /\ m_stop p = true /\ 0 <= i <= m_totalConfigured p /\
      stopped_below p (m_totalConfigured p)
  | at_wait_lock i t | at_wait_block i t | at_timed_wait i t | at_wait_woken i t
  | at_wait_unlock i t | at_elapsed i t =>
      in_use p /\ m_stop p = true /\ 0 <= i < m_totalConfigured p /\
      stopped_below p (m_totalConfigured p)
  | at_exit_done => m_stop p = true /\ stopped_below p (m_totalConfigured p)
  end.

(** The thread of the object [i]: started when it was waited for; none when
    it was not spawned, or what [exit] has left of it. *)
Definition indexed p (i : Z) o : Prop :=
  (i < started_to p -> thread_starting (thread o) = false) /\
  (spawned_to p <= i -> thread o = no_thread \/
     thread_starting (thread o) = false /\ m_running o = false /\ m_stop p = true).

Record pool_ok p : Prop := {
  po_caller : caller_ok p;
  po_size : 1 <= size_of p < 2 ^ 64;
  po_sizes : 0 <= started_to p <= spawned_to p;
  po_object : forall i o, m_objects p !! i = Some o ->
    object_ok (view_of p (Z.of_nat i)) o /\ indexed p (Z.of_nat i) o;
  po_output : forall i o, m_objects p !! i = Some o ->
    thread_outputs (thread o) = true <-> m_taskOutputMutex p = Some i
}.

Lemma new_pool_ok initialSize maxSize :
  1 <= initialSize <= maxSize -> maxSize < 2 ^ 64 -> pool_ok (new_pool initialSize maxSize).
Proof.
  intros H1 H2. assert (size_of (new_pool initialSize maxSize) = maxSize) as Hs.
  { unfold size_of, new_pool. cbn. rewrite length_replicate. lia. }
  split; rewrite ?Hs; cbn; try lia.
  - unfold not_in_use. cbn. lia.
  - intros i o [-> _]%lookup_replicate. split; [apply new_thread_object_ok|]. split; [cbn; lia|by left].
  - intros i o [-> _]%lookup_replicate. done.
Qed.

(** While threads are ended, none starts. *)
Lemma stop_started p : caller_ok p -> m_stop p = true -> started_to p = spawned_to p.
Proof.
  unfold caller_ok, configuring, started_to, spawned_to. destruct (caller p); try done.
  all: naive_solver congruence.
Qed.

Lemma not_starting p i o :
  pool_ok p -> m_stop p = true -> m_objects p !! i = Some o -> thread o <> at_running.
Proof.
  intros Hp Hs Ho Ht. destruct (po_object p Hp i o Ho) as [_ [H1 H2]].
  rewrite (stop_started p (po_caller p Hp) Hs), Ht in *. cbn in *.
  destruct (decide (Z.of_nat i < spawned_to p)); [by specialize (H1 ltac:(done))|].
  destruct (H2 ltac:(lia)) as [?|[? _]]; congruence.
Qed.

(** What the caller has is a matter of the numbers and of what was stopped. *)
Lemma caller_ok_ext p p' :
  caller p' = caller p -> m_currentThread p' = m_currentThread p ->
  m_totalConfigured p' = m_totalConfigured p -> m_totalActive p' = m_totalActive p ->
  m_stop p' = m_stop p -> size_of p' = size_of p ->
  (m_stop p = true -> forall n, stopped_below p n -> stopped_below p' n) ->
  caller_ok p -> caller_ok p'.
Proof.
  intros Hc H1 H2 H3 H4 H5 Hb.
  unfold caller_ok, at_rest, configuring, in_use, not_in_use. rewrite Hc, H1, H2, H3, H4, H5.
  destruct (caller p); try done; try tauto; try (destruct initial; tauto).
  all: repeat case_match; naive_solver.
Qed.

(** A step that changes the object [i]. *)
Lemma object_changed_ok p p' i o o' :
  pool_ok p -> m_objects p !! i = Some o -> m_objects p' = <[i := o']> (m_objects p) ->
  m_taskOutputMutex p' = m_taskOutputMutex p ->
  thread_outputs (thread o') = thread_outputs (thread o) ->
  caller_ok p' -> 0 <= started_to p' <= spawned_to p' ->
  object_ok (view_of p' (Z.of_nat i)) o' -> indexed p' (Z.of_nat i) o' ->
  (forall j, j <> Z.of_nat i -> view_of p' j = view_of p j) ->
  (forall j oj, j <> Z.of_nat i -> indexed p j oj -> indexed p' j oj) ->
  pool_ok p'.
Proof.
  intros Hp Ho Hobj Hout Ht Hc Hs Hok Hi Hv Hn. split; try done.
  - unfold size_of. rewrite Hobj, length_insert. apply po_size, Hp.
  - intros j oj. rewrite Hobj. intros [(-> & -> & _)|(Hj & Hoj)]%list_lookup_insert_Some; [done|].
    destruct (po_object p Hp j oj Hoj) as [H1 H2]. rewrite Hv by lia. split; [done|].
    apply Hn; [lia|done].
  - intros j oj. rewrite Hobj, Hout.
    intros [(-> & -> & _)|(Hj & Hoj)]%list_lookup_insert_Some; [|by apply po_output].
    rewrite Ht. by apply po_output.
Qed.

(** A step that changes none. *)
Lemma same_objects_ok p p' :
  pool_ok p -> m_objects p' = m_objects p -> m_taskOutputMutex p' = m_taskOutputMutex p ->
  caller_ok p' -> 0 <= started_to p' <= spawned_to p' ->
  (forall j, view_of p' j = view_of p j) ->
  (forall j oj, m_objects p !! j = Some oj -> indexed p (Z.of_nat j) oj ->
     indexed p' (Z.of_nat j) oj) -> pool_ok p'.
Proof.
  intros Hp Hobj Hout Hc Hs Hv Hn. split; try done.
  - unfold size_of. rewrite Hobj. apply po_size, Hp.
  - intros j oj. rewrite Hobj. intros Hoj. destruct (po_object p Hp j oj Hoj) as [H1 H2].
    rewrite Hv. auto.
  - intros j oj. rewrite Hobj, Hout. by apply po_output.
Qed.

(** What a step of a thread leaves. *)
Lemma thread_step_frame i stop result out o :
  (thread_outputs (thread o) = true <-> out = Some i) ->
  match thread_step i stop result out o with
  | to (o', out', _) =>
      (thread_starting (thread o) = false -> thread_starting (thread o') = false) /\
      thread o <> no_thread /\
      (thread o <> at_running -> m_running o' = m_running o) /\
      (thread_outputs (thread o') = true <-> out' = Some i) /\
      forall j, j <> i -> out' = Some j <-> out = Some j
  | _ => True
  end.
Proof.
  intros Hout. destruct o as [run rm rl ex q qm t acc pr].
  cbn [thread m_running m_runningMutex m_runningLock m_exited m_queue m_queueMutex] in *.
  destruct t; unfold thread_step, thread_locks; cbn in *; repeat case_match; simplify_eq; try done.
  all: split_and!; cbn; try done; try tauto; try (intros; congruence).
  all: try (destruct Hout as [Hout _]; specialize (Hout eq_refl); intros; simplify_eq; split; congruence).
  all: split; congruence.
Qed.

Lemma notified_ok i e p : pool_ok p -> pool_ok (notified i e p).
Proof.
  intros Hp. unfold notified. destruct e; try done. destruct (caller p) eqn:Hc; try done.
  destruct (_ =? _); [|done]. apply (same_objects_ok p); try done.
  - pose proof (po_caller p Hp) as H. unfold caller_ok in *. rewrite Hc in H. exact H.
  - pose proof (po_sizes p Hp) as H. unfold started_to, spawned_to in *. by rewrite Hc in H.
  - intros j. unfold view_of. by rewrite Hc.
  - intros j oj. unfold indexed, started_to, spawned_to. by rewrite Hc.
Qed.

Lemma thread_moves_ok i result o o' out' e l p :
  pool_ok p -> m_objects p !! i = Some o ->
  thread_step i (m_stop p) result (m_taskOutputMutex p) o = to (o', out', e) ->
  pool_ok (set_output out' l (set_m_objects (<[i := o']> (m_objects p)) p)).
Proof.
  intros Hp Ho He. destruct (po_object p Hp i o Ho) as [Hok [Hi1 Hi2]].
  pose proof (thread_step_ok i (m_stop p) result (m_taskOutputMutex p) _ _ Hok) as H1.
  pose proof (thread_step_frame i (m_stop p) result _ o (po_output p Hp i o Ho)) as H2.
  rewrite He in H1, H2. destruct H2 as (Hs & Hn & Hr & Hout & Hother).
  set (p' := set_output _ _ _).
  assert (size_of p' = size_of p) as Hsize by (unfold size_of; cbn; by rewrite length_insert).
  split; try (rewrite ?Hsize; apply Hp).
  - apply (caller_ok_ext p); try done; [|apply Hp]. intros Hstop n Hbelow j oj. cbn.
    intros [(-> & -> & _)|(Hj & Hoj)]%list_lookup_insert_Some; [|by apply Hbelow].
    intros Hjn. rewrite Hr by (by eapply not_starting). by apply (Hbelow j o).
  - intros j oj. cbn. intros [(-> & -> & _)|(Hj & Hoj)]%list_lookup_insert_Some;
      [|by apply (po_object p Hp j oj)].
    split; [exact H1|]. split; [intros Hj; by apply Hs, Hi1|].
    intros Hj. destruct (Hi2 Hj) as [?|(Hs1 & Hr1 & Hstop)]; [done|]. right.
    split; [by apply Hs|]. split; [|done]. rewrite Hr; [done|]. by eapply not_starting.
  - intros j oj. cbn. intros [(-> & -> & _)|(Hj & Hoj)]%list_lookup_insert_Some; [done|].
    rewrite Hother by done. by apply po_output.
Qed.

Lemma spurious_ok i o p :
  pool_ok p -> m_objects p !! i = Some o -> thread o = at_wait ->
  pool_ok (set_m_objects (<[i := set_thread at_woken o]> (m_objects p)) p).
Proof.
  intros Hp Ho Ht. destruct (po_object p Hp i o Ho) as [Hok [Hi1 Hi2]].
  set (p' := set_m_objects _ _).
  assert (size_of p' = size_of p) as Hsize by (unfold size_of; cbn; by rewrite length_insert).
  apply (object_changed_ok p p' i o (set_thread at_woken o)); try done.
  - by rewrite Ht.
  - apply (caller_ok_ext p); try done; [|apply Hp]. intros Hstop n Hbelow j oj. cbn.
    intros [(-> & <- & _)|(Hj & Hoj)]%list_lookup_insert_Some; [|by apply Hbelow].
    by apply (Hbelow j o).
  - apply Hp.
  - by apply woken_ok.
  - rewrite Ht in *. split; [done|]. intros Hj. right. destruct (Hi2 Hj) as [?|(? & ? & ?)]; done.
Qed.
End pool_invariant.

(** ** The steps of the thread of the program *)

Section pool_steps.
Context {INPUT OUTPUT_DATA : Type}.
Abbreviation object := (@object INPUT OUTPUT_DATA).
Abbreviation pool := (@pool INPUT OUTPUT_DATA).
Implicit Types (o : object) (p : pool) (l : @label INPUT OUTPUT_DATA).

Definition pool_kept (m : moved pool) : Prop :=
  match m with to p' => pool_ok p' | stays => True | undefined => False end.

Lemma size_with c i o p : size_of (set_caller c (with_object i o p)) = size_of p.
Proof. unfold size_of. cbn. by rewrite length_insert. Qed.

Lemma stopped_with c i o' p n :
  0 <= i -> stopped_below p n -> (i < n -> m_running o' = false) ->
  stopped_below (set_caller c (with_object i o' p)) n.
Proof.
  intros Hi H Ho j oj. cbn. intros [(<- & <- & _)|(Hj & Hoj)]%list_lookup_insert_Some.
  - intros Hj. apply Ho. lia.
  - by apply H.
Qed.

(** A statement about the object [i] that leaves its thread where it is, or
    wakes it, and does not start or stop counting it. *)
Lemma object_update p i f :
  pool_ok p -> 0 <= i < size_of p ->
  (forall o, m_objects p !! Z.to_nat i = Some o -> object_ok (view_of p i) o -> indexed p i o ->
     match f o with
     | to (o', c) =>
         let p' := set_caller c (with_object i o' p) in
         thread_outputs (thread o') = thread_outputs (thread o) /\
         caller_ok p' /\ 0 <= started_to p' <= spawned_to p' /\
         object_ok (view_of p' i) o' /\ indexed p' i o' /\
         (forall j, j <> i -> view_of p' j = view_of p j) /\
         (forall j oj, j <> i -> indexed p j oj -> indexed p' j oj)
     | stays => True
     | undefined => False
     end) ->
  pool_kept (on_object i p f).
Proof.
  intros Hp Hi Hf. unfold on_object, object_at.
  destruct (lookup_lt_is_Some_2 (m_objects p) (Z.to_nat i)) as [o Ho].
  { unfold size_of in Hi. lia. }
  rewrite Ho. destruct (po_object p Hp _ o Ho) as [H1 H2]. rewrite Z2Nat.id in H1, H2 by lia.
  specialize (Hf o Ho H1 H2). destruct (f o) as [[o' c]| |]; try done.
  destruct Hf as (H3 & H4 & H5 & H6 & H7 & H8 & H9).
  apply (object_changed_ok p _ (Z.to_nat i) o o'); rewrite ?Z2Nat.id by lia; try done.
Qed.

(** The same where nothing but the object changes hands. *)
Lemma object_keeps p i f :
  pool_ok p -> 0 <= i < size_of p ->
  (forall o, m_objects p !! Z.to_nat i = Some o -> object_ok (view_of p i) o -> indexed p i o ->
     match f o with
     | to (o', c) =>
         let p' := set_caller c (with_object i o' p) in
         (thread o' = thread o \/ thread o = at_wait /\ thread o' = at_woken) /\
         (m_running o' = m_running o \/ m_running o' = false) /\
         started_to p' = started_to p /\ spawned_to p' = spawned_to p /\
         caller_ok p' /\ object_ok (view_of p' i) o' /\
         (forall j, j <> i -> view_of p' j = view_of p j)
     | stays => True
     | undefined => False
     end) ->
  pool_kept (on_object i p f).
Proof.
  intros Hp Hi Hf. apply object_update; [done..|]. intros o Ho H1 H2.
  specialize (Hf o Ho H1 H2). destruct (f o) as [[o' c]| |]; try done. cbn zeta in *.
  destruct Hf as (Ht & Hr & Hs & Hsp & Hc & Hok & Hv).
  assert (forall j oj, m_stop (set_caller c (with_object i o' p)) = m_stop p /\
    (indexed p j oj -> indexed (set_caller c (with_object i o' p)) j oj)) as Hidx.
  { intros j oj. split; [done|]. unfold indexed. by rewrite Hs, Hsp. }
  split_and!; try done.
  - by destruct Ht as [->|[-> ->]].
  - rewrite Hs. apply Hp.
  - rewrite Hs, Hsp. apply Hp.
  - destruct H2 as [H2 H3]. unfold indexed. rewrite Hs, Hsp. cbn.
    destruct Ht as [Ht|[Ht Ht']].
    + rewrite Ht. split; [done|]. intros Hj. destruct (H3 Hj) as [?|(? & ? & ?)]; [by left|].
      right. split; [done|]. split; [|done]. destruct Hr; congruence.
    + rewrite Ht in *. rewrite Ht'. split; [done|]. intros Hj.
      destruct (H3 Hj) as [?|(? & ? & ?)]; [done|]. right. split; [done|].
      split; [|done]. destruct Hr; congruence.
  - intros j oj _. apply Hidx.
Qed.

(** One that changes no object. *)
Lemma next_ok p p' :
  pool_ok p -> m_objects p' = m_objects p -> m_taskOutputMutex p' = m_taskOutputMutex p ->
  m_stop p' = m_stop p -> started_to p' = started_to p -> spawned_to p' = spawned_to p ->
  caller_ok p' -> (forall j, view_of p' j = view_of p j) -> pool_kept (to p').
Proof.
  intros Hp Hobj Hout Hstop Hs Hsp Hc Hv. apply (same_objects_ok p); try done.
  - rewrite Hs, Hsp. apply Hp.
  - intros j oj. unfold indexed. by rewrite Hs, Hsp, Hstop.
Qed.

Lemma at_rest_current p :
  at_rest p -> 1 <= size_of p -> 0 <= m_currentThread p < size_of p.
Proof. unfold at_rest, in_use, not_in_use. lia. Qed.

(** What is stopped is not asked for tasks. *)
Lemma running_in_use p o :
  at_rest p -> 1 <= size_of p -> m_objects p !! Z.to_nat (m_currentThread p) = Some o ->
  m_running o = true -> in_use p.
Proof.
  intros [?|(Hn & _ & Hs)] Hsize Ho Hr; [done|].
  assert (m_running o = false) by (apply (Hs _ _ Ho); destruct Hn as (-> & _); cbn; lia). congruence.
Qed.

Lemma stopped_keeps c i o o' p n :
  0 <= i -> m_objects p !! Z.to_nat i = Some o ->
  m_running o' = m_running o \/ m_running o' = false ->
  stopped_below p n -> stopped_below (set_caller c (with_object i o' p)) n.
Proof.
  intros Hi Ho Hr Hs. apply stopped_with; [done..|]. intros Hin.
  destruct Hr as [->|?]; [|done]. apply (Hs _ _ Ho). lia.
Qed.

Lemma stopped_next i o p :
  0 <= i -> m_objects p !! Z.to_nat i = Some o -> m_running o = false -> stopped_below p i ->
  stopped_below p (i + 1).
Proof.
  intros Hi Ho Hr Hs j oj Hoj Hj. destruct (decide (j = Z.to_nat i)) as [->|]; [congruence|].
  apply (Hs j oj Hoj). lia.
Qed.

Lemma stopped_now c i o' p :
  0 <= i -> stopped_below p i -> m_running o' = false ->
  stopped_below (set_caller c (with_object i o' p)) (i + 1).
Proof.
  intros Hi Hs Hr j oj. cbn. intros [(<- & <- & _)|(Hj & Hoj)]%list_lookup_insert_Some; [done|].
  intros Hjn. apply (Hs j oj Hoj). lia.
Qed.

Lemma at_rest_in_use p : at_rest p -> 0 < m_totalConfigured p -> in_use p.
Proof. intros [?|[(? & ? & ?) _]]; [done|lia]. Qed.

Lemma in_use_with c i o p : in_use p -> in_use (set_caller c (with_object i o p)).
Proof. unfold in_use. by rewrite size_with. Qed.

Lemma configuring_with c i o p count initial :
  configuring p count initial -> configuring (set_caller c (with_object i o p)) count initial.
Proof. unfold configuring, in_use. by rewrite size_with. Qed.

Lemma at_rest_with c i o o' p :
  0 <= i -> m_objects p !! Z.to_nat i = Some o ->
  m_running o' = m_running o \/ m_running o' = false ->
  at_rest p -> at_rest (set_caller c (with_object i o' p)).
Proof.
  intros Hi Ho Hr [H|(H1 & H2 & H3)]; [left; by apply in_use_with|right].
  split; [done|]. split; [done|]. rewrite size_with. by eapply stopped_keeps.
Qed.

Lemma notify_thread o :
  thread (notify_queue o) = thread o \/
  thread o = at_wait /\ thread (notify_queue o) = at_woken.
Proof. unfold notify_queue. case_match; auto. Qed.

Lemma notify_running o : m_running (notify_queue o) = m_running o.
Proof. unfold notify_queue. by case_match. Qed.
#[local] Hint Resolve notify_thread notify_running : core.

(** What is asked of the state after a step, with the caller where it is. *)
Ltac here Hc :=
  unfold started_to, spawned_to, view_of, caller_ok in *;
  cbn [caller m_currentThread m_totalConfigured m_totalActive m_stop m_objects m_taskOutputMutex
       set_caller with_object set_m_objects set_sizes set_input set_stop set_output] in *;
  rewrite ?Hc in *; cbn [started_to spawned_to view_of] in *; rewrite ?Z.eqb_refl in *.

Ltac other :=
  let j := fresh "j" in let Hj := fresh "Hj" in
  intros j Hj; repeat (case_match; rewrite ?Z.eqb_eq in *; try lia; try done).

Ltac done_here Hc :=
  here Hc; split_and?; try done; try lia; try tauto; try (other; fail);
  try (by apply in_use_with); try (left; by apply in_use_with);
  try (eapply at_rest_with; [|eassumption|..]; by auto || lia);
  try (eapply stopped_keeps; [|eassumption|..]; by auto || lia).

Ltac object_at_pc Hc :=
  destruct_and?;
  apply object_keeps; [done|unfold in_use, configuring in *; lia|];
  let o := fresh "o" in intros o Ho Hok Hi; cbn zeta; unfold caller_locks;
  repeat case_match; try done; simplify_eq; split_and!; auto; try (by done_here Hc);
  try (here Hc; first
    [ by apply hold_ok | by apply notify_ok | by apply (release_ok holding)
    | by apply (release_ok (changed true)) | by apply (release_ok (changed false)) ]).

(** The method the thread of the program is in. *)
Inductive in_method : Type := in_configure | in_input | in_exit | in_none.
Definition method_of (c : @caller_at INPUT) : in_method :=
  match c with
  | idle _ => in_none
  | at_configure _ _ | at_spawn _ _ _ | at_wait_on_start _ _ _ | at_start_seen _ _ _
  | at_configured _ _ | at_active _ _ => in_configure
  | at_input _ | at_push_running _ | at_push_lock _ | at_push _ | at_push_unlock _
  | at_push_notify | at_input_unlock _ | at_input_next => in_input
  | _ => in_exit
  end.

Lemma configure_step_ok elapsed p :
  pool_ok p -> method_of (caller p) = in_configure -> pool_kept (caller_step elapsed p).
Proof.
  intros Hp Hmethod. pose proof (po_size p Hp) as Hsize. pose proof (po_caller p Hp) as Hcaller.
  pose proof (po_sizes p Hp) as Hsizes.
  unfold caller_step. destruct (caller p) eqn:Hc; try discriminate Hmethod; cbn [pool_kept]; try done.
  all: unfold caller_ok, started_to, spawned_to in Hcaller, Hsizes; rewrite Hc in Hcaller, Hsizes.
  - unfold configuring, not_in_use, in_use in *.
    destruct (_ <? _) eqn:?; apply (next_ok p); here Hc; try done; unfold configuring, not_in_use, in_use;
      here Hc; change (size_of (set_caller _ p)) with (size_of p); unfold size_of in *;
      destruct initial; split_and?; done || lia || tauto.
  - destruct Hcaller as [(Hcount & Hstop & Hinit) Hi]. destruct (Z.ltb_spec i count).
    2: { assert (i = count) as -> by lia. apply (next_ok p); done_here Hc. }
    apply object_update; [done|lia|]. intros o Ho Hok [Hidx1 Hidx2]. here Hc.
    destruct (Hidx2 ltac:(lia)) as [Ht|(_ & _ & ?)]; [|congruence].
    rewrite Ht. cbn zeta. split_and!; here Hc; try lia; try done.
    + by apply configuring_with.
    + by apply spawn_ok.
    + unfold indexed. here Hc. lia.
    + intros j oj _. unfold indexed. here Hc. intros [? H']. split; [done|].
      intros. apply H'. lia.
  - destruct Hcaller as [(Hcount & Hstop & Hinit) Hi]. destruct (Z.ltb_spec i count).
    2: { assert (i = count) as -> by lia. apply (next_ok p); done_here Hc. }
    apply object_keeps; [done|lia|]. intros o Ho Hok Hidx.
    destruct (m_runningMutex o) eqn:Hm; [done|]. cbn zeta. split_and!; auto; try (by done_here Hc).
    + here Hc. split; [by apply configuring_with|lia].
    + here Hc. by apply seen_ok.
  - destruct Hcaller as [(Hcount & Hstop & Hinit) Hi].
    apply object_update; [done|lia|]. intros o Ho Hok [Hidx1 Hidx2]. here Hc.
    cbn zeta. split_and!; here Hc; try lia; try done.
    + by apply configuring_with.
    + by apply unseen_ok.
    + unfold indexed. here Hc. split; [|lia]. intros _. destruct Hok. by rewrite andb_true_r in oo_seen0.
    + other.
    + intros j oj Hj. unfold indexed. here Hc. intros [H1 H2]. split; [|done]. intros. apply H1. lia.
  - destruct Hcaller as [(Hcount & Hstop & Hinit) Hi]. apply (next_ok p); done_here Hc.
    unfold not_in_use, in_use, size_of in *. cbn [m_objects m_currentThread m_totalActive
      m_totalConfigured set_caller set_sizes]. destruct initial; lia.
  - destruct Hcaller as (Hcount & Hconf & Hstop & Hinit).
    destruct initial as [size|]; unfold constructed; apply (next_ok p); done_here Hc.
    all: left; unfold in_use, size_of in *; cbn [m_objects m_currentThread m_totalActive
      m_totalConfigured set_caller set_sizes].
    all: destruct (Z.ltb_spec count (m_totalActive p)), (Z.leb_spec count (m_currentThread p));
      cbn [andb]; lia.
Qed.

Lemma input_step_ok elapsed p :
  pool_ok p -> method_of (caller p) = in_input -> pool_kept (caller_step elapsed p).
Proof.
  intros Hp Hmethod. pose proof (po_size p Hp) as Hsize. pose proof (po_caller p Hp) as Hcaller.
  pose proof (po_sizes p Hp) as Hsizes.
  unfold caller_step. destruct (caller p) eqn:Hc; try discriminate Hmethod; cbn [pool_kept]; try done.
  all: unfold caller_ok, started_to, spawned_to in Hcaller, Hsizes; rewrite Hc in Hcaller, Hsizes.
  - case_match; [done|]. apply (next_ok p); done_here Hc.
  - apply object_keeps; [done|apply at_rest_current; [done|lia]|]. intros o Ho Hok Hi.
    destruct (m_running o) eqn:Hr; cbn zeta; split_and!; auto; try (by done_here Hc).
    + here Hc. apply in_use_with. apply (running_in_use p o); [done|lia|done..].
    + here Hc. eapply at_rest_with; [|eassumption|..]; auto. apply at_rest_current in Hcaller; lia.
  - object_at_pc Hc.
  - apply object_keeps; [done|unfold in_use in *; lia|]. intros o Ho Hok Hi.
    cbn zeta; split_and!; auto; try (by done_here Hc). here Hc.
    apply push_ok; [done|]. apply Hi. here Hc. unfold in_use in *. lia.
  - object_at_pc Hc.
  - object_at_pc Hc.
  - apply (next_ok p); destruct pushed; done_here Hc.
  - apply (next_ok p); done_here Hc. left. unfold in_use, size_of in *.
    cbn [m_currentThread m_totalActive m_totalConfigured m_objects set_caller set_sizes].
    rewrite wrap64_small by lia. destruct (Z.eqb_spec (m_currentThread p + 1) (m_totalActive p)); lia.
Qed.

Lemma exit_step_ok elapsed p :
  pool_ok p -> method_of (caller p) = in_exit -> pool_kept (caller_step elapsed p).
Proof.
  intros Hp Hmethod. pose proof (po_size p Hp) as Hsize. pose proof (po_caller p Hp) as Hcaller.
  pose proof (po_sizes p Hp) as Hsizes.
  unfold caller_step. destruct (caller p) eqn:Hc; try discriminate Hmethod; cbn [pool_kept]; try done.
  all: unfold caller_ok, started_to, spawned_to in Hcaller, Hsizes; rewrite Hc in Hcaller, Hsizes.
  - apply (same_objects_ok p); done_here Hc.
    + destruct Hcaller as [?|(? & ? & ?)]; [by left|by right].
    + intros j oj _. lia.
    + intros j oj _. unfold indexed. here Hc. tauto.
  - destruct Hcaller as (Hrest & Hstop & Hi & Hbelow). case_match.
    2: { assert (i = m_totalConfigured p) as -> by lia. apply (next_ok p); done_here Hc. }
    assert (in_use p) as Huse by (apply at_rest_in_use; [done|lia]).
    apply object_keeps; [done|unfold in_use in *; lia|]. intros o Ho Hok Hidx.
    destruct (m_running o) eqn:Hr; cbn zeta; split_and!; auto; try (by done_here Hc).
    done_here Hc. eapply stopped_keeps; [lia|done|by left|]. eapply stopped_next; done || lia.
  - object_at_pc Hc.
  - destruct Hcaller as (Huse & Hstop & Hi & Hbelow).
    apply object_keeps; [done|unfold in_use in *; lia|]. intros o Ho Hok Hidx.
    cbn zeta; split_and!; auto; try (by done_here Hc).
    + here Hc. split_and!; try done; try lia; [by apply in_use_with|].
      apply stopped_now; [lia|done|done].
    + here Hc. apply stop_ok; [done|]. apply Hidx. here Hc. lia.
  - object_at_pc Hc.
  - object_at_pc Hc.
  - destruct Hcaller as (Hrest & Hstop & Hi & Hbelow).
    case_match; [|apply (next_ok p); done_here Hc].
    assert (in_use p) as Huse by (apply at_rest_in_use; [done|lia]).
    apply object_keeps; [done|unfold in_use in *; lia|]. intros o Ho Hok Hidx.
    destruct (m_exited o); [destruct (t =? 0)|]; cbn [negb]; cbn zeta; split_and!; auto; try (by done_here Hc).
  - object_at_pc Hc. 
  - object_at_pc Hc.
  - object_at_pc Hc.
  - object_at_pc Hc.
  - destruct Hcaller as (Huse & Hstop & Hi & Hbelow).
    destruct (_ =? 0); apply (next_ok p); done_here Hc; by left.
  - destruct Hcaller as [Hstop Hbelow].
    assert (forall j oj, m_objects p !! j = Some oj -> m_running oj = false) as Hall.
    { intros j oj Hoj. destruct (decide (Z.of_nat j < m_totalConfigured p)); [by apply (Hbelow j)|].
      destruct (po_object p Hp j oj Hoj) as [Hok [_ Hidx]]. here Hc.
      destruct Hidx as [?|(_ & ? & _)]; [lia| |done]. by apply (oo_none _ _ Hok). }
    apply (same_objects_ok p); done_here Hc.
    + right. split; [done|]. split; [done|]. intros j oj Hoj _. by apply (Hall j).
    + intros j oj Hoj. unfold indexed. here Hc. intros [Hi1 Hi2]. split; [intros; lia|].
      intros _. destruct (decide (Z.of_nat j < m_totalConfigured p)).
      * right. split; [auto|]. split; [by apply (Hall j)|done].
      * destruct Hi2 as [?|?]; [lia|by left|by right].
Qed.

Lemma caller_step_ok elapsed p : pool_ok p -> pool_kept (caller_step elapsed p).
Proof.
  intros Hp. destruct (method_of (caller p)) eqn:Hm.
  - by apply configure_step_ok.
  - by apply input_step_ok.
  - by apply exit_step_ok.
  - unfold caller_step. by destruct (caller p).
Qed.

(** ** Programs *)

(** The program does not shrink the pool to nothing, or make it grow beyond
    what a [size_t] counts, and does neither after [exit]. *)
Definition proper l p : Prop :=
  match l with
  | l_call (call_grow increment) =>
      0 <= increment /\ m_totalActive p + increment < 2 ^ 64 /\ m_stop p = false
  | l_call (call_shrink decrement) =>
      0 <= decrement /\ decrement <> m_totalActive p /\ m_stop p = false
  | _ => True
  end.

Inductive schedule_step p p' : Prop :=
| schedule_step_intro l : proper l p -> pool_step l p = to p' -> schedule_step p p'.

(** The states of a pool of at least one thread. *)
Definition pool_reachable p : Prop :=
  exists initialSize maxSize, 1 <= initialSize <= maxSize /\ maxSize < 2 ^ 64 /\
    rtc schedule_step (new_pool initialSize maxSize) p.

Lemma called_ok m r p :
  pool_ok p -> caller p = idle r -> proper (l_call m) p -> pool_ok (set_caller (called m p) p).
Proof.
  intros Hp Hc Hm. pose proof (po_size p Hp) as Hsize. pose proof (po_caller p Hp) as Hrest.
  pose proof (po_sizes p Hp) as Hsizes. unfold caller_ok in Hrest. rewrite Hc in Hrest.
  assert (m_stop p = false -> in_use p) as Huse by (destruct Hrest as [?|(_ & ? & _)]; congruence).
  change (pool_kept (to (set_caller (called m p) p))).
  destruct m; cbn [called proper] in *; try case_match; apply (next_ok p); done_here Hc.
  destruct Hm as (? & ? & Hs). specialize (Huse Hs). unfold in_use in Huse.
  rewrite wrap64_small; lia.
Qed.

Lemma pool_step_ok l p : pool_ok p -> proper l p -> pool_kept (pool_step l p).
Proof.
  intros Hp Hl. destruct l as [i result|i|elapsed| |m]; cbn [pool_step].
  - destruct (m_objects p !! i) as [o|] eqn:Ho; [|done].
    pose proof (thread_step_ok i (m_stop p) result (m_taskOutputMutex p) _ _
      (proj1 (po_object p Hp i o Ho))) as Hok.
    destruct (thread_step _ _ _ _ o) as [[[o' out'] e]| |] eqn:He; try done.
    apply notified_ok. by eapply thread_moves_ok.
  - destruct (m_objects p !! i) as [o|] eqn:Ho; [|done].
    destruct (thread o) eqn:Ht; try done. by apply spurious_ok.
  - by apply caller_step_ok.
  - destruct (caller p) eqn:Hc; try done. apply (next_ok p); try done; here Hc; try done.
    pose proof (po_caller p Hp) as H. here Hc. exact H.
  - destruct (caller p) eqn:Hc; try done. by eapply called_ok.
Qed.

Lemma reachable_pool_ok p : pool_reachable p -> pool_ok p.
Proof.
  intros (n & m & H1 & H2 & Hr).
  enough (forall q q', rtc schedule_step q q' -> pool_ok q -> pool_ok q') as H.
  { apply (H _ _ Hr). by apply new_pool_ok. }
  induction 1 as [|q q1 q2 [l Hl He] _ IH]; [done|]. intros Hq. apply IH.
  pose proof (pool_step_ok l q Hq Hl) as Hs. by rewrite He in Hs.
Qed.
End pool_steps.
