(* ===== verification/PoolTasks.v ===== *)
(** * The tasks of the pool of threads

    What becomes of a task, from [input] to the thread that processes it; and
    what [exit] waits for. *)

From S2P Require Import Prelude ThreadPool PoolInvariant.

(** ** A thread by itself *)

Section alone.
Context {INPUT OUTPUT_DATA : Type}.
Abbreviation object := (@object INPUT OUTPUT_DATA).
Abbreviation pool := (@pool INPUT OUTPUT_DATA).
Implicit Types (o : object) (p : pool) (l : @label INPUT OUTPUT_DATA).
Context (work : INPUT -> OUTPUT_DATA).

(** What [process] returns for the task a thread has. *)
Definition worked o : option OUTPUT_DATA := head (work <$> m_queue o).

(** It has come to its end: it sleeps over an empty queue, or it has left. *)
Definition settled o : Prop :=
  thread o = at_wait /\ m_running o = true /\ m_queue o = [] /\ processed o = accepted o \/
  thread o = thread_ended /\ m_running o = false /\ m_exited o = true.

(** How far it is from there. *)
Definition rank (t : @thread_at OUTPUT_DATA) : nat :=
  match t with
  | no_thread => 0
  | at_running => 40 | at_exited => 39 | at_started => 38 | at_lock | at_woken => 37
  | at_empty => 30 | at_wait => 0 | at_while => 29 | at_front => 28 | at_process => 27
  | at_stop _ => 26 | at_spin _ => 25 | at_try _ => 24 | at_owned _ => 23 | at_output _ => 22
  | at_done => 21 | at_relock => 20 | at_pop => 19
  | at_leave => 10 | at_notify => 9 | at_unlock => 8 | thread_ended => 0
  end.
Definition distance o : nat := 20 * length (m_queue o) + rank (thread o).

#[local] Arguments Nat.mul : simpl never.

(** Its next step, when no one else has the mutexes it needs. *)
Lemma thread_advances i stop out v o :
  object_ok v o -> view_holds v = false -> will_notify v = false -> thread o <> no_thread ->
  (thread_outputs (thread o) = true <-> out = Some i) -> out = None \/ out = Some i ->
  settled o \/
  exists o' out' e, thread_step i stop (worked o) out o = to (o', out', e) /\
    (distance o' < distance o)%nat /\ thread o' <> no_thread /\
    (out' = None \/ out' = Some i) /\ accepted o' = accepted o /\
    (thread_starting (thread o) = false -> m_running o' = m_running o).
Proof.
  intros [Hmutex Hexcl Hstarted Hseen Hlock Htasks Hbusy Hfront Hasleep Hnone Hstart Hleave
    Hexited] Hh Hw Hn Hiff Hout. rewrite Hh in *.
  destruct o as [run rm rl ex q qm t acc pr]. unfold pending, settled, distance, worked in *.
  cbn [thread m_running m_runningMutex m_runningLock m_exited m_queue m_queueMutex accepted processed] in *.
  destruct t, q as [|x q]; unfold thread_step, thread_locks; cbn in *; try done.
  all: repeat case_match; simplify_eq; try done.
  all: try (exfalso; by apply Hbusy).
  all: try (right; do 3 eexists; split; [reflexivity|]; cbn; split_and!; done || lia || auto).
  all: try (left; right; by auto).
  - destruct (Hasleep eq_refl Hw) as [-> _]. left. left. by rewrite app_nil_r.
  - by destruct (Hasleep eq_refl Hw).
  - exfalso. destruct Hout as [?|Hout]; [done|]. by apply Hiff in Hout.
Qed.

(** It gets there. *)
Definition alone_step i stop (c c' : object * option nat) : Prop :=
  exists e, thread_step i stop (worked c.1) c.2 c.1 = to (c', e).

Lemma thread_settles i stop v n o out :
  (distance o < n)%nat -> object_ok v o -> view_holds v = false -> will_notify v = false ->
  thread o <> no_thread ->
  (thread_outputs (thread o) = true <-> out = Some i) -> out = None \/ out = Some i ->
  exists o' out', rtc (alone_step i stop) (o, out) (o', out') /\ settled o' /\
    accepted o' = accepted o /\
    (thread_starting (thread o) = false -> m_running o' = m_running o).
Proof.
  intros Hd Hok Hh Hw Ht Hiff Hout. revert o out Hd Hok Ht Hiff Hout.
  induction n as [|n IH]; intros o out Hd Hok Ht Hiff Hout; [lia|].
  destruct (thread_advances i stop out v o Hok Hh Hw Ht Hiff Hout)
    as [Hs|(o1 & out1 & e & He & Hd1 & Ht1 & Hout1 & Ha1 & Hr1)].
  { exists o, out. split; [apply rtc_refl|auto]. }
  pose proof (thread_step_ok i stop (worked o) out v o Hok) as Hok1.
  pose proof (thread_step_frame i stop (worked o) out o Hiff) as Hf1.
  rewrite He in Hok1, Hf1. destruct Hf1 as (Hs1 & _ & _ & Hiff1 & _).
  destruct (IH o1 out1) as (o' & out' & Hrtc & Hset & Ha & Hr); try done; [lia|].
  exists o', out'. split; [|split; [done|split; [congruence|]]].
  - eapply rtc_l; [|exact Hrtc]. by exists e.
  - intros Hst. rewrite Hr, Hr1; auto.
Qed.

(** The schedule in which only the thread [i] runs. *)
Definition only_thread i l : Prop := exists result, l = l_thread i result.

Lemma alone_runs i p o out o' out' :
  m_objects p !! i = Some o -> m_taskOutputMutex p = out ->
  rtc (alone_step i (m_stop p)) (o, out) (o', out') ->
  exists ls p', Forall (only_thread i) ls /\ run_schedule ls p = Some p' /\
    m_objects p' !! i = Some o'.
Proof.
  intros Ho Hout Hr. remember (o, out) as c eqn:Hc. remember (o', out') as c' eqn:Hc'.
  revert p o out Ho Hout Hc Hr Hc'. 
  intros p o out Ho Hout Hc Hr Hc'. remember (m_stop p) as stop eqn:Hstop.
  revert p o out Ho Hout Hc Hstop. induction Hr as [c|c c1 c2 [e He] Hr IH];
    intros p o out Ho Hout -> Hstop.
  { injection Hc' as <- <-. by exists [], p. }
  destruct c1 as [o1 out1]. cbn in He.
  set (p1 := notified i e (set_output out1 (match e with has_output r => [(i, r)] | _ => [] end)
    (set_m_objects (<[i := o1]> (m_objects p)) p))).
  assert (m_objects p1 = <[i := o1]> (m_objects p) /\ m_taskOutputMutex p1 = out1 /\
    m_stop p1 = m_stop p) as (H1 & H2 & H3).
  { unfold p1, notified. destruct e; try done. cbn. by repeat case_match. }
  destruct (IH Hc' p1 o1 out1) as (ls & p' & Hls & Hrun & Ho'); try congruence.
  { rewrite H1. apply list_lookup_insert_eq. by eapply lookup_lt_Some. }
  exists (l_thread i (worked o) :: ls), p'. split; [constructor; [by eexists|done]|].
  split; [|done]. cbn [run_schedule pool_step]. rewrite Ho. rewrite <- Hstop, Hout, He. exact Hrun.
Qed.
End alone.

(** ** One task *)

Section input.
Context {INPUT OUTPUT_DATA : Type}.
Abbreviation object := (@object INPUT OUTPUT_DATA).
Abbreviation pool := (@pool INPUT OUTPUT_DATA).
Implicit Types (o : object) (p : pool) (l : @label INPUT OUTPUT_DATA).

(** Where the thread of the program has [m_taskInputMutex]. *)
Definition input_held (c : @caller_at INPUT) : bool :=
  match c with
  | at_push_running _ | at_push_lock _ | at_push _ | at_push_unlock _ | at_push_notify
  | at_input_unlock _ => true
  | _ => false
  end.

(** What has started runs until [exit]. *)
Definition all_running p : Prop :=
  m_stop p = false -> forall i o, m_objects p !! i = Some o ->
  thread_starting (thread o) = false -> m_running o = true.

Lemma on_object_inv i p f (q : pool) :
  on_object i p f = to q ->
  exists o o' c, m_objects p !! Z.to_nat i = Some o /\ f o = to (o', c) /\
    q = set_caller c (with_object i o' p).
Proof.
  unfold on_object, object_at. destruct (m_objects p !! Z.to_nat i) as [o|]; [|done].
  destruct (f o) as [[o' c]| |] eqn:Hf; [|done..]. intros [= <-]. by exists o, o', c.
Qed.

Ltac caller_cases He :=
  unfold constructed in He; repeat case_match; try discriminate He;
  try (apply on_object_inv in He as (o & o' & c & Ho & Hf & ->); unfold caller_locks in Hf;
       repeat case_match); simplify_eq.

Lemma input_mutex_step l p p' :
  pool_step l p = to p' -> m_taskInputMutex p = input_held (caller p) ->
  m_taskInputMutex p' = input_held (caller p').
Proof.
  intros He Hm. destruct l as [i result|i|elapsed| |m]; cbn [pool_step] in He.
  - destruct (m_objects p !! i) as [o|]; [|done].
    destruct (thread_step _ _ _ _ o) as [[[o' out] e]| |]; try done. injection He as <-.
    unfold notified. destruct e; try done. cbn [caller set_output set_m_objects].
    destruct (caller p) eqn:Hc; cbn; rewrite ?Hc; try done. by case_match; cbn; rewrite ?Hc.
  - repeat case_match; simplify_eq; done.
  - unfold caller_step in He. destruct (caller p) eqn:Hc; try discriminate He.
    all: caller_cases He; cbn in *; done.
  - destruct (caller p) eqn:Hc; try done. by simplify_eq.
  - destruct (caller p) eqn:Hc; try done. simplify_eq. destruct m; cbn; try case_match; done.
Qed.

Lemma thread_started_running i stop result out v o :
  object_ok v o ->
  match thread_step i stop result out o with
  | to (o', _, _) => (thread_starting (thread o) = false -> m_running o = true) ->
      thread_starting (thread o') = false -> m_running o' = true
  | _ => True
  end.
Proof.
  intros [Hmutex Hexcl Hstarted Hseen Hlock Htasks Hbusy Hfront Hasleep Hnone Hstart Hleave
    Hexited].
  destruct o as [run rm rl ex q qm t acc pr].
  cbn [thread m_running m_runningMutex m_runningLock m_exited m_queue m_queueMutex] in *.
  destruct t; unfold thread_step, thread_locks; cbn in *; repeat case_match; simplify_eq; try done.
  all: cbn; try done; auto. all: intros _ _; destruct run; [done|]; by destruct Hstart.
Qed.

Lemma running_with c i o' p :
  all_running p ->
  (m_stop p = false -> thread_starting (thread o') = false -> m_running o' = true) ->
  all_running (set_caller c (with_object i o' p)).
Proof.
  intros Ha Ho Hs j oj. cbn.
  intros [(<- & <- & _)|(Hj & Hoj)]%list_lookup_insert_Some; [by apply Ho|exact (Ha Hs j oj Hoj)].
Qed.

Lemma notify_starting o : thread_starting (thread (notify_queue o)) = thread_starting (thread o).
Proof. by destruct (notify_thread o) as [->|[-> ->]]. Qed.

Lemma all_running_step l p p' :
  pool_ok p -> pool_step l p = to p' -> all_running p -> all_running p'.
Proof.
  intros Hp He Ha. destruct l as [i result|i|elapsed| |m]; cbn [pool_step] in He.
  - destruct (m_objects p !! i) as [o|] eqn:Ho; [|done].
    destruct (po_object p Hp i o Ho) as [Hok _].
    pose proof (thread_step_frame i (m_stop p) result _ o (po_output p Hp i o Ho)) as Hf.
    pose proof (thread_started_running i (m_stop p) result (m_taskOutputMutex p) _ o Hok) as Hsr.
    destruct (thread_step _ _ _ _ o) as [[[o1 out] e]| |] eqn:Hs; try done. injection He as <-.
    assert (all_running (set_output out (match e with has_output r => [(i, r)] | _ => [] end)
      (set_m_objects (<[i:=o1]> (m_objects p)) p))) as H; [|by unfold notified; repeat case_match].
    intros Hstop j oj. cbn. intros [(-> & -> & _)|(Hj & Hoj)]%list_lookup_insert_Some;
      [apply Hsr, (Ha Hstop _ _ Ho)|exact (Ha Hstop j oj Hoj)].
  - repeat case_match; simplify_eq. intros Hstop j oj. cbn.
    intros [(-> & <- & _)|(Hj & Hoj)]%list_lookup_insert_Some; [|exact (Ha Hstop j oj Hoj)].
    intros _. cbn. eapply Ha; [done..|]. match goal with H : thread _ = _ |- _ => by rewrite H end.
  - pose proof (po_caller p Hp) as Hcaller. unfold caller_step, caller_ok in *.
    destruct (caller p) eqn:Hc; try discriminate He.
    all: caller_cases He; try exact Ha; try (apply running_with; [done|]; cbn; try done; eauto).
    all: try (rewrite notify_running, notify_starting; eauto).
    + intros Hs. discriminate Hs.
    + intros. destruct Hcaller as (_ & ? & _). congruence.
  - repeat case_match; simplify_eq; exact Ha.
  - repeat case_match; simplify_eq; exact Ha.
Qed.

Lemma reachable_input p :
  pool_reachable p -> m_taskInputMutex p = input_held (caller p) /\ all_running p.
Proof.
  intros (n & m & H1 & H2 & Hr).
  enough (forall q q', rtc schedule_step q q' -> pool_ok q ->
    m_taskInputMutex q = input_held (caller q) /\ all_running q ->
    m_taskInputMutex q' = input_held (caller q') /\ all_running q') as H.
  { apply (H _ _ Hr); [apply new_pool_ok; lia|]. split; [done|].
    intros _ i o [-> _]%lookup_replicate. done. }
  induction 1 as [|q q1 q2 [l Hl He] _ IH]; [done|]. intros Hq [Hm Ha].
  pose proof (pool_step_ok l q Hq Hl) as Hs. rewrite He in Hs. apply IH; [done|].
  split; [by eapply input_mutex_step|exact (all_running_step l q q1 Hq He Ha)].
Qed.

(** What [push_back] makes of an object. *)
Definition pushed (x : INPUT) o : object :=
  notify_queue (add_accepted x (set_queue (m_queue o ++ [x]) o)).

Lemma run_next l ls p p' :
  pool_step l p = to p' -> run_schedule (l :: ls) p = run_schedule ls p'.
Proof. intros H. cbn. by rewrite H. Qed.

Lemma on_object_runs i p f o o' c :
  m_objects p !! Z.to_nat i = Some o -> f o = to (o', c) ->
  on_object i p f = to (set_caller c (with_object i o' p)).
Proof. intros Ho Hf. unfold on_object, object_at. by rewrite Ho, Hf. Qed.

(** C28. Tasks are handed out in turn.  Between two calls, and when the thread
    of the object has not its mutex, [input] appends the task to the queue of
    the object whose turn it is, wakes its thread if it sleeps, and gives the
    turn to the next of the active objects, the first after the last. *)
Theorem input_in_turn x p r o (Hr : pool_reachable p) (Hc : caller p = idle r)
    (Hs : m_stop p = false) (Ho : object_at (m_currentThread p) p = Some o)
    (Hm : thread_holds (thread o) = false) :
  exists p', run_schedule (l_call (call_input x) :: replicate 8 (l_caller 0)) p = Some p' /\
    caller p' = idle (Some true) /\
    m_objects p' = <[Z.to_nat (m_currentThread p) := pushed x o]> (m_objects p) /\
    m_currentThread p' = (m_currentThread p + 1) mod m_totalActive p.
Proof.
  destruct (reachable_input p Hr) as [Hin Ha]. apply reachable_pool_ok in Hr.
  pose proof (po_caller p Hr) as Hcaller. unfold caller_ok in Hcaller. rewrite Hc in Hcaller, Hin.
  assert (in_use p) as Huse by (destruct Hcaller as [?|(_ & ? & _)]; congruence).
  unfold object_at in Ho. destruct (po_object p Hr _ o Ho) as [Hok [Hidx _]].
  assert (m_running o = true) as Hrun.
  { eapply Ha; [done..|]. apply Hidx. unfold started_to. rewrite Hc. unfold in_use in Huse. lia. }
  pose proof (oo_mutex _ _ Hok) as Hmutex. rewrite Hm in Hmutex.
  unfold view_of in Hmutex. rewrite Hc in Hmutex. cbn in Hmutex.
  set (cur := m_currentThread p) in *. set (i := Z.to_nat cur) in *.
  assert (i < length (m_objects p))%nat as Hi by (by eapply lookup_lt_Some).
  cbn [replicate].
  erewrite run_next by (cbn [pool_step]; rewrite Hc; reflexivity).
  erewrite run_next by (cbn; rewrite Hin; reflexivity).
  erewrite run_next by (apply (on_object_runs _ _ _ o); [exact Ho|rewrite Hrun; reflexivity]).
  erewrite run_next by (eapply on_object_runs; [by apply list_lookup_insert_eq|];
    unfold caller_locks; rewrite Hmutex; reflexivity).
  do 2 (erewrite run_next by (eapply on_object_runs;
    [cbn; rewrite ?list_insert_insert_eq; by apply list_lookup_insert_eq|reflexivity])).
  cbn [m_queue set_queueMutex].
  assert (m_queue o <> [] -> thread o <> at_wait) as Hasleep.
  { intros Hq Ht. pose proof (oo_asleep _ _ Hok Ht) as H. unfold view_of in H. rewrite Hc in H.
    by destruct (H eq_refl). }
  assert (wrap64 (cur + 1) = cur + 1) as Hwrap.
  { pose proof (po_size p Hr). unfold in_use in Huse. apply wrap64_small. unfold cur. lia. }
  assert ((if cur + 1 =? m_totalActive p then 0 else cur + 1) = (cur + 1) mod m_totalActive p) as Hmod.
  { unfold in_use in Huse. destruct (Z.eqb_spec (cur + 1) (m_totalActive p)) as [->|].
    - by rewrite Z_mod_same_full.
    - rewrite Z.mod_small; unfold cur; lia. }
  destruct (m_queue o) as [|y q] eqn:Hq.
  - erewrite run_next by (eapply on_object_runs;
      [cbn; rewrite ?list_insert_insert_eq; by apply list_lookup_insert_eq|reflexivity]).
    do 2 erewrite run_next by reflexivity. eexists. split; [reflexivity|].
    split; [done|]. split; [|cbn; fold cur; by rewrite Hwrap].
    cbn. rewrite ?list_insert_insert_eq. f_equal. unfold pushed. rewrite Hq.
    destruct o. cbn in *. by subst.
  - do 2 erewrite run_next by reflexivity. eexists. split; [reflexivity|].
    split; [done|]. split; [|cbn; fold cur; by rewrite Hwrap].
    cbn. rewrite ?list_insert_insert_eq. f_equal. unfold pushed, notify_queue. rewrite Hq.
    specialize (Hasleep ltac:(done)). destruct o as [? ? ? ? ? ? []]; cbn in *; by subst.
Qed.
End input.

(** ** Properties *)

Section properties.
Context {INPUT OUTPUT_DATA : Type}.
Abbreviation object := (@object INPUT OUTPUT_DATA).
Abbreviation pool := (@pool INPUT OUTPUT_DATA).
Implicit Types (o : object) (p : pool) (l : @label INPUT OUTPUT_DATA).

(** C24. The pool of threads is safe, when it is made with at least one thread
    and not more than its maximum, and used properly: the program does not shrink
    it to nothing, nor make it grow beyond a [size_t], and does neither after
    [exit] ([example_shrunk] and [example_too_many] are what happens otherwise).
    In every state of such a pool, whatever the threads do and in
    whatever order, no proper step is undefined (no object beyond the vector is used,
    no function is taken from an empty queue, no lock is given up that was not
    taken), a queue is changed by one thread at a time, and so is the output
    object. *)
Theorem pool_safe p (Hr : pool_reachable p) :
  (forall l, proper l p -> pool_step l p <> undefined) /\
  (forall i o, m_objects p !! i = Some o -> thread_holds (thread o) = true ->
     view_holds (view_of p (Z.of_nat i)) = false) /\
  (forall i j oi oj, m_objects p !! i = Some oi -> m_objects p !! j = Some oj ->
     thread_outputs (thread oi) = true -> thread_outputs (thread oj) = true -> i = j).
Proof.
  apply reachable_pool_ok in Hr. split; [|split].
  - intros l Hl He. pose proof (pool_step_ok l p Hr Hl) as H. by rewrite He in H.
  - intros i o Ho Ht. destruct (proj1 (po_object p Hr i o Ho)) as [Hmutex Hexcl Hstarted Hseen Hlock Htasks Hbusy Hfront Hasleep Hnone Hstart Hleave
    Hexited]. by rewrite Ht in Hexcl.
  - intros i j oi oj Hi Hj H1 H2. apply (po_output p Hr i oi Hi) in H1.
    apply (po_output p Hr j oj Hj) in H2. congruence.
Qed.

(** C25. Every task that was accepted is processed once, and in order: those
    that were processed, followed by those in the queue, are those
    [push_back] took.  (The first of the queue stays in it while its result
    is on the way out.) *)
Theorem tasks_in_order p i o (Hr : pool_reachable p) (Ho : m_objects p !! i = Some o) :
  accepted o = processed o ++
    (if thread_after (thread o) then tail (m_queue o) else m_queue o) /\
  (thread_after (thread o) = true -> m_queue o <> []).
Proof.
  apply reachable_pool_ok in Hr. destruct (proj1 (po_object p Hr i o Ho)) as [Hmutex Hexcl Hstarted Hseen Hlock Htasks Hbusy Hfront Hasleep Hnone Hstart Hleave
    Hexited]. split; [done|].
  intros H. apply Hbusy. by destruct (thread o).
Qed.

(** C26. No wakeup is lost.  A thread that sleeps has an empty queue and is
    to go on, unless the thread of the program is about to notify it. *)
Theorem no_lost_wakeup p i o (Hr : pool_reachable p) (Ho : m_objects p !! i = Some o)
    (Ht : thread o = at_wait) :
  (m_running o = true /\ m_queue o = [] /\ processed o = accepted o) \/
  match caller p with
  | at_push_unlock true | at_push_notify => m_currentThread p = Z.of_nat i
  | at_exit_unlock k _ | at_exit_notify k _ => k = Z.of_nat i
  | _ => False
  end.
Proof.
  apply reachable_pool_ok in Hr. destruct (proj1 (po_object p Hr i o Ho)) as [Hmutex Hexcl Hstarted Hseen Hlock Htasks Hbusy Hfront Hasleep Hnone Hstart Hleave
    Hexited].
  unfold pending in Htasks. rewrite Ht in Htasks. cbn in Htasks.
  destruct (will_notify (view_of p (Z.of_nat i))) eqn:Hw.
  - right. unfold view_of in Hw. destruct (caller p); try done; repeat case_match; try done; lia.
  - left. destruct (Hasleep Ht eq_refl) as [H1 H2]. rewrite H2, app_nil_r in Htasks.
    split; [done|]. split; [done|]. by rewrite Htasks.
Qed.

(** C27. A thread gets through.  When the thread of the program does nothing
    with its object and no other thread has the output, a thread that was
    started needs only itself to come to its end, if its tasks return: it has
    processed every task that was accepted and sleeps, or, after [exit], it
    has left its function and said so. *)
Theorem thread_finishes (work : INPUT -> OUTPUT_DATA) p i o (Hr : pool_reachable p)
    (Ho : m_objects p !! i = Some o) (Hs : thread_starting (thread o) = false)
    (Hv : view_of p (Z.of_nat i) = away)
    (Hout : m_taskOutputMutex p = None \/ m_taskOutputMutex p = Some i) :
  exists ls p' o', Forall (only_thread i) ls /\ run_schedule ls p = Some p' /\
    m_objects p' !! i = Some o' /\
    if m_running o then thread o' = at_wait /\ m_queue o' = [] /\ processed o' = accepted o
    else thread o' = thread_ended /\ m_exited o' = true.
Proof.
  apply reachable_pool_ok in Hr. destruct (po_object p Hr i o Ho) as [Hok _]. rewrite Hv in Hok.
  destruct (thread_settles work i (m_stop p) away (S (distance o)) o (m_taskOutputMutex p))
    as (o' & out' & Hrtc & Hset & Ha & Hrun); try done; [lia|by intros Hn; rewrite Hn in Hs| |].
  { by apply po_output. }
  destruct (alone_runs work i p o _ o' out' Ho eq_refl Hrtc) as (ls & p' & Hls & Hsched & Ho').
  exists ls, p', o'. split; [done|]. split; [done|]. split; [done|]. specialize (Hrun Hs).
  destruct Hset as [(H1 & H2 & H3 & H4)|(H1 & H2 & H3)]; rewrite <- Hrun, H2; [|done].
  split; [done|]. split; [done|]. congruence.
Qed.

(** C29. A notification is lost.  [wait_on_exit] looks at [m_exited] before it
    takes the mutex and waits without looking again: when the thread leaves in
    between, nothing but the end of the time ends the wait, and [exit] waits
    for a thread that has ended. *)
Definition no_size_change l : bool :=
  match l with l_call (call_grow _) | l_call (call_shrink _) => false | _ => true end.

Lemma run_reachable ls p p' :
  pool_reachable p -> forallb no_size_change ls = true -> run_schedule ls p = Some p' ->
  pool_reachable p'.
Proof.
  intros (n & m & H1 & H2 & Hr) Hls Hrun. exists n, m. split; [done|]. split; [done|].
  etrans; [exact Hr|]. clear Hr. revert p Hls Hrun.
  induction ls as [|l ls IH]; intros p Hls Hrun; [by injection Hrun as ->|].
  cbn in Hls. apply andb_prop in Hls as [Hl Hls]. cbn in Hrun.
  destruct (pool_step l p) as [p1| |] eqn:He; try done; [|by apply IH].
  eapply rtc_l; [|by apply IH]. exists l; [|done]. by destruct l as [| | | |[]].
Qed.

Definition missed_schedule (timeout : Z) : list (@label INPUT OUTPUT_DATA) :=
  replicate 3 (l_caller 0) ++ replicate 3 (l_thread 0 None) ++ replicate 5 (l_caller 0) ++
  replicate 2 (l_thread 0 None) ++ [l_call (call_exit timeout)] ++ replicate 8 (l_caller 0) ++
  replicate 6 (l_thread 0 None) ++ replicate 2 (l_caller 0).

Theorem exit_misses_thread (timeout : Z) :
  exists p o, pool_reachable p /\ caller p = at_timed_wait 0 timeout /\
    m_objects p !! 0%nat = Some o /\ thread o = thread_ended /\ m_exited o = true /\
    forall ls p', run_schedule ls p = Some p' -> l_timeout ∉ ls ->
      caller p' = at_timed_wait 0 timeout.
Proof.
  destruct (run_schedule (missed_schedule timeout) (new_pool 1 1)) as [p|] eqn:Hrun;
    [|vm_compute in Hrun; discriminate].
  assert (pool_reachable p) as Hr.
  { apply (run_reachable (missed_schedule timeout) (new_pool 1 1)); [|reflexivity|exact Hrun].
    exists 1, 1. split; [lia|]. split; [lia|]. apply rtc_refl. }
  vm_compute in Hrun. injection Hrun as <-.
  eexists _, _. split; [exact Hr|]. do 4 (split; [reflexivity|]). clear Hr.
  intros ls. induction ls as [|l ls IH]; intros p' Hls Hin; [by injection Hls as <-|].
  apply not_elem_of_cons in Hin as [Hl Hin]. apply IH; [|done]. cbn in Hls.
  by destruct l as [[|i] result|[|i]|elapsed| |m].
Qed.
End properties.

(** ** A pool of two threads *)

Definition example_pool_start : list (@label nat nat) :=
  concat (replicate 20 [l_caller 0; l_thread 0 None; l_thread 1 None]).

(** It has started_to, and both threads sleep. *)
Definition example_pool : @pool nat nat :=
  Eval cbv in default (new_pool 2 2) (run_schedule example_pool_start (new_pool 2 2)).

Lemma example_pool_reachable : pool_reachable example_pool.
Proof.
  apply (run_reachable example_pool_start (new_pool 2 2)); [|reflexivity|vm_compute; reflexivity].
  exists 2, 2. split; [lia|]. split; [lia|]. apply rtc_refl.
Qed.

(** It has a task, which its thread has not seen yet. *)
Definition example_given : @pool nat nat :=
  Eval cbv in default (new_pool 2 2)
    (run_schedule (l_call (call_input 7%nat) :: replicate 8 (l_caller 0)) example_pool).

Lemma example_given_reachable : pool_reachable example_given.
Proof.
  apply (run_reachable (l_call (call_input 7%nat) :: replicate 8 (l_caller 0)) example_pool);
    [apply example_pool_reachable|reflexivity|vm_compute; reflexivity].
Qed.

Lemma pool_safe_witness : pool_step (l_call (call_shrink 1)) example_pool <> undefined.
Proof.
  apply (pool_safe example_pool example_pool_reachable). split; [lia|]. by split.
Defined.

Lemma tasks_in_order_witness :
  exists o, m_objects example_given !! 0%nat = Some o /\ accepted o = [7%nat] /\
    accepted o = processed o ++ m_queue o.
Proof.
  eexists. split; [reflexivity|]. split; [reflexivity|].
  exact (proj1 (tasks_in_order example_given 0 _ example_given_reachable eq_refl)).
Defined.

Lemma no_lost_wakeup_witness :
  exists o, m_objects example_pool !! 1%nat = Some o /\ m_running o = true /\ m_queue o = [].
Proof.
  eexists. split; [reflexivity|].
  destruct (no_lost_wakeup example_pool 1 _ example_pool_reachable eq_refl eq_refl)
    as [(H1 & H2 & _)|[]].
  split; [exact H1|exact H2].
Defined.

Lemma thread_finishes_witness :
  exists ls p' o', Forall (only_thread 0) ls /\ run_schedule ls example_given = Some p' /\
    m_objects p' !! 0%nat = Some o' /\ thread o' = at_wait /\ m_queue o' = [] /\
    processed o' = [7%nat].
Proof.
  exact (thread_finishes S example_given 0 _ example_given_reachable eq_refl eq_refl eq_refl
    (or_introl eq_refl)).
Defined.

Lemma input_in_turn_witness :
  exists p', run_schedule (l_call (call_input 8%nat) :: replicate 8 (l_caller 0)) example_given =
      Some p' /\ caller p' = idle (Some true) /\ m_currentThread p' = 0.
Proof.
  destruct (input_in_turn 8%nat example_given _ _ example_given_reachable eq_refl eq_refl eq_refl
    eq_refl) as (p' & H1 & H2 & _ & H4).
  exists p'. split; [exact H1|]. split; [exact H2|exact H4].
Defined.

(** A pool that has shrunk to nothing hands the second task to an object
    beyond the one it has. *)
Lemma example_shrunk :
  run_schedule (concat (replicate 12 [l_caller 0; l_thread 0 None]) ++
      l_call (call_shrink 1) :: replicate 4 (l_caller 0) ++
      l_call (call_input 7%nat) :: replicate 8 (l_caller 0) ++
      l_call (call_input 8%nat) :: replicate 8 (l_caller 0))
    (new_pool (INPUT := nat) (OUTPUT_DATA := nat) 1 1) = None.
Proof. vm_compute. reflexivity. Qed.

(** One that starts with more threads than it may have does too. *)
Lemma example_too_many :
  run_schedule (concat (replicate 12 [l_caller 0; l_thread 0 None]) ++
      l_call (call_input 7%nat) :: replicate 8 (l_caller 0) ++
      l_call (call_input 8%nat) :: replicate 8 (l_caller 0))
    (new_pool (INPUT := nat) (OUTPUT_DATA := nat) 2 1) = None.
Proof. vm_compute. reflexivity. Qed.
